(* ===== verification/_CoqProject ===== *)
-Q . S2P
Prelude.v
Text.v
Errors.v
Ident.v
Lifecycle.v
Checkpoint.v
Json.v
Workload.v
Compression.v
Streams.v
Policy.v
Integrations.v
Compat.v
Capture.v
Restore.v
Lineage.v
Failpoints.v
Tables.v
Persist.v
Schema.v
StoreFacts.v
Fencing.v
Rows.v
Commit.v
World.v
Manifest.v
Serial.v
Messages.v
Recovery.v
RecoveryFacts.v
Attempts.v
Footprint.v
Lifetime.v
Coordinator.v
Steps.v
Maintenance.v
Dispatch.v
Frame.v
Fs.v
Integrity.v
Storage.v
Providers.v
FsProvider.v
ProcessProvider.v
Node.v
NodeFacts.v
Stored.v
FsUndo.v
FsRollback.v
FsCapture.v
Transport.v
Network.v
Payload.v
Scenario.v
NodeSafety.v
Delivery.v
CaptureFacts.v
EndToEnd.v
RestoreFacts.v
Authority.v
NodeStart.v
Cli.v
CliFacts.v
CoordinatorProcess.v
Wire.v
