(* ===== verification/Prelude.v ===== *)
(** Checkpoint Fabric: a verification development of [src/src/].

    The program.  Checkpoint Fabric captures the state of workloads, stores it durably on
    nodes and restores it elsewhere.  A coordinator process owns a SQLite database (the
    store); node processes own a directory each, with the application's capture providers;
    a command line talks to the coordinator.  They exchange frames over TCP.  Authority
    over a workload is an execution epoch with a fence token, kept in the store.

    Parts and files.  Every definition keeps the name of the source; a file of the
    development opens with what it holds.

    - Shared: [Prelude] (machine integers, record update, lemmas of lists and maps),
      [Text] (functions of [str]), [Errors] ([errors.rs]; the error type, [FabricResult]
      and the monad [M W] with [wp], [ensures] and [keeps]), [Ident] ([id.rs]),
      [Failpoints] ([failpoints.rs]), [Json] (the JSON values the coordinator edits).
    - Data and decisions, pure functions: [Lifecycle] ([lifecycle.rs]), [Checkpoint]
      ([checkpoint.rs], [frontier.rs], [sideeffect.rs]), [Workload] ([workload.rs]),
      [Policy] ([policy.rs]), [Compat] ([compatibility.rs]), [Capture] ([capture.rs]),
      [Restore] ([restore.rs], [migration.rs]), [Lineage] ([lineage.rs]), [Compression]
      and [Streams] ([compression.rs]), [Manifest] ([manifest.rs], [integrity.rs]),
      [Integrations] ([integrations.rs]).
    - The store ([persistence.rs], [audit.rs]): [Tables] is its state, [Persist] one
      definition per method, [Rows] the columns below the rows.  [Schema], [StoreFacts],
      [Fencing] and [Commit] hold its invariant and the theorems of its statements.
    - The coordinator ([coordinator.rs], [recovery.rs]): [World] (the shared store, other
      threads, stops), [Messages] (what is asked of nodes), [Recovery], [Coordinator]
      (capture, restore, replication), [Maintenance] (the other operations), [Dispatch]
      (requests to operations), [CoordinatorProcess] (opening, server, monitor, end).
      [RecoveryFacts], [Attempts], [Footprint], [Lifetime], [Steps], [CaptureFacts],
      [RestoreFacts] and [Authority] are its theorems and the rules they share.
    - The wire: [Frame] and [Payload] ([protocol.rs]: frames, and the records in them),
      [Transport] ([transport.rs]), [Network] (a client and a server of [Transport] at the
      two ends of a network).
    - A node ([node.rs], [storage.rs], [providers.rs]): [Fs] (the disk), [Integrity]
      ([integrity.rs] on files), [Storage], [Providers], [FsProvider], [ProcessProvider],
      [Node], [NodeStart].  [NodeFacts], [Stored], [FsUndo], [FsRollback], [FsCapture],
      [NodeSafety] and [Delivery] (from the providers of one node to those of another) are
      its theorems and their lemmas.
    - The command line ([cli.rs], [cli_impl.rs], [main.rs]): [Cli], [CliFacts].
    - The parts together: [EndToEnd] (a capture and a restore from the coordinator to the
      disk and the providers of a node), [Wire] (a command over the network to the
      coordinator, the servers on bytes).
    - For the witnesses: [Scenario], a small concrete cluster, and [Serial], concrete
      encodings with the law that they are read back.

    State, errors, concurrency, stops.  A statement of the store is a function from a store
    to an error or an answer and a new store; an error is the roll-back of its transaction.
    A handler runs in [M World] or [M Disk]: before each of its accesses the environment
    may change the shared state in any way ([env_others]: other threads) and may stop the
    process ([env_crash]).  A node
    that is asked something may answer anything ([NodeRpc]), and so may the peer a node
    replicates from.  On the disk each call takes effect, fails, perhaps in part, or is cut
    short by a stop ([Fs] says what is then left).  [keeps] says that a property
    survives a handler among other threads that keep it ([Stable]), wherever it stops;
    [wp] gives every outcome of a handler that runs without other threads, the stop
    included; [ensures] what holds when a handler returns, [returns] that it does.

    What the theorems show.
    - Fencing: a claim succeeds for the current epoch and a free or own claim only, fencing
      is a compare-and-set, and every operation of the coordinator, interleaved with any
      others and stopped anywhere, keeps single claims and monotone epochs ([Fencing],
      [Authority]).
    - Captures and restores are all or nothing: the two commits are atomic and do what
      they say ([Commit]); a request is refused, fails and leaves no trace outside its own
      rows, or commits once ([CaptureFacts], [RestoreFacts]); the recovery settles what a
      stop left open as the journal says, and always ends ([RecoveryFacts]).
    - Answers are backed: when the coordinator answers a capture, a node whose providers
      stay out of its storage, and whose files have different names, holds a checkpoint
      that verifies against the digest of the row and is read back; when it
      answers a restore, the providers of the target were handed the very bytes that the
      providers of the capturing node gave, unless SHA-256 is broken ([EndToEnd]).
    - The store keeps its schema, reservations exclude each other, epochs and node
      identities are fenced ([Schema], [StoreFacts]), and its rows are the columns of the
      database ([Rows]).
    - Nodes: committed checkpoints are immutable, promotion refines an atomic publication,
      what was replicated verifies, transfers are bounded, a lost heartbeat is final
      ([NodeSafety]); a node starts or gives up in bounded time
      ([NodeStart]).
    - Providers: a restore of files puts the payload in place and is undone from its
      journal after a stop, or a failure once its plan stands; a captured directory of
      portable names restores on a disk that answers ([FsRollback], [FsCapture]); process metadata is redacted ([ProcessProvider]).
    - The wire: frames round-trip, decoding is canonical and bounded, a served connection
      refines a sequential server for any pieces of the stream ([Frame], [Transport]); over
      any network a request, and so a command, is executed at most once, and exactly once
      when its answer comes ([Network], [Wire]).
    - Decisions: the verdict of compatibility is the maximum of the independent checks,
      derived classes never overstate, chains are validated exactly, sealed manifests are
      anchored, streams decompress to their payload ([Compat], [Capture], [Lineage],
      [Manifest], [Streams]).
    - The command line: a command is one request to the coordinator, payload for payload
      ([CliFacts]); the data
      directory has one coordinator ([CoordinatorProcess]).
    Where the code does not do what it says, the theorem states what it does
    ([CliFacts.pin_pins_nothing], [NodeSafety.sidecar_names_collide]).

    Fuel and bounds.
    - [chain_loop] and [ancestor_loop] (lineage): a fuel that suffices is proved, from the
      depth limit and from the number of checkpoints.
    - [walk] (capture of files): the number of entries of the disk, proved to be enough.
    - [fetch_chunks] (replication) runs on the declared size of the component; the bound
      is the theorem [transfer_bounded].
    - [migrate] calls itself on a checkpoint it has just captured.  Its fuel is the depth of
      that recursion; to run out of it is the stop of the process by its stack, and the
      theorems hold for every fuel.
    - [register_until] (node start): 61 rounds, proved to be enough for the deadline.
    - [serve_connection] runs on the reads the socket will yield; the heartbeat thread, the
      monitor and the wait of the two daemons run for a given number of rounds, and the
      theorems hold for every number.
    - Integers are [Z] with the wrap, saturation or refusal of the source written out;
      what SQLite cannot store, an integer above [i64::MAX], is an error of the statement.

    Interfaces of code outside the source: the hexadecimal codec, SHA-256, CRC-32C, zstd
    (bytes and streams), the JSON codecs of serde, random identities, the clocks, sockets,
    the operating system's calls.  The laws the code relies on are classes with a concrete
    instance for the witnesses.

    Not modelled: the inside of those libraries and of SQLite (a statement is what SQL says
    it does), and so the text of the JSON of a payload (derived by serde; its law is that
    a value is read back); [clap]'s parsing of arguments and the printing of JSON to the
    terminal; the spawning and joining of threads (the loops they run are modelled);
    several requests to a node at the same time: its handlers lock the state of the node
    in short sections between calls of the disk, and are modelled one after another, while
    those of the coordinator run among other threads; socket options, timeouts of a read
    and the addresses a socket reports; symbolic links; the text of diagnostics, which
    stays the format string of the source where no code reads it; [free_bytes],
    [policy_key] and [read_frame_timeout], which nothing calls; derived traits; tests,
    benches and examples. *)
From stdpp Require Export base tactics option list gmap sets strings pretty sorting.
From Stdlib Require Export ZArith Lia.

Declare Scope fabric_scope.
Delimit Scope fabric_scope with fabric.
#[global] Open Scope string_scope.
#[global] Open Scope list_scope.
#[global] Open Scope Z_scope.
#[global] Open Scope fabric_scope.

(** * Machine integers

    A Rust [u64]/[u32] is a [Z]; the operations the source uses are written
    with the bound they have there. *)

Definition u64_max : Z := 2 ^ 64 - 1.
Definition u32_max : Z := 2 ^ 32 - 1.
Definition i64_max : Z := 2 ^ 63 - 1.

Definition is_u64 (x : Z) : Prop := 0 <= x <= u64_max.

(** [u64::saturating_add], [u64::saturating_sub] and the wrapping [+] of a
    release build. *)
Definition saturating_add (a b : Z) : Z := Z.min u64_max (a + b).
Definition saturating_sub (a b : Z) : Z := Z.max 0 (a - b).
Definition wrapping_add (a b : Z) : Z := (a + b) mod 2 ^ 64.

(** * Record update

    [r <| f := v |>] replaces one field of a record that has a [Settable]
    instance, the eta-expansion of the record. *)

Class Settable (R : Type) := eta_of : R -> R.

Class Setter {R T : Type} (proj : R -> T) := update_field : (T -> T) -> R -> R.
#[global] Hint Mode Setter + + ! : typeclass_instances.

Ltac build_setter proj :=
  match type of proj with
  | ?R -> ?T =>
      exact (fun (f : T -> T) (r : R) =>
        ltac:(let body := constr:(eta_of r) in
              let body := eval cbv beta delta [eta_of] in body in
              let body := eval hnf in body in
              let body := eval pattern (proj r) in body in
              match body with
              | ?g (proj r) =>
                  let out := constr:(g (f (proj r))) in
                  let out := eval cbv beta in out in
                  exact out
              end))
  end.

#[global] Hint Extern 1 (Setter ?proj) => build_setter proj : typeclass_instances.

Notation "r <| f := v |>" := (update_field (proj := f) (fun _ => v) r)
  (at level 1, left associativity, f constr at level 9, v at level 99,
   format "r  <| f  :=  v |>") : fabric_scope.

(** * Generic lemmas *)

Lemma saturating_add_ge (a b : Z) : is_u64 a -> 0 <= b -> a <= saturating_add a b.
Proof. unfold saturating_add, is_u64, u64_max. lia. Qed.

Lemma saturating_add_gt (a b : Z) :
  is_u64 a -> a < u64_max -> 0 < b -> a < saturating_add a b.
Proof. unfold saturating_add, is_u64, u64_max. lia. Qed.

Lemma saturating_add_u64 (a b : Z) : is_u64 a -> 0 <= b -> is_u64 (saturating_add a b).
Proof. unfold saturating_add, is_u64, u64_max. lia. Qed.

Lemma saturating_sub_u64 (a b : Z) : is_u64 a -> 0 <= b -> is_u64 (saturating_sub a b).
Proof. unfold saturating_sub, is_u64, u64_max. lia. Qed.

Lemma wrapping_add_small (a b : Z) :
  0 <= a + b <= u64_max -> wrapping_add a b = a + b.
Proof. unfold wrapping_add, u64_max. intros H. apply Z.mod_small. lia. Qed.

Lemma wrapping_add_u64 (a b : Z) : is_u64 (wrapping_add a b).
Proof.
  unfold wrapping_add, is_u64, u64_max.
  pose proof (Z.mod_pos_bound (a + b) (2 ^ 64)). lia.
Qed.

Create HintDb fabric.
#[export] Hint Resolve saturating_add_ge saturating_add_gt saturating_add_u64
  saturating_sub_u64 wrapping_add_u64 : fabric.

(** [Some]/[None] as booleans, Rust's [is_some]/[is_none]. *)
Definition is_some {A} (o : option A) : bool := match o with Some _ => true | None => false end.
Definition is_none {A} (o : option A) : bool := negb (is_some o).

(** [o.as_deref().unwrap_or_default()] on an optional string. *)
Definition unwrap_or_default (o : option string) : string := default "" o.

Definition is_empty_list {A} (l : list A) : bool :=
  match l with [] => true | _ => false end.

(** [Iterator::find]: the first element that satisfies the predicate. *)
Definition find_first {A} (p : A -> bool) (l : list A) : option A := List.find p l.

Lemma find_first_Some {A} (p : A -> bool) (l : list A) (x : A) :
  find_first p l = Some x -> x ∈ l /\ p x = true.
Proof.
  intros H. apply List.find_some in H as [H1 H2].
  split; [by apply list_elem_of_In | done].
Qed.

Lemma find_first_None {A} (p : A -> bool) (l : list A) :
  find_first p l = None <-> (forall x, x ∈ l -> p x = false).
Proof.
  split.
  - intros H x Hx. eapply List.find_none; [exact H | by apply list_elem_of_In].
  - intros H. destruct (find_first p l) as [x |] eqn:E; [| done].
    apply find_first_Some in E as [E1 E2]. by rewrite (H x E1) in E2.
Qed.

Lemma forallb_elem_of {A} (p : A -> bool) (l : list A) :
  forallb p l = true <-> (forall x, x ∈ l -> p x = true).
Proof.
  rewrite List.forallb_forall.
  split; intros H x Hx; apply H; by apply list_elem_of_In.
Qed.

Lemma existsb_elem_of {A} (p : A -> bool) (l : list A) :
  existsb p l = true <-> (exists x, x ∈ l /\ p x = true).
Proof.
  rewrite List.existsb_exists.
  split; intros (x & Hx & Hp); exists x; split; try done; by apply list_elem_of_In.
Qed.

Lemma existsb_false {A} (p : A -> bool) (l : list A) :
  existsb p l = false <-> (forall x, x ∈ l -> p x = false).
Proof.
  rewrite <- not_true_iff_false, existsb_elem_of. split.
  - intros H x Hx. destruct (p x) eqn:E; [exfalso; eauto | done].
  - intros H (x & Hx & Hp). by rewrite (H x Hx) in Hp.
Qed.

(** An [UPDATE] of a row that is there is an insertion of the new row. *)
Lemma alter_insert_lookup {K A} `{Countable K} (f : A -> A) (m : gmap K A) (k : K) (a : A) :
  m !! k = Some a -> alter f k m = <[k := f a]> m.
Proof.
  intros Hk. apply map_eq. intros i. destruct (decide (i = k)) as [-> | Hne].
  - by rewrite lookup_alter_eq, lookup_insert_eq, Hk.
  - by rewrite lookup_alter_ne, lookup_insert_ne.
Qed.

(** * Tactics *)

(** Reads boolean tests in the context as propositions. *)
Ltac bool_facts :=
  repeat match goal with
  | H : bool_decide _ = true |- _ => apply bool_decide_eq_true_1 in H
  | H : bool_decide _ = false |- _ => apply bool_decide_eq_false_1 in H
  | H : andb _ _ = true |- _ => apply andb_true_iff in H; destruct H
  | H : orb _ _ = false |- _ => apply orb_false_iff in H; destruct H
  | H : negb _ = true |- _ => apply negb_true_iff in H
  | H : negb _ = false |- _ => apply negb_false_iff in H
  | H : (_ <? _) = true |- _ => apply Z.ltb_lt in H
  | H : (_ <? _) = false |- _ => apply Z.ltb_ge in H
  | H : (_ <=? _) = true |- _ => apply Z.leb_le in H
  | H : (_ <=? _) = false |- _ => apply Z.leb_gt in H
  | H : (_ =? _) = true |- _ => apply Z.eqb_eq in H
  | H : (_ =? _) = false |- _ => apply Z.eqb_neq in H
  end.

(** Splits the first [match] or [if] of the goal and simplifies. *)
Ltac split_match :=
  match goal with
  | |- context [match ?x with _ => _ end] => destruct x eqn:?; simplify_eq/=
  | |- context [if ?x then _ else _] => destruct x eqn:?; simplify_eq/=
  end.

(** The same for a hypothesis. *)
Ltac split_match_in H :=
  match type of H with
  | context [match ?x with _ => _ end] => destruct x eqn:?; simplify_eq/=
  | context [if ?x then _ else _] => destruct x eqn:?; simplify_eq/=
  end.

(** Evaluates the comparisons of two literal strings in the goal. *)
Ltac eval_string_tests :=
  repeat match goal with
  | |- context [bool_decide (String ?a ?x = String ?b ?y)] =>
      let v := eval vm_compute in (bool_decide (String a x = String b y)) in
      change (bool_decide (String a x = String b y)) with v
  end.
