(* ===== verification/Text.v ===== *)
(** Texts ([str], [String]) and the functions of the standard library the source uses on
    them: [split], [split_once], [trim], [parse::<u32>], [to_lowercase], and the test of
    [from_utf8].  A text is its UTF-8 bytes. *)
From S2P Require Import Prelude.
From Stdlib Require Import Strings.Ascii Strings.Byte.

(** * Definitions *)

(** [s.split(sep)], the one empty piece of an empty text included. *)
Fixpoint split_on (sep : ascii) (s : string) : list string :=
  match s with
  | EmptyString => [EmptyString]
  | String c s' =>
      if Ascii.eqb c sep then EmptyString :: split_on sep s'
      else match split_on sep s' with
           | [] => [String c EmptyString]
           | p :: ps => String c p :: ps
           end
  end.

(** [s.split_once(sep)]: around the first separator. *)
Fixpoint split_once (sep : ascii) (s : string) : option (string * string) :=
  match s with
  | EmptyString => None
  | String c s' =>
      if Ascii.eqb c sep then Some (EmptyString, s')
      else p ← split_once sep s'; Some (String c p.1, p.2)
  end.

(** ** Bytes *)

Definition byte_val (b : byte) : Z := Z.of_N (Byte.to_N b).
(** [String::from_utf8_lossy] of text that is UTF-8. *)
Definition text_of_bytes (l : list byte) : string := String.string_of_list_byte l.

(** [str::from_utf8]: the byte ranges of RFC 3629. *)
Definition in_bytes (lo hi : Z) (b : byte) : bool := (lo <=? byte_val b) && (byte_val b <=? hi).
Definition continuation (b : byte) : bool := in_bytes 0x80 0xBF b.

Fixpoint utf8_valid (l : list byte) : bool :=
  match l with
  | [] => true
  | a :: l1 =>
      if in_bytes 0 0x7F a then utf8_valid l1 else
      match l1 with
      | b :: l2 =>
          if in_bytes 0xC2 0xDF a then continuation b && utf8_valid l2 else
          match l2 with
          | c :: l3 =>
              let second := if byte_val a =? 0xE0 then in_bytes 0xA0 0xBF b
                            else if byte_val a =? 0xED then in_bytes 0x80 0x9F b else continuation b in
              if in_bytes 0xE0 0xEF a then second && continuation c && utf8_valid l3 else
              match l3 with
              | d :: l4 =>
                  let second := if byte_val a =? 0xF0 then in_bytes 0x90 0xBF b
                                else if byte_val a =? 0xF4 then in_bytes 0x80 0x8F b else continuation b in
                  in_bytes 0xF0 0xF4 a && second && continuation c && continuation d && utf8_valid l4
              | [] => false
              end
          | [] => false
          end
      | [] => false
      end
  end.

(** The characters [str::trim] removes (Unicode White_Space), by their number of bytes. *)
Definition space1 (a : Z) : bool := bool_decide (a = 32) || ((9 <=? a) && (a <=? 13)).
Definition space2 (a b : Z) : bool := (a =? 0xC2) && ((b =? 0x85) || (b =? 0xA0)).
Definition space3 (a b c : Z) : bool :=
  bool_decide ((a, b, c) ∈ [(0xE1, 0x9A, 0x80); (0xE2, 0x80, 0xA8); (0xE2, 0x80, 0xA9); (0xE2, 0x80, 0xAF);
                            (0xE2, 0x81, 0x9F); (0xE3, 0x80, 0x80)]) ||
  ((a =? 0xE2) && (b =? 0x80) && (0x80 <=? c) && (c <=? 0x8A)).

Fixpoint trim_start (l : list byte) : list byte :=
  match l with
  | [] => []
  | a :: l1 =>
      if space1 (byte_val a) then trim_start l1 else
      match l1 with
      | b :: l2 =>
          if space2 (byte_val a) (byte_val b) then trim_start l2 else
          match l2 with
          | c :: l3 => if space3 (byte_val a) (byte_val b) (byte_val c) then trim_start l3 else l
          | [] => l
          end
      | [] => l
      end
  end.

(** The same from the end, on the reversed text. *)
Fixpoint trim_end_rev (l : list byte) : list byte :=
  match l with
  | [] => []
  | a :: l1 =>
      if space1 (byte_val a) then trim_end_rev l1 else
      match l1 with
      | b :: l2 =>
          if space2 (byte_val b) (byte_val a) then trim_end_rev l2 else
          match l2 with
          | c :: l3 => if space3 (byte_val c) (byte_val b) (byte_val a) then trim_end_rev l3 else l
          | [] => l
          end
      | [] => l
      end
  end.

Definition bytes_of (s : string) : list byte := String.list_byte_of_string s.

Definition trim (s : string) : string :=
  text_of_bytes (reverse (trim_end_rev (reverse (trim_start (bytes_of s))))).

(** ** Numbers and letters *)

(** [s.parse::<u32>().ok()]: an optional [+], then digits, without overflow. *)
Fixpoint parse_digits (acc : Z) (s : string) : option Z :=
  match s with
  | EmptyString => Some acc
  | String c s' =>
      let n := Z.of_N (N_of_ascii c) in
      if (48 <=? n) && (n <=? 57) then
        let acc := 10 * acc + (n - 48) in
        if acc <=? u32_max then parse_digits acc s' else None
      else None
  end.
Definition parse_u32 (s : string) : option Z :=
  let digits := match s with String "+" s' => s' | _ => s end in
  match digits with EmptyString => None | _ => parse_digits 0 digits end.

(** [to_lowercase] on the ASCII letters.  No other character has an ASCII letter among
    its lower case ones, except for the Kelvin sign, which has [k]. *)
Definition lower_ascii (c : ascii) : ascii :=
  let n := N_of_ascii c in if ((65 <=? n) && (n <=? 90))%N then ascii_of_N (n + 32) else c.
Fixpoint to_lowercase (s : string) : string :=
  match s with
  | EmptyString => EmptyString
  | String c s' => String (lower_ascii c) (to_lowercase s')
  end.

(** * Lemmas *)

(** The text holds no [sep]. *)
Fixpoint lacks (sep : ascii) (s : string) : bool :=
  match s with EmptyString => true | String c s' => negb (Ascii.eqb c sep) && lacks sep s' end.

Lemma split_on_lacks sep s : lacks sep s = true -> split_on sep s = [s].
Proof.
  induction s as [| c s IH]; [done |]. cbn. intros [Hc Hs]%andb_true_iff.
  apply negb_true_iff in Hc. by rewrite Hc, IH.
Qed.

Lemma split_on_app sep a s : lacks sep a = true -> split_on sep (a +:+ String sep s) = a :: split_on sep s.
Proof.
  induction a as [| c a IH]; intros Ha.
  - change ("" +:+ String sep s) with (String sep s). cbn [split_on]. by rewrite Ascii.eqb_refl.
  - apply andb_true_iff in Ha as [Hc%negb_true_iff Ha].
    change (String c a +:+ String sep s) with (String c (a +:+ String sep s)). cbn [split_on]. by rewrite Hc, IH.
Qed.

(** Splitting undoes joining. *)
Lemma split_on_concat sep l :
  l <> [] -> Forall (fun s => lacks sep s = true) l -> split_on sep (String.concat (String sep "") l) = l.
Proof.
  induction l as [| a [| b l] IH]; intros Hl Ha; [done | |]; apply Forall_cons in Ha as [Ha Hr].
  - by apply split_on_lacks.
  - change (String.concat _ (a :: b :: l)) with (a +:+ String sep (String.concat (String sep "") (b :: l))).
    rewrite split_on_app by done. by rewrite IH.
Qed.

Lemma split_once_app sep a s : lacks sep a = true -> split_once sep (a +:+ String sep s) = Some (a, s).
Proof.
  induction a as [| c a IH]; intros Ha.
  - change ("" +:+ String sep s) with (String sep s). cbn [split_once]. by rewrite Ascii.eqb_refl.
  - apply andb_true_iff in Ha as [Hc%negb_true_iff Ha].
    change (String c a +:+ String sep s) with (String c (a +:+ String sep s)). cbn [split_once]. by rewrite Hc, IH.
Qed.

Lemma split_once_lacks sep s : lacks sep s = true -> split_once sep s = None.
Proof.
  induction s as [| c s IH]; [done |]. cbn. intros [Hc%negb_true_iff Hs]%andb_true_iff. by rewrite Hc, IH.
Qed.

(** A text read as [u32] is within the bounds. *)
Lemma parse_digits_bounds s : forall acc n, 0 <= acc <= u32_max -> parse_digits acc s = Some n -> 0 <= n <= u32_max.
Proof.
  induction s as [| c s IH]; cbn; intros acc n Ha Hn; [by injection Hn as <- |].
  destruct (_ && _) eqn:Hd; [| done]. bool_facts. destruct (_ <=? u32_max) eqn:Ho; [| done]. bool_facts.
  eapply IH; [| exact Hn]. lia.
Qed.

Lemma parse_u32_bounds s n : parse_u32 s = Some n -> 0 <= n <= u32_max.
Proof.
  unfold parse_u32. intros H. destruct (match s with String "+" s' => s' | _ => s end) eqn:E; [done |].
  eapply parse_digits_bounds; [| exact H]. by unfold u32_max.
Qed.

Example trim_spaces : trim " a b	
" = "a b".
Proof. vm_compute. reflexivity. Qed.
Example parse_u32_cases :
  parse_u32 "+12" = Some 12 /\ parse_u32 "" = None /\ parse_u32 "+" = None /\ parse_u32 "4294967295" = Some 4294967295 /\
  parse_u32 "4294967296" = None /\ parse_u32 " 1" = None.
Proof. vm_compute. repeat split. Qed.
