(* ===== verification/Errors.v ===== *)
(** The typed error model ([src/src/errors.rs]) and the two effect monads of
    the development.

    [FabricError] has the constructors of the source.  Its string payload is
    the format string of the place that builds it (["workload {} is fenced"]),
    with the interpolated diagnostics left as written: no code path of the
    repository inspects a payload, it only displays it.

    [FabricResult] is Rust's [Result<T, FabricError>]; [M W] is a handler that
    reads and writes a world [W], can fail, and can be cut off by a crash of the
    process between two durable operations. *)
From S2P Require Import Prelude.
From S2P Require Export Text.

Inductive FabricError : Type :=
| InvalidLifecycleTransition (from to : string)
| StaleCoordinatorEpoch (expected got : Z)
| StaleWorkloadEpoch (expected got : Z)
| StaleCaptureAttempt (s : string)
| StaleRestoreAttempt (s : string)
| ReservationConflict (s : string)
| QuiescenceFailure (s : string)
| CaptureProviderFailure (s : string)
| IncompleteCheckpoint (s : string)
| FrontierInconsistency (s : string)
| IntegrityFailure (s : string)
| CompatibilityFailure (s : string)
| MissingDependency (s : string)
| UnsupportedBackend (s : string)
| UnsupportedComponent (s : string)
| CorruptedCheckpoint (s : string)
| PersistenceError (s : string)
| TransportError (s : string)
| ProtocolError (s : string)
| StorageError (s : string)
| RestoreFailure (s : string)
| MigrationFailure (s : string)
| FencingFailure (s : string)
| LineageViolation (s : string)
| PolicyViolation (s : string)
| CheckpointNotFound (s : string)
| WorkloadNotFound (s : string)
| GenerationMismatch (s : string)
| Timeout (s : string)
| CleanupFailure (s : string)
| InvalidArgument (s : string)
| Internal (s : string)
| Io (s : string)
| Json (s : string)
| Sqlite (s : string)
| FailPoint (s : string).

#[export] Instance FabricError_eq_dec : EqDecision FabricError.
Proof. solve_decision. Defined.

(** The errors of the libraries, from their texts: [From<std::io::Error>],
    [From<serde_json::Error>] and [From<rusqlite::Error>]. *)
Definition error_from_io (e : string) : FabricError := Io e.
Definition error_from_json (e : string) : FabricError := Json e.
Definition error_from_sqlite (e : string) : FabricError := Sqlite e.

(** [impl fmt::Display for FabricError]. *)
Definition display (e : FabricError) : string :=
  match e with
  | InvalidLifecycleTransition from to =>
      "invalid lifecycle transition: " +:+ from +:+ " -> " +:+ to
  | StaleCoordinatorEpoch expected got =>
      "stale coordinator epoch: coordinator expects " +:+ pretty expected
        +:+ ", actor holds " +:+ pretty got
  | StaleWorkloadEpoch expected got =>
      "stale workload epoch: expected " +:+ pretty expected +:+ ", got " +:+ pretty got
  | StaleCaptureAttempt s => "stale capture attempt: " +:+ s
  | StaleRestoreAttempt s => "stale restore attempt: " +:+ s
  | ReservationConflict s => "reservation conflict: " +:+ s
  | QuiescenceFailure s => "quiescence failure: " +:+ s
  | CaptureProviderFailure s => "capture provider failure: " +:+ s
  | IncompleteCheckpoint s => "incomplete checkpoint: " +:+ s
  | FrontierInconsistency s => "execution frontier inconsistency: " +:+ s
  | IntegrityFailure s => "integrity failure: " +:+ s
  | CompatibilityFailure s => "compatibility failure: " +:+ s
  | MissingDependency s => "missing dependency: " +:+ s
  | UnsupportedBackend s => "unsupported backend: " +:+ s
  | UnsupportedComponent s => "unsupported component: " +:+ s
  | CorruptedCheckpoint s => "corrupted checkpoint: " +:+ s
  | PersistenceError s => "persistence error: " +:+ s
  | TransportError s => "transport error: " +:+ s
  | ProtocolError s => "protocol error: " +:+ s
  | StorageError s => "storage error: " +:+ s
  | RestoreFailure s => "restore failure: " +:+ s
  | MigrationFailure s => "migration failure: " +:+ s
  | FencingFailure s => "fencing failure: " +:+ s
  | LineageViolation s => "lineage violation: " +:+ s
  | PolicyViolation s => "policy violation: " +:+ s
  | CheckpointNotFound s => "checkpoint not found: " +:+ s
  | WorkloadNotFound s => "workload not found: " +:+ s
  | GenerationMismatch s => "generation mismatch: " +:+ s
  | Timeout s => "timeout: " +:+ s
  | CleanupFailure s => "cleanup failure: " +:+ s
  | InvalidArgument s => "invalid argument: " +:+ s
  | Internal s => "internal error: " +:+ s
  | Io s => "io error: " +:+ s
  | Json s => "serialization error: " +:+ s
  | Sqlite s => "sqlite error: " +:+ s
  | FailPoint s => "injected failpoint: " +:+ s
  end.

(** * Results *)

Inductive FabricResult (A : Type) : Type :=
| Ok (a : A)
| Err (e : FabricError).
Arguments Ok {A} a.
Arguments Err {A} e.

#[export] Instance FabricResult_ret : MRet FabricResult := fun A a => Ok a.
#[export] Instance FabricResult_bind : MBind FabricResult :=
  fun A B k r => match r with Ok a => k a | Err e => Err e end.

#[export] Instance FabricResult_eq_dec `{EqDecision A} : EqDecision (FabricResult A).
Proof. solve_decision. Defined.

Definition is_ok {A} (r : FabricResult A) : bool := match r with Ok _ => true | Err _ => false end.
Definition is_err {A} (r : FabricResult A) : bool := negb (is_ok r).

(** [o.ok_or_else(|| e)?]. *)
Definition ok_or {A} (o : option A) (e : FabricError) : FabricResult A :=
  match o with Some a => Ok a | None => Err e end.

(** [if b { return Err(e) }]. *)
Definition reject_if (b : bool) (e : FabricError) : FabricResult unit :=
  if b then Err e else Ok tt.

(** A [for] loop whose body returns early on the first error. *)
Fixpoint for_each {A} (f : A -> FabricResult unit) (l : list A) : FabricResult unit :=
  match l with
  | [] => Ok tt
  | x :: l' => f x ;; for_each f l'
  end.

Lemma reject_if_Ok (b : bool) (e : FabricError) (u : unit) :
  reject_if b e = Ok u <-> b = false.
Proof. destruct b, u; cbn; split; congruence. Qed.

Lemma ok_or_Ok {A} (o : option A) (e : FabricError) (a : A) :
  ok_or o e = Ok a <-> o = Some a.
Proof. destruct o; cbn; split; congruence. Qed.

Lemma result_bind_Ok {A B} (r : FabricResult A) (k : A -> FabricResult B) (b : B) :
  (r ≫= k) = Ok b <-> exists a, r = Ok a /\ k a = Ok b.
Proof.
  destruct r as [a0 | e0]; cbn; split.
  - intros H. by exists a0.
  - intros (a & Ha & H). by simplify_eq.
  - done.
  - by intros (a & H & _).
Qed.

Lemma result_bind_Err {A B} (r : FabricResult A) (k : A -> FabricResult B) (e : FabricError) :
  (r ≫= k) = Err e <-> r = Err e \/ exists a, r = Ok a /\ k a = Err e.
Proof.
  destruct r as [a0 | e0]; cbn; split.
  - intros H. right. by exists a0.
  - intros [H | (a & Ha & H)]; by simplify_eq.
  - intros H. simplify_eq. by left.
  - intros [H | (a & H & _)]; by simplify_eq.
Qed.

Lemma for_each_Ok {A} (f : A -> FabricResult unit) (l : list A) (u : unit) :
  for_each f l = Ok u <-> (forall x, x ∈ l -> f x = Ok tt).
Proof.
  destruct u. induction l as [| x l IH]; cbn.
  - split; [intros _ x Hx; by apply not_elem_of_nil in Hx | done].
  - rewrite result_bind_Ok. split.
    + intros ([] & Hx & Hl) y Hy. apply elem_of_cons in Hy as [-> | Hy]; [done |].
      by apply IH.
    + intros H. exists tt. split; [apply H; left |].
      apply IH. intros y Hy. apply H. by right.
Qed.

(** Breaks an equation [r = Ok x] of the result monad into its steps. *)
Ltac invert_ok H :=
  repeat match type of H with
  | (_ ≫= _) = Ok _ =>
      let a := fresh "r" in let H1 := fresh "Hstep" in
      apply result_bind_Ok in H as (a & H1 & H)
  end.

(** * Handlers *)

Inductive outcome (A : Type) : Type :=
| Done (a : A)
| Raise (e : FabricError)
| Crash.
Arguments Done {A} a.
Arguments Raise {A} e.
Arguments Crash {A}.

Definition M (W A : Type) : Type := W -> outcome A * W.

#[export] Instance M_ret {W} : MRet (M W) := fun A a w => (Done a, w).
#[export] Instance M_bind {W} : MBind (M W) :=
  fun A B k m w =>
    match m w with
    | (Done a, w') => k a w'
    | (Raise e, w') => (Raise e, w')
    | (Crash, w') => (Crash, w')
    end.

Definition raise {W A} (e : FabricError) : M W A := fun w => (Raise e, w).

(** [r?] for a result that touches no world. *)
Definition lift {W A} (r : FabricResult A) : M W A :=
  fun w => match r with Ok a => (Done a, w) | Err e => (Raise e, w) end.

(** A [Result] matched instead of propagated; a crash is never caught. *)
Definition attempt {W A} (m : M W A) : M W (FabricResult A) :=
  fun w => match m w with
           | (Done a, w') => (Done (Ok a), w')
           | (Raise e, w') => (Done (Err e), w')
           | (Crash, w') => (Crash, w')
           end.

(** [m.map_err(|_| e)]. *)
Definition map_err {W A} (m : M W A) (e : FabricError) : M W A :=
  r ← attempt m; lift (match r with Ok a => Ok a | Err _ => Err e end).

(** [let _ = m;]. *)
Definition ignore {W A} (m : M W A) : M W unit := attempt m ;; mret tt.

(** [m.map_err(|e| { h(e); e })]: the handler runs, the error is kept. *)
Definition on_error {W A} (m : M W A) (h : FabricError -> M W unit) : M W A :=
  r ← attempt m;
  match r with
  | Ok a => mret a
  | Err e => ignore (h e) ;; raise e
  end.

Definition when {W} (b : bool) (m : M W unit) : M W unit := if b then m else mret tt.

(** A loop over a list. *)
Fixpoint for_m {W A} (f : A -> M W unit) (l : list A) : M W unit :=
  match l with
  | [] => mret tt
  | x :: l' => f x ;; for_m f l'
  end.

(** ** Triples

    [triple P m Q]: from a world in [P], the outcome and the final world of [m]
    satisfy [Q]. *)

Definition triple {W A} (P : W -> Prop) (m : M W A) (Q : outcome A -> W -> Prop) : Prop :=
  forall w, P w -> Q (fst (m w)) (snd (m w)).

(** [m] keeps [I], however it ends. *)
Definition keeps {W A} (I : W -> Prop) (m : M W A) : Prop := triple I m (fun _ => I).

Section triples.
Context {W : Type}.
Implicit Types P I : W -> Prop.

Lemma triple_ret {A} P (a : A) (Q : outcome A -> W -> Prop) :
  (forall w, P w -> Q (Done a) w) -> triple P (mret a) Q.
Proof. intros H w Hw. by apply H. Qed.

Lemma triple_raise {A} P (e : FabricError) (Q : outcome A -> W -> Prop) :
  (forall w, P w -> Q (Raise e) w) -> triple P (raise e) Q.
Proof. intros H w Hw. by apply H. Qed.

Lemma triple_conseq {A} P P' (m : M W A) (Q Q' : outcome A -> W -> Prop) :
  triple P' m Q' -> (forall w, P w -> P' w) -> (forall o w, Q' o w -> Q o w) ->
  triple P m Q.
Proof. intros Hm HP HQ w Hw. apply HQ, Hm, HP, Hw. Qed.

Lemma triple_bind {A B} P (m : M W A) (k : A -> M W B)
    (R : A -> W -> Prop) (Q : outcome B -> W -> Prop) :
  triple P m (fun o w => match o with
                         | Done a => R a w
                         | Raise e => Q (Raise e) w
                         | Crash => Q Crash w
                         end) ->
  (forall a, triple (R a) (k a) Q) ->
  triple P (m ≫= k) Q.
Proof.
  intros Hm Hk w Hw. specialize (Hm w Hw).
  unfold mbind, M_bind in *. destruct (m w) as [[a | e |] w']; cbn in *; [| done | done].
  by apply Hk.
Qed.

Lemma triple_attempt {A} P (m : M W A) (Q : outcome (FabricResult A) -> W -> Prop) :
  triple P m (fun o w => match o with
                         | Done a => Q (Done (Ok a)) w
                         | Raise e => Q (Done (Err e)) w
                         | Crash => Q Crash w
                         end) ->
  triple P (attempt m) Q.
Proof.
  intros Hm w Hw. specialize (Hm w Hw). unfold attempt.
  by destruct (m w) as [[a | e |] w'].
Qed.

Lemma triple_lift {A} P (r : FabricResult A) (Q : outcome A -> W -> Prop) :
  (forall w, P w -> match r with Ok a => Q (Done a) w | Err e => Q (Raise e) w end) ->
  triple P (lift r) Q.
Proof. intros H w Hw. specialize (H w Hw). unfold lift. by destruct r. Qed.

(** Invariants compose. *)
Lemma keeps_ret {A} I (a : A) : keeps I (mret a).
Proof. intros w Hw. exact Hw. Qed.

Lemma keeps_raise {A} I (e : FabricError) : keeps I (raise (A := A) e).
Proof. intros w Hw. exact Hw. Qed.

Lemma keeps_lift {A} I (r : FabricResult A) : keeps I (lift r).
Proof. intros w Hw. unfold lift. by destruct r. Qed.

Lemma keeps_bind {A B} I (m : M W A) (k : A -> M W B) :
  keeps I m -> (forall a, keeps I (k a)) -> keeps I (m ≫= k).
Proof.
  intros Hm Hk. apply (triple_bind I m k (fun _ => I)); [| exact Hk].
  eapply triple_conseq; [exact Hm | done | by intros []].
Qed.

Lemma keeps_ret_bind {A B} I (a : A) (k : A -> M W B) : keeps I (k a) -> keeps I (mret a ≫= k).
Proof. intros Hk w Hw. exact (Hk w Hw). Qed.

(** A computed value keeps its shape in what follows. *)
Lemma keeps_bind_map {A B C} I (m : M W A) (f : A -> B) (k : B -> M W C) :
  keeps I m -> (forall a, keeps I (k (f a))) -> keeps I ((m ≫= fun a => mret (f a)) ≫= k).
Proof.
  intros Hm Hk w Hw. specialize (Hm w Hw). unfold mbind, M_bind in *.
  destruct (m w) as [[a | e |] w']; cbn in *; [apply Hk, Hm | done | done].
Qed.

Lemma keeps_attempt {A} I (m : M W A) : keeps I m -> keeps I (attempt m).
Proof.
  intros Hm. apply triple_attempt.
  eapply triple_conseq; [exact Hm | done | by intros []].
Qed.

Lemma keeps_ignore {A} I (m : M W A) : keeps I m -> keeps I (ignore m).
Proof.
  intros Hm. apply keeps_bind; [by apply keeps_attempt | intros; apply keeps_ret].
Qed.

Lemma keeps_on_error {A} I (m : M W A) h :
  keeps I m -> (forall e, keeps I (h e)) -> keeps I (on_error m h).
Proof.
  intros Hm Hh. apply keeps_bind; [by apply keeps_attempt |].
  intros [a | e]; [apply keeps_ret |].
  apply keeps_bind; [by apply keeps_ignore | intros; apply keeps_raise].
Qed.

Lemma keeps_when I (b : bool) (m : M W unit) : keeps I m -> keeps I (when b m).
Proof. destruct b; [done | intros; apply keeps_ret]. Qed.

Lemma keeps_for_m {A} I (f : A -> M W unit) (l : list A) :
  (forall x, keeps I (f x)) -> keeps I (for_m f l).
Proof.
  intros Hf. induction l as [| x l IH]; cbn; [apply keeps_ret |].
  apply keeps_bind; [apply Hf | intros; exact IH].
Qed.
End triples.

#[export] Hint Resolve keeps_ret keeps_raise keeps_lift keeps_bind keeps_attempt
  keeps_ignore keeps_on_error keeps_when keeps_for_m : fabric.
