(* ===== verification/Ident.v ===== *)
(** Stable 128-bit identities ([src/src/id.rs]).

    [Id] is the sixteen-byte array of the source.  The hexadecimal codec is the
    [hex] crate, so it is a parameter ([HexCodec]) with the laws the source relies
    on; [hex_codec] at the end is a concrete instance the witnesses use. *)
From S2P Require Import Prelude Errors.
From Stdlib Require Import Strings.Ascii Strings.Byte.

Definition ID_BYTES : nat := 16.

Record Id := mkId { id_bytes : list byte; id_length : (length id_bytes =? ID_BYTES)%nat = true }.

Lemma byte_eqb_ne (x y : byte) : Byte.eqb x y = false -> x <> y.
Proof. intros H ->. by rewrite (Byte.byte_dec_lb (x := y) eq_refl) in H. Qed.

#[export] Instance byte_eq_dec : EqDecision byte := fun x y =>
  match Byte.eqb x y as b return Byte.eqb x y = b -> Decision (x = y) with
  | true => fun H => left (Byte.byte_dec_bl x y H)
  | false => fun H => right (byte_eqb_ne x y H)
  end eq_refl.

#[export] Instance byte_countable : Countable byte :=
  inj_countable Byte.to_N Byte.of_N Byte.of_to_N.

(** [Id::from_bytes] on the bytes of a slice; [None] for another length, where
    [copy_from_slice] panics. *)
Definition from_bytes (b : list byte) : option Id :=
  match Sumbool.sumbool_of_bool (length b =? ID_BYTES)%nat with
  | left H => Some (mkId b H)
  | right _ => None
  end.

Definition as_bytes (i : Id) : list byte := id_bytes i.

(** [[b; ID_BYTES]]: the array with sixteen equal bytes. *)
Definition id_splat (b : byte) : Id := mkId (replicate ID_BYTES b) eq_refl.

Class HexCodec := {
  hex_encode : list byte -> string;
  hex_decode : string -> option (list byte)
}.

(** What [id.rs] relies on of [hex::encode] and [hex::decode]. *)
Class HexLaws (H : HexCodec) := {
  hex_decode_encode : forall b, hex_decode (hex_encode b) = Some b;
  hex_encode_length : forall b, String.length (hex_encode b) = (2 * length b)%nat;
  hex_decode_length : forall s b, hex_decode s = Some b -> String.length s = (2 * length b)%nat
}.

Definition to_hex `{HexCodec} (i : Id) : string := hex_encode (id_bytes i).

(** [Id::from_hex].  The last branch is the panic of [copy_from_slice]. *)
Definition from_hex `{HexCodec} (s : string) : FabricResult Id :=
  reject_if (negb (String.length s =? ID_BYTES * 2)%nat)
    (InvalidArgument "id must be {} hex chars, got {}") ;;
  bytes ← ok_or (hex_decode s) (InvalidArgument "invalid id hex: {e}");
  ok_or (from_bytes bytes) (Internal "copy_from_slice: source slice length").

(** ** A concrete codec *)

Definition hex_digit (n : N) : ascii :=
  if (n <? 10)%N then ascii_of_N (48 + n) else ascii_of_N (87 + n).

Definition hex_value (c : ascii) : option N :=
  let n := N_of_ascii c in
  if ((48 <=? n) && (n <=? 57))%N then Some (n - 48)%N
  else if ((97 <=? n) && (n <=? 102))%N then Some (n - 87)%N
  else if ((65 <=? n) && (n <=? 70))%N then Some (n - 55)%N
  else None.

Fixpoint encode_hex (b : list byte) : string :=
  match b with
  | [] => ""
  | x :: b' =>
      String (hex_digit (Byte.to_N x / 16)) (String (hex_digit (Byte.to_N x mod 16)) (encode_hex b'))
  end.

Fixpoint decode_hex (s : string) : option (list byte) :=
  match s with
  | EmptyString => Some []
  | String c (String d s') =>
      h ← hex_value c; l ← hex_value d; x ← Byte.of_N (16 * h + l); b ← decode_hex s';
      Some (x :: b)
  | String _ EmptyString => None
  end.

#[export] Instance hex_codec : HexCodec := {| hex_encode := encode_hex; hex_decode := decode_hex |}.

(** * Lemmas *)

Lemma id_ext (i j : Id) : id_bytes i = id_bytes j -> i = j.
Proof.
  destruct i as [b Hb], j as [c Hc]. cbn. intros ->. f_equal. apply (Eqdep_dec.UIP_dec Bool.bool_dec).
Qed.

#[export] Instance Id_eq_dec : EqDecision Id := fun i j =>
  match decide (id_bytes i = id_bytes j) with
  | left H => left (id_ext i j H)
  | right H => right (fun E => H (f_equal id_bytes E))
  end.

Lemma from_bytes_as_bytes (i : Id) : from_bytes (as_bytes i) = Some i.
Proof.
  destruct i as [b Hb]. cbn. unfold from_bytes.
  destruct (Sumbool.sumbool_of_bool _) as [H | H]; [| congruence].
  do 2 f_equal. apply (Eqdep_dec.UIP_dec Bool.bool_dec).
Qed.

#[export] Instance Id_countable : Countable Id :=
  inj_countable as_bytes from_bytes from_bytes_as_bytes.

Lemma from_bytes_Some (b : list byte) :
  length b = ID_BYTES -> exists i, from_bytes b = Some i /\ as_bytes i = b.
Proof.
  intros H. unfold from_bytes. destruct (Sumbool.sumbool_of_bool _) as [E | E]; [by eexists |].
  apply Nat.eqb_neq in E. done.
Qed.

Lemma id_bytes_length (i : Id) : length (id_bytes i) = ID_BYTES.
Proof. apply Nat.eqb_eq, id_length. Qed.

Section hex.
Context {H : HexCodec} {L : HexLaws H}.

Lemma to_hex_length (i : Id) : String.length (to_hex i) = 32%nat.
Proof. unfold to_hex. by rewrite hex_encode_length, id_bytes_length. Qed.

Lemma to_hex_inj (i j : Id) : to_hex i = to_hex j -> i = j.
Proof.
  intros E. unfold to_hex in E.
  assert (Some (id_bytes i) = Some (id_bytes j)) as [= Eb]
    by by rewrite <- !hex_decode_encode, E.
  assert (Some i = Some j) as [= ->]; [| done].
  rewrite <- !from_bytes_as_bytes. unfold as_bytes. by rewrite Eb.
Qed.

Lemma from_hex_never_panics (s : string) :
  from_hex s <> Err (Internal "copy_from_slice: source slice length").
Proof.
  unfold from_hex. destruct (String.length s =? ID_BYTES * 2)%nat eqn:E; cbn; [| done].
  destruct (hex_decode s) as [b |] eqn:D; cbn; [| done].
  apply hex_decode_length in D. apply Nat.eqb_eq in E.
  destruct (from_bytes_Some b) as (i & -> & _); [unfold ID_BYTES in *; lia | done].
Qed.

(** An identity prints as 32 hexadecimal characters and parses
    back to itself, and [from_hex] accepts nothing but strings of 32 characters
    that the codec decodes, without ever reaching the panic of its slice copy. *)
Theorem id_hex_roundtrip (i : Id) (s : string) (j : Id) :
  String.length (to_hex i) = 32%nat /\
  from_hex (to_hex i) = Ok i /\
  (from_hex s = Ok j <-> String.length s = 32%nat /\ hex_decode s = Some (id_bytes j)) /\
  from_hex s <> Err (Internal "copy_from_slice: source slice length").
Proof.
  assert (Hparse : forall s j, from_hex s = Ok j <->
    String.length s = 32%nat /\ hex_decode s = Some (id_bytes j)).
  { clear s j. intros s j. unfold from_hex. split.
    - intros E. invert_ok E. apply reject_if_Ok, negb_false_iff, Nat.eqb_eq in Hstep.
      apply ok_or_Ok in Hstep0. apply ok_or_Ok in E.
      split; [done |]. rewrite Hstep0. f_equal.
      unfold from_bytes in E. by destruct (Sumbool.sumbool_of_bool _); simplify_eq/=.
    - intros [E1 E2]. rewrite E1, E2. cbn.
      change (id_bytes j) with (as_bytes j). by rewrite (from_bytes_as_bytes j). }
  split_and!.
  - apply to_hex_length.
  - apply Hparse. split; [apply to_hex_length | apply hex_decode_encode].
  - apply Hparse.
  - apply from_hex_never_panics.
Qed.
End hex.

Lemma hex_digit_value (n : N) : (n < 16)%N -> hex_value (hex_digit n) = Some n.
Proof.
  intros H.
  assert (n ∈ [0;1;2;3;4;5;6;7;8;9;10;11;12;13;14;15]%N) as Hn.
  { rewrite !elem_of_cons. lia. }
  rewrite !elem_of_cons, elem_of_nil in Hn.
  by repeat destruct Hn as [-> | Hn].
Qed.

Lemma decode_hex_length (s : string) (b : list byte) :
  decode_hex s = Some b -> String.length s = (2 * length b)%nat.
Proof.
  revert s. induction b as [| x b IH]; intros [| c [| d s]]; cbn; try done.
  - destruct (hex_value c); cbn; [| done]. destruct (hex_value d); cbn; [| done].
    destruct (Byte.of_N _); cbn; [| done]. by destruct (decode_hex s).
  - destruct (hex_value c); cbn; [| done]. destruct (hex_value d); cbn; [| done].
    destruct (Byte.of_N _); cbn; [| done]. destruct (decode_hex s) eqn:E; cbn; [| done].
    intros [= -> ->]. rewrite (IH s E). lia.
Qed.

#[export] Instance hex_codec_laws : HexLaws hex_codec.
Proof.
  split; cbn.
  - induction b as [| x b IH]; [done |]. cbn -[N.mul N.div N.modulo].
    pose proof (Byte.to_N_bounded x) as Hx.
    rewrite !hex_digit_value; cbn -[N.mul N.div N.modulo].
    + rewrite <- N.div_mod by done. rewrite Byte.of_to_N. cbn. by rewrite IH.
    + apply N.Div0.div_lt_upper_bound. lia.
    + by apply N.mod_lt.
  - induction b as [| x b IH]; cbn; [done | rewrite IH; lia].
  - apply decode_hex_length.
Qed.

(** The hypotheses of the round trip hold for the concrete codec, on a concrete identity. *)
Example id_hex_roundtrip_witness :
  from_hex (to_hex (id_splat x0a)) = Ok (id_splat x0a) /\
  to_hex (id_splat x0a) = "0a0a0a0a0a0a0a0a0a0a0a0a0a0a0a0a".
Proof.
  split; [| vm_compute; reflexivity].
  exact (proj1 (proj2 (@id_hex_roundtrip hex_codec hex_codec_laws (id_splat x0a) "" (id_splat x0a)))).
Defined.
