(* ===== verification/Lifecycle.v ===== *)
(** The checkpoint lifecycle state machine ([src/src/lifecycle.rs]). *)
From S2P Require Import Prelude Errors.

Inductive LifecycleState : Type :=
| Created | Capturing | Captured | Validating | Sealed | Persisting | Available
| RestorePending | Restoring | Restored | Retired | Failed.

#[export] Instance LifecycleState_eq_dec : EqDecision LifecycleState.
Proof. solve_decision. Defined.

Definition lifecycle_as_str (s : LifecycleState) : string :=
  match s with
  | Created => "CREATED"
  | Capturing => "CAPTURING"
  | Captured => "CAPTURED"
  | Validating => "VALIDATING"
  | Sealed => "SEALED"
  | Persisting => "PERSISTING"
  | Available => "AVAILABLE"
  | RestorePending => "RESTORE_PENDING"
  | Restoring => "RESTORING"
  | Restored => "RESTORED"
  | Retired => "RETIRED"
  | Failed => "FAILED"
  end.

Definition lifecycle_is_restorable (s : LifecycleState) : bool :=
  match s with Available | Restored => true | _ => false end.

Definition is_terminal (s : LifecycleState) : bool :=
  match s with Retired | Failed => true | _ => false end.

Definition can_transition (s target : LifecycleState) : bool :=
  match s with
  | Created => match target with Capturing => true | _ => false end
  | Capturing => match target with Captured | Failed => true | _ => false end
  | Captured => match target with Validating | Failed => true | _ => false end
  | Validating => match target with Sealed | Failed => true | _ => false end
  | Sealed => match target with Persisting | Failed => true | _ => false end
  | Persisting => match target with Available | Failed => true | _ => false end
  | Available => match target with RestorePending | Retired | Failed => true | _ => false end
  | RestorePending => match target with Restoring | Failed | Available => true | _ => false end
  | Restoring => match target with Restored | Available | Failed => true | _ => false end
  | Restored => match target with Available | Failed => true | _ => false end
  | Retired => match target with RestorePending | Failed => true | _ => false end
  | Failed => false
  end.

Definition transition (s target : LifecycleState) : FabricResult unit :=
  if can_transition s target then Ok tt
  else Err (InvalidLifecycleTransition (lifecycle_as_str s) (lifecycle_as_str target)).

Definition HAPPY_PATH : list LifecycleState :=
  [Created; Capturing; Captured; Validating; Sealed; Persisting; Available].

Definition RESTORE_PATH : list LifecycleState :=
  [RestorePending; Restoring; Restored; Available].

(** A run of the state machine: the states visited after [s]. *)
Fixpoint is_run (s : LifecycleState) (l : list LifecycleState) : bool :=
  match l with
  | [] => true
  | t :: l' => can_transition s t && is_run t l'
  end.

(** The states a checkpoint goes through while its durable image is in use. *)
Definition committed_state (s : LifecycleState) : bool :=
  match s with
  | Available | RestorePending | Restoring | Restored => true
  | _ => false
  end.

(** * Lemmas *)

Lemma transition_Ok (s t : LifecycleState) (u : unit) :
  transition s t = Ok u <-> can_transition s t = true.
Proof. unfold transition. destruct u. by destruct (can_transition s t). Qed.

Lemma run_from_Failed (l : list LifecycleState) : is_run Failed l = true -> l = [].
Proof. by destruct l. Qed.

Lemma last_cons_cons_ne {A} (x y : A) (l : list A) : last (x :: y :: l) = last (y :: l).
Proof. done. Qed.

(** One step of the capture phase: the only way on is the next state of the happy
    path; the other legal target is [Failed], from which nothing is reachable. *)
Lemma capture_phase_step (s next : LifecycleState) (l : list LifecycleState) (t : LifecycleState) :
  (forall x, can_transition s x = true -> x = next \/ x = Failed) ->
  is_run s l = true -> last (s :: l) = Some t -> t <> s -> t <> Failed ->
  exists l', l = next :: l' /\ is_run next l' = true /\ last (next :: l') = Some t.
Proof.
  intros Hnext Hrun Hlast Hs Hf. destruct l as [| x l]; cbn in *; [congruence |].
  apply andb_true_iff in Hrun as [Hx Hrun].
  destruct (Hnext x Hx) as [-> | ->]; [by exists l |].
  apply run_from_Failed in Hrun as ->. cbn in Hlast. congruence.
Qed.

Ltac advance next :=
  match goal with
  | Hrun : is_run ?s ?l = true, Hlast : last (?s :: ?l) = Some ?t |- _ =>
      let l' := fresh "l" in let Hr := fresh "Hrun" in let Hl := fresh "Hlast" in
      destruct (capture_phase_step s next l t) as (l' & -> & Hr & Hl);
      [ intros []; cbn; intros; simplify_eq; auto
      | exact Hrun | exact Hlast | auto | auto | clear Hrun Hlast ]
  end.

(** * Properties *)

(** A checkpoint reaches a state in which its image is in use
    ([Available], [RestorePending], [Restoring], [Restored]) only by going through
    every state of [HAPPY_PATH] in order first: no run of the state machine from
    [Created] skips sealing or persisting. *)
Theorem available_only_via_happy_path (l : list LifecycleState) (t : LifecycleState) :
  is_run Created l = true -> last (Created :: l) = Some t -> committed_state t = true ->
  exists rest, Created :: l = HAPPY_PATH ++ rest.
Proof.
  intros Hrun Hlast Ht.
  assert (Hne : forall s, committed_state s = false -> t <> s) by (intros s Hs ->; congruence).
  advance Capturing. advance Captured. advance Validating.
  advance Sealed. advance Persisting. advance Available.
  by eexists.
Qed.

Example available_only_via_happy_path_witness :
  exists rest, Created :: [Capturing; Captured; Validating; Sealed; Persisting; Available;
                           RestorePending; Restoring] = HAPPY_PATH ++ rest.
Proof.
  exact (available_only_via_happy_path
           [Capturing; Captured; Validating; Sealed; Persisting; Available;
            RestorePending; Restoring] Restoring eq_refl eq_refl eq_refl).
Defined.

(** The end of the restore path does not lead back into it: although
    [Restored] counts as restorable, the state machine refuses
    [Restored -> RestorePending] (and [Restored -> Retired]) with the typed error,
    and every run from [Restored] to [RestorePending] goes through [Available]
    first.  [Failed] has no exit, [Retired] - also reported terminal - has two. *)
Theorem restored_has_no_second_restore (l : list LifecycleState) :
  lifecycle_is_restorable Restored = true /\
  transition Restored RestorePending
    = Err (InvalidLifecycleTransition "RESTORED" "RESTORE_PENDING") /\
  transition Restored Retired = Err (InvalidLifecycleTransition "RESTORED" "RETIRED") /\
  (is_run Restored l = true -> last (Restored :: l) = Some RestorePending -> Available ∈ l) /\
  (forall t, is_err (transition Failed t) = true) /\
  (forall t, transition Retired t = Ok tt <-> t = RestorePending \/ t = Failed) /\
  is_terminal Retired = true.
Proof.
  split_and!; try done.
  - intros Hrun Hlast. destruct l as [| x l]; [done |].
    cbn in Hrun. apply andb_true_iff in Hrun as [Hx Hrun].
    destruct x; try done; [by left |].
    apply run_from_Failed in Hrun as ->. done.
  - intros []; cbn; split; intros H; try done; auto; by destruct H.
Qed.

Example restored_has_no_second_restore_witness :
  Available ∈ [Available; RestorePending].
Proof.
  exact (proj1 (proj2 (proj2 (proj2 (restored_has_no_second_restore [Available; RestorePending]))))
           eq_refl eq_refl).
Defined.
