(* ===== verification/Checkpoint.v ===== *)
(** The checkpoint object model: the data of [src/src/frontier.rs],
    [src/src/sideeffect.rs] and [src/src/checkpoint.rs], with the runtime
    descriptor of [src/src/compatibility.rs].

    Constructors that two enums of the source share are told apart by a prefix:
    [CheckpointType::ExecutionFrontier] is [TypeExecutionFrontier],
    [ProtectionState::None] is [Unprotected], and
    [RetirementEligibility::{Protected,Pinned}] are [EligProtected], [EligPinned].

    A [serde_json::Value] the code only carries is its JSON text ([JsonText]); a
    [BTreeMap<String, _>] is a [gmap string _]. *)
From S2P Require Import Prelude Errors Ident Lifecycle.

(** The text of an opaque JSON document. *)
Definition JsonText : Type := string.

(** ** Execution frontier *)

Record InFlightOperation := mkInFlightOperation {
  ifo_operation_id : string;
  ifo_kind : string;
  ifo_started_ms : Z;
  ifo_idempotent : bool;
  ifo_externally_committed : bool
}.

Record ResumabilityFlags := mkResumabilityFlags {
  rf_exact : bool;
  rf_equivalent : bool;
  rf_degraded : bool;
  rf_deterministic_replay_verified : bool;
  rf_pending_non_replayable : bool;
  rf_unknown_side_effects : bool
}.

Definition ResumabilityFlags_default : ResumabilityFlags :=
  {| rf_exact := true; rf_equivalent := true; rf_degraded := true;
     rf_deterministic_replay_verified := false;
     rf_pending_non_replayable := false; rf_unknown_side_effects := false |}.

Record ExecutionFrontier := mkExecutionFrontier {
  fr_workload_generation : Z;
  fr_execution_epoch : Z;
  fr_logical_step : Z;
  fr_application_sequence : option string;
  fr_durable_side_effect_boundary : Z;
  fr_state_generation_map : gmap string Z;
  fr_tool_item_frontier : option string;
  fr_external_commit_frontier : option string;
  fr_last_completed_operation_id : option string;
  fr_in_flight_operations : list InFlightOperation;
  fr_flags : ResumabilityFlags
}.

#[export] Instance eta_ExecutionFrontier : Settable ExecutionFrontier := fun f =>
  mkExecutionFrontier (fr_workload_generation f) (fr_execution_epoch f) (fr_logical_step f)
    (fr_application_sequence f) (fr_durable_side_effect_boundary f) (fr_state_generation_map f)
    (fr_tool_item_frontier f) (fr_external_commit_frontier f)
    (fr_last_completed_operation_id f) (fr_in_flight_operations f) (fr_flags f).

(** [#[derive(Default)]]. *)
Definition ExecutionFrontier_default : ExecutionFrontier :=
  mkExecutionFrontier 0 0 0 None 0 ∅ None None None [] ResumabilityFlags_default.

Definition rebase (f : ExecutionFrontier) (workload_generation execution_epoch : Z) : ExecutionFrontier :=
  f <| fr_workload_generation := workload_generation |>
    <| fr_execution_epoch := execution_epoch |>.

(** ** Side effects *)

Inductive SideEffectStatus : Type :=
| Uncommitted | Committed | Replayable | NonReplayable | Unknown.

#[export] Instance SideEffectStatus_eq_dec : EqDecision SideEffectStatus.
Proof. solve_decision. Defined.

Definition side_effect_as_str (s : SideEffectStatus) : string :=
  match s with
  | Uncommitted => "UNCOMMITTED"
  | Committed => "COMMITTED"
  | Replayable => "REPLAYABLE"
  | NonReplayable => "NON_REPLAYABLE"
  | Unknown => "UNKNOWN"
  end.

Record SideEffectEntry := mkSideEffectEntry {
  se_side_effect_id : string;
  se_kind : string;
  se_status : SideEffectStatus;
  se_idempotency_key : option string;
  se_committed_ms : option Z
}.

Record SideEffectManifest := mkSideEffectManifest {
  sem_entries : list SideEffectEntry;
  sem_frontier_boundary : Z
}.

Definition validate_for_exact (m : SideEffectManifest) : FabricResult unit :=
  for_each (fun e =>
    match se_status e with
    | Unknown => Err (FrontierInconsistency
        "side effect {} has UNKNOWN state; exact resumability cannot be claimed")
    | NonReplayable => Err (FrontierInconsistency
        "side effect {} is NON_REPLAYABLE and not committed; capture must not cross an unresolved non-idempotent side-effect boundary")
    | _ => Ok tt
    end) (sem_entries m).

Definition classify (m : SideEffectManifest) (side_effect_id : string) : option SideEffectStatus :=
  se_status <$> find_first (fun e => bool_decide (se_side_effect_id e = side_effect_id)) (sem_entries m).

(** ** Checkpoint classes *)

Inductive CheckpointType : Type :=
| Full | Incremental | Delta | Application | Process | TypeExecutionFrontier | Portable | LocalOnly.

#[export] Instance CheckpointType_eq_dec : EqDecision CheckpointType.
Proof. solve_decision. Defined.

Definition checkpoint_type_as_str (t : CheckpointType) : string :=
  match t with
  | Full => "FULL"
  | Incremental => "INCREMENTAL"
  | Delta => "DELTA"
  | Application => "APPLICATION"
  | Process => "PROCESS"
  | TypeExecutionFrontier => "EXECUTION_FRONTIER"
  | Portable => "PORTABLE"
  | LocalOnly => "LOCAL_ONLY"
  end.

Inductive ConsistencyClass : Type :=
| CrashConsistent | ApplicationConsistent | ExecutionConsistent.

#[export] Instance ConsistencyClass_eq_dec : EqDecision ConsistencyClass.
Proof. solve_decision. Defined.

(** The derived [Ord]: declaration order. *)
Definition consistency_rank (c : ConsistencyClass) : Z :=
  match c with CrashConsistent => 0 | ApplicationConsistent => 1 | ExecutionConsistent => 2 end.

Definition consistency_as_str (c : ConsistencyClass) : string :=
  match c with
  | CrashConsistent => "CRASH_CONSISTENT"
  | ApplicationConsistent => "APPLICATION_CONSISTENT"
  | ExecutionConsistent => "EXECUTION_CONSISTENT"
  end.

Inductive ResumabilityClass : Type :=
| NonResumable | RestartFromCheckpoint | Degraded | Equivalent | Exact.

#[export] Instance ResumabilityClass_eq_dec : EqDecision ResumabilityClass.
Proof. solve_decision. Defined.

Definition resumability_rank (r : ResumabilityClass) : Z :=
  match r with
  | NonResumable => 0 | RestartFromCheckpoint => 1 | Degraded => 2 | Equivalent => 3 | Exact => 4
  end.

Definition resumability_as_str (r : ResumabilityClass) : string :=
  match r with
  | Exact => "EXACT"
  | Equivalent => "EQUIVALENT"
  | Degraded => "DEGRADED"
  | RestartFromCheckpoint => "RESTART_FROM_CHECKPOINT"
  | NonResumable => "NON_RESUMABLE"
  end.

Inductive IntegrityState : Type := Pending | Valid | Corrupt | Unverifiable.

#[export] Instance IntegrityState_eq_dec : EqDecision IntegrityState.
Proof. solve_decision. Defined.

Definition integrity_as_str (i : IntegrityState) : string :=
  match i with
  | Pending => "pending"
  | Valid => "valid"
  | Corrupt => "corrupt"
  | Unverifiable => "unverifiable"
  end.

Inductive ProtectionState : Type := Unprotected | Protected | Pinned.

#[export] Instance ProtectionState_eq_dec : EqDecision ProtectionState.
Proof. solve_decision. Defined.

Inductive RetirementEligibility : Type :=
| Eligible | EligProtected | EligPinned | MinimumGenerations | ActiveRestore | NotEligible.

#[export] Instance RetirementEligibility_eq_dec : EqDecision RetirementEligibility.
Proof. solve_decision. Defined.

Inductive ComponentType : Type :=
| ProcessMetadata | ApplicationState | MemoryRegion | AcceleratorState | RuntimeState | QueueState
| SchedulerState | RngState | FilesystemState | OpenResourceDescriptor | ToolState | ModelState
| KvState | CustomState.

#[export] Instance ComponentType_eq_dec : EqDecision ComponentType.
Proof. solve_decision. Defined.

Definition component_type_as_str (t : ComponentType) : string :=
  match t with
  | ProcessMetadata => "PROCESS_METADATA"
  | ApplicationState => "APPLICATION_STATE"
  | MemoryRegion => "MEMORY_REGION"
  | AcceleratorState => "ACCELERATOR_STATE"
  | RuntimeState => "RUNTIME_STATE"
  | QueueState => "QUEUE_STATE"
  | SchedulerState => "SCHEDULER_STATE"
  | RngState => "RNG_STATE"
  | FilesystemState => "FILESYSTEM_STATE"
  | OpenResourceDescriptor => "OPEN_RESOURCE_DESCRIPTOR"
  | ToolState => "TOOL_STATE"
  | ModelState => "MODEL_STATE"
  | KvState => "KV_STATE"
  | CustomState => "CUSTOM_STATE"
  end.

(** ** Records of a checkpoint *)

Record DurableLocation := mkDurableLocation {
  loc_node : string;
  loc_path : string;
  loc_verified : bool
}.

#[export] Instance DurableLocation_eq_dec : EqDecision DurableLocation.
Proof. solve_decision. Defined.

Record StorageRepresentation := mkStorageRepresentation {
  sr_codec : string;
  sr_original_size : Z;
  sr_stored_size : Z;
  sr_stored_hash : string;
  sr_relative_path : string
}.

#[export] Instance StorageRepresentation_eq_dec : EqDecision StorageRepresentation.
Proof. solve_decision. Defined.

Record ComponentEntry := mkComponentEntry {
  ce_component_id : string;
  ce_component_type : ComponentType;
  ce_generation : Z;
  ce_required : bool;
  ce_logical_size : Z;
  ce_storage_representation : StorageRepresentation;
  ce_content_hash : string;
  ce_schema_version : Z;
  ce_restore_handler : string;
  ce_compatibility : JsonText;
  ce_dependencies : list string;
  ce_capture_status : string;
  ce_restore_status : string
}.

#[export] Instance ComponentEntry_eq_dec : EqDecision ComponentEntry.
Proof. unfold EqDecision, JsonText. solve_decision. Defined.

Record ExternalDependency := mkExternalDependency {
  dep_kind : string;
  dep_identity : string;
  dep_expected_hash : option string;
  dep_required : bool
}.

Record AcceleratorRequirement := mkAcceleratorRequirement {
  ar_vendor : string;
  ar_model : option string;
  ar_capability : string;
  ar_memory_bytes : option Z
}.

Record HardwareCompatibilityDescriptor := mkHardwareCompatibilityDescriptor {
  hw_os : string;
  hw_arch : string;
  hw_accelerator : option AcceleratorRequirement;
  hw_word_size_bits : Z;
  hw_endianness : string
}.

Definition HardwareCompatibilityDescriptor_default : HardwareCompatibilityDescriptor :=
  mkHardwareCompatibilityDescriptor "" "" None 0 "".

Record RuntimeCompatibilityDescriptor := mkRuntimeCompatibilityDescriptor {
  rt_os : string;
  rt_arch : string;
  rt_runtime_version : string;
  rt_state_schema_version : Z;
  rt_workload_class : string;
  rt_backend_class : string;
  rt_accelerator_capabilities : list string;
  rt_provider_versions : gmap string string;
  rt_application : option string
}.

#[export] Instance eta_RuntimeCompatibilityDescriptor : Settable RuntimeCompatibilityDescriptor := fun r =>
  mkRuntimeCompatibilityDescriptor (rt_os r) (rt_arch r) (rt_runtime_version r)
    (rt_state_schema_version r) (rt_workload_class r) (rt_backend_class r)
    (rt_accelerator_capabilities r) (rt_provider_versions r) (rt_application r).

Record CheckpointObject := mkCheckpointObject {
  ck_checkpoint_id : Id;
  ck_workload_id : Id;
  ck_workload_generation : Z;
  ck_checkpoint_generation : Z;
  ck_parent_checkpoint : option Id;
  ck_capture_attempt : string;
  ck_coordinator_epoch : Z;
  ck_created_ms : Z;
  ck_seal_ms : Z;
  ck_source_node : string;
  ck_source_backend : string;
  ck_frontier : ExecutionFrontier;
  ck_checkpoint_type : CheckpointType;
  ck_consistency : ConsistencyClass;
  ck_resumability : ResumabilityClass;
  ck_components : list ComponentEntry;
  ck_total_logical_bytes : Z;
  ck_total_physical_bytes : Z;
  ck_compressed_bytes : Z;
  ck_durable_locations : list DurableLocation;
  ck_replica_count : Z;
  ck_lineage_parents : list Id;
  ck_lineage_children : list Id;
  ck_supersedes : option Id;
  ck_superseded_by : option Id;
  ck_policy_version : Z;
  ck_runtime_descriptor : RuntimeCompatibilityDescriptor;
  ck_hardware_descriptor : HardwareCompatibilityDescriptor;
  ck_dependencies : list ExternalDependency;
  ck_integrity_state : IntegrityState;
  ck_lifecycle : LifecycleState;
  ck_restore_count : Z;
  ck_last_restore_result : option string;
  ck_protection : ProtectionState;
  ck_retirement_eligibility : RetirementEligibility;
  ck_metadata : JsonText;
  ck_manifest_digest : option string;
  ck_manifest_json : option string
}.

#[export] Instance eta_CheckpointObject : Settable CheckpointObject := fun c =>
  mkCheckpointObject (ck_checkpoint_id c) (ck_workload_id c) (ck_workload_generation c)
    (ck_checkpoint_generation c) (ck_parent_checkpoint c) (ck_capture_attempt c)
    (ck_coordinator_epoch c) (ck_created_ms c) (ck_seal_ms c) (ck_source_node c)
    (ck_source_backend c) (ck_frontier c) (ck_checkpoint_type c) (ck_consistency c)
    (ck_resumability c) (ck_components c) (ck_total_logical_bytes c)
    (ck_total_physical_bytes c) (ck_compressed_bytes c) (ck_durable_locations c)
    (ck_replica_count c) (ck_lineage_parents c) (ck_lineage_children c) (ck_supersedes c)
    (ck_superseded_by c) (ck_policy_version c) (ck_runtime_descriptor c)
    (ck_hardware_descriptor c) (ck_dependencies c) (ck_integrity_state c) (ck_lifecycle c)
    (ck_restore_count c) (ck_last_restore_result c) (ck_protection c)
    (ck_retirement_eligibility c) (ck_metadata c) (ck_manifest_digest c) (ck_manifest_json c).

(** [CheckpointObject::is_restorable]. *)
Definition checkpoint_is_restorable (c : CheckpointObject) : bool :=
  lifecycle_is_restorable (ck_lifecycle c) && bool_decide (ck_integrity_state c = Valid).

(** [compatibility::sample_checkpoint], with the identities and the descriptor it
    draws as arguments. *)
Definition sample_checkpoint (cid wid : Id) (rt : RuntimeCompatibilityDescriptor) : CheckpointObject :=
  {| ck_checkpoint_id := cid; ck_workload_id := wid; ck_workload_generation := 0;
     ck_checkpoint_generation := 1; ck_parent_checkpoint := None; ck_capture_attempt := "a";
     ck_coordinator_epoch := 1; ck_created_ms := 0; ck_seal_ms := 0; ck_source_node := "n";
     ck_source_backend := "cpu"; ck_frontier := ExecutionFrontier_default;
     ck_checkpoint_type := Full; ck_consistency := ApplicationConsistent;
     ck_resumability := Exact; ck_components := []; ck_total_logical_bytes := 0;
     ck_total_physical_bytes := 0; ck_compressed_bytes := 0; ck_durable_locations := [];
     ck_replica_count := 1; ck_lineage_parents := []; ck_lineage_children := [];
     ck_supersedes := None; ck_superseded_by := None; ck_policy_version := 1;
     ck_runtime_descriptor := rt;
     ck_hardware_descriptor := HardwareCompatibilityDescriptor_default;
     ck_dependencies := []; ck_integrity_state := Valid; ck_lifecycle := Available;
     ck_restore_count := 0; ck_last_restore_result := None; ck_protection := Unprotected;
     ck_retirement_eligibility := Eligible; ck_metadata := "{}";
     ck_manifest_digest := None; ck_manifest_json := None |}.

(** [RuntimeCompatibilityDescriptor::local_default] on a machine with the given
    [std::env::consts] and crate version. *)
Definition local_default (os arch version : string) : RuntimeCompatibilityDescriptor :=
  {| rt_os := os; rt_arch := arch; rt_runtime_version := "checkpoint-fabric/" +:+ version;
     rt_state_schema_version := 1; rt_workload_class := "generic"; rt_backend_class := "cpu";
     rt_accelerator_capabilities := []; rt_provider_versions := ∅; rt_application := None |}.

(** * Lemmas *)

Lemma validate_for_exact_Ok (m : SideEffectManifest) (u : unit) :
  validate_for_exact m = Ok u <->
  (forall e, e ∈ sem_entries m -> se_status e <> Unknown /\ se_status e <> NonReplayable).
Proof.
  unfold validate_for_exact. rewrite for_each_Ok.
  split; intros H e He; specialize (H e He); destruct (se_status e); naive_solver.
Qed.

Lemma consistency_rank_inj (a b : ConsistencyClass) :
  consistency_rank a = consistency_rank b -> a = b.
Proof. by destruct a, b. Qed.

(** A name stands for one value. *)
#[export] Instance checkpoint_type_as_str_inj : Inj (=) (=) checkpoint_type_as_str.
Proof. by intros [] []. Qed.
#[export] Instance resumability_as_str_inj : Inj (=) (=) resumability_as_str.
Proof. by intros [] []. Qed.
#[export] Instance integrity_as_str_inj : Inj (=) (=) integrity_as_str.
Proof. by intros [] []. Qed.
#[export] Instance component_type_as_str_inj : Inj (=) (=) component_type_as_str.
Proof. by intros [] []. Qed.
#[export] Instance side_effect_as_str_inj : Inj (=) (=) side_effect_as_str.
Proof. by intros [] []. Qed.

Lemma resumability_rank_inj (a b : ResumabilityClass) :
  resumability_rank a = resumability_rank b -> a = b.
Proof. by destruct a, b. Qed.
