(* ===== verification/Json.v ===== *)
(** JSON values ([serde_json::Value]) as far as the coordinator takes them apart: the
    [resources] text of a node, whose members the registration and the heartbeat read
    and rewrite ([src/src/coordinator.rs]).  Parsing and printing of texts is the
    interface [JsonCodec]; an object is a map, as in [serde_json] without
    [preserve_order]. *)
From S2P Require Import Prelude Errors Checkpoint.

#[warnings="-register-all"]
Inductive Json : Type :=
| JNull
| JBool (b : bool)
| JNumber (text : string)
| JString (s : string)
| JArray (l : list Json)
| JObject (m : gmap string Json).

(** [Value::get] of a member, [as_object], [as_str]. *)
Definition json_object (v : Json) : option (gmap string Json) :=
  match v with JObject m => Some m | _ => None end.

Definition json_get (key : string) (v : Json) : option Json := m ← json_object v; m !! key.

Definition json_str (v : Json) : option string := match v with JString s => Some s | _ => None end.

(** [as_object_mut] followed by [insert], and a change under [get_mut]. *)
Definition json_set (key : string) (x v : Json) : Json :=
  match v with JObject m => JObject (<[key := x]> m) | _ => v end.

Definition json_alter (key : string) (f : Json -> Json) (v : Json) : Json :=
  match v with JObject m => JObject (alter f key m) | _ => v end.

(** [to_value] of a map of texts. *)
Definition json_texts (m : gmap string string) : Json := JObject (JString <$> m).

(** Texts, and the descriptors the coordinator stores in them. *)
Class JsonCodec := {
  json_parse : JsonText -> option Json;
  json_print : Json -> JsonText;
  json_to_runtime : Json -> option RuntimeCompatibilityDescriptor;
  json_of_runtime : RuntimeCompatibilityDescriptor -> Json;
  json_of_hardware : HardwareCompatibilityDescriptor -> Json
}.

(** ** The [resources] of a node *)

(** The text of [resources], as [json!] builds it. *)
Definition resources_object (data_dir runtime hardware details : Json) : Json :=
  JObject (list_to_map [("data_dir", data_dir); ("runtime", runtime);
                        ("hardware", hardware); ("details", details)]).

(** The provider versions of a runtime descriptor are replaced... *)
Definition set_provider_versions (versions : gmap string string) (resources : Json) : Json :=
  json_alter "runtime" (json_set "provider_versions" (json_texts versions)) resources.

(** ... or merged under those given, a version that is not a text read as empty. *)
Definition merged_versions (versions : gmap string string) (runtime : Json) : gmap string string :=
  versions ∪ match json_get "provider_versions" runtime ≫= json_object with
             | Some pv => (fun v => default "" (json_str v)) <$> pv
             | None => ∅
             end.

Definition merge_provider_versions (versions : gmap string string) (resources : Json) : Json :=
  json_alter "runtime" (fun rt => json_set "provider_versions" (json_texts (merged_versions versions rt)) rt)
    resources.

(** What a heartbeat makes of the stored resources: the descriptors of the
    registration stay, the details and the provider versions are new. *)
Definition heartbeat_resources (existing details : Json) (versions : gmap string string) : Json :=
  set_provider_versions versions
    (resources_object (default (JString "") (json_get "data_dir" existing))
       (default (JObject ∅) (json_get "runtime" existing))
       (default (JObject ∅) (json_get "hardware" existing)) details).

(** ** Laws *)

Lemma json_get_set key x m : json_get key (json_set key x (JObject m)) = Some x.
Proof. unfold json_get, json_set, json_object. cbn. by rewrite lookup_insert_eq. Qed.

Lemma json_get_set_ne key key' x v : key <> key' -> json_get key (json_set key' x v) = json_get key v.
Proof.
  intros Hne. destruct v; try done. unfold json_get, json_set, json_object. cbn.
  by rewrite lookup_insert_ne.
Qed.

Lemma json_get_alter key f v : json_get key (json_alter key f v) = f <$> json_get key v.
Proof. destruct v; try done. unfold json_get, json_alter, json_object. cbn. apply lookup_alter_eq. Qed.

Lemma json_get_alter_ne key key' f v :
  key <> key' -> json_get key (json_alter key' f v) = json_get key v.
Proof.
  intros Hne. destruct v; try done. unfold json_get, json_alter, json_object. cbn.
  by rewrite lookup_alter_ne.
Qed.

Lemma json_object_texts m : json_object (json_texts m) = Some (JString <$> m).
Proof. done. Qed.

Lemma resources_members d r h x :
  json_get "data_dir" (resources_object d r h x) = Some d /\
  json_get "runtime" (resources_object d r h x) = Some r /\
  json_get "hardware" (resources_object d r h x) = Some h /\
  json_get "details" (resources_object d r h x) = Some x.
Proof. by vm_compute. Qed.
