(* ===== verification/Workload.v ===== *)
(** Workload identity and fencing ([src/src/workload.rs]). *)
From S2P Require Import Prelude Errors Ident Lifecycle Checkpoint.

Record ProtectionSpec := mkProtectionSpec {
  ps_protected_generations : Z;
  ps_allow_pin : bool
}.

Definition ProtectionSpec_default : ProtectionSpec := mkProtectionSpec 1 true.

Record WorkloadSpec := mkWorkloadSpec {
  ws_workload_id : option Id;
  ws_owner : string;
  ws_class : string;
  ws_backend_class : string;
  ws_state_schema_version : Z;
  ws_runtime : RuntimeCompatibilityDescriptor;
  ws_metadata : JsonText;
  ws_protection : ProtectionSpec;
  ws_single_active : bool
}.

Record Workload := mkWorkload {
  w_workload_id : Id;
  w_workload_generation : Z;
  w_owner : string;
  w_class : string;
  w_created_ms : Z;
  w_execution_epoch : Z;
  w_active_node : option string;
  w_backend_class : string;
  w_checkpoint_generation : Z;
  w_parent_workload : option Id;
  w_fork_generation : Z;
  w_policy_version : Z;
  w_metadata : JsonText;
  w_state_schema_version : Z;
  w_runtime : RuntimeCompatibilityDescriptor;
  w_resumability_class : ResumabilityClass;
  w_protection : ProtectionSpec;
  w_single_active : bool;
  w_fence_token : option string;
  w_fence_epoch : Z
}.

#[export] Instance eta_Workload : Settable Workload := fun w =>
  mkWorkload (w_workload_id w) (w_workload_generation w) (w_owner w) (w_class w)
    (w_created_ms w) (w_execution_epoch w) (w_active_node w) (w_backend_class w)
    (w_checkpoint_generation w) (w_parent_workload w) (w_fork_generation w)
    (w_policy_version w) (w_metadata w) (w_state_schema_version w) (w_runtime w)
    (w_resumability_class w) (w_protection w) (w_single_active w) (w_fence_token w)
    (w_fence_epoch w).

(** [Workload::is_fenced]. *)
Definition is_fenced (w : Workload) : bool :=
  is_none (w_fence_token w) || is_none (w_active_node w).

(** [Workload::validate_fence]; its error is a plain string in the source. *)
Definition validate_fence (w : Workload) (actor token : string) : unit + string :=
  if negb (bool_decide (w_active_node w = Some actor)) then
    inr "actor {actor} is not the active continuation {:?}"
  else
    match w_fence_token w with
    | None => inr "workload has no active authority"
    | Some t =>
        if negb (bool_decide (t = token)) then
          inr "stale fence token from {actor}; workload is fenced by another continuation"
        else inl tt
    end.

Definition fence_valid (w : Workload) (actor token : string) : bool :=
  match validate_fence w actor token with inl _ => true | inr _ => false end.

(** * Lemmas *)

Lemma fence_valid_iff (w : Workload) (actor token : string) :
  fence_valid w actor token = true <->
  w_active_node w = Some actor /\ w_fence_token w = Some token.
Proof.
  unfold fence_valid, validate_fence.
  destruct (bool_decide (w_active_node w = Some actor)) eqn:E; bool_facts; cbn.
  - destruct (w_fence_token w) as [t |]; cbn; [| naive_solver].
    destruct (bool_decide (t = token)) eqn:Et; bool_facts; naive_solver.
  - naive_solver.
Qed.

Lemma is_fenced_false (w : Workload) :
  is_fenced w = false <-> exists n t, w_active_node w = Some n /\ w_fence_token w = Some t.
Proof.
  unfold is_fenced, is_none, is_some.
  destruct (w_fence_token w), (w_active_node w); cbn; naive_solver.
Qed.
