(* ===== verification/Compression.v ===== *)
(** Component compression ([src/src/compression.rs]).

    The [none] codec is modelled in full; [zstd] is a parameter ([Zstd]), with the
    laws of its encoder and of [Decoder::new(..).take(n).read_to_end(..)] in
    [ZstdLaws].  The streaming variants are in [Streams]. *)
From S2P Require Import Prelude Errors.
From Stdlib Require Import Strings.Byte.

Inductive Codec : Type := CodecNone | CodecZstd.

#[export] Instance Codec_eq_dec : EqDecision Codec.
Proof. solve_decision. Defined.

Definition codec_as_str (c : Codec) : string :=
  match c with CodecNone => "none" | CodecZstd => "zstd" end.

Definition from_str_strict (s : string) : FabricResult Codec :=
  if bool_decide (s = "none") then Ok CodecNone
  else if bool_decide (s = "zstd") then Ok CodecZstd
  else Err (UnsupportedBackend "unknown compression codec '{other}'").

Record CompressionSpec := mkCompressionSpec {
  cs_codec : Codec;
  cs_level : Z;
  cs_format_version : string
}.

Definition CompressionSpec_none : CompressionSpec := mkCompressionSpec CodecNone 0 "1".

(** [level.clamp(1, 22)]. *)
Definition CompressionSpec_zstd (level : Z) : CompressionSpec :=
  mkCompressionSpec CodecZstd (Z.max 1 (Z.min 22 level)) "1".

Definition is_compressed (s : CompressionSpec) : bool :=
  negb (bool_decide (cs_codec s = CodecNone)).

Class Zstd := {
  (** [zstd::stream::encode_all(payload, level)]. *)
  zstd_encode_all : list byte -> Z -> option (list byte);
  (** [Decoder::new(stored)?.take(n).read_to_end(&mut out)?]. *)
  zstd_read_to_end : list byte -> Z -> option (list byte)
}.

(** A decoder reads back what the encoder was given, up to the [take] limit. *)
Class ZstdLaws (Zs : Zstd) := {
  zstd_decode_encode : forall p l s n,
    zstd_encode_all p l = Some s -> 0 <= n ->
    zstd_read_to_end s n = Some (take (Z.to_nat n) p)
}.

(** [v.len() as u64]. *)
Definition byte_len (l : list byte) : Z := Z.of_nat (length l).

Section codec.
Context {Zs : Zstd}.

Definition compress_bytes (spec : CompressionSpec) (payload : list byte)
    : FabricResult (list byte) :=
  match cs_codec spec with
  | CodecNone => Ok payload
  | CodecZstd => ok_or (zstd_encode_all payload (cs_level spec)) (Internal "zstd encode: {e}")
  end.

Definition decompress_bytes (spec : CompressionSpec) (stored : list byte) (max_output : Z)
    : FabricResult (list byte) :=
  match cs_codec spec with
  | CodecNone =>
      reject_if (max_output <? byte_len stored)
        (IntegrityFailure "stored payload exceeds bounded output size") ;;
      Ok stored
  | CodecZstd =>
      out ← ok_or (zstd_read_to_end stored (saturating_add max_output 1))
              (Internal "zstd decode: {e}");
      reject_if (max_output <? byte_len out)
        (IntegrityFailure "decompressed payload exceeds bounded output size") ;;
      Ok out
  end.
End codec.

(** ** A concrete codec for the witnesses: the identity, with the [take] bound. *)
Definition identity_zstd : Zstd :=
  {| zstd_encode_all := fun p _ => Some p;
     zstd_read_to_end := fun s n => Some (take (Z.to_nat (Z.min n (byte_len s))) s) |}.

(** * Lemmas and properties *)

#[export] Instance identity_zstd_laws : ZstdLaws identity_zstd.
Proof.
  split. cbn. intros p l s n [= <-] _. f_equal. destruct (Z.le_ge_cases n (byte_len p)) as [Hn | Hn].
  - by rewrite Z.min_l.
  - rewrite Z.min_r by done. unfold byte_len in *. rewrite Nat2Z.id, !take_ge by lia. done.
Qed.

Section codec_theorems.
Context {Zs : Zstd} {L : ZstdLaws Zs}.

Lemma decompress_bounded (spec : CompressionSpec) (stored out : list byte) (max_output : Z) :
  decompress_bytes spec stored max_output = Ok out -> byte_len out <= max_output.
Proof.
  unfold decompress_bytes. intros H.
  destruct (cs_codec spec); invert_ok H; simplify_eq;
    match goal with Hr : reject_if _ _ = Ok _ |- _ => apply reject_if_Ok in Hr end;
    bool_facts; lia.
Qed.

Lemma decompress_compressed (spec : CompressionSpec) (payload stored : list byte) (max_output : Z) :
  compress_bytes spec payload = Ok stored -> is_u64 max_output -> byte_len payload <= u64_max ->
  is_ok (decompress_bytes spec stored max_output) = (byte_len payload <=? max_output) /\
  (byte_len payload <= max_output -> decompress_bytes spec stored max_output = Ok payload).
Proof.
  unfold compress_bytes, decompress_bytes, is_u64. intros Hc Hm Hp.
  assert (Hz : 0 <= byte_len payload) by (unfold byte_len; lia).
  destruct (cs_codec spec).
  - injection Hc as ->. rewrite Z.ltb_antisym.
    destruct (Z.leb_spec (byte_len stored) max_output); cbn; split; (done || lia).
  - apply ok_or_Ok in Hc.
    rewrite (zstd_decode_encode payload (cs_level spec) stored) by
      (done || unfold saturating_add, u64_max; lia).
    cbn. unfold byte_len, saturating_add in *. rewrite length_take, Z.ltb_antisym.
    destruct (Z.leb_spec (Z.of_nat (length payload)) max_output).
    + rewrite take_ge by lia. rewrite (proj2 (Z.leb_le _ _)) by lia. done.
    + rewrite (proj2 (Z.leb_gt _ _)) by lia. cbn. split; [done | lia].
Qed.

(** Whatever the codec and level, a compressed payload
    decompresses to itself when it fits in the output bound, and is refused when
    it does not; and no stored bytes at all - corrupted or hostile - decode to
    more than [max_output] bytes. *)
Theorem compress_decompress_roundtrip (spec : CompressionSpec)
    (payload stored hostile out : list byte) (max_output : Z) :
  compress_bytes spec payload = Ok stored -> is_u64 max_output -> byte_len payload <= u64_max ->
  (byte_len payload <= max_output -> decompress_bytes spec stored max_output = Ok payload) /\
  (max_output < byte_len payload -> is_err (decompress_bytes spec stored max_output) = true) /\
  (decompress_bytes spec hostile max_output = Ok out -> byte_len out <= max_output).
Proof.
  intros Hc Hm Hp. destruct (decompress_compressed spec payload stored max_output) as [H1 H2]; try done.
  split_and!; [done | | apply decompress_bounded].
  intros Hlt. unfold is_err. rewrite H1. apply negb_true_iff, Z.leb_gt, Hlt.
Qed.
End codec_theorems.

Example compress_decompress_roundtrip_witness :
  @decompress_bytes identity_zstd (CompressionSpec_zstd 3) [x01; x02] 2 = Ok [x01; x02] /\
  is_err (@decompress_bytes identity_zstd (CompressionSpec_zstd 3) [x01; x02] 1) = true.
Proof.
  split.
  - refine (proj1 (@compress_decompress_roundtrip identity_zstd identity_zstd_laws
      (CompressionSpec_zstd 3) [x01; x02] [x01; x02] [] [] 2 eq_refl _ _) _);
      unfold is_u64, byte_len, u64_max; cbn; lia.
  - refine (proj1 (proj2 (@compress_decompress_roundtrip identity_zstd identity_zstd_laws
      (CompressionSpec_zstd 3) [x01; x02] [x01; x02] [] [] 1 eq_refl _ _)) _);
      unfold is_u64, byte_len, u64_max; cbn; lia.
Defined.
