(* ===== verification/Streams.v ===== *)
(** Streaming compression ([compress_stream], [decompress_stream] of
    [src/src/compression.rs]).

    A reader is the list of what its reads yield, a writer is the bytes it has taken; it may
    refuse a write, of which it then has some part.  The encoder of zstd is a machine that
    emits bytes for what it is given, the decoder turns the reads of its input into reads
    of its output; [ZstdStreamLaws] says that the second undoes the first, however the bytes
    are cut.  The buffers of one megabyte only delay writes. *)
From S2P Require Import Prelude Errors Compression.
From Stdlib Require Import Strings.Byte.

(** * Definitions *)

Inductive StreamRead : Type := Chunk (bytes : list byte) | Broken.

Class ZstdStream := {
  Encoder : Type;
  encoder_new : Z -> option Encoder;
  encoder_write : Encoder -> list byte -> option (Encoder * list byte);
  encoder_finish : Encoder -> option (list byte);
  decoder_new : list StreamRead -> option (list StreamRead)
}.

(** Whether a writer that has some bytes takes more, and how many of them when it fails;
    whether it can be flushed. *)
Class Writer := {
  writer_takes : list byte -> list byte -> bool;
  writer_part : list byte -> list byte -> nat;
  writer_flushes : list byte -> bool
}.

Record CompressionStats := mkCompressionStats { st_original_size : Z; st_stored_size : Z }.

(** [CountingWriter]: the bytes the inner writer has taken, and their count. *)
Record CountingWriter := mkCountingWriter { cw_inner : list byte; cw_bytes : Z }.

Section streams.
Context `{ZstdStream, Writer}.

Definition stream_error : FabricError := error_from_io "{e}".

Definition inner_write (bytes : list byte) : M (list byte) unit := fun w =>
  if writer_takes w bytes then (Done tt, w ++ bytes) else (Raise stream_error, w ++ take (writer_part w bytes) bytes).
Definition inner_flush : M (list byte) unit := fun w =>
  if writer_flushes w then (Done tt, w) else (Raise stream_error, w).

Definition on_inner {A} (m : M (list byte) A) : M CountingWriter A := fun c =>
  let '(o, w) := m (cw_inner c) in (o, mkCountingWriter w (cw_bytes c)).

Definition add_count (n : Z) : M CountingWriter unit := fun c =>
  (Done tt, mkCountingWriter (cw_inner c) (saturating_add (cw_bytes c) n)).
Definition get_count : M CountingWriter Z := fun c => (Done (cw_bytes c), c).

(** [CountingWriter::write], to the end of the bytes. *)
Definition counting_write (bytes : list byte) : M CountingWriter unit :=
  on_inner (inner_write bytes) ;; add_count (byte_len bytes).

(** The loop of the codec [none]. *)
Fixpoint copy_all (reads : list StreamRead) (original : Z) : M CountingWriter Z :=
  match reads with
  | [] | Chunk [] :: _ => mret original
  | Broken :: _ => raise stream_error
  | Chunk bytes :: reads' =>
      let original := wrapping_add original (byte_len bytes) in
      counting_write bytes ;; copy_all reads' original
  end.

(** The loop of the codec [zstd]. *)
Fixpoint encode_all (enc : Encoder) (reads : list StreamRead) (original : Z) : M CountingWriter (Encoder * Z) :=
  match reads with
  | [] | Chunk [] :: _ => mret (enc, original)
  | Broken :: _ => raise stream_error
  | Chunk bytes :: reads' =>
      let original := wrapping_add original (byte_len bytes) in
      match encoder_write enc bytes with
      | None => raise stream_error
      | Some (enc', out) => counting_write out ;; encode_all enc' reads' original
      end
  end.

(** The end of [compress_stream]: the count is taken between two flushes. *)
Definition finish_stream (original : Z) : M CountingWriter CompressionStats :=
  on_inner inner_flush ;;
  stored ← get_count;
  map_err (on_inner inner_flush) (Internal "flush: {e}") ;;
  mret (mkCompressionStats original stored).

Definition compress_stream (spec : CompressionSpec) (reads : list StreamRead) : M CountingWriter CompressionStats :=
  original ← match cs_codec spec with
             | CodecNone => copy_all reads 0
             | CodecZstd =>
                 enc ← lift (ok_or (encoder_new (cs_level spec)) (Internal "zstd encoder: {e}"));
                 r ← encode_all enc reads 0;
                 let '(enc', original) := r in
                 out ← lift (ok_or (encoder_finish enc') (Internal "zstd finish: {e}"));
                 map_err (counting_write out) (Internal "zstd finish: {e}") ;;
                 mret original
             end;
  finish_stream original.

(** The loop of both codecs over what is read: nothing is written beyond the bound. *)
Fixpoint copy_bounded (max_output : Z) (reads : list StreamRead) (out : Z) : M (list byte) Z :=
  match reads with
  | [] | Chunk [] :: _ => mret out
  | Broken :: _ => raise stream_error
  | Chunk bytes :: reads' =>
      let out := wrapping_add out (byte_len bytes) in
      if max_output <? out then raise (IntegrityFailure "decompressed payload exceeds bounded output size") else
      inner_write bytes ;; copy_bounded max_output reads' out
  end.

Definition decompress_stream (spec : CompressionSpec) (reads : list StreamRead) (max_output : Z) : M (list byte) Z :=
  decoded ← match cs_codec spec with
            | CodecNone => mret reads
            | CodecZstd => lift (ok_or (decoder_new reads) (Internal "zstd decoder: {e}"))
            end;
  out ← copy_bounded max_output decoded 0;
  inner_flush ;;
  mret out.
End streams.

(** A stream that is cut into pieces, and ends. *)
Definition in_pieces (pieces : list (list byte)) : list StreamRead := map Chunk pieces ++ [Chunk []].
Definition cut (pieces : list (list byte)) (bytes : list byte) : Prop := concat pieces = bytes /\ Forall (fun p => p <> []) pieces.

(** What an encoder emits for some pieces, to the end. *)
Fixpoint emitted `{ZstdStream} (enc : Encoder) (pieces : list (list byte)) : option (list byte) :=
  match pieces with
  | [] => encoder_finish enc
  | p :: pieces' =>
      match encoder_write enc p with
      | Some (enc', out) => app out <$> emitted enc' pieces'
      | None => None
      end
  end.

Class ZstdStreamLaws (Zs : ZstdStream) := {
  zstd_stream_undone : forall level enc pieces s cuts,
    encoder_new level = Some enc -> emitted enc pieces = Some s -> cut cuts s ->
    exists pieces', decoder_new (in_pieces cuts) = Some (in_pieces pieces') /\ cut pieces' (concat pieces)
}.

(** A writer that takes everything. *)
Class Takes (W : Writer) := {
  takes_all : forall w bytes, writer_takes w bytes = true;
  flushes_all : forall w, writer_flushes w = true
}.

(** * Lemmas *)

(** What one read yields at most. *)
Definition READ_BUFFER : Z := 2 ^ 20.

Section bounded.
Context `{ZstdStream, Writer}.

Lemma copy_bounded_bound max_output reads : 0 <= max_output -> max_output + READ_BUFFER <= u64_max -> forall out w,
  0 <= out <= max_output -> Forall (fun r => match r with Chunk c => byte_len c <= READ_BUFFER | Broken => True end) reads ->
  byte_len (copy_bounded max_output reads out w).2 + out <= byte_len w + max_output.
Proof.
  intros H0' Hm. unfold byte_len. induction reads as [| [[| b bytes] |] reads IH]; intros out w Ho Hr; cbn [copy_bounded];
    try (cbn; lia).
  apply Forall_cons in Hr as [Hb Hr]. unfold byte_len in *. generalize dependent (b :: bytes). intros c Hb.
  unfold is_u64, wrapping_add in *. change (2 ^ 64) with (u64_max + 1). rewrite Z.mod_small by lia.
  destruct (Z.ltb_spec max_output (out + Z.of_nat (length c))); cbn; [lia |].
  unfold mbind, M_bind, inner_write. destruct (writer_takes w c); cbn.
  - specialize (IH (out + Z.of_nat (length c)) (w ++ c) ltac:(lia) Hr). rewrite length_app in IH. lia.
  - rewrite length_app, length_take. lia.
Qed.
End bounded.

Section round_trip.
Context `{ZstdStream, Writer, !Takes _}.

Lemma inner_write_takes bytes w : inner_write bytes w = (Done tt, w ++ bytes).
Proof. unfold inner_write. by rewrite takes_all. Qed.

Lemma inner_flush_takes w : inner_flush w = (Done tt, w).
Proof. unfold inner_flush. by rewrite flushes_all. Qed.

Lemma counting_write_takes bytes c : counting_write bytes c =
  (Done tt, mkCountingWriter (cw_inner c ++ bytes) (saturating_add (cw_bytes c) (byte_len bytes))).
Proof. unfold counting_write, on_inner, mbind, M_bind. by rewrite inner_write_takes. Qed.

Lemma byte_len_app a b : byte_len (a ++ b) = byte_len a + byte_len b.
Proof. unfold byte_len. rewrite length_app. lia. Qed.

Lemma byte_len_nonneg a : 0 <= byte_len a.
Proof. unfold byte_len. lia. Qed.

(** The count is that of the bytes taken. *)
Definition counted (c : CountingWriter) : Prop := cw_bytes c = Z.min u64_max (byte_len (cw_inner c)).

Lemma counted_write bytes c c' : counted c -> counting_write bytes c = (Done tt, c') ->
  counted c' /\ cw_inner c' = cw_inner c ++ bytes.
Proof.
  rewrite counting_write_takes. intros Hc [= <-]. split; [| done]. unfold counted in *. cbn. rewrite Hc, byte_len_app.
  pose proof (byte_len_nonneg bytes). unfold saturating_add. lia.
Qed.

Lemma in_pieces_cons p pieces : in_pieces (p :: pieces) = Chunk p :: in_pieces pieces.
Proof. done. Qed.

Lemma copy_all_pieces pieces : Forall (fun p => p <> []) pieces -> forall o c, 0 <= o -> o + byte_len (concat pieces) <= u64_max ->
  counted c -> exists c', copy_all (in_pieces pieces) o c = (Done (o + byte_len (concat pieces)), c') /\ counted c' /\
    cw_inner c' = cw_inner c ++ concat pieces.
Proof.
  induction 1 as [| p pieces Hp Hps IH]; intros o c Ho Hb Hc.
  { exists c. cbn. unfold byte_len. cbn. by rewrite Z.add_0_r, app_nil_r. }
  rewrite in_pieces_cons. cbn [concat] in *. rewrite byte_len_app in *.
  pose proof (byte_len_nonneg p). pose proof (byte_len_nonneg (concat pieces)). destruct p as [| b p]; [done |].
  cbn [copy_all]. rewrite wrapping_add_small by lia. unfold mbind, M_bind.
  destruct (counting_write (b :: p) c) as [[[] | e |] c1] eqn:E; [| by rewrite counting_write_takes in E..].
  destruct (counted_write _ _ _ Hc E) as [Hc1 Hi1].
  destruct (IH (o + byte_len (b :: p)) c1) as (c' & E' & Hc' & Hi'); [lia.. | done |].
  exists c'. rewrite E', Hi', Hi1, <- (assoc_L (++)). split; [do 2 f_equal; lia | done].
Qed.

Lemma encode_all_pieces pieces : Forall (fun p => p <> []) pieces -> forall enc o c enc' o' c',
  0 <= o -> o + byte_len (concat pieces) <= u64_max -> counted c ->
  encode_all enc (in_pieces pieces) o c = (Done (enc', o'), c') ->
  o' = o + byte_len (concat pieces) /\ counted c' /\
  exists s, cw_inner c' = cw_inner c ++ s /\ emitted enc pieces = app s <$> encoder_finish enc'.
Proof.
  induction 1 as [| p pieces Hp Hps IH]; intros enc o c enc' o' c' Ho Hb Hc E.
  { injection E as <- <- <-. unfold byte_len. cbn. split; [lia |]. split; [done |]. exists []. rewrite app_nil_r.
    split; [done |]. by destruct (encoder_finish enc). }
  rewrite in_pieces_cons in E. cbn [concat] in *. rewrite byte_len_app in *.
  pose proof (byte_len_nonneg p). pose proof (byte_len_nonneg (concat pieces)). destruct p as [| b p]; [done |].
  cbn [encode_all] in E. rewrite wrapping_add_small in E by lia. cbn [emitted].
  destruct (encoder_write enc (b :: p)) as [[enc1 out] |]; [| done]. unfold mbind, M_bind in E.
  destruct (counting_write out c) as [[[] | e |] c1] eqn:E1; [| by rewrite counting_write_takes in E1..].
  destruct (counted_write _ _ _ Hc E1) as [Hc1 Hi1].
  destruct (IH enc1 (o + byte_len (b :: p)) c1 enc' o' c') as (Ho' & Hc' & s & Hs & He); [lia.. | done | done |].
  split; [lia |]. split; [done |]. exists (out ++ s). rewrite Hs, Hi1, He, <- (assoc_L (++)). split; [done |].
  destruct (encoder_finish enc'); [| done]. cbn. by rewrite <- (assoc_L (++)).
Qed.

Lemma copy_bounded_pieces max_output pieces : Forall (fun p => p <> []) pieces -> forall o w,
  0 <= o <= max_output -> o + byte_len (concat pieces) <= u64_max ->
  if o + byte_len (concat pieces) <=? max_output
  then copy_bounded max_output (in_pieces pieces) o w = (Done (o + byte_len (concat pieces)), w ++ concat pieces)
  else exists kept, copy_bounded max_output (in_pieces pieces) o w =
         (Raise (IntegrityFailure "decompressed payload exceeds bounded output size"), w ++ kept) /\
         kept `prefix_of` concat pieces /\ o + byte_len kept <= max_output.
Proof.
  induction 1 as [| p pieces Hp Hps IH]; intros o w Ho Hb.
  { unfold byte_len. cbn. rewrite Z.add_0_r, app_nil_r, (proj2 (Z.leb_le _ _)) by lia. done. }
  rewrite in_pieces_cons. cbn [concat] in *. rewrite byte_len_app in *.
  pose proof (byte_len_nonneg p). pose proof (byte_len_nonneg (concat pieces)). destruct p as [| b p]; [done |].
  cbn [copy_bounded]. rewrite wrapping_add_small by lia.
  destruct (Z.ltb_spec max_output (o + byte_len (b :: p))) as [Hlt | Hle].
  { rewrite (proj2 (Z.leb_gt _ _)) by lia. exists []. rewrite app_nil_r. split; [done |].
    split; [apply prefix_nil | unfold byte_len; cbn; lia]. }
  unfold mbind, M_bind. rewrite inner_write_takes. specialize (IH (o + byte_len (b :: p)) (w ++ b :: p) ltac:(lia) ltac:(lia)).
  rewrite <- (Z.add_assoc o) in IH. destruct (_ <=? max_output); [by rewrite IH, <- (assoc_L (++)) |].
  destruct IH as (kept & -> & Hk & Hkb). exists ((b :: p) ++ kept). rewrite (assoc_L (++)). split; [done |].
  split; [by apply prefix_app | rewrite byte_len_app; lia].
Qed.

Lemma finish_stream_takes original c : finish_stream original c = (Done (mkCompressionStats original (cw_bytes c)), c).
Proof.
  destruct c as [w n]. unfold finish_stream, map_err, attempt, mbind, M_bind, on_inner, get_count. cbn.
  by rewrite !inner_flush_takes.
Qed.

(** What a compressed stream is. *)
Lemma compress_stream_result spec pieces stats c : Forall (fun p => p <> []) pieces -> byte_len (concat pieces) <= u64_max ->
  compress_stream spec (in_pieces pieces) (mkCountingWriter [] 0) = (Done stats, c) ->
  st_original_size stats = byte_len (concat pieces) /\ st_stored_size stats = Z.min u64_max (byte_len (cw_inner c)) /\
  match cs_codec spec with
  | CodecNone => cw_inner c = concat pieces
  | CodecZstd => exists enc, encoder_new (cs_level spec) = Some enc /\ emitted enc pieces = Some (cw_inner c)
  end.
Proof.
  intros Hp Hb E. assert (Hc0 : counted (mkCountingWriter [] 0)) by (unfold counted, byte_len; cbn; done).
  unfold compress_stream, mbind, M_bind in E.
  destruct (cs_codec spec).
  - destruct (copy_all_pieces pieces Hp 0 (mkCountingWriter [] 0) ltac:(lia) ltac:(lia) Hc0) as (c1 & E1 & Hc1 & Hi1).
    rewrite E1, finish_stream_takes in E. injection E as <- <-. cbn. split; [lia |]. split; [exact Hc1 | exact Hi1].
  - destruct (encoder_new (cs_level spec)) as [enc |] eqn:En; [| done]. cbn [ok_or lift] in E.
    destruct (encode_all enc (in_pieces pieces) 0 (mkCountingWriter [] 0)) as [[[enc' o'] | e |] c1] eqn:Ee; [| done..].
    destruct (encode_all_pieces pieces Hp enc 0 _ enc' o' c1 ltac:(lia) ltac:(lia) Hc0 Ee) as (-> & Hc1 & s & Hs & Hem).
    destruct (encoder_finish enc') as [out |] eqn:Ef; [| done]. cbn [ok_or lift] in E.
    unfold map_err at 1, attempt at 1, mbind, M_bind in E.
    destruct (counting_write out c1) as [[[] | e |] c2] eqn:E2; [| by rewrite counting_write_takes in E2..].
    destruct (counted_write _ _ _ Hc1 E2) as [Hc2 Hi2]. cbn in E. rewrite finish_stream_takes in E. injection E as <- <-. cbn. split; [lia |]. split; [exact Hc2 |].
    exists enc. split; [done |]. rewrite Hem. cbn. by rewrite Hi2, Hs.
Qed.

(** C38.  A stream that was compressed reports its sizes, and decompresses, however it is
    cut, to the bytes it was made from when they fit in the bound; when they do not it is
    refused, and what was written by then is a beginning of them within the bound. *)
Theorem stream_round_trip `{!ZstdStreamLaws _} spec pieces payload cuts max_output stats c :
  cut pieces payload -> byte_len payload <= u64_max -> 0 <= max_output ->
  compress_stream spec (in_pieces pieces) (mkCountingWriter [] 0) = (Done stats, c) ->
  cut cuts (cw_inner c) ->
  st_original_size stats = byte_len payload /\ st_stored_size stats = Z.min u64_max (byte_len (cw_inner c)) /\
  if byte_len payload <=? max_output
  then decompress_stream spec (in_pieces cuts) max_output [] = (Done (byte_len payload), payload)
  else exists kept, decompress_stream spec (in_pieces cuts) max_output [] =
         (Raise (IntegrityFailure "decompressed payload exceeds bounded output size"), kept) /\
         kept `prefix_of` payload /\ byte_len kept <= max_output.
Proof.
  intros [<- Hp] Hb Hm Hc Hcut. destruct (compress_stream_result spec pieces stats c Hp Hb Hc) as (Ho & Hs & Hcodec).
  split; [exact Ho |]. split; [exact Hs |].
  assert (Hdec : exists pieces', cut pieces' (concat pieces) /\ forall w, decompress_stream spec (in_pieces cuts) max_output w =
    (out ← copy_bounded max_output (in_pieces pieces') 0; inner_flush ;; mret out) w).
  { unfold decompress_stream. destruct (cs_codec spec).
    - exists cuts. by rewrite <- Hcodec.
    - destruct Hcodec as (enc & Hn & He). destruct (zstd_stream_undone _ _ _ _ _ Hn He Hcut) as (pieces' & Hd & Hcut').
      exists pieces'. by rewrite Hd. }
  destruct Hdec as (pieces' & [Hcat Hp'] & Hdec). rewrite Hdec. unfold mbind, M_bind.
  pose proof (copy_bounded_pieces max_output pieces' Hp' 0 [] ltac:(lia)) as Hcopy. rewrite Hcat, Z.add_0_l in Hcopy.
  specialize (Hcopy Hb). destruct (_ <=? max_output).
  - rewrite Hcopy. by rewrite inner_flush_takes.
  - destruct Hcopy as (kept & -> & Hk & Hkb). by exists kept.
Qed.
End round_trip.

(** A codec that stores what it is given, and a writer that takes everything. *)
Definition storing_stream : ZstdStream :=
  {| Encoder := unit; encoder_new := fun _ => Some tt; encoder_write := fun _ bytes => Some (tt, bytes);
     encoder_finish := fun _ => Some []; decoder_new := Some |}.
Definition taking_writer : Writer :=
  {| writer_takes := fun _ _ => true; writer_part := fun _ _ => O; writer_flushes := fun _ => true |}.

Lemma storing_stream_laws : ZstdStreamLaws storing_stream.
Proof.
  split. intros level enc pieces s cuts _ He Hcut. exists cuts. split; [done |].
  assert (Hs : forall e ps, @emitted storing_stream e ps = Some (concat ps)).
  { intros e ps. revert e. induction ps as [| p ps IH]; intros e; [done |]. cbn. by rewrite IH. }
  rewrite Hs in He. by injection He as ->.
Qed.

Lemma taking_writer_takes : Takes taking_writer.
Proof. by split. Qed.

Example stream_round_trip_witness :
  exists stats c,
    @compress_stream storing_stream taking_writer (CompressionSpec_zstd 3) (in_pieces [[x01; x02]; [x03]]) (mkCountingWriter [] 0) =
      (Done stats, c) /\
    @decompress_stream storing_stream taking_writer (CompressionSpec_zstd 3) (in_pieces [[x01]; [x02; x03]]) 3 [] =
      (Done 3, [x01; x02; x03]).
Proof.
  do 2 eexists. split; [reflexivity |].
  refine (proj2 (proj2 (@stream_round_trip storing_stream taking_writer taking_writer_takes storing_stream_laws (CompressionSpec_zstd 3)
    [[x01; x02]; [x03]] [x01; x02; x03] [[x01]; [x02; x03]] 3 _ _ _ _ _ eq_refl _))).
  - split; [done | by repeat constructor].
  - unfold byte_len, u64_max. cbn. lia.
  - lia.
  - split; [done | by repeat constructor].
Defined.
