(* ===== verification/Policy.v ===== *)
(** The policy engine ([src/src/policy.rs]). *)
From S2P Require Import Prelude Errors Checkpoint Compression.

Record AuthorityPolicy := mkAuthorityPolicy {
  ap_capture : list string;
  ap_restore : list string;
  ap_seal : list string;
  ap_retire : list string;
  ap_migrate : list string;
  ap_fence : list string;
  ap_fork : list string;
  ap_rollback : list string;
  ap_verify : list string
}.

Definition AuthorityPolicy_default : AuthorityPolicy :=
  {| ap_capture := ["owner"]; ap_restore := ["owner"; "operator"]; ap_seal := ["owner"];
     ap_retire := ["operator"]; ap_migrate := ["operator"]; ap_fence := ["operator"];
     ap_fork := ["owner"]; ap_rollback := ["operator"]; ap_verify := ["operator"; "auditor"] |}.

Record CompatibilityPolicy := mkCompatibilityPolicy {
  cp_allow_cross_os : bool;
  cp_allow_cross_arch : bool;
  cp_schema_strict : bool
}.

Definition CompatibilityPolicy_default : CompatibilityPolicy :=
  {| cp_allow_cross_os := false; cp_allow_cross_arch := false; cp_schema_strict := true |}.

Record PolicySet := mkPolicySet {
  p_version : Z;
  p_min_capture_interval_ms : Z;
  p_max_checkpoint_age_ms : option Z;
  p_min_valid_replicas : Z;
  p_required_consistency : option ConsistencyClass;
  p_require_portable : bool;
  p_forbid_degraded_restore : bool;
  p_protected_generations : Z;
  p_min_generations_retained : Z;
  p_max_incremental_chain_depth : Z;
  p_single_active_default : bool;
  p_archive_restore_permitted : bool;
  p_max_component_bytes : option Z;
  p_compression : Codec;
  p_compression_level : Z;
  p_authority : AuthorityPolicy;
  p_compatibility : CompatibilityPolicy
}.

#[export] Instance eta_PolicySet : Settable PolicySet := fun p =>
  mkPolicySet (p_version p) (p_min_capture_interval_ms p) (p_max_checkpoint_age_ms p)
    (p_min_valid_replicas p) (p_required_consistency p) (p_require_portable p)
    (p_forbid_degraded_restore p) (p_protected_generations p) (p_min_generations_retained p)
    (p_max_incremental_chain_depth p) (p_single_active_default p)
    (p_archive_restore_permitted p) (p_max_component_bytes p) (p_compression p)
    (p_compression_level p) (p_authority p) (p_compatibility p).

Definition PolicySet_default : PolicySet :=
  {| p_version := 1; p_min_capture_interval_ms := 0; p_max_checkpoint_age_ms := None;
     p_min_valid_replicas := 1; p_required_consistency := None; p_require_portable := false;
     p_forbid_degraded_restore := false; p_protected_generations := 1;
     p_min_generations_retained := 1; p_max_incremental_chain_depth := 8;
     p_single_active_default := true; p_archive_restore_permitted := false;
     p_max_component_bytes := None; p_compression := CodecZstd; p_compression_level := 3;
     p_authority := AuthorityPolicy_default; p_compatibility := CompatibilityPolicy_default |}.

(** The JSON codec of a policy is [serde_json]. *)
Class PolicyCodec := {
  policy_to_string : PolicySet -> FabricResult string;
  policy_from_str : string -> option PolicySet
}.

(** [PolicySet::from_json]. *)
Definition policy_from_json `{PolicyCodec} (s : string) : FabricResult PolicySet :=
  p ← ok_or (policy_from_str s) (InvalidArgument "bad policy json: {e}");
  reject_if (p_version p =? 0) (InvalidArgument "policy version must be >= 1") ;;
  Ok p.

Definition has_role (roles : list string) (need : string) : bool :=
  existsb (fun r => bool_decide (r = need)) roles.

(** [PolicySet::authorize]. *)
Definition authorize (roles required_roles : list string) : FabricResult unit :=
  if is_empty_list required_roles then Ok tt
  else if has_role roles "operator" || has_role roles "root" then Ok tt
  else if existsb (has_role roles) required_roles then Ok tt
  else Err (PolicyViolation "actor roles {:?} lack required roles {:?}").

Definition compression_spec (p : PolicySet) : CompressionSpec :=
  match p_compression p with
  | CodecNone => CompressionSpec_none
  | CodecZstd => CompressionSpec_zstd (p_compression_level p)
  end.

Record Authority := mkAuthority { au_actor : string; au_roles : list string }.

Definition authority_operator (actor : string) : Authority := mkAuthority actor ["operator"].
Definition authority_owner (actor : string) : Authority := mkAuthority actor ["owner"].
Definition authority_named (actor : string) (roles : list string) : Authority := mkAuthority actor roles.

(** [Iterator::max_by_key] keeps the last of the maximal elements. *)
Definition max_by_version (policies : list PolicySet) : option PolicySet :=
  fold_left (fun best p =>
    match best with
    | None => Some p
    | Some b => if p_version b <=? p_version p then Some p else Some b
    end) policies None.

(** [policy::select]. *)
Definition select (policies : list PolicySet) (version : option Z) : FabricResult PolicySet :=
  match version with
  | None => ok_or (max_by_version policies) (PolicyViolation "no policies loaded")
  | Some v => ok_or (find_first (fun p => p_version p =? v) policies)
                (PolicyViolation "policy version {v} not found")
  end.

Definition enforce_consistency (policy : PolicySet) (achieved : ConsistencyClass) : FabricResult unit :=
  match p_required_consistency policy with
  | Some required =>
      reject_if (consistency_rank achieved <? consistency_rank required)
        (PolicyViolation "capture achieved {} but policy requires {}")
  | None => Ok tt
  end.

(** * Lemmas and properties *)

Lemma has_role_iff (roles : list string) (r : string) : has_role roles r = true <-> r ∈ roles.
Proof.
  unfold has_role. rewrite existsb_elem_of. split.
  - intros (x & Hx & Heq). bool_facts. by subst.
  - intros H. exists r. split; [done | by apply bool_decide_eq_true].
Qed.

Lemma authorize_Ok (roles required : list string) (u : unit) :
  authorize roles required = Ok u <->
  required = [] \/ "operator" ∈ roles \/ "root" ∈ roles \/ exists r, r ∈ required /\ r ∈ roles.
Proof.
  unfold authorize. destruct u, required as [| r0 rs]; cbn [is_empty_list]; [naive_solver |].
  destruct (has_role roles "operator") eqn:Eo.
  { apply has_role_iff in Eo. cbn. naive_solver. }
  destruct (has_role roles "root") eqn:Er.
  { apply has_role_iff in Er. cbn. naive_solver. }
  assert (H1 : "operator" ∉ roles) by (rewrite <- has_role_iff; congruence).
  assert (H2 : "root" ∉ roles) by (rewrite <- has_role_iff; congruence).
  cbn [orb]. destruct (existsb (has_role roles) (r0 :: rs)) eqn:Ex.
  - apply existsb_elem_of in Ex as (r & Hr & Hin). apply has_role_iff in Hin. naive_solver.
  - rewrite existsb_false in Ex. split; [done |].
    intros [? | [? | [? | (r & Hr & Hin)]]]; try done.
    apply has_role_iff in Hin. by rewrite (Ex r Hr) in Hin.
Qed.

Lemma max_by_version_acc (l : list PolicySet) (acc : option PolicySet) (p : PolicySet) :
  fold_left (fun best p =>
    match best with
    | None => Some p
    | Some b => if p_version b <=? p_version p then Some p else Some b
    end) l acc = Some p ->
  (acc = Some p \/ p ∈ l) /\
  (forall q, acc = Some q \/ q ∈ l -> p_version q <= p_version p).
Proof.
  revert acc. induction l as [| x l IH]; cbn; intros acc H.
  - split; [by left |]. intros q [Hq | Hq]; [by simplify_eq | by apply elem_of_nil in Hq].
  - apply IH in H as [Hin Hmax]. split.
    + destruct Hin as [Hin | Hin]; [| by right; right].
      destruct acc as [b |]; [| simplify_eq; right; left].
      destruct (_ <=? _); simplify_eq; [right; left | by left].
    + intros q [-> | Hq].
      * destruct (p_version q <=? p_version x) eqn:E; bool_facts.
        -- specialize (Hmax x (or_introl eq_refl)). lia.
        -- apply (Hmax q). by left.
      * apply elem_of_cons in Hq as [-> | Hq]; [| by apply Hmax; right].
        destruct acc as [b |]; [| by apply Hmax; left].
        destruct (p_version b <=? p_version x) eqn:E; bool_facts; [by apply Hmax; left |].
        specialize (Hmax b (or_introl eq_refl)). lia.
Qed.

Lemma max_by_version_None (l : list PolicySet) : max_by_version l = None <-> l = [].
Proof.
  unfold max_by_version.
  assert (H : forall l b, fold_left (fun best p =>
    match best with
    | None => Some p
    | Some b => if p_version b <=? p_version p then Some p else Some b
    end) l (Some b) <> None).
  { clear. induction l as [| x l IH]; cbn; intros b; [done |].
    destruct (_ <=? _); apply IH. }
  destruct l as [| x l]; cbn; [done |]. split; [intros E; by apply H in E | done].
Qed.

(** Authorization and policy selection.  An actor is authorized
    exactly when the operation asks for no role, or it has the [operator] or [root]
    role, or one of the roles asked for; every other actor gets a
    [PolicyViolation].  [select] without a version returns a loaded policy of
    maximal version and fails only on an empty list; with a version it returns a
    policy of that version and fails only when there is none. *)
Theorem authorize_select_spec (roles required : list string) (ps : list PolicySet)
    (v : Z) (p : PolicySet) :
  (authorize roles required = Ok tt <->
     required = [] \/ "operator" ∈ roles \/ "root" ∈ roles \/ exists r, r ∈ required /\ r ∈ roles) /\
  (select ps None = Ok p -> p ∈ ps /\ forall q, q ∈ ps -> p_version q <= p_version p) /\
  (is_err (select ps None) = true <-> ps = []) /\
  (select ps (Some v) = Ok p -> p ∈ ps /\ p_version p = v) /\
  (is_err (select ps (Some v)) = true <-> forall q, q ∈ ps -> p_version q <> v).
Proof.
  split_and!.
  - apply authorize_Ok.
  - cbn. rewrite ok_or_Ok. intros H. apply max_by_version_acc in H as [[? | Hin] Hmax]; [done |].
    split; [done | intros q Hq; apply Hmax; by right].
  - rewrite <- (max_by_version_None ps). cbn. by destruct (max_by_version ps).
  - cbn. rewrite ok_or_Ok. intros H. apply find_first_Some in H as [Hin Hv]. by bool_facts.
  - cbn. destruct (find_first _ _) as [q |] eqn:E; cbn; split; intros H; try done.
    + apply find_first_Some in E as [Hin Hv]. bool_facts. by destruct (H q Hin).
    + intros q Hq. rewrite find_first_None in E. specialize (E q Hq). by bool_facts.
Qed.

Example authorize_select_spec_witness :
  PolicySet_default ∈ [PolicySet_default] /\
  (forall q, q ∈ [PolicySet_default] -> p_version q <= p_version PolicySet_default).
Proof.
  exact (proj1 (proj2 (authorize_select_spec ["owner"] ["owner"] [PolicySet_default] 1
    PolicySet_default)) eq_refl).
Defined.
