(* ===== verification/Integrations.v ===== *)
(** What the program shows of a checkpoint to other systems ([src/src/integrations.rs] and
    [RetirementPolicyView] of [src/src/policy.rs]).  The coordinator fills the
    [ReclaimView] of its candidates itself ([Maintenance], which compares the two); the
    other views are called by nothing in the program. *)
From S2P Require Import Prelude Errors Ident Lifecycle Checkpoint Workload Compression Policy.
From Stdlib Require Import Strings.Ascii.

(** * Definitions *)

(** [u64::saturating_mul]. *)
Definition saturating_mul (a b : Z) : Z := Z.min u64_max (a * b).

(** ** Reclamation *)

Record ReclaimView := mkReclaimView {
  rw_checkpoint_id : Id;
  rw_workload_id : Id;
  rw_checkpoint_generation : Z;
  rw_lifecycle : string;
  rw_value : Z;
  rw_protection : ProtectionState;
  rw_reconstructibility : string;
  rw_lineage_parents : list Id;
  rw_superseded_by : option Id;
  rw_min_generations_retained : Z;
  rw_retirement_eligibility : RetirementEligibility;
  rw_total_physical_bytes : Z;
  rw_replicas : Z
}.

#[export] Instance eta_ReclaimView : Settable ReclaimView := fun v =>
  mkReclaimView (rw_checkpoint_id v) (rw_workload_id v) (rw_checkpoint_generation v) (rw_lifecycle v) (rw_value v)
    (rw_protection v) (rw_reconstructibility v) (rw_lineage_parents v) (rw_superseded_by v)
    (rw_min_generations_retained v) (rw_retirement_eligibility v) (rw_total_physical_bytes v) (rw_replicas v).

Definition reclaim_view (checkpoint : CheckpointObject) (min_generations_retained : Z) : ReclaimView :=
  {| rw_checkpoint_id := ck_checkpoint_id checkpoint;
     rw_workload_id := ck_workload_id checkpoint;
     rw_checkpoint_generation := ck_checkpoint_generation checkpoint;
     rw_lifecycle := lifecycle_as_str (ck_lifecycle checkpoint);
     rw_value := saturating_add (ck_restore_count checkpoint) (ck_replica_count checkpoint);
     rw_protection := ck_protection checkpoint;
     rw_reconstructibility := if checkpoint_is_restorable checkpoint then "restorable" else "not_restorable";
     rw_lineage_parents := ck_lineage_parents checkpoint;
     rw_superseded_by := ck_superseded_by checkpoint;
     rw_min_generations_retained := min_generations_retained;
     rw_retirement_eligibility := ck_retirement_eligibility checkpoint;
     rw_total_physical_bytes := ck_total_physical_bytes checkpoint;
     rw_replicas := ck_replica_count checkpoint |}.

Record RetirementPolicyView := mkRetirementPolicyView {
  rp_min_generations_retained : Z;
  rp_protected_generations : Z;
  rp_max_checkpoint_age_ms : option Z
}.

(** [From<&PolicySet>]. *)
Definition retirement_policy_view (p : PolicySet) : RetirementPolicyView :=
  mkRetirementPolicyView (p_min_generations_retained p) (p_protected_generations p) (p_max_checkpoint_age_ms p).

(** ** Placement *)

Record ComputePlacement := mkComputePlacement {
  cp_checkpoint_id : Id;
  cp_cpu_arch : string;
  cp_accelerator : option string;
  cp_memory_bytes : Z;
  cp_runtime_requirement : string;
  cp_state_locality : list string;
  cp_estimated_restore_bytes : Z;
  cp_network_cost_estimate : Z
}.

Definition compute_placement (checkpoint : CheckpointObject) : ComputePlacement :=
  let hw := ck_hardware_descriptor checkpoint in
  {| cp_checkpoint_id := ck_checkpoint_id checkpoint;
     cp_cpu_arch := hw_arch hw;
     cp_accelerator := (fun a => ar_vendor a +:+ ":" +:+ ar_capability a) <$> hw_accelerator hw;
     cp_memory_bytes := ck_total_logical_bytes checkpoint;
     cp_runtime_requirement := rt_runtime_version (ck_runtime_descriptor checkpoint);
     cp_state_locality := loc_node <$> ck_durable_locations checkpoint;
     cp_estimated_restore_bytes := ck_total_physical_bytes checkpoint;
     cp_network_cost_estimate := saturating_mul (ck_total_physical_bytes checkpoint) 2 |}.

(** ** Residency *)

Record FlashTierResidency := mkFlashTierResidency { ft_logical_id : string; ft_tier : string; ft_hot : bool }.

Fixpoint contains_char (c : ascii) (s : string) : bool :=
  match s with
  | EmptyString => false
  | String c' s' => Ascii.eqb c' c || contains_char c s'
  end.

Definition is_portable_residency (r : FlashTierResidency) : bool :=
  negb (contains_char "/" (ft_logical_id r)) && negb (contains_char "\" (ft_logical_id r)) &&
  negb (bool_decide (ft_logical_id r = "")) && negb (bool_decide (ft_tier r = "")).

(** * Lemmas *)

Lemma contains_char_app c s : contains_char c s = true <-> exists s1 s2, s = s1 +:+ String c s2.
Proof.
  split.
  - induction s as [| x s IH]; [done |]. cbn -[Ascii.eqb]. destruct (Ascii.eqb_spec x c) as [-> |]; cbn.
    + intros _. by exists "", s.
    + intros (s1 & s2 & ->)%IH. by exists (String x s1), s2.
  - intros (s1 & s2 & ->). induction s1 as [| x s1 IH].
    + change (Ascii.eqb c c || contains_char c s2 = true). by rewrite Ascii.eqb_refl.
    + change (Ascii.eqb x c || contains_char c (s1 +:+ String c s2) = true). by rewrite IH, orb_true_r.
Qed.

(** The numbers of the views stay within their machine types. *)
Lemma views_bounded (c : CheckpointObject) (n : Z) :
  is_u64 (ck_restore_count c) -> is_u64 (ck_total_physical_bytes c) -> 0 <= ck_replica_count c <= u32_max ->
  is_u64 (rw_value (reclaim_view c n)) /\ ck_restore_count c <= rw_value (reclaim_view c n) /\
  is_u64 (cp_network_cost_estimate (compute_placement c)) /\
  cp_estimated_restore_bytes (compute_placement c) <= cp_network_cost_estimate (compute_placement c).
Proof.
  cbn -[saturating_add saturating_mul]. unfold saturating_add, saturating_mul, is_u64, u32_max, u64_max. lia.
Qed.

(** A checkpoint is shown as restorable exactly when a restore may start from it. *)
Lemma reclaim_view_restorable (c : CheckpointObject) (n : Z) :
  rw_reconstructibility (reclaim_view c n) = "restorable" <->
  lifecycle_is_restorable (ck_lifecycle c) = true /\ ck_integrity_state c = Valid.
Proof.
  unfold reclaim_view, checkpoint_is_restorable. cbn.
  destruct (lifecycle_is_restorable _), (bool_decide_reflect (ck_integrity_state c = Valid)); cbn;
    (split; [done || intuition congruence | intuition congruence]).
Qed.

Lemma is_portable_residency_true (r : FlashTierResidency) :
  is_portable_residency r = true <->
  ft_tier r <> "" /\ ft_logical_id r <> "" /\
  forall s1 c s2, ft_logical_id r = s1 +:+ String c s2 -> c <> "/"%char /\ c <> "\"%char.
Proof.
  unfold is_portable_residency. rewrite !andb_true_iff, !negb_true_iff, !bool_decide_eq_false, <- !not_true_iff_false,
    !contains_char_app. split.
  - intros [[[H1 H2] H3] H4]. split_and!; [done.. |]. intros s1 c s2 E. split; intros ->; [apply H1 | apply H2]; by exists s1, s2.
  - intros (H1 & H2 & H3). split_and!; [| | done..]; intros (s1 & s2 & E); by destruct (H3 _ _ _ E).
Qed.
