(* ===== verification/Compat.v ===== *)
(** Restore compatibility ([src/src/compatibility.rs]) and the policy check on its
    verdict.  A reason is the format string of the message the source pushes. *)
From S2P Require Import Prelude Errors Ident Lifecycle Checkpoint Policy.
From Stdlib Require Strings.Byte.

(** [lib.rs]. *)
Definition FORMAT_VERSION : Z := 1.

Inductive CompatVerdict : Type :=
| Compatible | CompatibleWithTranslation | CompatibleDegraded | Incompatible.

#[export] Instance CompatVerdict_eq_dec : EqDecision CompatVerdict.
Proof. solve_decision. Defined.

Definition verdict_as_str (v : CompatVerdict) : string :=
  match v with
  | Compatible => "COMPATIBLE"
  | CompatibleWithTranslation => "COMPATIBLE_WITH_TRANSLATION"
  | CompatibleDegraded => "COMPATIBLE_DEGRADED"
  | Incompatible => "INCOMPATIBLE"
  end.

(** The derived [Ord]: declaration order. *)
Definition verdict_rank (v : CompatVerdict) : Z :=
  match v with
  | Compatible => 0 | CompatibleWithTranslation => 1 | CompatibleDegraded => 2 | Incompatible => 3
  end.

(** [a.max(b)]; [Ord::max] keeps the second of two equal values. *)
Definition worse (a b : CompatVerdict) : CompatVerdict :=
  if verdict_rank a <=? verdict_rank b then b else a.

Record CompatibilityResult := mkCompatibilityResult {
  cr_verdict : CompatVerdict;
  cr_reasons : list string;
  cr_checkpoint_id : option Id;
  cr_source : RuntimeCompatibilityDescriptor;
  cr_target : RuntimeCompatibilityDescriptor;
  cr_policy_version : Z
}.

(** [CompatibilityResult::resumability_for]. *)
Definition resumability_for (verdict : CompatVerdict) (captured : ResumabilityClass)
    : ResumabilityClass :=
  match verdict with
  | Compatible => captured
  | CompatibleWithTranslation =>
      match captured with
      | Exact => Equivalent
      | Equivalent => Equivalent
      | Degraded => Degraded
      | RestartFromCheckpoint => RestartFromCheckpoint
      | NonResumable => NonResumable
      end
  | CompatibleDegraded =>
      match captured with
      | Exact | Equivalent | Degraded => Degraded
      | RestartFromCheckpoint => RestartFromCheckpoint
      | NonResumable => NonResumable
      end
  | Incompatible => NonResumable
  end.

(** [RuntimeCompatibilityDescriptor::format_version]: the constant, whatever the
    descriptor. *)
Definition rt_format_version (r : RuntimeCompatibilityDescriptor) : Z := FORMAT_VERSION.

(** The accumulator of [evaluate]: its [mut verdict] and [mut reasons]. *)
Definition Eval : Type := CompatVerdict * list string.

(** [reasons.push(..)] alone. *)
Definition note (reason : string) (a : Eval) : Eval := (fst a, snd a ++ [reason]).

(** [verdict = worse(verdict, reject(v, reason, &mut reasons))]. *)
Definition reject (v : CompatVerdict) (reason : string) (a : Eval) : Eval :=
  (worse (fst a) v, snd a ++ [reason]).

(** [str::starts_with]. *)
Definition starts_with (s pre : string) : bool := String.prefix pre s.

Definition check_os (src target : RuntimeCompatibilityDescriptor) (policy : PolicySet) (a : Eval) : Eval :=
  if bool_decide (rt_os src = rt_os target) then note "os matches: {}" a
  else if cp_allow_cross_os (p_compatibility policy) then
    reject CompatibleWithTranslation "os differs ({} -> {}), translation required" a
  else reject Incompatible "os differs ({} -> {}) and policy forbids translation" a.

Definition check_arch (src target : RuntimeCompatibilityDescriptor) (policy : PolicySet) (a : Eval) : Eval :=
  if bool_decide (rt_arch src = rt_arch target) then note "arch matches: {}" a
  else if cp_allow_cross_arch (p_compatibility policy) then
    reject CompatibleWithTranslation "arch differs ({} -> {}), translation required" a
  else reject Incompatible "arch differs ({} -> {}) and policy forbids translation" a.

Definition check_backend (src target : RuntimeCompatibilityDescriptor) (a : Eval) : Eval :=
  if bool_decide (rt_backend_class src = rt_backend_class target) then note "backend matches: {}" a
  else reject CompatibleDegraded "backend differs ({} -> {}): degraded resume only" a.

Definition check_schema (src target : RuntimeCompatibilityDescriptor) (policy : PolicySet) (a : Eval) : Eval :=
  if bool_decide (rt_state_schema_version src = rt_state_schema_version target) then
    note "state schema matches: v{}" a
  else if cp_schema_strict (p_compatibility policy) then
    reject Incompatible "state schema mismatch (v{} -> v{}) and policy is strict" a
  else reject CompatibleDegraded "state schema differs (v{} -> v{}): degraded resume only" a.

Definition check_class (src target : RuntimeCompatibilityDescriptor) (a : Eval) : Eval :=
  if bool_decide (rt_workload_class src = rt_workload_class target) then
    note "workload class matches: {}" a
  else reject CompatibleDegraded "workload class differs ({} -> {})" a.

Definition required_accel (src : RuntimeCompatibilityDescriptor) : list string :=
  List.filter (fun c => starts_with c "REQUIRED:") (rt_accelerator_capabilities src).

Definition check_accel (src target : RuntimeCompatibilityDescriptor) (a : Eval) : Eval :=
  if negb (is_empty_list (required_accel src)) &&
     negb (forallb (fun c => bool_decide (c ∈ rt_accelerator_capabilities target)) (required_accel src))
  then reject Incompatible "target lacks required accelerator capabilities" a
  else note "accelerator capabilities satisfied" a.

Definition check_format (src : RuntimeCompatibilityDescriptor) (a : Eval) : Eval :=
  let checkpoint_format := FORMAT_VERSION in
  let target_format := rt_format_version src in
  if checkpoint_format =? target_format then note "checkpoint format matches: v{checkpoint_format}" a
  else if checkpoint_format <? target_format then
    reject CompatibleWithTranslation
      "checkpoint format v{checkpoint_format} restored by newer runtime v{target_format}" a
  else reject Incompatible "checkpoint format v{checkpoint_format} newer than target v{target_format}" a.

(** One turn of the loop over the components. *)
Definition check_component (target : RuntimeCompatibilityDescriptor) (a : Eval) (c : ComponentEntry) : Eval :=
  if bool_decide (ce_restore_handler c = "") then a
  else match rt_provider_versions target !! ce_restore_handler c with
       | None =>
           reject (if ce_required c then Incompatible else CompatibleDegraded)
             "target has no provider for required handler '{}'" a
       | Some _ => note "handler '{}' available at version {v}" a
       end.

(** [compatibility::evaluate]; it never returns an error. *)
Definition evaluate (checkpoint : CheckpointObject) (target : RuntimeCompatibilityDescriptor)
    (policy : PolicySet) : FabricResult CompatibilityResult :=
  let src := ck_runtime_descriptor checkpoint in
  let a := (Compatible, []) in
  let a := check_os src target policy a in
  let a := check_arch src target policy a in
  let a := check_backend src target a in
  let a := check_schema src target policy a in
  let a := check_class src target a in
  let a := check_accel src target a in
  let a := check_format src a in
  let '(verdict, reasons) := fold_left (check_component target) (ck_components checkpoint) a in
  let reasons :=
    if bool_decide (verdict = Compatible) then reasons ++ ["all compatibility checks passed"]
    else reasons in
  Ok {| cr_verdict := verdict; cr_reasons := reasons;
        cr_checkpoint_id := Some (ck_checkpoint_id checkpoint);
        cr_source := src; cr_target := target; cr_policy_version := p_version policy |}.

(** [compatibility::evaluate_hardware]. *)
Definition evaluate_hardware (source : HardwareCompatibilityDescriptor) (os arch : string)
    (accel_caps : list string) : FabricResult CompatVerdict :=
  let verdict := Compatible in
  let verdict :=
    if negb (bool_decide (hw_os source = os)) then CompatibleWithTranslation else verdict in
  let verdict :=
    if negb (bool_decide (hw_arch source = arch)) then worse verdict CompatibleWithTranslation
    else verdict in
  let verdict :=
    match hw_accelerator source with
    | Some req =>
        if negb (existsb (fun c => bool_decide (c = ar_capability req)) accel_caps)
        then Incompatible else verdict
    | None => verdict
    end in
  reject_if (bool_decide (verdict = Incompatible))
    (CompatibilityFailure "hardware requirements cannot be satisfied by the target") ;;
  Ok verdict.

(** [policy::enforce_degraded]. *)
Definition enforce_degraded (policy : PolicySet) (verdict : CompatVerdict) : FabricResult unit :=
  reject_if (p_forbid_degraded_restore policy && bool_decide (verdict = CompatibleDegraded))
    (PolicyViolation "degraded restore is forbidden by policy").

(** * A reference definition of the verdict

    What each of the checks asks for on its own; [evaluate] is their maximum. *)

Definition os_need (src target : RuntimeCompatibilityDescriptor) (policy : PolicySet) : CompatVerdict :=
  if bool_decide (rt_os src = rt_os target) then Compatible
  else if cp_allow_cross_os (p_compatibility policy) then CompatibleWithTranslation else Incompatible.

Definition arch_need (src target : RuntimeCompatibilityDescriptor) (policy : PolicySet) : CompatVerdict :=
  if bool_decide (rt_arch src = rt_arch target) then Compatible
  else if cp_allow_cross_arch (p_compatibility policy) then CompatibleWithTranslation else Incompatible.

Definition backend_need (src target : RuntimeCompatibilityDescriptor) : CompatVerdict :=
  if bool_decide (rt_backend_class src = rt_backend_class target) then Compatible else CompatibleDegraded.

Definition schema_need (src target : RuntimeCompatibilityDescriptor) (policy : PolicySet) : CompatVerdict :=
  if bool_decide (rt_state_schema_version src = rt_state_schema_version target) then Compatible
  else if cp_schema_strict (p_compatibility policy) then Incompatible else CompatibleDegraded.

Definition class_need (src target : RuntimeCompatibilityDescriptor) : CompatVerdict :=
  if bool_decide (rt_workload_class src = rt_workload_class target) then Compatible else CompatibleDegraded.

Definition accel_need (src target : RuntimeCompatibilityDescriptor) : CompatVerdict :=
  if forallb (fun c => bool_decide (c ∈ rt_accelerator_capabilities target)) (required_accel src)
  then Compatible else Incompatible.

Definition component_need (target : RuntimeCompatibilityDescriptor) (c : ComponentEntry) : CompatVerdict :=
  if bool_decide (ce_restore_handler c = "") then Compatible
  else match rt_provider_versions target !! ce_restore_handler c with
       | Some _ => Compatible
       | None => if ce_required c then Incompatible else CompatibleDegraded
       end.

Definition worst (l : list CompatVerdict) : CompatVerdict := foldr worse Compatible l.

Definition verdict_spec (c : CheckpointObject) (target : RuntimeCompatibilityDescriptor)
    (policy : PolicySet) : CompatVerdict :=
  let src := ck_runtime_descriptor c in
  worst ([os_need src target policy; arch_need src target policy; backend_need src target;
          schema_need src target policy; class_need src target; accel_need src target]
         ++ (component_need target <$> ck_components c)).

(** * Lemmas and properties *)

Lemma worse_rank (a b : CompatVerdict) :
  verdict_rank (worse a b) = Z.max (verdict_rank a) (verdict_rank b).
Proof. by destruct a, b. Qed.

Lemma worse_assoc (a b c : CompatVerdict) : worse (worse a b) c = worse a (worse b c).
Proof. by destruct a, b, c. Qed.

Lemma worse_Compatible_l (a : CompatVerdict) : worse Compatible a = a.
Proof. by destruct a. Qed.

Lemma worse_Compatible_r (a : CompatVerdict) : worse a Compatible = a.
Proof. by destruct a. Qed.

Lemma worst_app (l1 l2 : list CompatVerdict) : worst (l1 ++ l2) = worse (worst l1) (worst l2).
Proof.
  induction l1 as [| v l1 IH]; cbn; [by rewrite worse_Compatible_l |].
  unfold worst in *. rewrite IH. by rewrite worse_assoc.
Qed.

Lemma worst_Compatible (l : list CompatVerdict) :
  worst l = Compatible <-> (forall v, v ∈ l -> v = Compatible).
Proof.
  unfold worst. induction l as [| x l IH]; cbn.
  - split; [intros _ v Hv; by apply elem_of_nil in Hv | done].
  - split.
    + intros H v Hv. apply elem_of_cons in Hv as [-> | Hv].
      * by destruct x, (foldr worse Compatible l).
      * apply IH; [by destruct x, (foldr worse Compatible l) | done].
    + intros H. rewrite (H x) by left. rewrite worse_Compatible_l. apply IH.
      intros v Hv. apply H. by right.
Qed.

Lemma worst_Incompatible (l : list CompatVerdict) : worst l = Incompatible <-> Incompatible ∈ l.
Proof.
  unfold worst. induction l as [| x l IH]; cbn.
  - split; [done | intros H; by apply elem_of_nil in H].
  - rewrite elem_of_cons, <- IH. destruct x, (foldr worse Compatible l); cbn; naive_solver.
Qed.

Lemma check_component_verdict target (a : Eval) (c : ComponentEntry) :
  fst (check_component target a c) = worse (fst a) (component_need target c).
Proof.
  unfold check_component, component_need.
  repeat case_match; cbn; by rewrite ?worse_Compatible_r.
Qed.

Lemma check_components_verdict target (l : list ComponentEntry) (a : Eval) :
  fst (fold_left (check_component target) l a)
  = worse (fst a) (worst (component_need target <$> l)).
Proof.
  revert a. induction l as [| c l IH]; cbn; intros a; [by rewrite worse_Compatible_r |].
  by rewrite IH, check_component_verdict, worse_assoc.
Qed.

Ltac check_need :=
  repeat match goal with |- context [if ?b then _ else _] => destruct b eqn:? end; cbn;
  rewrite ?worse_Compatible_r; done.

Lemma check_os_verdict src target policy (a : Eval) :
  fst (check_os src target policy a) = worse (fst a) (os_need src target policy).
Proof. unfold check_os, os_need. check_need. Qed.

Lemma check_arch_verdict src target policy (a : Eval) :
  fst (check_arch src target policy a) = worse (fst a) (arch_need src target policy).
Proof. unfold check_arch, arch_need. check_need. Qed.

Lemma check_backend_verdict src target (a : Eval) :
  fst (check_backend src target a) = worse (fst a) (backend_need src target).
Proof. unfold check_backend, backend_need. check_need. Qed.

Lemma check_schema_verdict src target policy (a : Eval) :
  fst (check_schema src target policy a) = worse (fst a) (schema_need src target policy).
Proof. unfold check_schema, schema_need. check_need. Qed.

Lemma check_class_verdict src target (a : Eval) :
  fst (check_class src target a) = worse (fst a) (class_need src target).
Proof. unfold check_class, class_need. check_need. Qed.

Lemma check_accel_verdict src target (a : Eval) :
  fst (check_accel src target a) = worse (fst a) (accel_need src target).
Proof.
  unfold check_accel, accel_need. destruct (required_accel src) as [| c l]; cbn [is_empty_list negb andb].
  - cbn. by rewrite worse_Compatible_r.
  - destruct (forallb _ _); cbn; by rewrite ?worse_Compatible_r.
Qed.

(** The format check compares the constant with itself, so it changes nothing. *)
Lemma check_format_verdict src (a : Eval) : fst (check_format src a) = fst a.
Proof. done. Qed.

Create Rewrite HintDb compat.
#[export] Hint Rewrite check_os_verdict check_arch_verdict check_backend_verdict
  check_schema_verdict check_class_verdict check_accel_verdict check_format_verdict : compat.

Lemma evaluate_verdict (c : CheckpointObject) target policy :
  exists r, evaluate c target policy = Ok r /\ cr_verdict r = verdict_spec c target policy /\
    cr_target r = target /\ cr_checkpoint_id r = Some (ck_checkpoint_id c).
Proof.
  unfold evaluate, verdict_spec.
  match goal with |- context [fold_left ?f ?l ?a] =>
    pose proof (check_components_verdict target l a) as H; destruct (fold_left f l a) as [v rs] eqn:E
  end.
  eexists. split; [done |]. cbn [cr_verdict cr_target cr_checkpoint_id]. split; [| done].
  cbn [fst] in H. rewrite H, worst_app. f_equal.
  autorewrite with compat.
  cbn [fst worst foldr]. by rewrite !worse_Compatible_l, !worse_assoc, worse_Compatible_r.
Qed.

Lemma verdict_spec_Compatible (c : CheckpointObject) target policy :
  let src := ck_runtime_descriptor c in
  verdict_spec c target policy = Compatible <->
  rt_os src = rt_os target /\ rt_arch src = rt_arch target /\
  rt_backend_class src = rt_backend_class target /\
  rt_state_schema_version src = rt_state_schema_version target /\
  rt_workload_class src = rt_workload_class target /\
  (forall a, a ∈ required_accel src -> a ∈ rt_accelerator_capabilities target) /\
  (forall k, k ∈ ck_components c -> ce_restore_handler k = "" \/
     is_Some (rt_provider_versions target !! ce_restore_handler k)).
Proof.
  intros src. unfold verdict_spec. rewrite worst_app.
  assert (Hw : forall a b, worse a b = Compatible <-> a = Compatible /\ b = Compatible)
    by (intros [] []; cbn; naive_solver).
  rewrite Hw, (worst_Compatible (component_need target <$> ck_components c)).
  unfold worst. cbn [foldr]. rewrite !Hw. fold src.
  unfold os_need, arch_need, backend_need, schema_need, class_need, accel_need.
  assert (Hacc : forallb (fun a => bool_decide (a ∈ rt_accelerator_capabilities target))
            (required_accel src) = true <->
          forall a, a ∈ required_accel src -> a ∈ rt_accelerator_capabilities target).
  { rewrite forallb_elem_of. by setoid_rewrite bool_decide_eq_true. }
  assert (Hcomp : (forall v, v ∈ component_need target <$> ck_components c -> v = Compatible) <->
    (forall k, k ∈ ck_components c -> ce_restore_handler k = "" \/
     is_Some (rt_provider_versions target !! ce_restore_handler k))).
  { split.
    - intros H k Hk. 
      specialize (H (component_need target k) (list_elem_of_fmap_2 _ _ _ Hk)).
      unfold component_need in H.
      case_bool_decide; [by left |]. right. destruct (_ !! _); [by eexists |].
      by destruct (ce_required k).
    - intros H v (k & -> & Hk)%list_elem_of_fmap. unfold component_need.
      case_bool_decide; [done |]. destruct (H k Hk) as [? | [x Hx]]; [done |]. by rewrite Hx. }
  rewrite Hcomp, <- Hacc. clear Hcomp Hacc Hw.
  repeat case_bool_decide; repeat case_match; naive_solver.
Qed.

(** C32 (equivalence). The compatibility verdict of [evaluate] is the maximum of what
    its checks ask for one by one; it never errs.  The verdict is [Compatible]
    exactly when operating system, architecture, backend, schema version and
    workload class agree, the target has every accelerator capability marked
    required, and it hosts every restore handler the components name; a component
    that is required and has no provider on the target makes it [Incompatible]
    whatever the policy. *)
Theorem evaluate_spec (c : CheckpointObject) (target : RuntimeCompatibilityDescriptor)
    (policy : PolicySet) :
  let src := ck_runtime_descriptor c in
  exists r, evaluate c target policy = Ok r /\
    cr_verdict r = verdict_spec c target policy /\
    (cr_verdict r = Compatible <->
      rt_os src = rt_os target /\ rt_arch src = rt_arch target /\
      rt_backend_class src = rt_backend_class target /\
      rt_state_schema_version src = rt_state_schema_version target /\
      rt_workload_class src = rt_workload_class target /\
      (forall a, a ∈ required_accel src -> a ∈ rt_accelerator_capabilities target) /\
      (forall k, k ∈ ck_components c -> ce_restore_handler k = "" \/
         is_Some (rt_provider_versions target !! ce_restore_handler k))) /\
    (forall k, k ∈ ck_components c -> ce_required k = true -> ce_restore_handler k <> "" ->
       rt_provider_versions target !! ce_restore_handler k = None ->
       cr_verdict r = Incompatible).
Proof.
  intros src. destruct (evaluate_verdict c target policy) as (r & -> & Hv & _).
  exists r. split_and!; [done | done | |].
  - rewrite Hv. apply verdict_spec_Compatible.
  - intros k Hk Hreq Hh Hnone. rewrite Hv. unfold verdict_spec. apply worst_Incompatible.
    apply elem_of_app. right. apply list_elem_of_fmap. exists k. split; [| done].
    unfold component_need. rewrite bool_decide_eq_false_2 by done. by rewrite Hnone, Hreq.
Qed.

Definition ordinary_component (cid handler : string) (required : bool) : ComponentEntry :=
  {| ce_component_id := cid; ce_component_type := ApplicationState; ce_generation := 0;
     ce_required := required; ce_logical_size := 0;
     ce_storage_representation := mkStorageRepresentation "none" 0 0 "h" ("components/" +:+ cid);
     ce_content_hash := "h"; ce_schema_version := 1; ce_restore_handler := handler;
     ce_compatibility := "null"; ce_dependencies := []; ce_capture_status := "captured";
     ce_restore_status := "pending" |}.

Definition needs_application : CheckpointObject :=
  (sample_checkpoint (id_splat Byte.x01) (id_splat Byte.x02) (local_default "linux" "x86_64" "1.0.0"))
    <| ck_components := [ordinary_component "app" "application" true] |>.

(** At a checkpoint with a required component the target cannot restore. *)
Example evaluate_spec_witness :
  exists r, evaluate needs_application (local_default "linux" "x86_64" "1.0.0") PolicySet_default
      = Ok r /\ cr_verdict r = Incompatible.
Proof.
  destruct (evaluate_spec needs_application (local_default "linux" "x86_64" "1.0.0")
    PolicySet_default) as (r & Hr & _ & _ & Hinc).
  exists r. split; [exact Hr |].
  apply (Hinc (ordinary_component "app" "application" true));
    [left | reflexivity | discriminate | reflexivity].
Defined.
