(* ===== verification/Capture.v ===== *)
(** Capture planning ([src/src/capture.rs]) and the path sanitizer it relies on
    ([sanitize_segment] of [src/src/storage.rs]).

    A Rust string is the string of its UTF-8 bytes, so [len] is the byte length and
    a walk over [chars()] skips the continuation bytes. *)
From S2P Require Import Prelude Errors Ident Lifecycle Checkpoint Workload Compression Policy.
From Stdlib Require Import Strings.Ascii.

(** ** Safe path segments *)

Definition in_range (lo hi : N) (c : ascii) : bool :=
  (lo <=? N_of_ascii c)%N && (N_of_ascii c <=? hi)%N.

Definition is_ascii_alphanumeric (c : ascii) : bool :=
  in_range 48 57 c || in_range 65 90 c || in_range 97 122 c.

(** [c.is_ascii_alphanumeric() || matches!(c, '-' | '_' | '.' | '@')]. *)
Definition segment_char (c : ascii) : bool :=
  is_ascii_alphanumeric c || bool_decide (c ∈ ["-"; "_"; "."; "@"]%char).

(** Bytes [0x80..=0xBF]: the ones a [char] of several bytes has after its first. *)
Definition utf8_continuation (c : ascii) : bool := in_range 128 191 c.

Fixpoint map_segment (s : string) : string :=
  match s with
  | EmptyString => EmptyString
  | String c s' =>
      if utf8_continuation c then map_segment s'
      else String (if segment_char c then c else "_"%char) (map_segment s')
  end.

Fixpoint underscores (n : nat) : string :=
  match n with O => EmptyString | S n' => String "_" (underscores n') end.

Definition sanitize_segment (name : string) : string :=
  let out := map_segment name in
  if bool_decide (out = "") || bool_decide (out = ".") || bool_decide (out = "..")
  then "_" +:+ underscores (Nat.max (String.length name) 1 - 1)
  else out.

(** ** Options *)

Inductive QuiescenceMode : Type := Cooperative | Forced | NoQuiescence.

#[export] Instance QuiescenceMode_eq_dec : EqDecision QuiescenceMode.
Proof. solve_decision. Defined.

Definition quiescence_as_str (q : QuiescenceMode) : string :=
  match q with Cooperative => "COOPERATIVE" | Forced => "FORCED" | NoQuiescence => "NONE" end.

Record CaptureComponentRequest := mkCaptureComponentRequest {
  cq_component_id : string;
  cq_component_type : ComponentType;
  cq_required : bool;
  cq_schema_version : Z;
  cq_restore_handler : string
}.

Record CaptureOptions := mkCaptureOptions {
  co_consistency : option ConsistencyClass;
  co_quiescence : QuiescenceMode;
  co_frontier : option ExecutionFrontier;
  co_side_effects : option SideEffectManifest;
  co_components : list CaptureComponentRequest;
  co_metadata : JsonText
}.

#[export] Instance eta_CaptureOptions : Settable CaptureOptions := fun o =>
  mkCaptureOptions (co_consistency o) (co_quiescence o) (co_frontier o) (co_side_effects o)
    (co_components o) (co_metadata o).

Definition CaptureOptions_default : CaptureOptions :=
  mkCaptureOptions None NoQuiescence None None [] "{}".

(** The durable record of a capture or restore attempt. *)
Record AttemptRecord := mkAttemptRecord {
  at_id : string;
  at_kind : string;
  at_checkpoint_id : option Id;
  at_workload_id : option Id;
  at_node : string;
  at_state : string;
  at_started_ms : Z;
  at_finished_ms : option Z;
  at_result : option string;
  at_error : option string
}.

#[export] Instance eta_AttemptRecord : Settable AttemptRecord := fun a =>
  mkAttemptRecord (at_id a) (at_kind a) (at_checkpoint_id a) (at_workload_id a) (at_node a)
    (at_state a) (at_started_ms a) (at_finished_ms a) (at_result a) (at_error a).

(** ** Derivations *)

Definition derive_checkpoint_type (options : CaptureOptions) (policy : PolicySet) : CheckpointType :=
  if forallb cq_required (co_components options) && p_require_portable policy then Portable
  else if existsb cq_required (co_components options) then Application
  else Full.

Definition derive_consistency (requested : option ConsistencyClass) (quiescence : QuiescenceMode)
    (frontier : option ExecutionFrontier) (cooperative_ack : bool) : ConsistencyClass :=
  match requested with
  | Some ExecutionConsistent =>
      if bool_decide (quiescence = Cooperative) && cooperative_ack && is_some frontier
      then ExecutionConsistent else CrashConsistent
  | Some ApplicationConsistent =>
      if bool_decide (quiescence = Cooperative) && cooperative_ack
      then ApplicationConsistent else CrashConsistent
  | Some CrashConsistent | None => CrashConsistent
  end.

Definition derive_resumability (consistency : ConsistencyClass) (frontier : option ExecutionFrontier)
    (side_effects : option SideEffectManifest) : ResumabilityClass :=
  if negb (bool_decide (consistency = ExecutionConsistent)) then RestartFromCheckpoint
  else match frontier with
       | None => RestartFromCheckpoint
       | Some f =>
           if match side_effects with
              | Some se => is_err (validate_for_exact se)
              | None => false
              end then Degraded
           else if rf_pending_non_replayable (fr_flags f) || rf_unknown_side_effects (fr_flags f)
           then Degraded
           else if rf_deterministic_replay_verified (fr_flags f) && rf_exact (fr_flags f) then Exact
           else if rf_equivalent (fr_flags f) then Equivalent
           else Degraded
       end.

(** ** Validation *)

(** [s.len()] of a Rust string. *)
Definition str_len (s : string) : Z := Z.of_nat (String.length s).

Definition check_interval (policy : PolicySet) (last_capture_ms : option Z) (now : Z) : FabricResult unit :=
  if 0 <? p_min_capture_interval_ms policy then
    match last_capture_ms with
    | Some last =>
        reject_if (saturating_sub now last <? p_min_capture_interval_ms policy)
          (PolicyViolation "capture interval {}ms not elapsed since last capture")
    | None => Ok tt
    end
  else Ok tt.

Definition check_component_id (c : CaptureComponentRequest) : FabricResult unit :=
  reject_if (bool_decide (cq_component_id c = "") || (256 <? str_len (cq_component_id c)))
    (InvalidArgument "component id must be 1..=256 chars") ;;
  reject_if (negb (bool_decide (sanitize_segment (cq_component_id c) = cq_component_id c)))
    (InvalidArgument "component id '{}' contains unsafe path characters").

Definition check_unique_ids (components : list CaptureComponentRequest) : FabricResult unit :=
  let ids := cq_component_id <$> components in
  reject_if (negb (size (list_to_set ids : gset string) =? length ids)%nat)
    (InvalidArgument "duplicate component ids in capture request").

Definition check_frontier (workload : Workload) (frontier : option ExecutionFrontier) : FabricResult unit :=
  match frontier with
  | Some f =>
      reject_if (negb (fr_workload_generation f =? w_workload_generation workload))
        (FrontierInconsistency
           "frontier workload generation {} does not match workload generation {}")
  | None => Ok tt
  end.

Definition check_side_effects (side_effects : option SideEffectManifest) : FabricResult unit :=
  match side_effects with
  | Some se =>
      for_each (fun e => reject_if (bool_decide (se_side_effect_id e = ""))
        (InvalidArgument "side effect id must not be empty")) (sem_entries se) ;;
      reject_if (Z.of_nat (length (sem_entries se)) <? sem_frontier_boundary se)
        (FrontierInconsistency "side-effect boundary exceeds entry count")
  | None => Ok tt
  end.

Definition validate_capture_request (workload : Workload) (options : CaptureOptions)
    (policy : PolicySet) (last_capture_ms : option Z) (now : Z) : FabricResult unit :=
  check_interval policy last_capture_ms now ;;
  for_each check_component_id (co_components options) ;;
  check_unique_ids (co_components options) ;;
  check_frontier workload (co_frontier options) ;;
  check_side_effects (co_side_effects options).

Definition workload_captureable (workload : Workload) (actor_node : option string) : FabricResult unit :=
  reject_if (is_fenced workload)
    (FencingFailure "workload {} is fenced; capture requires an active continuation") ;;
  if w_single_active workload then
    match actor_node, w_active_node workload with
    | Some node, Some active =>
        reject_if (negb (bool_decide (active = node)))
          (FencingFailure "capture requested from node {node} but active node is {active}")
    | _, _ => Ok tt
    end
  else Ok tt.

(** [checkpoint_scaffold], at the time [now]. *)
Definition checkpoint_scaffold (now : Z) (workload : Workload) (checkpoint_id : Id)
    (checkpoint_generation : Z) (attempt_id : string) (coordinator_epoch : Z) (source_node : string)
    (options : CaptureOptions) (policy : PolicySet) : CheckpointObject :=
  {| ck_checkpoint_id := checkpoint_id;
     ck_workload_id := w_workload_id workload;
     ck_workload_generation := w_workload_generation workload;
     ck_checkpoint_generation := checkpoint_generation;
     ck_parent_checkpoint := None;
     ck_capture_attempt := attempt_id;
     ck_coordinator_epoch := coordinator_epoch;
     ck_created_ms := now;
     ck_seal_ms := 0;
     ck_source_node := source_node;
     ck_source_backend := w_backend_class workload;
     ck_frontier := default ExecutionFrontier_default (co_frontier options);
     ck_checkpoint_type := derive_checkpoint_type options policy;
     ck_consistency := default CrashConsistent (co_consistency options);
     ck_resumability := RestartFromCheckpoint;
     ck_components := [];
     ck_total_logical_bytes := 0;
     ck_total_physical_bytes := 0;
     ck_compressed_bytes := 0;
     ck_durable_locations := [];
     ck_replica_count := 0;
     ck_lineage_parents := [];
     ck_lineage_children := [];
     ck_supersedes := None;
     ck_superseded_by := None;
     ck_policy_version := p_version policy;
     ck_runtime_descriptor := w_runtime workload;
     ck_hardware_descriptor := HardwareCompatibilityDescriptor_default;
     ck_dependencies := [];
     ck_integrity_state := Pending;
     ck_lifecycle := Created;
     ck_restore_count := 0;
     ck_last_restore_result := None;
     ck_protection := Unprotected;
     ck_retirement_eligibility := NotEligible;
     ck_metadata := co_metadata options;
     ck_manifest_digest := None;
     ck_manifest_json := None |}.

Definition validate_component_completeness (requested : list CaptureComponentRequest)
    (captured : list ComponentEntry) : FabricResult unit :=
  let captured_ids : gset string := list_to_set (ce_component_id <$> captured) in
  for_each (fun r =>
    reject_if (cq_required r && negb (bool_decide (cq_component_id r ∈ captured_ids)))
      (IncompleteCheckpoint "required component '{}' was not captured")) requested.

(** * Lemmas *)

Fixpoint all_chars (p : ascii -> bool) (s : string) : bool :=
  match s with EmptyString => true | String c s' => p c && all_chars p s' end.

(** A name that can be one component of a path: no separator, no control or
    non-ASCII byte, neither empty nor a relative step. *)
Definition safe_segment (s : string) : Prop :=
  all_chars segment_char s = true /\ s <> "" /\ s <> "." /\ s <> "..".

Lemma segment_char_not_continuation (c : ascii) :
  segment_char c = true -> utf8_continuation c = false.
Proof. by destruct c as [[] [] [] [] [] [] [] []]. Qed.

Lemma map_segment_chars (s : string) : all_chars segment_char (map_segment s) = true.
Proof.
  induction s as [| c s IH]; cbn -[segment_char utf8_continuation]; [done |].
  destruct (utf8_continuation c); [done |].
  cbn -[segment_char]. rewrite IH, andb_true_r. by destruct (segment_char c) eqn:E.
Qed.

Lemma map_segment_fixed (s : string) : all_chars segment_char s = true -> map_segment s = s.
Proof.
  induction s as [| c s IH]; cbn -[segment_char utf8_continuation]; [done |].
  intros [Hc Hs]%andb_true_iff.
  by rewrite (segment_char_not_continuation c Hc), Hc, (IH Hs).
Qed.

Lemma underscores_chars (n : nat) : all_chars segment_char (underscores n) = true.
Proof. induction n as [| n IH]; [done |]. exact IH. Qed.

Lemma sanitize_segment_safe (s : string) : safe_segment (sanitize_segment s).
Proof.
  unfold sanitize_segment.
  destruct (_ || _ || _) eqn:E.
  - split; [apply (underscores_chars (S _)) |].
    split_and!; intros H; apply (f_equal (String.get 0)) in H; discriminate H.
  - bool_facts. split; [apply map_segment_chars | done].
Qed.

Lemma sanitize_segment_fixed (s : string) : sanitize_segment s = s <-> safe_segment s.
Proof.
  split; [intros <-; apply sanitize_segment_safe |].
  intros (Hc & H1 & H2 & H3). unfold sanitize_segment. rewrite (map_segment_fixed s Hc).
  by rewrite !bool_decide_eq_false_2 by done.
Qed.

Lemma size_list_to_set_NoDup (l : list string) :
  size (list_to_set l : gset string) = length l <-> NoDup l.
Proof.
  split; [| apply size_list_to_set].
  induction l as [| x l IH]; [constructor |]. intros H.
  assert (Hle : forall k : list string, (size (list_to_set k : gset string) <= length k)%nat).
  { induction k as [| y k IHk]; [cbn; by rewrite size_empty |].
    rewrite list_to_set_cons, size_union_alt, size_singleton. cbn [length].
    assert (size ((list_to_set k : gset string) ∖ {[ y ]}) <= size (list_to_set k : gset string))%nat
      by (apply subseteq_size; set_solver). lia. }
  rewrite list_to_set_cons in H. cbn [length] in H.
  destruct (decide (x ∈ l)) as [Hin | Hout].
  - rewrite subseteq_union_1_L in H by set_solver. specialize (Hle l). lia.
  - constructor; [done |]. apply IH.
    rewrite size_union, size_singleton in H by set_solver. lia.
Qed.

Lemma check_component_id_Ok (c : CaptureComponentRequest) (u : unit) :
  check_component_id c = Ok u <->
  str_len (cq_component_id c) <= 256 /\ safe_segment (cq_component_id c).
Proof.
  destruct u. unfold check_component_id. rewrite result_bind_Ok. split.
  - intros ([] & H1 & H2). rewrite reject_if_Ok in H1, H2. bool_facts.
    by rewrite <- sanitize_segment_fixed.
  - intros [Hlen Hs]. exists tt. rewrite !reject_if_Ok. pose proof Hs as (_ & Hne & _).
    rewrite (bool_decide_eq_false_2 _ Hne). split; [by apply Z.ltb_ge |].
    by apply negb_false_iff, bool_decide_eq_true, sanitize_segment_fixed.
Qed.

Lemma check_unique_ids_Ok (l : list CaptureComponentRequest) (u : unit) :
  check_unique_ids l = Ok u <-> NoDup (cq_component_id <$> l).
Proof.
  unfold check_unique_ids. rewrite reject_if_Ok, negb_false_iff, Nat.eqb_eq.
  apply size_list_to_set_NoDup.
Qed.

Lemma check_side_effects_Ok (se : SideEffectManifest) (u : unit) :
  check_side_effects (Some se) = Ok u <->
  (forall e, e ∈ sem_entries se -> se_side_effect_id e <> "") /\
  sem_frontier_boundary se <= Z.of_nat (length (sem_entries se)).
Proof.
  destruct u. cbn. rewrite result_bind_Ok. split.
  - intros ([] & H1 & H2). rewrite for_each_Ok in H1. apply reject_if_Ok in H2. bool_facts.
    split; [| done]. intros e He. specialize (H1 e He). apply reject_if_Ok in H1. by bool_facts.
  - intros [H1 H2]. exists tt. rewrite for_each_Ok, reject_if_Ok. split; [| by apply Z.ltb_ge].
    intros e He. apply reject_if_Ok, bool_decide_eq_false, (H1 e He).
Qed.

Lemma check_interval_Ok (policy : PolicySet) (last : option Z) (now : Z) (u : unit) :
  check_interval policy last now = Ok u <->
  (forall l, last = Some l -> 0 < p_min_capture_interval_ms policy ->
     p_min_capture_interval_ms policy <= saturating_sub now l).
Proof.
  unfold check_interval. destruct u.
  destruct (Z.ltb_spec 0 (p_min_capture_interval_ms policy)), last as [l |]; cbn;
    rewrite ?reject_if_Ok, ?Z.ltb_ge; naive_solver lia.
Qed.

Lemma workload_captureable_Ok (w : Workload) (actor : option string) (u : unit) :
  workload_captureable w actor = Ok u <->
  is_fenced w = false /\
  (w_single_active w = true -> forall n, actor = Some n -> w_active_node w = Some n).
Proof.
  destruct u. unfold workload_captureable. rewrite result_bind_Ok. split.
  - intros ([] & H1 & H2). rewrite reject_if_Ok in H1. split; [done |].
    intros Hs n ->. rewrite Hs in H2. apply is_fenced_false in H1 as (m & t & Hm & _).
    rewrite Hm in *. apply reject_if_Ok in H2. bool_facts. by subst.
  - intros [H1 H2]. exists tt. rewrite reject_if_Ok. split; [done |].
    destruct (w_single_active w), actor as [n |], (w_active_node w) as [m |]; try done.
    apply reject_if_Ok, negb_false_iff, bool_decide_eq_true.
    specialize (H2 eq_refl n eq_refl). congruence.
Qed.

Lemma validate_component_completeness_Ok requested captured (u : unit) :
  validate_component_completeness requested captured = Ok u <->
  (forall r, r ∈ requested -> cq_required r = true ->
     exists c, c ∈ captured /\ ce_component_id c = cq_component_id r).
Proof.
  unfold validate_component_completeness. rewrite for_each_Ok.
  assert (Hset : forall r, cq_component_id r ∈ (list_to_set (ce_component_id <$> captured) : gset string)
    <-> exists c, c ∈ captured /\ ce_component_id c = cq_component_id r).
  { intros r. rewrite elem_of_list_to_set, list_elem_of_fmap. naive_solver. }
  setoid_rewrite reject_if_Ok. setoid_rewrite <- Hset.
  split; intros H r Hr; specialize (H r Hr).
  - intros Hq. rewrite Hq in H. cbn in H. by bool_facts.
  - destruct (cq_required r); [| done]. cbn.
    by apply negb_false_iff, bool_decide_eq_true, H.
Qed.

(** * Properties *)

(** A capture request is accepted exactly when the policy's
    interval since the last capture has elapsed, every component id is at most 256
    bytes long and a safe path segment (so that no id can leave the capture
    directory), the ids are distinct, the frontier speaks of the workload's current
    generation, and the side-effect manifest has named entries and a boundary
    within them. *)
Theorem validate_capture_request_spec (w : Workload) (o : CaptureOptions) (p : PolicySet)
    (last : option Z) (now : Z) :
  validate_capture_request w o p last now = Ok tt <->
  (forall l, last = Some l -> 0 < p_min_capture_interval_ms p ->
     p_min_capture_interval_ms p <= saturating_sub now l) /\
  (forall c, c ∈ co_components o ->
     str_len (cq_component_id c) <= 256 /\ safe_segment (cq_component_id c)) /\
  NoDup (cq_component_id <$> co_components o) /\
  (forall f, co_frontier o = Some f -> fr_workload_generation f = w_workload_generation w) /\
  (forall se, co_side_effects o = Some se ->
     (forall e, e ∈ sem_entries se -> se_side_effect_id e <> "") /\
     sem_frontier_boundary se <= Z.of_nat (length (sem_entries se))).
Proof.
  assert (Hf : forall u, check_frontier w (co_frontier o) = Ok u <->
    (forall f, co_frontier o = Some f -> fr_workload_generation f = w_workload_generation w)).
  { intros []. destruct (co_frontier o) as [f |]; cbn; [| naive_solver].
    rewrite reject_if_Ok, negb_false_iff, Z.eqb_eq. naive_solver. }
  assert (Hs : check_side_effects (co_side_effects o) = Ok tt <->
    (forall se, co_side_effects o = Some se ->
     (forall e, e ∈ sem_entries se -> se_side_effect_id e <> "") /\
     sem_frontier_boundary se <= Z.of_nat (length (sem_entries se)))).
  { destruct (co_side_effects o) as [se |]; [rewrite check_side_effects_Ok | done].
    split; [by intros H se' [= <-] | intros H; by apply H]. }
  assert (Hc : forall u, for_each check_component_id (co_components o) = Ok u <->
    (forall c, c ∈ co_components o ->
       str_len (cq_component_id c) <= 256 /\ safe_segment (cq_component_id c))).
  { intros u. rewrite for_each_Ok. split; intros H c Hc; specialize (H c Hc);
      by apply check_component_id_Ok in H || apply check_component_id_Ok. }
  unfold validate_capture_request. rewrite <- Hs. split.
  - intros H. invert_ok H.
    split_and!; [by eapply check_interval_Ok | by eapply Hc | by eapply check_unique_ids_Ok
                | by eapply Hf | done].
  - intros (H1 & H2 & H3 & H4 & H5).
    rewrite (proj2 (check_interval_Ok p last now tt) H1). cbn.
    rewrite (proj2 (Hc tt) H2). cbn.
    rewrite (proj2 (check_unique_ids_Ok _ tt) H3). cbn. by rewrite (proj2 (Hf tt) H4).
Qed.

(** C33 (safety). Derived classes never overstate what the capture achieved.  The
    consistency class is at most the requested one, and anything above
    crash-consistent needs a cooperative quiescence that was acknowledged;
    execution consistency needs a frontier as well.  Resumability above a restart
    from the checkpoint needs execution consistency and a frontier; above degraded,
    that nothing in the side-effect manifest is unknown or non-replayable and the
    frontier flags neither; and [Exact] holds exactly when deterministic replay was
    verified on top of that. *)
Theorem derivation_is_honest (requested : option ConsistencyClass) (q : QuiescenceMode)
    (f : option ExecutionFrontier) (ack : bool) (se : option SideEffectManifest)
    (c : ConsistencyClass) :
  let achieved := derive_consistency requested q f ack in
  let safe_effects := forall m, se = Some m ->
    forall e, e ∈ sem_entries m -> se_status e <> Unknown /\ se_status e <> NonReplayable in
  let flags_clear fr := rf_pending_non_replayable (fr_flags fr) = false /\
    rf_unknown_side_effects (fr_flags fr) = false in
  consistency_rank achieved <= consistency_rank (default CrashConsistent requested) /\
  (achieved <> CrashConsistent -> q = Cooperative /\ ack = true) /\
  (achieved = ExecutionConsistent -> is_some f = true) /\
  (derive_resumability c f se <> RestartFromCheckpoint ->
     c = ExecutionConsistent /\ is_some f = true) /\
  (2 < resumability_rank (derive_resumability c f se) ->
     safe_effects /\ exists fr, f = Some fr /\ flags_clear fr) /\
  (derive_resumability c f se = Exact <->
     c = ExecutionConsistent /\ safe_effects /\
     exists fr, f = Some fr /\ flags_clear fr /\
       rf_deterministic_replay_verified (fr_flags fr) = true /\ rf_exact (fr_flags fr) = true).
Proof.
  intros achieved safe_effects flags_clear.
  assert (Hse : match se with Some m => is_err (validate_for_exact m) | None => false end = false
                <-> safe_effects).
  { unfold safe_effects. destruct se as [m |]; [| naive_solver].
    split.
    - intros H m' [= <-]. destruct (validate_for_exact m) eqn:E; [| done].
      by eapply validate_for_exact_Ok.
    - intros H. by rewrite (proj2 (validate_for_exact_Ok m tt) (H m eq_refl)). }
  split_and!.
  - unfold achieved. destruct requested as [[] |], q, ack, f; by vm_compute.
  - unfold achieved. destruct requested as [[] |], q, ack, f; cbn; naive_solver.
  - unfold achieved. destruct requested as [[] |], q, ack, f; cbn; naive_solver.
  - unfold derive_resumability. destruct c, f; cbn; naive_solver.
  - unfold derive_resumability, flags_clear.
    destruct (bool_decide (c = ExecutionConsistent)), f as [fr |]; cbn; try done.
    destruct (match se with Some _ => _ | None => _ end) eqn:Em; cbn; [done |].
    destruct (rf_pending_non_replayable _) eqn:E1, (rf_unknown_side_effects _) eqn:E2; cbn; try done.
    intros _. split; [by apply Hse | by exists fr].
  - unfold derive_resumability, flags_clear.
    destruct (decide (c = ExecutionConsistent)) as [-> | Hc]; cbn.
    2: { rewrite bool_decide_eq_false_2 by done. cbn. split; [done | by intros [? _]]. }
    destruct f as [fr |]; cbn; [| by split; [| intros (_ & _ & ? & ? & _)]].
    rewrite <- Hse. destruct (match se with Some _ => _ | None => _ end); cbn.
    { split; [done | by intros (_ & ? & _)]. }
    split.
    + intros H. split_and!; [done | done |]. exists fr.
      by destruct (rf_pending_non_replayable _), (rf_unknown_side_effects _),
        (rf_deterministic_replay_verified _), (rf_exact _), (rf_equivalent _).
    + by intros (_ & _ & ? & [= <-] & (-> & ->) & -> & ->).
Qed.

Definition replayed_frontier : ExecutionFrontier :=
  {| fr_workload_generation := 3; fr_execution_epoch := 2; fr_logical_step := 10;
     fr_application_sequence := None; fr_durable_side_effect_boundary := 0;
     fr_state_generation_map := ∅; fr_tool_item_frontier := None;
     fr_external_commit_frontier := None; fr_last_completed_operation_id := None;
     fr_in_flight_operations := [];
     fr_flags := mkResumabilityFlags true true true true false false |}.

(** At a verified replay with a harmless side effect. *)
Example derivation_is_honest_witness :
  derive_consistency (Some ExecutionConsistent) Cooperative (Some replayed_frontier) true
    = ExecutionConsistent /\
  derive_resumability ExecutionConsistent (Some replayed_frontier)
    (Some (mkSideEffectManifest [mkSideEffectEntry "s" "http" Committed None None] 1)) = Exact /\
  is_some (Some replayed_frontier) = true.
Proof.
  split_and!; [reflexivity | reflexivity |].
  exact (proj1 (proj2 (proj2 (derivation_is_honest (Some ExecutionConsistent) Cooperative
    (Some replayed_frontier) true None CrashConsistent))) eq_refl).
Defined.
