(* ===== verification/Restore.v ===== *)
(** Restore and migration planning ([src/src/restore.rs], [src/src/migration.rs])
    with the Context Fabric references of [src/src/integrations.rs] they check. *)
From S2P Require Import Prelude Errors Ident Lifecycle Checkpoint Workload Compression Policy Compat.
From Stdlib Require Strings.Byte.

Inductive ContextRefSemantics : Type := Embed | Reference | RequireReplica | MaterializeOnCheckpoint.

Record ContextRefResolution := mkContextRefResolution {
  cref_object_id : Id;
  cref_required : bool;
  cref_semantics : ContextRefSemantics
}.

Record RestoreOptions := mkRestoreOptions {
  ro_resume : bool;
  ro_rollback : bool;
  ro_migration : bool;
  ro_target_fence_token : option string;
  ro_resolved_context_refs : list ContextRefResolution
}.

#[export] Instance eta_RestoreOptions : Settable RestoreOptions := fun o =>
  mkRestoreOptions (ro_resume o) (ro_rollback o) (ro_migration o) (ro_target_fence_token o)
    (ro_resolved_context_refs o).

Definition RestoreOptions_default : RestoreOptions := mkRestoreOptions true false false None [].

(** [restore::validate_restore_request].  The last test of the source, on an
    unverified replica of the target node, has no effect. *)
Definition validate_restore_request (checkpoint : CheckpointObject) (policy : PolicySet)
    (target_node : string) : FabricResult unit :=
  reject_if (negb (lifecycle_is_restorable (ck_lifecycle checkpoint)))
    (CorruptedCheckpoint "checkpoint {} is not restorable in lifecycle state {}") ;;
  reject_if (bool_decide (ck_lifecycle checkpoint = Retired))
    (PolicyViolation "retired checkpoint requires archive-restore policy") ;;
  reject_if (bool_decide (ck_integrity_state checkpoint = Corrupt))
    (CorruptedCheckpoint "checkpoint {} is marked corrupt; restore refused") ;;
  reject_if (ck_replica_count checkpoint <? p_min_valid_replicas policy)
    (CorruptedCheckpoint "checkpoint {} has {} replicas but policy requires {}") ;;
  reject_if (is_empty_list (ck_durable_locations checkpoint))
    (CorruptedCheckpoint "checkpoint {} has no durable locations").

Definition validate_context_refs `{HexCodec} (checkpoint : CheckpointObject)
    (resolved : list ContextRefResolution) : FabricResult unit :=
  for_each (fun r =>
    if cref_required r then
      let found := existsb (fun d => bool_decide (dep_kind d = "context") &&
                     bool_decide (dep_identity d = to_hex (cref_object_id r)))
                     (ck_dependencies checkpoint) in
      reject_if (negb found)
        (MissingDependency "required context object {} is not referenced by this checkpoint")
    else Ok tt) resolved.

Definition restored_resumability (captured : ResumabilityClass) (compat_verdict : CompatVerdict)
    (resumed : bool) : ResumabilityClass :=
  let base :=
    match compat_verdict with
    | Compatible => captured
    | CompatibleWithTranslation =>
        match captured with Exact => Equivalent | other => other end
    | CompatibleDegraded =>
        match captured with Exact | Equivalent => Degraded | other => other end
    | Incompatible => NonResumable
    end in
  if negb resumed && (resumability_rank RestartFromCheckpoint <? resumability_rank base)
  then RestartFromCheckpoint else base.

Definition validate_target_claim (workload : Workload) (target_node : string) (migration : bool)
    : FabricResult unit :=
  if w_single_active workload then
    match w_active_node workload with
    | Some active =>
        reject_if (negb (bool_decide (active = target_node)) &&
                   negb (bool_decide (active = "MIGRATING")) && negb migration)
          (FencingFailure "restore target {target_node} is not the active node ({active}); single-active workloads require migration or an explicit fence")
    | None => Ok tt
    end
  else Ok tt.

Definition restore_eligible (checkpoint : CheckpointObject) (policy : PolicySet) : FabricResult unit :=
  reject_if (bool_decide (ck_lifecycle checkpoint = Retired) && negb (p_archive_restore_permitted policy))
    (PolicyViolation "archived checkpoint restore requires archive_restore_permitted policy").

(** ** Migration *)

Inductive MigrationStep : Type :=
| Planned | StepCaptured | SourceFenced | TargetRestored | AuthorityTransferred | SourceStopped.

#[export] Instance MigrationStep_eq_dec : EqDecision MigrationStep.
Proof. solve_decision. Defined.

Definition migration_as_str (s : MigrationStep) : string :=
  match s with
  | Planned => "planned"
  | StepCaptured => "captured"
  | SourceFenced => "source_fenced"
  | TargetRestored => "target_restored"
  | AuthorityTransferred => "authority_transferred"
  | SourceStopped => "source_stopped"
  end.

Definition migration_parse_str (s : string) : MigrationStep :=
  if bool_decide (s = "planned") then Planned
  else if bool_decide (s = "captured") then StepCaptured
  else if bool_decide (s = "source_fenced") then SourceFenced
  else if bool_decide (s = "target_restored") then TargetRestored
  else if bool_decide (s = "authority_transferred") then AuthorityTransferred
  else SourceStopped.

Record MigrationPlan := mkMigrationPlan {
  mp_migration_id : string;
  mp_workload_id : Id;
  mp_checkpoint_id : Id;
  mp_source_node : string;
  mp_target_node : string;
  mp_authority_token : string;
  mp_fence_epoch : Z
}.

Definition validate_migration_request (workload_id checkpoint_id : Id)
    (source_node target_node : string) : FabricResult unit :=
  reject_if (bool_decide (source_node = target_node))
    (MigrationFailure "migration source and target are the same node") ;;
  reject_if (bool_decide (workload_id = checkpoint_id))
    (InvalidArgument "workload and checkpoint ids must differ") ;;
  reject_if (bool_decide (source_node = "") || bool_decide (target_node = ""))
    (InvalidArgument "node names must not be empty").

(** * Lemmas *)

Lemma migration_step_roundtrip (s : MigrationStep) : migration_parse_str (migration_as_str s) = s.
Proof. by destruct s. Qed.

Lemma validate_target_claim_Ok (w : Workload) (target : string) (migration : bool) (u : unit) :
  validate_target_claim w target migration = Ok u <->
  (w_single_active w = true -> migration = false ->
     forall n, w_active_node w = Some n -> n = target \/ n = "MIGRATING").
Proof.
  unfold validate_target_claim. destruct u.
  destruct (w_single_active w), (w_active_node w) as [n |]; cbn; try naive_solver.
  rewrite reject_if_Ok. destruct (bool_decide (n = target)) eqn:E1,
    (bool_decide (n = "MIGRATING")) eqn:E2, migration; bool_facts; cbn; naive_solver.
Qed.

Lemma validate_migration_request_Ok (w c : Id) (s t : string) (u : unit) :
  validate_migration_request w c s t = Ok u <-> s <> t /\ w <> c /\ s <> "" /\ t <> "".
Proof.
  destruct u. unfold validate_migration_request, reject_if.
  destruct (bool_decide (s = t)) eqn:E1, (bool_decide (w = c)) eqn:E2,
    (bool_decide (s = "")) eqn:E3, (bool_decide (t = "")) eqn:E4; bool_facts; cbn; naive_solver.
Qed.

Lemma validate_context_refs_Ok `{HexCodec} (c : CheckpointObject) (refs : list ContextRefResolution) (u : unit) :
  validate_context_refs c refs = Ok u <->
  (forall r, r ∈ refs -> cref_required r = true ->
     exists d, d ∈ ck_dependencies c /\ dep_kind d = "context" /\
       dep_identity d = to_hex (cref_object_id r)).
Proof.
  unfold validate_context_refs. rewrite for_each_Ok.
  split; intros Hr r Hin; specialize (Hr r Hin); destruct (cref_required r); try done.
  - intros _. apply reject_if_Ok, negb_false_iff, existsb_elem_of in Hr as (d & Hd & Hm).
    bool_facts. by exists d.
  - destruct (Hr eq_refl) as (d & Hd & Hk & Hi). apply reject_if_Ok, negb_false_iff, existsb_elem_of.
    exists d. split; [done |]. by rewrite !bool_decide_eq_true_2.
Qed.

(** * Properties *)

(** A restore request is admitted exactly when the checkpoint is
    [Available] or [Restored], not marked corrupt, and has at least as many replicas
    as the policy asks for and a durable location.  In particular a [Retired]
    checkpoint is never admitted, whatever the archive policy says: the archive
    check that follows cannot change the outcome. *)
Theorem restore_admission_spec (c : CheckpointObject) (p : PolicySet) (target : string) :
  (validate_restore_request c p target = Ok tt <->
     (ck_lifecycle c = Available \/ ck_lifecycle c = Restored) /\
     ck_integrity_state c <> Corrupt /\
     p_min_valid_replicas p <= ck_replica_count c /\
     ck_durable_locations c <> []) /\
  (validate_restore_request c p target ;; restore_eligible c p)
    = validate_restore_request c p target.
Proof.
  unfold validate_restore_request, restore_eligible.
  destruct (ck_lifecycle c) eqn:E; cbn;
    try (split; [naive_solver | done]);
  destruct (bool_decide (ck_integrity_state c = Corrupt)) eqn:Ei;
    (destruct (ck_replica_count c <? p_min_valid_replicas p) eqn:Er);
    bool_facts; cbn; destruct (ck_durable_locations c); cbn;
    (split; [split; [done || (intros _; split_and!; (auto || lia || done))
                    | intros (? & ? & ? & ?); (done || lia)] | done]).
Qed.

(** The class reported after a restore never overstates: it is
    at most the captured class, is [NonResumable] on an incompatible target, and is
    at most a restart when execution was not resumed.  When it was, the function
    agrees with [CompatibilityResult::resumability_for], the class that module
    promises for the verdict. *)
Theorem restored_resumability_honest (captured : ResumabilityClass) (v v' : CompatVerdict) (resumed : bool) :
  restored_resumability captured v true = resumability_for v captured /\
  resumability_rank (restored_resumability captured v resumed) <= resumability_rank captured /\
  restored_resumability captured Incompatible resumed = NonResumable /\
  resumability_rank (restored_resumability captured v false) <= resumability_rank RestartFromCheckpoint /\
  (verdict_rank v <= verdict_rank v' ->
     resumability_rank (restored_resumability captured v' resumed)
       <= resumability_rank (restored_resumability captured v resumed)).
Proof. destruct captured, v, v', resumed; by vm_compute. Qed.

Example restored_resumability_honest_witness :
  resumability_rank (restored_resumability Exact CompatibleDegraded true)
    <= resumability_rank (restored_resumability Exact Compatible true).
Proof.
  apply (restored_resumability_honest Exact Compatible CompatibleDegraded true).
  by vm_compute.
Defined.
