(* ===== verification/Lineage.v ===== *)
(** Checkpoint lineage ([src/src/lineage.rs]): the relations, the validation of an
    incremental chain and the ancestor path.

    Both walks are loops over a lookup function; they are written with fuel, and
    the theorems give a fuel that is always enough. *)
From S2P Require Import Prelude Errors Ident Lifecycle Checkpoint.
From Stdlib Require Strings.Byte.

Inductive LineageRelation : Type :=
| Parent | Supersedes | ForkedFrom | RollbackOf | DeltaBase | MigratedFrom.

#[export] Instance LineageRelation_eq_dec : EqDecision LineageRelation.
Proof. solve_decision. Defined.

Definition relation_as_str (r : LineageRelation) : string :=
  match r with
  | Parent => "PARENT"
  | Supersedes => "SUPERSEDES"
  | ForkedFrom => "FORKED_FROM"
  | RollbackOf => "ROLLBACK_OF"
  | DeltaBase => "DELTA_BASE"
  | MigratedFrom => "MIGRATED_FROM"
  end.

Definition relation_parse_str (s : string) : LineageRelation :=
  if bool_decide (s = "PARENT") then Parent
  else if bool_decide (s = "SUPERSEDES") then Supersedes
  else if bool_decide (s = "FORKED_FROM") then ForkedFrom
  else if bool_decide (s = "ROLLBACK_OF") then RollbackOf
  else if bool_decide (s = "DELTA_BASE") then DeltaBase
  else MigratedFrom.

Record LineageRecord := mkLineageRecord {
  ln_seq : Z;
  ln_relation : LineageRelation;
  ln_workload_id : option Id;
  ln_checkpoint_id : option Id;
  ln_other_workload : option Id;
  ln_other_checkpoint : option Id;
  ln_ts_ms : Z;
  ln_detail : string
}.

(** The base of an incremental or delta checkpoint; every other type starts a chain. *)
Definition chain_base (c : CheckpointObject) : option Id :=
  match ck_checkpoint_type c with
  | Incremental | Delta => ck_parent_checkpoint c
  | _ => None
  end.

Definition lookup_fn : Type := Id -> FabricResult (option CheckpointObject).

(** The parent the loop goes on with. *)
Definition chain_parent (get_parent : lookup_fn) (parent_id : Id) : FabricResult CheckpointObject :=
  o ← get_parent parent_id;
  parent ← ok_or o
    (MissingDependency "incremental chain requires parent checkpoint {parent_id} which is missing");
  reject_if (is_terminal (ck_lifecycle parent) || bool_decide (ck_integrity_state parent = Corrupt))
    (MissingDependency "parent checkpoint {parent_id} is not restorable ({:?}, {:?})") ;;
  Ok parent.

(** The loop of [validate_incremental_chain]; [depth] is a [u32].  [None] is out of fuel. *)
Fixpoint chain_loop (get_parent : lookup_fn) (max_depth : Z) (fuel : nat)
    (depth : Z) (seen : gset Id) (cur : CheckpointObject) : option (FabricResult unit) :=
  match fuel with
  | O => None
  | S fuel' =>
      if bool_decide (ck_checkpoint_id cur ∈ seen) then
        Some (Err (LineageViolation "incremental chain contains a cycle at {}"))
      else
        let seen := {[ ck_checkpoint_id cur ]} ∪ seen in
        let depth := (depth + 1) mod 2 ^ 32 in
        if max_depth <? depth then
          Some (Err (LineageViolation "incremental chain exceeds policy depth limit of {max_depth}"))
        else
          match chain_base cur with
          | None => Some (Ok tt)
          | Some parent_id =>
              match chain_parent get_parent parent_id with
              | Err e => Some (Err e)
              | Ok parent => chain_loop get_parent max_depth fuel' depth seen parent
              end
          end
  end.

Definition validate_incremental_chain (fuel : nat) (checkpoint : CheckpointObject)
    (get_parent : lookup_fn) (max_depth : Z) : option (FabricResult unit) :=
  chain_loop get_parent max_depth fuel 0 ∅ checkpoint.

(** The loop of [ancestor_path]. *)
Fixpoint ancestor_loop (get : lookup_fn) (fuel : nat) (path : list Id) (seen : gset Id)
    (cur : option Id) : option (FabricResult (list Id)) :=
  match cur with
  | None => Some (Ok path)
  | Some id =>
      match fuel with
      | O => None
      | S fuel' =>
          if bool_decide (id ∈ seen) then Some (Err (LineageViolation "lineage cycle detected"))
          else
            match (o ← get id; ok_or o (MissingDependency "lineage ancestor {id} missing")) with
            | Err e => Some (Err e)
            | Ok c => ancestor_loop get fuel' (path ++ [id]) ({[ id ]} ∪ seen) (chain_base c)
            end
      end
  end.

Definition ancestor_path (fuel : nat) (checkpoint : CheckpointObject) (get : lookup_fn)
    : option (FabricResult (list Id)) :=
  ancestor_loop get fuel [] ∅ (ck_parent_checkpoint checkpoint).

(** * Specification *)

(** [sound_chain get c l]: [c] and then [l] are the links of a complete chain, each
    usable as the base of the one before it. *)
Inductive sound_chain (get : lookup_fn) : CheckpointObject -> list CheckpointObject -> Prop :=
| chain_end c : chain_base c = None -> sound_chain get c []
| chain_link c p parent l :
    chain_base c = Some p -> get p = Ok (Some parent) ->
    is_terminal (ck_lifecycle parent) = false -> ck_integrity_state parent <> Corrupt ->
    sound_chain get parent l -> sound_chain get c (parent :: l).

(** [ancestors get cur l]: following base links from [cur] visits [l]. *)
Inductive ancestors (get : lookup_fn) : option Id -> list Id -> Prop :=
| ancestors_end : ancestors get None []
| ancestors_link id c l :
    get id = Ok (Some c) -> ancestors get (chain_base c) l -> ancestors get (Some id) (id :: l).

(** * Lemmas *)

Lemma relation_roundtrip (r : LineageRelation) : relation_parse_str (relation_as_str r) = r.
Proof. by destruct r. Qed.

Lemma chain_parent_Ok (get : lookup_fn) (p : Id) (c : CheckpointObject) :
  chain_parent get p = Ok c <->
  get p = Ok (Some c) /\ is_terminal (ck_lifecycle c) = false /\ ck_integrity_state c <> Corrupt.
Proof.
  unfold chain_parent. destruct (get p) as [[x |] | e]; cbn;
    [| by split; [| intros [[=] _]] | by split; [| intros [[=] _]]].
  unfold reject_if. destruct (is_terminal (ck_lifecycle x)) eqn:E1,
    (bool_decide (ck_integrity_state x = Corrupt)) eqn:E2; bool_facts; cbn;
    (split; [intros; simplify_eq; auto | intros ([= ?] & ? & ?); congruence]).
Qed.

Lemma chain_loop_terminates get max_depth fuel depth seen cur :
  0 <= depth <= max_depth -> max_depth < u32_max ->
  (Z.to_nat (max_depth - depth) < fuel)%nat ->
  is_Some (chain_loop get max_depth fuel depth seen cur).
Proof.
  unfold u32_max. revert depth seen cur.
  induction fuel as [| fuel IH]; intros depth seen cur Hd Hm Hf; [lia |]. cbn -[Z.modulo Z.pow].
  case_bool_decide; [by eexists |]. rewrite (Z.mod_small (depth + 1)) by lia.
  destruct (Z.ltb_spec max_depth (depth + 1)); [by eexists |].
  destruct (chain_base cur); [| by eexists].
  destruct (chain_parent get _); [| by eexists]. apply IH; lia.
Qed.

Lemma chain_loop_Ok get max_depth fuel depth seen cur :
  0 <= depth <= max_depth -> max_depth < u32_max ->
  chain_loop get max_depth fuel depth seen cur = Some (Ok tt) ->
  exists l, sound_chain get cur l /\ depth + Z.of_nat (length (cur :: l)) <= max_depth /\
    NoDup (ck_checkpoint_id <$> cur :: l) /\
    (forall c, c ∈ cur :: l -> ck_checkpoint_id c ∉ seen).
Proof.
  unfold u32_max. revert depth seen cur.
  induction fuel as [| fuel IH]; intros depth seen cur Hd Hm; [done |]. cbn -[Z.modulo Z.pow].
  case_bool_decide as Hseen; [done |]. rewrite (Z.mod_small (depth + 1)) by lia.
  destruct (Z.ltb_spec max_depth (depth + 1)) as [? | Hlt]; [done |].
  destruct (chain_base cur) as [p |] eqn:Eb.
  - destruct (chain_parent get p) as [parent | e] eqn:Ep; [| done]. intros Hrun.
    apply chain_parent_Ok in Ep as (Hg & Ht & Hi).
    apply IH in Hrun as (l & Hl & Hlen & Hnd & Hns); [| lia | lia].
    exists (parent :: l). split_and!.
    + by econstructor.
    + cbn [length] in *. lia.
    + constructor; [| done].
      intros (c & Heq & Hc)%list_elem_of_fmap. specialize (Hns c Hc). set_solver.
    + intros c [-> | Hc]%elem_of_cons; [done |]. specialize (Hns c Hc). set_solver.
  - intros _. exists []. split_and!; [by constructor | cbn; lia | apply NoDup_singleton |].
    by intros c ->%list_elem_of_singleton.
Qed.

Lemma chain_loop_complete get max_depth fuel depth seen cur l :
  0 <= depth -> max_depth < u32_max ->
  sound_chain get cur l -> depth + Z.of_nat (length (cur :: l)) <= max_depth ->
  NoDup (ck_checkpoint_id <$> cur :: l) ->
  (forall c, c ∈ cur :: l -> ck_checkpoint_id c ∉ seen) ->
  (length l < fuel)%nat ->
  chain_loop get max_depth fuel depth seen cur = Some (Ok tt).
Proof.
  unfold u32_max. intros Hd Hm Hl. revert depth seen fuel Hd.
  induction Hl as [c Hb | c p parent l Hb Hg Ht Hi Hl IH];
    intros depth seen fuel Hd Hlen Hnd Hns Hf; (destruct fuel as [| fuel]; [cbn in *; lia |]);
    cbn [length] in *; cbn -[Z.modulo Z.pow];
    (rewrite bool_decide_eq_false_2 by (apply Hns; left));
    (rewrite (Z.mod_small (depth + 1)) by lia);
    (rewrite (proj2 (Z.ltb_ge max_depth (depth + 1))) by lia); rewrite Hb; [done |].
  rewrite (proj2 (chain_parent_Ok get p parent)) by done.
  rewrite (fmap_cons _ c) in Hnd. apply NoDup_cons in Hnd as [Hn Hnd].
  apply IH; [lia | cbn [length]; lia | done | | lia].
  intros x Hx. specialize (Hns x (list_elem_of_further _ _ _ Hx)).
  assert (ck_checkpoint_id x <> ck_checkpoint_id c); [| set_solver].
  intros E. apply Hn. rewrite <- E. by apply list_elem_of_fmap_2.
Qed.

Section ancestors.
Context (get : lookup_fn) (D : gset Id).
Hypothesis get_in_D : forall id c, get id = Ok (Some c) -> id ∈ D.

Lemma ancestor_loop_terminates (fuel : nat) (path : list Id) (seen : gset Id) (cur : option Id) :
  seen ⊆ D -> (size (D ∖ seen) < fuel)%nat ->
  is_Some (ancestor_loop get fuel path seen cur).
Proof.
  revert path seen cur. induction fuel as [| fuel IH]; intros path seen cur Hs Hf; [lia |].
  destruct cur as [id |]; cbn; [| by eexists].
  case_bool_decide as Hin; [by eexists |].
  destruct (get id) as [[c |] | e] eqn:Eg; cbn; [| by eexists | by eexists].
  pose proof (get_in_D id c Eg) as HD.
  apply IH; [set_solver |].
  assert (size (D ∖ ({[ id ]} ∪ seen)) < size (D ∖ seen))%nat; [| lia].
  apply subset_size. set_solver.
Qed.
End ancestors.

Lemma ancestor_loop_Ok (get : lookup_fn) (fuel : nat) (path : list Id) (seen : gset Id) (cur : option Id) (r : list Id) :
  ancestor_loop get fuel path seen cur = Some (Ok r) ->
  exists l, r = path ++ l /\ ancestors get cur l /\ NoDup l /\ (forall x, x ∈ l -> x ∉ seen).
Proof.
  revert path seen cur. induction fuel as [| fuel IH]; intros path seen [id |]; cbn; try done.
  1, 3: intros [= <-]; exists []; rewrite app_nil_r; split_and!;
        [done | constructor | constructor | by intros x ?%not_elem_of_nil].
  case_bool_decide as Hin; [done |].
  destruct (get id) as [[c |] | e] eqn:Eg; cbn; [| done | done].
  intros (l & -> & Ha & Hnd & Hns)%IH. exists (id :: l). rewrite <- app_assoc. split_and!.
  - done.
  - by econstructor.
  - constructor; [| done]. intros Hid. specialize (Hns id Hid). set_solver.
  - intros x [-> | Hx]%elem_of_cons; [done |]. specialize (Hns x Hx). set_solver.
Qed.

(** * Properties *)

(** C36 (termination). Validation of an incremental chain always ends, within
    [max_depth + 1] turns even if the parent links form a cycle, and it accepts
    exactly the complete chains: every base link leads to a stored checkpoint that
    is neither terminal nor corrupt, down to one that has no base, with at most
    [max_depth] checkpoints, all distinct. *)
Theorem validate_incremental_chain_spec (get : lookup_fn) (c : CheckpointObject)
    (max_depth : Z) (fuel : nat) :
  0 <= max_depth < u32_max -> (Z.to_nat max_depth < fuel)%nat ->
  is_Some (validate_incremental_chain fuel c get max_depth) /\
  (validate_incremental_chain fuel c get max_depth = Some (Ok tt) <->
     exists l, sound_chain get c l /\ Z.of_nat (length (c :: l)) <= max_depth /\
       NoDup (ck_checkpoint_id <$> c :: l)).
Proof.
  intros Hm Hf. unfold validate_incremental_chain. split.
  - apply chain_loop_terminates; lia.
  - split.
    + intros (l & Hl & Hlen & Hnd & _)%chain_loop_Ok; [| lia | lia]. by exists l.
    + intros (l & Hl & Hlen & Hnd). cbn [length] in Hlen.
      apply (chain_loop_complete get max_depth fuel 0 ∅ c l); cbn [length];
        first [lia | done | set_solver].
Qed.

(** The ancestor path of a checkpoint is computed in at most one
    turn more than there are stored checkpoints, whatever the links; the path it
    returns follows the base links and never repeats a checkpoint. *)
Theorem ancestor_path_spec (get : lookup_fn) (D : gset Id) (c : CheckpointObject) (fuel : nat)
    (path : list Id) :
  (forall id x, get id = Ok (Some x) -> id ∈ D) -> (size D < fuel)%nat ->
  is_Some (ancestor_path fuel c get) /\
  (ancestor_path fuel c get = Some (Ok path) ->
     ancestors get (ck_parent_checkpoint c) path /\ NoDup path).
Proof.
  intros HD Hf. unfold ancestor_path. split.
  - apply (ancestor_loop_terminates get D HD); [set_solver |].
    by replace (D ∖ ∅) with D by set_solver.
  - by intros (l & -> & ? & ? & _)%ancestor_loop_Ok.
Qed.

(** Two checkpoints that name each other as base. *)
Definition looped (cid base : Byte.byte) : CheckpointObject :=
  (sample_checkpoint (id_splat cid) (id_splat Byte.x09) (local_default "linux" "x86_64" "1.0.0"))
    <| ck_checkpoint_type := Incremental |> <| ck_parent_checkpoint := Some (id_splat base) |>.

Definition looped_get : lookup_fn := fun i =>
  if bool_decide (i = id_splat Byte.x01) then Ok (Some (looped Byte.x01 Byte.x02))
  else if bool_decide (i = id_splat Byte.x02) then Ok (Some (looped Byte.x02 Byte.x01))
  else Ok None.

Example validate_incremental_chain_spec_witness :
  is_Some (validate_incremental_chain 9 (looped Byte.x01 Byte.x02) looped_get 8) /\
  validate_incremental_chain 9 (looped Byte.x01 Byte.x02) looped_get 8
    = Some (Err (LineageViolation "incremental chain contains a cycle at {}")).
Proof.
  split; [| vm_compute; reflexivity].
  refine (proj1 (validate_incremental_chain_spec looped_get (looped Byte.x01 Byte.x02) 8 9 _ _));
    unfold u32_max; lia.
Defined.

Example ancestor_path_spec_witness :
  is_Some (ancestor_path 3 (looped Byte.x01 Byte.x02) looped_get) /\
  ancestor_path 3 (looped Byte.x01 Byte.x02) looped_get
    = Some (Err (LineageViolation "lineage cycle detected")).
Proof.
  split; [| vm_compute; reflexivity].
  refine (proj1 (ancestor_path_spec looped_get {[ id_splat Byte.x01; id_splat Byte.x02 ]}
    (looped Byte.x01 Byte.x02) 3 [] _ _)).
  - intros i x. unfold looped_get. repeat case_bool_decide; set_solver.
  - by vm_compute; lia.
Defined.
