(* ===== verification/Failpoints.v ===== *)
(** Deterministic failure injection ([src/src/failpoints.rs]): the table of armed
    failpoints as explicit state, and the parser of the list in the environment
    variable [CF_FAILPOINT]. *)
From S2P Require Import Prelude Errors.
From Stdlib Require Import Strings.Ascii.

(** The [ARMED] table: the firings left of each failpoint. *)
Notation Armed := (gmap string Z).

Definition arm (name : string) (count : Z) (m : Armed) : Armed := <[name := count]> m.
Definition disarm (name : string) (m : Armed) : Armed := delete name m.
Definition clear (m : Armed) : Armed := ∅.
Definition is_armed (name : string) (m : Armed) : bool := is_some (m !! name).

Definition fire (name : string) (m : Armed) : FabricResult unit * Armed :=
  match m !! name with
  | Some count =>
      if 0 <? count then
        let count := count - 1 in
        (Err (FailPoint name), if count =? 0 then delete name m else <[name := count]> m)
      else (Ok tt, m)
  | None => (Ok tt, m)
  end.

(** [n] calls of [fire name] in a row. *)
Fixpoint fire_times (name : string) (n : nat) (m : Armed) : list (FabricResult unit) * Armed :=
  match n with
  | O => ([], m)
  | S n' =>
      let '(r, m) := fire name m in
      let '(rs, m) := fire_times name n' m in (r :: rs, m)
  end.

(** One entry of the list: a name, or a name and its count. *)
Definition parse_entry (part : string) : string * Z :=
  match split_once ":"%char part with
  | Some (name, count) => (trim name, Z.max 1 (default 1 (parse_u32 count)))
  | None => (trim part, 1)
  end.
Definition parse_env (spec : string) : list (string * Z) :=
  map parse_entry (filter (fun s => s <> "") (split_on ","%char spec)).
Definition arm_from_spec (spec : string) (m : Armed) : Armed :=
  fold_left (fun m e => arm e.1 e.2 m) (parse_env spec) m.

(** * Lemmas *)

(** The list of the documentation of [parse_env], and entries it reads as one firing. *)
Example parse_env_cases :
  parse_env "name1,name2:3" = [("name1", 1); ("name2", 3)] /\ parse_env "" = [] /\
  parse_env " a ,,b : 2,c:0" = [("a", 1); ("b", 1); ("c", 1)].
Proof. vm_compute. repeat split. Qed.

(** Every count armed from a list lets the failpoint fire. *)
Lemma parse_env_counts spec name count : (name, count) ∈ parse_env spec -> 1 <= count <= u32_max.
Proof.
  unfold parse_env. intros (part & Hp & _)%list_elem_of_fmap. unfold parse_entry in Hp.
  destruct (split_once ":"%char part) as [[n c] |]; injection Hp as -> ->; [| by unfold u32_max].
  destruct (parse_u32 c) as [k |] eqn:Hk; cbn.
  - apply parse_u32_bounds in Hk. unfold u32_max in *. lia.
  - unfold u32_max. lia.
Qed.

Lemma fire_unarmed (name : string) (m : Armed) : m !! name = None -> fire name m = (Ok tt, m).
Proof. unfold fire. by intros ->. Qed.

Lemma fire_times_unarmed (name : string) (n : nat) (m : Armed) :
  m !! name = None -> fire_times name n m = (replicate n (Ok tt), m).
Proof. intros H. induction n as [| n IH]; cbn; [done |]. by rewrite fire_unarmed, IH. Qed.

Lemma fire_times_exhausted (name : string) (n : nat) (m : Armed) :
  m !! name = Some 0 -> fire_times name n m = (replicate n (Ok tt), m).
Proof.
  intros H. induction n as [| n IH]; [done |]. cbn [fire_times]. unfold fire at 1.
  rewrite H. cbn -[fire_times]. by rewrite IH.
Qed.

(** One firing of a failpoint that has [count] firings left. *)
Lemma fire_armed (name : string) (count : Z) (m : Armed) :
  0 < count ->
  fire name (<[name := count]> m) =
    (Err (FailPoint name), if count =? 1 then delete name m else <[name := count - 1]> m).
Proof.
  intros H. unfold fire. rewrite lookup_insert_eq, (proj2 (Z.ltb_lt _ _) H). f_equal.
  destruct (Z.eqb_spec count 1) as [-> | Hne].
  - by rewrite delete_insert_eq.
  - rewrite (proj2 (Z.eqb_neq _ _)) by lia. by rewrite insert_insert_eq.
Qed.

(** * Properties *)

(** A failpoint armed for [count] firings makes exactly the first
    [count] passages fail, with its own name, and none after that; it is then
    disarmed, and no other failpoint was touched. *)
Theorem failpoint_fires_count_times (name : string) (count more : nat) (m : Armed) :
  let '(rs, m') := fire_times name (count + more) (arm name (Z.of_nat count) m) in
  rs = replicate count (Err (FailPoint name)) ++ replicate more (Ok tt) /\
  (0 < Z.of_nat count -> is_armed name m' = false) /\
  (forall other, other <> name -> m' !! other = m !! other).
Proof.
  unfold arm. revert m. induction count as [| [| count] IH]; intros m.
  - cbn [Nat.add app replicate].
    rewrite fire_times_exhausted by apply lookup_insert_eq.
    split_and!; [done | by intros [=] | intros; by rewrite lookup_insert_ne].
  - change (1 + more)%nat with (S more). cbn [fire_times].
    rewrite fire_armed by lia. change (Z.of_nat 1 =? 1) with true. cbv iota beta.
    rewrite fire_times_unarmed by apply lookup_delete_eq.
    split_and!; [done | | intros; by rewrite lookup_delete_ne].
    intros _. unfold is_armed. by rewrite lookup_delete_eq.
  - change (S (S count) + more)%nat with (S (S count + more)). cbn [fire_times].
    rewrite fire_armed, (proj2 (Z.eqb_neq _ _)) by lia. cbv iota beta.
    replace (Z.of_nat (S (S count)) - 1) with (Z.of_nat (S count)) by lia.
    specialize (IH m). destruct (fire_times name (S count + more) _) as [rs m'].
    destruct IH as (-> & Ha & Ho).
    split_and!; [done | intros _; apply Ha; lia | done].
Qed.

Example failpoint_fires_count_times_witness :
  is_armed "capture.persist" (snd (fire_times "capture.persist" 3 (arm "capture.persist" 2 ∅))) = false.
Proof.
  pose proof (failpoint_fires_count_times "capture.persist" 2 1 ∅) as H.
  destruct (fire_times "capture.persist" (2 + 1) (arm "capture.persist" (Z.of_nat 2) ∅))
    as [rs m'] eqn:E.
  vm_compute in E. injection E as <- <-. exact (proj1 (proj2 H) eq_refl).
Defined.
