(* ===== verification/Tables.v ===== *)
(** The durable store: tables and statements ([src/src/persistence.rs]).

    A [Store] holds one finite map per table with a primary key and one list, in
    rowid order, per append-only table.  A row holds the decoded values of its
    columns; [Rows] gives the columns of the workload, checkpoint, component and lineage
    tables, and shows that they are read back as the rows held here.

    Conventions of the statements:
    - a statement is a function of the store that returns the error of the source or
      the answer with the new store, so an error leaves the store as it was: that is
      the rollback of the dropped transaction;
    - [now i] is the reading of [now_ms] at the [i]-th place of the method that reads
      it; the clock stays below 2^63 ms;
    - binding a [u64] above [i64::MAX] is an error of the driver ([bind_u64]);
    - free text that is only stored or displayed is its format string. *)
From S2P Require Import Prelude Errors Ident Lifecycle Checkpoint Workload Compression Policy Capture.
From S2P Require Import Lineage.
From Stdlib Require Import Strings.Ascii Numbers.DecimalString Numbers.DecimalNat Numbers.DecimalN.

(** ** Rows *)

(** [audit.rs]. *)
Inductive AuditResult : Type := AuditOk | AuditFailed | AuditRecovered | AuditRejected.

#[export] Instance AuditResult_eq_dec : EqDecision AuditResult.
Proof. solve_decision. Defined.

Definition audit_as_str (r : AuditResult) : string :=
  match r with
  | AuditOk => "ok"
  | AuditFailed => "failed"
  | AuditRecovered => "recovered"
  | AuditRejected => "rejected"
  end.

Definition audit_parse_str (s : string) : AuditResult :=
  if bool_decide (s = "ok") then AuditOk
  else if bool_decide (s = "failed") then AuditFailed
  else if bool_decide (s = "recovered") then AuditRecovered
  else AuditRejected.

Record AuditRecord := mkAuditRecord {
  au_seq : Z;
  au_ts_ms : Z;
  au_actor_name : string;
  au_op : string;
  au_workload_id : option Id;
  au_checkpoint_id : option Id;
  au_result : AuditResult;
  au_detail : string
}.

(** [node.rs]. *)
Record NodeRecord := mkNodeRecord {
  nd_id : string;
  nd_addr : string;
  nd_boot_id : string;
  nd_status : string;
  nd_registered_ms : Z;
  nd_last_heartbeat_ms : Z;
  nd_resources : JsonText
}.

#[export] Instance eta_NodeRecord : Settable NodeRecord := fun n =>
  mkNodeRecord (nd_id n) (nd_addr n) (nd_boot_id n) (nd_status n) (nd_registered_ms n)
    (nd_last_heartbeat_ms n) (nd_resources n).

Record Reservation := mkReservation {
  rv_id : string;
  rv_kind : string;
  rv_workload_id : option Id;
  rv_checkpoint_id : option Id;
  rv_node : string;
  rv_state : string;
  rv_created_ms : Z;
  rv_expires_ms : Z
}.

#[export] Instance eta_Reservation : Settable Reservation := fun r =>
  mkReservation (rv_id r) (rv_kind r) (rv_workload_id r) (rv_checkpoint_id r) (rv_node r)
    (rv_state r) (rv_created_ms r) (rv_expires_ms r).

Record JournalRow := mkJournalRow {
  jr_kind : string;
  jr_key : string;
  jr_state : string;
  jr_detail : string;
  jr_ts_ms : Z
}.

(** A row of [policies]: the JSON text and the active flag. *)
Record PolicyRow := mkPolicyRow { pr_json : string; pr_active : bool }.

(** The tables of [SCHEMA]. *)
Record Store := mkStore {
  st_meta : gmap string string;
  st_policies : gmap Z PolicyRow;
  st_workloads : gmap Id Workload;
  st_checkpoints : gmap Id CheckpointObject;
  st_components : gmap Id (gmap string ComponentEntry);
  st_lineage : list LineageRecord;
  st_attempts : gmap string AttemptRecord;
  st_nodes : gmap string NodeRecord;
  st_reservations : gmap string Reservation;
  st_audit : list AuditRecord;
  st_journal : list JournalRow
}.

#[export] Instance eta_Store : Settable Store := fun s =>
  mkStore (st_meta s) (st_policies s) (st_workloads s) (st_checkpoints s) (st_components s)
    (st_lineage s) (st_attempts s) (st_nodes s) (st_reservations s) (st_audit s) (st_journal s).

(** A database just created by [Store::open]. *)
Definition empty_store : Store := mkStore ∅ ∅ ∅ ∅ ∅ [] ∅ ∅ ∅ [] [].

Notation Clock := (nat -> Z).

(** ** SQL helpers *)

Definition bind_u64 (l : list Z) : FabricResult unit :=
  for_each (fun v => reject_if (i64_max <? v) (error_from_sqlite "integer out of range")) l.

(** [v as i64]. *)
Definition as_i64 (v : Z) : Z := if v <=? i64_max then v else v - 2 ^ 64.

(** [ORDER BY] an integer or a text column. *)
Definition key_le {A} (key : A -> Z) (a b : A) : Prop := key a <= key b.
Definition text_le {A} (key : A -> string) (a b : A) : Prop := String.leb (key a) (key b) = true.

#[export] Instance key_le_dec {A} (key : A -> Z) (a b : A) : Decision (key_le key a b) :=
  Z.le_dec (key a) (key b).
#[export] Instance text_le_dec {A} (key : A -> string) (a b : A) : Decision (text_le key a b) :=
  bool_eq_dec (String.leb (key a) (key b)) true.

Definition order_by {A} (key : A -> Z) (l : list A) : list A := merge_sort (key_le key) l.
Definition order_by_text {A} (key : A -> string) (l : list A) : list A := merge_sort (text_le key) l.

(** [ORDER BY key DESC LIMIT 1] and [ORDER BY key ASC LIMIT 1]. *)
Definition last_by {A} (key : A -> Z) (l : list A) : option A := last (order_by key l).
Definition first_by {A} (key : A -> Z) (l : list A) : option A := head (order_by key l).

(** The rows of a table, in no particular order. *)
Definition rows {K A} `{Countable K} (m : gmap K A) : list A := (map_to_list m).*2.

Definition sum_by {A} (key : A -> Z) (l : list A) : Z := foldr (fun a n => key a + n) 0 l.

(** What [INSERT INTO checkpoints] stores: the components go to their own table and
    the lineage lists are recomputed when the row is read. *)
Definition checkpoint_row (c : CheckpointObject) : CheckpointObject :=
  c <| ck_components := [] |> <| ck_lineage_parents := [] |> <| ck_lineage_children := [] |>.

Definition option_list {A} (o : option A) : list A := match o with Some a => [a] | None => [] end.

(** [row_to_checkpoint]. *)
Definition row_to_checkpoint (r : CheckpointObject) : CheckpointObject :=
  r <| ck_lineage_parents := option_list (ck_parent_checkpoint r) ++ option_list (ck_supersedes r) |>
    <| ck_lineage_children := option_list (ck_superseded_by r) |>
    <| ck_components := [] |>.

(** [lifecycle IN ('AVAILABLE','RESTORED')] on the rows of a workload. *)
Definition in_use_row (workload_id : Id) (c : CheckpointObject) : bool :=
  bool_decide (ck_workload_id c = workload_id) && lifecycle_is_restorable (ck_lifecycle c).

(** [INSERT OR IGNORE INTO journal], [UNIQUE(kind, key, state)]. *)
Definition journal_matches (kind key state : string) (j : JournalRow) : bool :=
  bool_decide (jr_kind j = kind) && bool_decide (jr_key j = key) && bool_decide (jr_state j = state).

Definition journal_insert (kind key state detail : string) (ts : Z) (s : Store) : Store :=
  if existsb (journal_matches kind key state) (st_journal s) then s
  else s <| st_journal := st_journal s ++ [mkJournalRow kind key state detail ts] |>.

(** [INSERT INTO lineage]; [seq] is [AUTOINCREMENT] and no row is ever deleted. *)
Definition lineage_insert (relation : LineageRelation) (workload_id checkpoint_id other_workload
    other_checkpoint : option Id) (ts : Z) (detail : string) (s : Store) : Store :=
  s <| st_lineage := st_lineage s ++
        [mkLineageRecord (Z.of_nat (length (st_lineage s)) + 1) relation workload_id checkpoint_id
           other_workload other_checkpoint ts detail] |>.

(** Updates one row of a table, [UPDATE .. WHERE id=?1]. *)
Definition update_workload (id : Id) (f : Workload -> Workload) (s : Store) : Store :=
  s <| st_workloads := alter f id (st_workloads s) |>.

Definition update_checkpoint (id : Id) (f : CheckpointObject -> CheckpointObject) (s : Store) : Store :=
  s <| st_checkpoints := alter f id (st_checkpoints s) |>.

(** [UNIQUE(workload_id, checkpoint_generation)]: another row already has the pair. *)
Definition generation_taken (id workload_id : Id) (generation : Z) (s : Store) : bool :=
  existsb (fun c => negb (bool_decide (ck_checkpoint_id c = id)) &&
                    bool_decide (ck_workload_id c = workload_id) &&
                    (ck_checkpoint_generation c =? generation)) (rows (st_checkpoints s)).

(** ** Decimal text of an integer, [u64::to_string] and [str::parse::<u64>]. *)

Definition u64_to_string (v : Z) : string :=
  NilZero.string_of_uint (N.to_uint (Z.to_N v)).

Definition parse_u64 (s : string) : option Z :=
  let digits := match s with String "+"%char s' => s' | _ => s end in
  d ← NilZero.uint_of_string digits;
  let v := Z.of_N (N.of_uint d) in
  if v <=? u64_max then Some v else None.
