(* ===== verification/Persist.v ===== *)
(** The operations of the durable store ([impl Store] of [src/src/persistence.rs]).

    One definition per method, in the order of the file.  The methods that only
    read return the store unchanged, so every operation has the same shape. *)
From S2P Require Import Prelude Errors Ident Lifecycle Checkpoint Workload Compression Policy Capture.
From S2P Require Import Lineage Tables.
From Stdlib Require Import Strings.Ascii.

Definition Tx (A : Type) : Type := Store -> FabricResult (A * Store).

(** [Ok(v)] of a method that only reads. *)
Definition answer {A} (a : A) (s : Store) : FabricResult (A * Store) := Ok (a, s).

(** [tx.commit()?; Ok(())]. *)
Definition commit (s : Store) : FabricResult (unit * Store) := Ok (tt, s).

(** ** Coordinator epoch and metadata *)

Definition stored_epoch (s : Store) : Z :=
  default 0 (v ← st_meta s !! "coordinator_epoch"; parse_u64 v).

Definition claim_coordinator_epoch (requested : option Z) : Tx Z := fun s =>
  let stored := stored_epoch s in
  epoch ← match requested with
          | Some v => if stored <? v then Ok v
                      else Err (StaleCoordinatorEpoch (saturating_add stored 1) v)
          | None => Ok (saturating_add stored 1)
          end;
  Ok (epoch, s <| st_meta := <["coordinator_epoch" := u64_to_string epoch]> (st_meta s) |>).

Definition meta_get (key : string) : Tx (option string) := fun s => answer (st_meta s !! key) s.

Definition meta_put (key value : string) : Tx unit := fun s =>
  commit (s <| st_meta := <[key := value]> (st_meta s) |>).

(** ** Policies *)

Section policies.
Context `{PolicyCodec}.

Definition policy_insert (policy : PolicySet) (active : bool) : Tx unit := fun s =>
  json ← policy_to_string policy;
  commit (s <| st_policies := <[p_version policy := mkPolicyRow json active]> (st_policies s) |>).

Definition policy_versions : Tx (list Z) := fun s =>
  answer (order_by id (map_to_list (st_policies s)).*1) s.

Definition policy_load (version : Z) : Tx (option PolicySet) := fun s =>
  match st_policies s !! version with
  | None => answer None s
  | Some row => p ← policy_from_json (pr_json row); answer (Some p) s
  end.

Definition policy_load_all : Tx (list PolicySet) := fun s =>
  ps ← mapM policy_from_json (pr_json <$> rows (st_policies s));
  answer (order_by p_version ps) s.
End policies.

(** ** Workloads *)

(** The [u64] columns of a workload row. *)
Definition workload_params (w : Workload) : list Z :=
  [w_workload_generation w; w_created_ms w; w_execution_epoch w; w_checkpoint_generation w;
   w_fork_generation w; w_fence_epoch w].

Definition workload_insert (w : Workload) : Tx unit := fun s =>
  bind_u64 (workload_params w) ;;
  reject_if (is_some (st_workloads s !! w_workload_id w)) (error_from_sqlite "UNIQUE constraint failed: workloads.id") ;;
  commit (s <| st_workloads := <[w_workload_id w := w]> (st_workloads s) |>).

Definition workload_insert_fork (now : Clock) (child : Workload) (parent checkpoint : Id)
    (detail : string) : Tx unit := fun s =>
  bind_u64 (workload_params child) ;;
  reject_if (is_some (st_workloads s !! w_workload_id child))
    (error_from_sqlite "UNIQUE constraint failed: workloads.id") ;;
  let s := s <| st_workloads := <[w_workload_id child := child]> (st_workloads s) |> in
  commit (lineage_insert ForkedFrom (Some (w_workload_id child)) None (Some parent)
            (Some checkpoint) (now 0%nat) detail s).

Definition workload_get (id : Id) : Tx (option Workload) := fun s =>
  answer (st_workloads s !! id) s.

Definition workload_list : Tx (list Workload) := fun s =>
  answer (order_by w_created_ms (rows (st_workloads s))) s.

Definition workload_update (w : Workload) : Tx unit := fun s =>
  bind_u64 [w_workload_generation w; w_execution_epoch w; w_checkpoint_generation w;
            w_fence_epoch w] ;;
  commit (update_workload (w_workload_id w) (fun row =>
    row <| w_workload_generation := w_workload_generation w |>
        <| w_execution_epoch := w_execution_epoch w |>
        <| w_active_node := w_active_node w |>
        <| w_checkpoint_generation := w_checkpoint_generation w |>
        <| w_policy_version := w_policy_version w |>
        <| w_resumability_class := w_resumability_class w |>
        <| w_protection := w_protection w |>
        <| w_single_active := w_single_active w |>
        <| w_fence_token := w_fence_token w |>
        <| w_fence_epoch := w_fence_epoch w |>) s).

Definition workload_bump_fence (id : Id) (expected_epoch : Z) : Tx Z := fun s =>
  w ← ok_or (st_workloads s !! id) (WorkloadNotFound "{id}");
  let cur := w_execution_epoch w in
  reject_if (negb (cur =? expected_epoch)) (StaleWorkloadEpoch expected_epoch cur) ;;
  let new_epoch := wrapping_add cur 1 in
  bind_u64 [new_epoch] ;;
  Ok (new_epoch, update_workload id (fun row =>
    row <| w_execution_epoch := new_epoch |> <| w_fence_token := None |> <| w_active_node := None |>) s).

(** Another node holds the claim of a single-active workload. *)
Definition claimed_elsewhere (w : Workload) (node : string) : bool :=
  w_single_active w &&
  match w_active_node w with
  | Some an => negb (bool_decide (an = node)) && negb (bool_decide (an = "MIGRATING"))
  | None => false
  end.

Definition workload_claim (id : Id) (node token : string) (fence_epoch : Z) : Tx unit := fun s =>
  w ← ok_or (st_workloads s !! id) (WorkloadNotFound "{id}");
  reject_if (claimed_elsewhere w node)
    (FencingFailure "workload is single-active and already claimed by node {an}") ;;
  let cur_epoch := w_execution_epoch w in
  reject_if (negb (cur_epoch =? fence_epoch)) (StaleWorkloadEpoch cur_epoch fence_epoch) ;;
  bind_u64 [cur_epoch] ;;
  commit (update_workload id (fun row =>
    row <| w_active_node := Some node |> <| w_fence_token := Some token |>
        <| w_fence_epoch := cur_epoch |>) s).

Definition workload_release (id : Id) (node : string) : Tx unit := fun s =>
  commit (update_workload id (fun row =>
    if bool_decide (w_active_node row = Some node)
    then row <| w_fence_token := None |> <| w_active_node := None |>
    else row) s).

Definition workload_advance (id : Id) (new_workload_generation checkpoint_generation : Z)
    (bump_execution : bool) : Tx unit := fun s =>
  w ← ok_or (st_workloads s !! id) (WorkloadNotFound "{id}");
  let cur_gen := w_workload_generation w in
  let cur_epoch := w_execution_epoch w in
  let new_gen := if bump_execution then wrapping_add cur_gen 1 else new_workload_generation in
  let new_epoch := if bump_execution then wrapping_add cur_epoch 1 else cur_epoch in
  reject_if ((new_gen <=? cur_gen) && bump_execution)
    (GenerationMismatch "workload generation must be monotonic: {} -> {new_gen}") ;;
  bind_u64 [new_gen; checkpoint_generation; new_epoch] ;;
  commit (update_workload id (fun row =>
    row <| w_workload_generation := new_gen |> <| w_checkpoint_generation := checkpoint_generation |>
        <| w_execution_epoch := new_epoch |>) s).

(** ** Checkpoints *)

(** The [u64] columns of a checkpoint row. *)
Definition checkpoint_params (c : CheckpointObject) : list Z :=
  [ck_workload_generation c; ck_checkpoint_generation c; ck_coordinator_epoch c; ck_created_ms c;
   ck_seal_ms c; ck_total_logical_bytes c; ck_total_physical_bytes c; ck_compressed_bytes c;
   ck_restore_count c].

(** The loop of [INSERT INTO components], [PRIMARY KEY(checkpoint_id, component_id)]. *)
Fixpoint insert_components (l : list ComponentEntry) (m : gmap string ComponentEntry)
    : FabricResult (gmap string ComponentEntry) :=
  match l with
  | [] => Ok m
  | comp :: l' =>
      bind_u64 [ce_generation comp; ce_logical_size comp] ;;
      reject_if (is_some (m !! ce_component_id comp))
        (error_from_sqlite "UNIQUE constraint failed: components.checkpoint_id, components.component_id") ;;
      insert_components l' (<[ce_component_id comp := comp]> m)
  end.

(** An error of the [INSERT] itself is reported as a conflict. *)
Definition insertion_conflict (r : FabricResult unit) : FabricResult unit :=
  match r with
  | Ok u => Ok u
  | Err _ => Err (PersistenceError "checkpoint {} insertion conflict: {e}")
  end.

Definition checkpoint_insert (c : CheckpointObject) : Tx unit := fun s =>
  let id := ck_checkpoint_id c in
  insertion_conflict (
    bind_u64 (checkpoint_params c) ;;
    reject_if (is_some (st_checkpoints s !! id)) (error_from_sqlite "UNIQUE constraint failed: checkpoints.id") ;;
    reject_if (generation_taken id (ck_workload_id c) (ck_checkpoint_generation c) s)
      (error_from_sqlite "UNIQUE constraint failed: checkpoints.workload_id, checkpoints.checkpoint_generation")) ;;
  comps ← insert_components (ck_components c) (default ∅ (st_components s !! id));
  commit (s <| st_checkpoints := <[id := checkpoint_row c]> (st_checkpoints s) |>
            <| st_components := <[id := comps]> (st_components s) |>).

(** Every column but [id] and [workload_id] is set. *)
Definition checkpoint_update (c : CheckpointObject) : Tx unit := fun s =>
  let id := ck_checkpoint_id c in
  bind_u64 (checkpoint_params c) ;;
  match st_checkpoints s !! id with
  | None => Err (CheckpointNotFound "{c.checkpoint_id}")
  | Some row =>
      reject_if (generation_taken id (ck_workload_id row) (ck_checkpoint_generation c) s)
        (error_from_sqlite "UNIQUE constraint failed: checkpoints.workload_id, checkpoints.checkpoint_generation") ;;
      comps ← insert_components (ck_components c) ∅;
      commit (s <| st_checkpoints :=
                     <[id := (checkpoint_row c) <| ck_workload_id := ck_workload_id row |>]>
                       (st_checkpoints s) |>
                <| st_components := <[id := comps]> (st_components s) |>)
  end.

Definition checkpoint_set_lifecycle (id : Id) (lifecycle : LifecycleState) (integrity : IntegrityState)
    : Tx unit := fun s =>
  reject_if (is_none (st_checkpoints s !! id)) (CheckpointNotFound "{id}") ;;
  commit (update_checkpoint id (fun row =>
    row <| ck_lifecycle := lifecycle |> <| ck_integrity_state := integrity |>) s).

(** The neighbours of generation [g] among the checkpoints in use of a workload. *)
Definition previous_in_use (workload_id : Id) (g : Z) (s : Store) : option Id :=
  ck_checkpoint_id <$> last_by ck_checkpoint_generation
    (List.filter (fun c => in_use_row workload_id c && (ck_checkpoint_generation c <? g))
       (rows (st_checkpoints s))).

Definition next_in_use (workload_id : Id) (g : Z) (s : Store) : option Id :=
  ck_checkpoint_id <$> first_by ck_checkpoint_generation
    (List.filter (fun c => in_use_row workload_id c && (g <? ck_checkpoint_generation c))
       (rows (st_checkpoints s))).

(** [UPDATE .. WHERE id=?] on an optional id. *)
Definition update_checkpoint_opt (o : option Id) (f : CheckpointObject -> CheckpointObject)
    (s : Store) : Store :=
  match o with Some i => update_checkpoint i f s | None => s end.

(** [INSERT INTO lineage .. WHERE NOT EXISTS(..)]. *)
Definition supersedes_recorded (id p : Id) (s : Store) : bool :=
  existsb (fun l => bool_decide (ln_relation l = Supersedes) &&
                    bool_decide (ln_checkpoint_id l = Some id) &&
                    bool_decide (ln_other_checkpoint l = Some p)) (st_lineage s).

Definition record_supersedes (now : Clock) (workload_id id : Id) (prev : option Id) (s : Store) : Store :=
  match prev with
  | Some p =>
      if supersedes_recorded id p s then s
      else lineage_insert Supersedes (Some workload_id) (Some id) None (Some p) (now 0%nat)
             "generation {checkpoint_generation} supersedes {p}" s
  | None => s
  end.

(** The three [UPDATE checkpoints] of the commit: the checkpoint itself and its
    neighbours. *)
Definition link_checkpoint (id : Id) (prev next : option Id) (s : Store) : Store :=
  let s := update_checkpoint id (fun r =>
             r <| ck_lifecycle := Available |> <| ck_integrity_state := Valid |>
               <| ck_supersedes := prev |> <| ck_superseded_by := next |>) s in
  let s := update_checkpoint_opt prev (fun r => r <| ck_superseded_by := Some id |>) s in
  update_checkpoint_opt next (fun r => r <| ck_supersedes := Some id |>) s.

(** [if checkpoint_generation >= current_checkpoint_generation]. *)
Definition advance_checkpoint_generation (workload_id : Id) (current_checkpoint_generation : Z)
    (row : CheckpointObject) (s : Store) : Store :=
  if current_checkpoint_generation <=? ck_checkpoint_generation row then
    update_workload workload_id (fun w =>
      w <| w_checkpoint_generation := ck_checkpoint_generation row |>
        <| w_resumability_class := ck_resumability row |>) s
  else s.

Definition capture_commit (now : Clock) (id : Id) (attempt_id : string) : Tx unit := fun s =>
  row ← ok_or (st_checkpoints s !! id) (CheckpointNotFound "{id}");
  let workload_id := ck_workload_id row in
  let checkpoint_generation := ck_checkpoint_generation row in
  let current := ck_lifecycle row in
  reject_if (negb (bool_decide (current = Persisting)) && negb (bool_decide (current = Available)))
    (InvalidLifecycleTransition (lifecycle_as_str current) (lifecycle_as_str Available)) ;;
  reject_if (is_empty_list (ck_durable_locations row) ||
             bool_decide (unwrap_or_default (ck_manifest_digest row) = ""))
    (IncompleteCheckpoint "persisted checkpoint {id} lacks a durable location or manifest anchor") ;;
  w ← ok_or (st_workloads s !! workload_id) (WorkloadNotFound "{workload_hex}");
  reject_if (bool_decide (current = Persisting) &&
             negb (w_workload_generation w =? ck_workload_generation row))
    (GenerationMismatch "capture generation {workload_generation} is stale; workload is generation {current_workload_generation}") ;;
  let prev := previous_in_use workload_id checkpoint_generation s in
  let next := next_in_use workload_id checkpoint_generation s in
  let s := link_checkpoint id prev next s in
  let s := record_supersedes now workload_id id prev s in
  let s := advance_checkpoint_generation workload_id (w_checkpoint_generation w) row s in
  commit (journal_insert "capture" attempt_id "db_committed" "metadata committed atomically"
            (now 1%nat) s).

Definition restore_commit (now : Clock) (checkpoint_id : Id) (attempt_id target_node fence_token : string)
    (migration rollback : bool) : Tx unit := fun s =>
  row ← ok_or (st_checkpoints s !! checkpoint_id) (CheckpointNotFound "{checkpoint_id}");
  let workload_id := ck_workload_id row in
  let checkpoint_generation := ck_checkpoint_generation row in
  transition (ck_lifecycle row) Restored ;;
  w ← ok_or (st_workloads s !! workload_id) (WorkloadNotFound "{workload_hex}");
  let new_generation := saturating_add (w_workload_generation w) 1 in
  let new_epoch := saturating_add (saturating_add (w_execution_epoch w) 1)
                     (if migration then 1 else 0) in
  bind_u64 [new_generation; checkpoint_generation; new_epoch] ;;
  let s := update_workload workload_id (fun w =>
             w <| w_workload_generation := new_generation |>
               <| w_checkpoint_generation := checkpoint_generation |>
               <| w_execution_epoch := new_epoch |>
               <| w_active_node := Some target_node |>
               <| w_fence_token := Some fence_token |>
               <| w_fence_epoch := new_epoch |>) s in
  let s := update_checkpoint checkpoint_id (fun r =>
             r <| ck_lifecycle := Restored |> <| ck_integrity_state := Valid |>
               <| ck_restore_count := ck_restore_count r + 1 |>
               <| ck_last_restore_result := Some "restored" |>) s in
  let s := if rollback then
             lineage_insert RollbackOf (Some workload_id) (Some checkpoint_id) None None (now 0%nat)
               "rollback: workload generation {generation} -> {new_generation} via checkpoint {checkpoint_generation}" s
           else s in
  let s := if migration then
             let s := lineage_insert MigratedFrom (Some workload_id) (Some checkpoint_id) None None
                        (now 1%nat) "migrated to {target_node}" s in
             journal_insert "migration" attempt_id "authority_transferred"
               "authority transferred atomically" (now 2%nat) s
           else s in
  commit (journal_insert "restore" attempt_id "generation_committed"
            "generation committed atomically" (now 3%nat) s).

(** [COALESCE(MAX(checkpoint_generation), 0)]; generations are not negative. *)
Definition checkpoint_max_generation (workload_id : Id) : Tx Z := fun s =>
  answer (foldr (fun c g => Z.max (ck_checkpoint_generation c) g) 0
    (List.filter (fun c => bool_decide (ck_workload_id c = workload_id)) (rows (st_checkpoints s)))) s.

Definition checkpoint_max_available (workload_id : Id) : Tx (option Id) := fun s =>
  answer (ck_checkpoint_id <$> last_by ck_checkpoint_generation
    (List.filter (in_use_row workload_id) (rows (st_checkpoints s)))) s.

Definition checkpoint_set_superseded (id : Id) (superseded_by : option Id) : Tx unit := fun s =>
  commit (update_checkpoint id (fun r => r <| ck_superseded_by := superseded_by |>) s).

Definition checkpoint_set_supersedes (id : Id) (supersedes : option Id) : Tx unit := fun s =>
  commit (update_checkpoint id (fun r => r <| ck_supersedes := supersedes |>) s).

(** [checkpoint_components_locked]. *)
Definition checkpoint_components (id : Id) (s : Store) : list ComponentEntry :=
  order_by_text ce_component_id (rows (default ∅ (st_components s !! id))).

(** A row as the reader returns it, with its components. *)
Definition read_checkpoint (s : Store) (r : CheckpointObject) : CheckpointObject :=
  (row_to_checkpoint r) <| ck_components := checkpoint_components (ck_checkpoint_id r) s |>.

Definition checkpoint_get (id : Id) : Tx (option CheckpointObject) := fun s =>
  answer (read_checkpoint s <$> st_checkpoints s !! id) s.

Definition checkpoint_list (workload_id : option Id) : Tx (list CheckpointObject) := fun s =>
  let selected :=
    match workload_id with
    | None => order_by ck_created_ms (rows (st_checkpoints s))
    | Some wid => order_by ck_checkpoint_generation
        (List.filter (fun c => bool_decide (ck_workload_id c = wid)) (rows (st_checkpoints s)))
    end in
  answer (read_checkpoint s <$> selected) s.

Definition checkpoint_set_digest (id : Id) (digest manifest_json : string) : Tx unit := fun s =>
  commit (update_checkpoint id (fun r =>
    r <| ck_manifest_digest := Some digest |> <| ck_manifest_json := Some manifest_json |>) s).

Definition checkpoint_record_restore (id : Id) (result : string) : Tx unit := fun s =>
  commit (update_checkpoint id (fun r =>
    r <| ck_restore_count := ck_restore_count r + 1 |> <| ck_last_restore_result := Some result |>) s).

Definition checkpoint_set_protection (id : Id) (p : ProtectionState) : Tx unit := fun s =>
  commit (update_checkpoint id (fun r =>
    r <| ck_protection := p |> <| ck_retirement_eligibility := EligProtected |>) s).

Definition checkpoint_retire (id : Id) : Tx unit := fun s =>
  row ← ok_or (st_checkpoints s !! id) (CheckpointNotFound "{id}");
  reject_if (bool_decide (ck_protection row = Pinned))
    (PolicyViolation "pinned checkpoint cannot be retired") ;;
  transition (ck_lifecycle row) Retired ;;
  commit (update_checkpoint id (fun r =>
    r <| ck_lifecycle := Retired |> <| ck_retirement_eligibility := NotEligible |>
      <| ck_durable_locations := [] |> <| ck_replica_count := 0 |>) s).

Definition checkpoint_set_integrity (id : Id) (state : IntegrityState) : Tx unit := fun s =>
  commit (update_checkpoint id (fun r => r <| ck_integrity_state := state |>) s).

(** The two columns that hold the replicas of a checkpoint. *)
Definition set_locations (locations : list DurableLocation) (r : CheckpointObject) : CheckpointObject :=
  r <| ck_durable_locations := locations |>
    <| ck_replica_count := Z.of_nat (length locations) |>.

Definition checkpoint_add_location (id : Id) (location : DurableLocation) : Tx unit := fun s =>
  row ← ok_or (st_checkpoints s !! id) (error_from_sqlite "Query returned no rows");
  let locations := ck_durable_locations row in
  let locations :=
    if existsb (fun l => bool_decide (loc_node l = loc_node location)) locations then locations
    else locations ++ [location] in
  commit (update_checkpoint id (set_locations locations) s).

Definition checkpoint_remove_location (id : Id) (node : string) : Tx unit := fun s =>
  row ← ok_or (st_checkpoints s !! id) (error_from_sqlite "Query returned no rows");
  let locations := List.filter (fun l => negb (bool_decide (loc_node l = node)))
                     (ck_durable_locations row) in
  commit (update_checkpoint id (set_locations locations) s).

(** ** Lineage *)

Definition lineage_append (now : Clock) (relation : LineageRelation) (workload_id checkpoint_id
    other_workload other_checkpoint : option Id) (detail : string) : Tx unit := fun s =>
  commit (lineage_insert relation workload_id checkpoint_id other_workload other_checkpoint
            (now 0%nat) detail s).

Definition lineage_query (workload_id checkpoint_id : option Id) : Tx (list LineageRecord) := fun s =>
  answer
    match workload_id, checkpoint_id with
    | Some w, None =>
        List.filter (fun l => bool_decide (ln_workload_id l = Some w) ||
                              bool_decide (ln_other_workload l = Some w)) (st_lineage s)
    | None, Some c =>
        List.filter (fun l => bool_decide (ln_checkpoint_id l = Some c) ||
                              bool_decide (ln_other_checkpoint l = Some c)) (st_lineage s)
    | _, _ => st_lineage s
    end s.

(** ** Attempts *)

Definition attempt_begin (now : Clock) (id kind : string) (checkpoint_id workload_id : option Id)
    (node : string) : Tx unit := fun s =>
  if is_some (st_attempts s !! id) then commit s
  else commit (s <| st_attempts :=
    <[id := mkAttemptRecord id kind checkpoint_id workload_id node "ACTIVE" (now 0%nat) None None None]>
      (st_attempts s) |>).

Definition attempt_finish (now : Clock) (id state : string) (result error : option string)
    : Tx unit := fun s =>
  commit (s <| st_attempts := alter (fun a =>
    a <| at_state := state |> <| at_result := result |> <| at_error := error |>
      <| at_finished_ms := Some (now 0%nat) |>) id (st_attempts s) |>).

Definition attempt_get (id : string) : Tx (option AttemptRecord) := fun s =>
  answer (st_attempts s !! id) s.

Definition attempts_in_state (state : string) : Tx (list AttemptRecord) := fun s =>
  answer (order_by at_started_ms
    (List.filter (fun a => bool_decide (at_state a = state)) (rows (st_attempts s)))) s.

(** ** Nodes *)

Definition node_register (now : Clock) (id addr boot_id : string) (resources : JsonText)
    : Tx unit := fun s =>
  let put n := commit (s <| st_nodes := <[id := n]> (st_nodes s) |>) in
  match st_nodes s !! id with
  | Some old =>
      if negb (bool_decide (nd_boot_id old = boot_id)) then
        if bool_decide (nd_status old = "STALE") || bool_decide (nd_status old = "RETIRED") then
          put (mkNodeRecord id addr boot_id "ACTIVE" (now 0%nat) (now 0%nat) resources)
        else Err (FencingFailure "node {id} is already registered with a different boot id")
      else put (mkNodeRecord id addr boot_id "ACTIVE" (nd_registered_ms old) (now 1%nat) resources)
  | None => put (mkNodeRecord id addr boot_id "ACTIVE" (now 1%nat) (now 1%nat) resources)
  end.

Definition node_heartbeat (now : Clock) (id : string) (resources : JsonText) : Tx unit := fun s =>
  reject_if (is_none (st_nodes s !! id)) (Internal "heartbeat for unknown node {id}") ;;
  commit (s <| st_nodes := alter (fun n =>
    n <| nd_last_heartbeat_ms := now 0%nat |> <| nd_status := "ACTIVE" |>
      <| nd_resources := resources |>) id (st_nodes s) |>).

Definition set_node_status (id status : string) (s : Store) : Store :=
  s <| st_nodes := alter (fun n => n <| nd_status := status |>) id (st_nodes s) |>.

Definition node_set_status (id status : string) : Tx unit := fun s =>
  commit (set_node_status id status s).

Definition node_list : Tx (list NodeRecord) := fun s =>
  answer (order_by_text nd_id (rows (st_nodes s))) s.

Definition node_validate_identity (id boot_id : string) : Tx unit := fun s =>
  match st_nodes s !! id with
  | Some n =>
      if bool_decide (nd_boot_id n = boot_id) && bool_decide (nd_status n = "ACTIVE")
      then commit s
      else Err (FencingFailure "node {id} boot identity is stale or status is {status}")
  | None => Err (FencingFailure "node {id} is not registered")
  end.

(** [Path::join] and [Path]'s equality on Unix: a path is its root flag and its
    components, without the empty ones and the [.] that does not lead. *)
Definition path_join (base rel : string) : string :=
  if bool_decide (base = "") || String.eqb (String.substring (String.length base - 1) 1 base) "/"
  then base +:+ rel else base +:+ "/" +:+ rel.

Fixpoint split_path (s : string) : list string :=
  match s with
  | EmptyString => [""]
  | String c s' =>
      if bool_decide (c = "/"%char) then "" :: split_path s'
      else match split_path s' with
           | p :: ps => String c p :: ps
           | [] => [String c ""]
           end
  end.

Definition path_components (s : string) : bool * list string :=
  let has_root := String.prefix "/" s in
  let parts := split_path s in
  let lead := match parts with "." :: _ => if has_root then [] else ["."] | _ => [] end in
  (has_root, lead ++ List.filter (fun p => negb (bool_decide (p = "")) && negb (bool_decide (p = "."))) parts).

Definition path_eq (a b : string) : bool := bool_decide (path_components a = path_components b).

Section rebind.
Context `{HexCodec}.

(** [data_dir.join("checkpoints").join(id.to_hex())]. *)
Definition commit_path (data_dir : string) (id : Id) : string :=
  path_join (path_join data_dir "checkpoints") (to_hex id).

Definition checkpoint_rebind_location (id : Id) (node data_dir : string) : Tx unit := fun s =>
  match st_checkpoints s !! id with
  | None => commit s
  | Some row =>
      let commit_dir := commit_path data_dir id in
      let same l := path_eq (loc_path l) commit_dir || bool_decide (loc_node l = node) in
      let verified := existsb (fun l => same l && loc_verified l) (ck_durable_locations row) in
      let locations := List.filter (fun l => negb (same l)) (ck_durable_locations row) in
      let locations := locations ++ [mkDurableLocation node commit_dir verified] in
      commit (update_checkpoint id (set_locations locations) s)
  end.
End rebind.

(** [UPDATE nodes SET status='STALE' WHERE id=?1 AND status='ACTIVE']. *)
Definition mark_stale (s : Store) (id : string) : Store :=
  s <| st_nodes := alter (fun n =>
    if bool_decide (nd_status n = "ACTIVE") then n <| nd_status := "STALE" |> else n) id
    (st_nodes s) |>.

Definition nodes_sweep_stale (stale_before_ms : Z) : Tx (list string) := fun s =>
  let stale := nd_id <$> List.filter (fun n => bool_decide (nd_status n = "ACTIVE") &&
                 (nd_last_heartbeat_ms n <? as_i64 stale_before_ms)) (rows (st_nodes s)) in
  Ok (stale, fold_left mark_stale stale s).

Definition node_delete (id : string) : Tx unit := fun s =>
  commit (s <| st_nodes := delete id (st_nodes s) |>).

(** ** Reservations *)

Definition is_active_reservation (r : Reservation) : bool := bool_decide (rv_state r = "ACTIVE").

(** The partial unique indexes [uq_res_capture] and [uq_res_restore]; [NULL] is
    distinct from [NULL]. *)
Definition scope_conflict (kind : string) (workload_id checkpoint_id : option Id) (r : Reservation) : bool :=
  is_active_reservation r && bool_decide (rv_kind r = kind) &&
  ((bool_decide (kind = "capture") && is_some workload_id &&
      bool_decide (rv_workload_id r = workload_id)) ||
   (bool_decide (kind = "restore") && is_some checkpoint_id &&
      bool_decide (rv_checkpoint_id r = checkpoint_id))).

Definition reservation_create (now : Clock) (id kind : string) (workload_id checkpoint_id : option Id)
    (node : string) (ttl_ms : Z) : Tx unit := fun s =>
  bind_u64 [wrapping_add (now 1%nat) ttl_ms] ;;
  reject_if (is_some (st_reservations s !! id) ||
             existsb (scope_conflict kind workload_id checkpoint_id) (rows (st_reservations s)))
    (ReservationConflict "an active {kind} reservation already exists for this scope") ;;
  commit (s <| st_reservations :=
    <[id := mkReservation id kind workload_id checkpoint_id node "ACTIVE" (now 0%nat)
              (wrapping_add (now 1%nat) ttl_ms)]> (st_reservations s) |>).

Definition reservation_release (id : string) : Tx unit := fun s =>
  commit (s <| st_reservations := alter (fun r =>
    if is_active_reservation r then r <| rv_state := "RELEASED" |> else r) id (st_reservations s) |>).

Definition reservation_active_for (kind : string) (workload_id checkpoint_id : option Id)
    : Tx (option string) := fun s =>
  answer (rv_id <$> head (List.filter (fun r =>
    bool_decide (rv_kind r = kind) && is_active_reservation r &&
    (is_none workload_id || bool_decide (rv_workload_id r = workload_id)) &&
    (is_none checkpoint_id || bool_decide (rv_checkpoint_id r = checkpoint_id)))
    (rows (st_reservations s)))) s.

Definition expired (before_ms : Z) (r : Reservation) : bool :=
  is_active_reservation r && (rv_expires_ms r <? as_i64 before_ms).

Definition reservations_expire (before_ms : Z) : Tx Z := fun s =>
  Ok (Z.of_nat (length (List.filter (expired before_ms) (rows (st_reservations s)))),
      s <| st_reservations := (fun r => if expired before_ms r then r <| rv_state := "EXPIRED" |> else r)
                                <$> st_reservations s |>).

(** ** Audit *)

Definition audit_append (now : Clock) (actor op : string) (workload_id checkpoint_id : option Id)
    (result : AuditResult) (detail : string) : Tx unit := fun s =>
  commit (s <| st_audit := st_audit s ++
    [mkAuditRecord (Z.of_nat (length (st_audit s)) + 1) (now 0%nat) actor op workload_id
       checkpoint_id result detail] |>).

Definition audit_query (since_ms : option Z) (limit : Z) : Tx (list AuditRecord) := fun s =>
  answer (take (Z.to_nat (Z.max (as_i64 limit) 1))
    (reverse (List.filter (fun a => match since_ms with
                                    | None => true
                                    | Some v => as_i64 v <=? au_ts_ms a
                                    end) (st_audit s)))) s.

(** ** Journal *)

Definition journal_append (now : Clock) (kind key state detail : string) : Tx unit := fun s =>
  commit (journal_insert kind key state detail (now 0%nat) s).

Definition journal_contains (kind key state : string) (s : Store) : bool :=
  existsb (journal_matches kind key state) (st_journal s).

Definition journal_has (kind key state : string) : Tx bool := fun s =>
  answer (journal_contains kind key state s) s.

Definition journal_states (kind key : string) : Tx (list (string * string * Z)) := fun s =>
  answer ((fun j => (jr_state j, jr_detail j, jr_ts_ms j)) <$>
    List.filter (fun j => bool_decide (jr_kind j = kind) && bool_decide (jr_key j = key))
      (st_journal s)) s.

(** ** Statistics *)

Record Stats := mkStats {
  stats_workloads : Z;
  stats_checkpoints : Z;
  stats_available : Z;
  stats_failed : Z;
  stats_retired : Z;
  stats_active_nodes : Z;
  stats_stale_nodes : Z;
  stats_active_attempts : Z;
  stats_audit_records : Z;
  stats_total_logical_bytes : Z;
  stats_total_physical_bytes : Z
}.

Definition count {A} (p : A -> bool) (l : list A) : Z := Z.of_nat (length (List.filter p l)).

Definition stats : Tx Stats := fun s =>
  let cks := rows (st_checkpoints s) in
  answer
    {| stats_workloads := Z.of_nat (length (rows (st_workloads s)));
       stats_checkpoints := Z.of_nat (length cks);
       stats_available := count (fun c => bool_decide (ck_lifecycle c = Available) ||
                                          bool_decide (ck_lifecycle c = Restored)) cks;
       stats_failed := count (fun c => bool_decide (ck_lifecycle c = Failed)) cks;
       stats_retired := count (fun c => bool_decide (ck_lifecycle c = Retired)) cks;
       stats_active_nodes := count (fun n => bool_decide (nd_status n = "ACTIVE")) (rows (st_nodes s));
       stats_stale_nodes := count (fun n => bool_decide (nd_status n = "STALE")) (rows (st_nodes s));
       stats_active_attempts := count (fun a => bool_decide (at_state a = "ACTIVE")) (rows (st_attempts s));
       stats_audit_records := Z.of_nat (length (st_audit s));
       stats_total_logical_bytes := sum_by ck_total_logical_bytes cks;
       stats_total_physical_bytes := sum_by ck_total_physical_bytes cks |} s.
