(* ===== verification/Schema.v ===== *)
(** The invariant of the schema: what the primary keys and the unique indexes of
    [SCHEMA] guarantee, kept by every statement of the store. *)
From S2P Require Import Prelude Errors Ident Lifecycle Checkpoint Workload Compression Policy Capture.
From S2P Require Import Lineage Tables Persist.
From Stdlib Require Strings.Byte.

(** ** Tables keyed by a column *)

Definition keyed {K A} `{Countable K} (key : A -> K) (m : gmap K A) : Prop :=
  forall k a, m !! k = Some a -> key a = k.

Section keyed.
Context {K A : Type} `{Countable K} (key : A -> K).

Lemma keyed_empty : keyed key (∅ : gmap K A).
Proof. intros k a Hk. by rewrite lookup_empty in Hk. Qed.

Lemma keyed_insert (m : gmap K A) (k : K) (a : A) :
  keyed key m -> key a = k -> keyed key (<[k := a]> m).
Proof. intros Hm Ha k' a' [[-> ->] | [_ Hl]]%lookup_insert_Some; [done | by apply Hm]. Qed.

Lemma keyed_alter (m : gmap K A) (k : K) (f : A -> A) :
  keyed key m -> (forall a, key (f a) = key a) -> keyed key (alter f k m).
Proof.
  intros Hm Hf k' a' [(-> & a & Hl & ->) | [_ Hl]]%lookup_alter_Some; [| by apply Hm].
  rewrite Hf. by apply Hm.
Qed.

Lemma keyed_fmap (m : gmap K A) (f : A -> A) :
  keyed key m -> (forall a, key (f a) = key a) -> keyed key (f <$> m).
Proof.
  intros Hm Hf k a Hl. rewrite lookup_fmap in Hl. apply fmap_Some in Hl as (a' & Hl & ->).
  rewrite Hf. by apply Hm.
Qed.

Lemma keyed_delete (m : gmap K A) (k : K) : keyed key m -> keyed key (delete k m).
Proof. intros Hm k' a [_ Hl]%lookup_delete_Some. by apply Hm. Qed.
End keyed.

#[export] Hint Resolve keyed_empty keyed_insert keyed_alter keyed_fmap keyed_delete : fabric.

Lemma elem_of_rows {K A} `{Countable K} (m : gmap K A) (a : A) :
  a ∈ rows m <-> exists k, m !! k = Some a.
Proof.
  unfold rows. rewrite list_elem_of_fmap. split.
  - intros ([k b] & -> & Hb). exists k. by apply elem_of_map_to_list.
  - intros (k & Hk). exists (k, a). split; [done | by apply elem_of_map_to_list].
Qed.

(** ** The invariant *)

(** [UNIQUE(workload_id, checkpoint_generation)]. *)
Definition generations_unique (m : gmap Id CheckpointObject) : Prop :=
  forall i j c d, m !! i = Some c -> m !! j = Some d ->
    ck_workload_id c = ck_workload_id d ->
    ck_checkpoint_generation c = ck_checkpoint_generation d -> i = j.

(** [uq_res_capture] and [uq_res_restore]. *)
Definition reservations_unique (m : gmap string Reservation) : Prop :=
  forall i j r q, m !! i = Some r -> m !! j = Some q ->
    is_active_reservation r = true -> is_active_reservation q = true -> rv_kind r = rv_kind q ->
    (rv_kind r = "capture" /\ is_Some (rv_workload_id r) /\ rv_workload_id r = rv_workload_id q) \/
    (rv_kind r = "restore" /\ is_Some (rv_checkpoint_id r) /\ rv_checkpoint_id r = rv_checkpoint_id q) ->
    i = j.

Definition journal_key (j : JournalRow) : string * string * string :=
  (jr_kind j, jr_key j, jr_state j).

Record schema_ok (s : Store) : Prop := {
  so_workloads : keyed w_workload_id (st_workloads s);
  so_checkpoints : keyed ck_checkpoint_id (st_checkpoints s);
  so_generations : generations_unique (st_checkpoints s);
  so_components : forall id m, st_components s !! id = Some m -> keyed ce_component_id m;
  so_orphans : forall id, is_Some (st_components s !! id) -> is_Some (st_checkpoints s !! id);
  so_attempts : keyed at_id (st_attempts s);
  so_nodes : keyed nd_id (st_nodes s);
  so_reservations : keyed rv_id (st_reservations s);
  so_active : reservations_unique (st_reservations s);
  so_journal : NoDup (journal_key <$> st_journal s);
  so_lineage : ln_seq <$> st_lineage s = Z.of_nat <$> seq 1 (length (st_lineage s));
  so_audit : au_seq <$> st_audit s = Z.of_nat <$> seq 1 (length (st_audit s))
}.

Definition preserves {A} (I : Store -> Prop) (op : Tx A) : Prop :=
  forall s a s', op s = Ok (a, s') -> I s -> I s'.

(** Every statement of the store, with any arguments. *)
Inductive statement `{HexCodec, PolicyCodec} : forall {A}, Tx A -> Prop :=
| st_claim_coordinator_epoch r : statement (claim_coordinator_epoch r)
| st_meta_get k : statement (meta_get k)
| st_meta_put k v : statement (meta_put k v)
| st_policy_insert p a : statement (policy_insert p a)
| st_policy_versions : statement policy_versions
| st_policy_load v : statement (policy_load v)
| st_policy_load_all : statement policy_load_all
| st_workload_insert w : statement (workload_insert w)
| st_workload_insert_fork now w p c d : statement (workload_insert_fork now w p c d)
| st_workload_get i : statement (workload_get i)
| st_workload_list : statement workload_list
| st_workload_update w : statement (workload_update w)
| st_workload_bump_fence i e : statement (workload_bump_fence i e)
| st_workload_claim i n t e : statement (workload_claim i n t e)
| st_workload_release i n : statement (workload_release i n)
| st_workload_advance i g c b : statement (workload_advance i g c b)
| st_checkpoint_insert c : statement (checkpoint_insert c)
| st_checkpoint_update c : statement (checkpoint_update c)
| st_checkpoint_set_lifecycle i l g : statement (checkpoint_set_lifecycle i l g)
| st_capture_commit now i a : statement (capture_commit now i a)
| st_restore_commit now i a n t m r : statement (restore_commit now i a n t m r)
| st_checkpoint_max_generation i : statement (checkpoint_max_generation i)
| st_checkpoint_max_available i : statement (checkpoint_max_available i)
| st_checkpoint_set_superseded i o : statement (checkpoint_set_superseded i o)
| st_checkpoint_set_supersedes i o : statement (checkpoint_set_supersedes i o)
| st_checkpoint_get i : statement (checkpoint_get i)
| st_checkpoint_list o : statement (checkpoint_list o)
| st_checkpoint_set_digest i d m : statement (checkpoint_set_digest i d m)
| st_checkpoint_record_restore i r : statement (checkpoint_record_restore i r)
| st_checkpoint_set_protection i p : statement (checkpoint_set_protection i p)
| st_checkpoint_retire i : statement (checkpoint_retire i)
| st_checkpoint_set_integrity i g : statement (checkpoint_set_integrity i g)
| st_checkpoint_add_location i l : statement (checkpoint_add_location i l)
| st_checkpoint_remove_location i n : statement (checkpoint_remove_location i n)
| st_checkpoint_rebind_location i n d : statement (checkpoint_rebind_location i n d)
| st_lineage_append now r a b c d e : statement (lineage_append now r a b c d e)
| st_lineage_query a b : statement (lineage_query a b)
| st_attempt_begin now i k c w n : statement (attempt_begin now i k c w n)
| st_attempt_finish now i t r e : statement (attempt_finish now i t r e)
| st_attempt_get i : statement (attempt_get i)
| st_attempts_in_state t : statement (attempts_in_state t)
| st_node_register now i a b r : statement (node_register now i a b r)
| st_node_heartbeat now i r : statement (node_heartbeat now i r)
| st_node_set_status i t : statement (node_set_status i t)
| st_node_list : statement node_list
| st_node_validate_identity i b : statement (node_validate_identity i b)
| st_nodes_sweep_stale b : statement (nodes_sweep_stale b)
| st_node_delete i : statement (node_delete i)
| st_reservation_create now i k w c n t : statement (reservation_create now i k w c n t)
| st_reservation_release i : statement (reservation_release i)
| st_reservation_active_for k w c : statement (reservation_active_for k w c)
| st_reservations_expire b : statement (reservations_expire b)
| st_audit_append now a o w c r d : statement (audit_append now a o w c r d)
| st_audit_query a b : statement (audit_query a b)
| st_journal_append now k y t d : statement (journal_append now k y t d)
| st_journal_has k y t : statement (journal_has k y t)
| st_journal_states k y : statement (journal_states k y)
| st_stats : statement stats.

(** The stores any sequence of statements can leave. *)
Inductive reachable `{HexCodec, PolicyCodec} : Store -> Prop :=
| reach_empty : reachable empty_store
| reach_step {A} (op : Tx A) s a s' :
    reachable s -> statement op -> op s = Ok (a, s') -> reachable s'.

(** * Lemmas *)

Lemma schema_empty : schema_ok empty_store.
Proof.
  split; cbn; try apply keyed_empty; try done; try constructor.
  by intros id [m Hm].
Qed.

(** The columns an [UPDATE checkpoints] must leave alone. *)
Definition keeps_identity (f : CheckpointObject -> CheckpointObject) : Prop :=
  forall c, ck_checkpoint_id (f c) = ck_checkpoint_id c /\
    ck_workload_id (f c) = ck_workload_id c /\
    ck_checkpoint_generation (f c) = ck_checkpoint_generation c.

Lemma generations_unique_alter (m : gmap Id CheckpointObject) (id : Id) f :
  keeps_identity f -> generations_unique m -> generations_unique (alter f id m).
Proof.
  intros Hf Hm i j c d Hi Hj Hw Hg.
  assert (Hback : forall k x, alter f id m !! k = Some x ->
    exists y, m !! k = Some y /\ ck_workload_id y = ck_workload_id x /\
      ck_checkpoint_generation y = ck_checkpoint_generation x).
  { intros k x [(-> & y & Hl & ->) | [_ Hl]]%lookup_alter_Some; [| by exists x].
    exists y. destruct (Hf y) as (_ & -> & ->). done. }
  destruct (Hback i c Hi) as (c' & Hi' & ? & ?), (Hback j d Hj) as (d' & Hj' & ? & ?).
  apply (Hm i j c' d' Hi' Hj'); congruence.
Qed.

Lemma generation_taken_false (id wid : Id) (g : Z) (s : Store) :
  keyed ck_checkpoint_id (st_checkpoints s) ->
  generation_taken id wid g s = false ->
  forall k c, st_checkpoints s !! k = Some c -> k <> id ->
    ck_workload_id c = wid -> ck_checkpoint_generation c <> g.
Proof.
  intros Hk Hf k c Hl Hne Hw Hg. unfold generation_taken in Hf. rewrite existsb_false in Hf.
  specialize (Hf c (proj2 (elem_of_rows _ _) (ex_intro _ k Hl))).
  rewrite (Hk k c Hl) in Hf. rewrite bool_decide_eq_false_2 in Hf by done.
  rewrite bool_decide_eq_true_2, (proj2 (Z.eqb_eq _ _)) in Hf by done. done.
Qed.

Lemma generations_unique_insert (m : gmap Id CheckpointObject) (id : Id) (c : CheckpointObject) :
  generations_unique m ->
  (forall k d, m !! k = Some d -> k <> id -> ck_workload_id d = ck_workload_id c ->
     ck_checkpoint_generation d <> ck_checkpoint_generation c) ->
  generations_unique (<[id := c]> m).
Proof.
  intros Hm Hc i j x y [[<- <-] | [Hi Hx]]%lookup_insert_Some [[<- <-] | [Hj Hy]]%lookup_insert_Some Hw Hg;
    [done | | | by apply (Hm i j x y)].
  - by destruct (Hc j y Hy (not_eq_sym Hj) (eq_sym Hw)).
  - by destruct (Hc i x Hx (not_eq_sym Hi) Hw).
Qed.

(** The tables a statement does not write keep their part of the invariant. *)
Ltac schema_frame := let H := fresh in intros H; destruct H; split; cbn; eauto with fabric.

Lemma schema_update_workload (id : Id) f (s : Store) :
  (forall w, w_workload_id (f w) = w_workload_id w) -> schema_ok s ->
  schema_ok (update_workload id f s).
Proof. intros Hf. schema_frame. Qed.

Lemma schema_update_checkpoint (id : Id) f (s : Store) :
  keeps_identity f -> schema_ok s -> schema_ok (update_checkpoint id f s).
Proof.
  intros Hf. schema_frame.
  - apply keyed_alter; [done | apply Hf].
  - by apply generations_unique_alter.
  - intros i Hi. by apply lookup_alter_is_Some, so_orphans0.
Qed.

Lemma schema_update_checkpoint_opt (o : option Id) f (s : Store) :
  keeps_identity f -> schema_ok s -> schema_ok (update_checkpoint_opt o f s).
Proof. destruct o; [apply schema_update_checkpoint | done]. Qed.

Lemma schema_lineage_insert r a b c d ts t (s : Store) :
  schema_ok s -> schema_ok (lineage_insert r a b c d ts t s).
Proof.
  schema_frame. rewrite fmap_app, length_app, Nat.add_comm. cbn [fmap list_fmap ln_seq length Nat.add].
  rewrite seq_S, fmap_app. f_equal; [done |]. cbn. f_equal. lia.
Qed.

Lemma schema_journal_insert k y t d ts (s : Store) :
  schema_ok s -> schema_ok (journal_insert k y t d ts s).
Proof.
  unfold journal_insert. destruct (existsb _ _) eqn:E; [done |]. schema_frame.
  rewrite fmap_app. apply NoDup_app. split_and!; [done | | apply NoDup_singleton].
  intros x (j & -> & Hj)%list_elem_of_fmap Hin. apply list_elem_of_singleton in Hin.
  rewrite existsb_false in E. specialize (E j Hj). unfold journal_matches in E.
  injection Hin as E1 E2 E3. by rewrite !bool_decide_eq_true_2 in E.
Qed.

Lemma schema_record_supersedes now w i p (s : Store) :
  schema_ok s -> schema_ok (record_supersedes now w i p s).
Proof.
  unfold record_supersedes. destruct p; [| done].
  destruct (supersedes_recorded _ _ _); [done | apply schema_lineage_insert].
Qed.

Lemma insert_components_keyed l m m' :
  insert_components l m = Ok m' -> keyed ce_component_id m -> keyed ce_component_id m'.
Proof.
  revert m. induction l as [| c l IH]; cbn; intros m H Hm; [by injection H as <- |].
  invert_ok H. eapply IH; [exact H |]. by apply keyed_insert.
Qed.

#[export] Hint Resolve schema_empty schema_update_workload schema_update_checkpoint
  schema_update_checkpoint_opt schema_lineage_insert schema_journal_insert
  schema_record_supersedes : fabric.
#[export] Hint Extern 1 (keeps_identity _) => done : fabric.

(** ** Every statement keeps the invariant *)

Lemma schema_workload_put (w : Workload) (s : Store) :
  schema_ok s -> schema_ok (s <| st_workloads := <[w_workload_id w := w]> (st_workloads s) |>).
Proof. schema_frame. Qed.

Lemma schema_node_put (n : NodeRecord) (id : string) (s : Store) :
  nd_id n = id -> schema_ok s -> schema_ok (s <| st_nodes := <[id := n]> (st_nodes s) |>).
Proof. intros Hn. schema_frame. Qed.

Lemma schema_node_alter (id : string) f (s : Store) :
  (forall n, nd_id (f n) = nd_id n) -> schema_ok s ->
  schema_ok (s <| st_nodes := alter f id (st_nodes s) |>).
Proof. intros Hf. schema_frame. Qed.

Lemma schema_attempt_put (a : AttemptRecord) (s : Store) :
  schema_ok s -> schema_ok (s <| st_attempts := <[at_id a := a]> (st_attempts s) |>).
Proof. schema_frame. Qed.

Lemma schema_audit_append now a o w c r d (s s' : Store) u :
  audit_append now a o w c r d s = Ok (u, s') -> schema_ok s -> schema_ok s'.
Proof.
  intros [= <- <-]. schema_frame. rewrite fmap_app, length_app, Nat.add_comm.
  cbn [fmap list_fmap au_seq length Nat.add]. rewrite seq_S, fmap_app. f_equal; [done |].
  cbn. f_equal. lia.
Qed.

(** Changing rows without making one active keeps the partial unique indexes. *)
Lemma reservations_unique_map (m m' : gmap string Reservation) :
  reservations_unique m ->
  (forall i r, m' !! i = Some r -> is_active_reservation r = true -> m !! i = Some r) ->
  reservations_unique m'.
Proof. intros Hm Hsub i j r q Hi Hj Hr Hq. apply (Hm i j r q); auto. Qed.

Lemma schema_reservation_release (id : string) (s s' : Store) u :
  reservation_release id s = Ok (u, s') -> schema_ok s -> schema_ok s'.
Proof.
  intros [= <- <-]. schema_frame.
  - apply keyed_alter; [done |]. intros r. by destruct (is_active_reservation r).
  - eapply reservations_unique_map; [done |].
    intros i r [(-> & x & Hl & ->) | [_ Hl]]%lookup_alter_Some Ha; [| done].
    by destruct (is_active_reservation x) eqn:E.
Qed.

Lemma schema_reservations_expire (b : Z) (s s' : Store) u :
  reservations_expire b s = Ok (u, s') -> schema_ok s -> schema_ok s'.
Proof.
  intros [= <- <-]. schema_frame.
  - apply keyed_fmap; [done |]. intros r. by destruct (expired b r).
  - eapply reservations_unique_map; [done |]. intros i r Hl Ha.
    rewrite lookup_fmap in Hl. apply fmap_Some in Hl as (x & Hl & ->).
    by destruct (expired b x) eqn:E.
Qed.

Lemma scope_conflict_false kind w c (m : gmap string Reservation) i r :
  existsb (scope_conflict kind w c) (rows m) = false -> m !! i = Some r ->
  is_active_reservation r = true -> rv_kind r = kind ->
  (kind = "capture" -> is_Some w -> rv_workload_id r <> w) /\
  (kind = "restore" -> is_Some c -> rv_checkpoint_id r <> c).
Proof.
  intros H Hi Ha Hk. rewrite existsb_false in H.
  specialize (H r (proj2 (elem_of_rows _ _) (ex_intro _ i Hi))). unfold scope_conflict in H.
  rewrite Ha, (bool_decide_eq_true_2 _ Hk) in H. cbn in H.
  apply orb_false_iff in H as [Hc Hr].
  split; intros -> [x ->] Heq; [rewrite !bool_decide_eq_true_2 in Hc by done
                               | rewrite !bool_decide_eq_true_2 in Hr by done]; done.
Qed.

Lemma reservations_unique_insert (m : gmap string Reservation) i r :
  reservations_unique m ->
  (forall j q, m !! j = Some q -> is_active_reservation q = true -> rv_kind q = rv_kind r ->
     (rv_kind r = "capture" -> is_Some (rv_workload_id r) -> rv_workload_id q <> rv_workload_id r) /\
     (rv_kind r = "restore" -> is_Some (rv_checkpoint_id r) -> rv_checkpoint_id q <> rv_checkpoint_id r)) ->
  reservations_unique (<[i := r]> m).
Proof.
  intros Hm Hr j k x y Hx Hy Ax Ay Hk Hs.
  apply lookup_insert_Some in Hx as [[<- <-] | [_ Hx]], Hy as [[<- <-] | [_ Hy]].
  - done.
  - destruct (Hr k y Hy Ay (eq_sym Hk)) as [Hw Hc].
    destruct Hs as [(E1 & E2 & E3) | (E1 & E2 & E3)]; exfalso; [by apply Hw | by apply Hc].
  - destruct (Hr j x Hx Ax Hk) as [Hw Hc]. rewrite Hk in Hs.
    destruct Hs as [(E1 & E2 & E3) | (E1 & E2 & E3)]; exfalso; rewrite E3 in E2;
      [by apply Hw | by apply Hc].
  - by apply (Hm j k x y).
Qed.

Lemma schema_reservation_create now id kind w c n ttl (s s' : Store) u :
  reservation_create now id kind w c n ttl s = Ok (u, s') -> schema_ok s -> schema_ok s'.
Proof.
  unfold reservation_create. intros H. invert_ok H. apply reject_if_Ok in Hstep0.
  apply orb_false_iff in Hstep0 as [Hid Hsc]. injection H as <- <-. schema_frame.
  apply reservations_unique_insert; [done |]. intros j q Hq Aq Hk.
  exact (scope_conflict_false kind w c _ j q Hsc Hq Aq Hk).
Qed.

Lemma schema_checkpoint_put (id : Id) (c : CheckpointObject) m (s : Store) :
  ck_checkpoint_id c = id ->
  generation_taken id (ck_workload_id c) (ck_checkpoint_generation c) s = false ->
  keyed ce_component_id m -> schema_ok s ->
  schema_ok (s <| st_checkpoints := <[id := c]> (st_checkpoints s) |>
               <| st_components := <[id := m]> (st_components s) |>).
Proof.
  intros Hid Hg Hm. schema_frame.
  - apply generations_unique_insert; [done |]. by eapply generation_taken_false.
  - intros i m' [[<- <-] | [_ Hl]]%lookup_insert_Some; [done | by eapply so_components0].
  - intros i. rewrite !lookup_insert_is_Some. naive_solver.
Qed.

Lemma schema_checkpoint_insert (c : CheckpointObject) (s s' : Store) u :
  checkpoint_insert c s = Ok (u, s') -> schema_ok s -> schema_ok s'.
Proof.
  unfold checkpoint_insert. intros H Hs. invert_ok H. unfold insertion_conflict in Hstep.
  destruct (_ ;; _) as [v |] eqn:E in Hstep; [| done]. invert_ok E.
  apply reject_if_Ok in E. injection H as <- <-.
  apply schema_checkpoint_put; [done | done | | done].
  eapply insert_components_keyed; [exact Hstep0 |].
  destruct (st_components s !! ck_checkpoint_id c) eqn:Ec; [by eapply so_components | apply keyed_empty].
Qed.

Lemma schema_checkpoint_update (c : CheckpointObject) (s s' : Store) u :
  checkpoint_update c s = Ok (u, s') -> schema_ok s -> schema_ok s'.
Proof.
  unfold checkpoint_update. intros H Hs. invert_ok H.
  destruct (st_checkpoints s !! _) as [row |] eqn:Er; [| done]. invert_ok H.
  apply reject_if_Ok in Hstep0. injection H as <- <-.
  apply schema_checkpoint_put; [done | done | | done].
  eapply insert_components_keyed; [exact Hstep1 | apply keyed_empty].
Qed.

Lemma schema_link_checkpoint id prev next (s : Store) :
  schema_ok s -> schema_ok (link_checkpoint id prev next s).
Proof. intros Hs. unfold link_checkpoint. eauto 10 with fabric. Qed.

Lemma schema_advance wid g row (s : Store) :
  schema_ok s -> schema_ok (advance_checkpoint_generation wid g row s).
Proof. intros Hs. unfold advance_checkpoint_generation. destruct (_ <=? _); auto with fabric. Qed.

#[export] Hint Resolve schema_link_checkpoint schema_advance : fabric.

Lemma schema_capture_commit now id a (s s' : Store) u :
  capture_commit now id a s = Ok (u, s') -> schema_ok s -> schema_ok s'.
Proof.
  unfold capture_commit. intros H Hs. invert_ok H. injection H as _ <-. eauto 10 with fabric.
Qed.

Lemma schema_restore_commit now i a n t m r (s s' : Store) u :
  restore_commit now i a n t m r s = Ok (u, s') -> schema_ok s -> schema_ok s'.
Proof.
  unfold restore_commit. intros H Hs. invert_ok H. injection H as <- <-.
  apply schema_journal_insert. destruct m, r; eauto 10 with fabric.
Qed.

Lemma schema_nodes_sweep b (s s' : Store) l :
  nodes_sweep_stale b s = Ok (l, s') -> schema_ok s -> schema_ok s'.
Proof.
  unfold nodes_sweep_stale. intros [= _ <-]. generalize (nd_id <$> List.filter
    (fun n => bool_decide (nd_status n = "ACTIVE") && (nd_last_heartbeat_ms n <? as_i64 b))
    (rows (st_nodes s))).
  intros ids. revert s. induction ids as [| i ids IH]; cbn; intros s Hs; [done |].
  apply IH. apply schema_node_alter; [| done]. intros n. by destruct (bool_decide _).
Qed.

Lemma schema_node_register now i a b r (s s' : Store) u :
  node_register now i a b r s = Ok (u, s') -> schema_ok s -> schema_ok s'.
Proof.
  unfold node_register. intros H Hs.
  repeat split_match_in H; try done; injection H as <- <-; by apply schema_node_put.
Qed.

#[export] Hint Resolve schema_workload_put schema_node_put schema_node_alter schema_attempt_put
  schema_audit_append schema_reservation_release schema_reservations_expire
  schema_reservation_create schema_checkpoint_insert schema_checkpoint_update
  schema_capture_commit schema_restore_commit schema_nodes_sweep schema_node_register : fabric.

Ltac head_of t := match t with ?f _ => head_of f | _ => t end.

(** Runs an operation that returned [Ok]: unfolds it and splits its steps. *)
Ltac run_op H :=
  match type of H with ?t = _ => let h := head_of t in unfold h in H end;
  unfold answer, commit in H; repeat (invert_ok H; try split_match_in H); simplify_eq.

Lemma statement_keeps_schema `{HexCodec, PolicyCodec} {A} (op : Tx A) :
  statement op -> preserves schema_ok op.
Proof.
  intros Hop. destruct Hop; intros st0 a0 st1 Hrun Hs; eauto 2 with fabric;
    run_op Hrun; eauto 3 with fabric; try (revert Hs; schema_frame; fail);
    try (apply schema_update_workload; [intros row; by destruct (bool_decide _) | done]).
Qed.

(** * Properties *)

(** C20 (invariant). Whatever statements run, in any order, with any arguments and
    any readings of the clock, the store keeps what its schema promises: every row
    sits under its own key, no two checkpoints of a workload share a generation, no
    two active capture reservations share a workload and no two active restore
    reservations a checkpoint, no component row is without its checkpoint, no journal record occurs twice, and the audit and
    lineage logs are numbered 1, 2, 3, ... without gaps. *)
Theorem reachable_store_schema `{HexCodec, PolicyCodec} (s : Store) :
  reachable s -> schema_ok s.
Proof.
  induction 1 as [| A op s a s' _ IH Hop Hrun]; [apply schema_empty |].
  by eapply statement_keeps_schema.
Qed.

(** A policy codec that knows one policy, for the witnesses. *)
Definition fixed_policy_codec : PolicyCodec :=
  {| policy_to_string := fun _ => Ok "{}"; policy_from_str := fun _ => Some PolicySet_default |}.

(** The store an operation leaves, itself when it fails. *)
Definition after {A} (op : Tx A) (s : Store) : Store :=
  match op s with Ok (_, s') => s' | Err _ => s end.

Lemma after_keeps {A} (I : Store -> Prop) (op : Tx A) (s : Store) :
  preserves I op -> I s -> I (after op s).
Proof. intros Hop Hs. unfold after. destruct (op s) as [[a s'] |] eqn:E; [by eapply Hop | done]. Qed.

Lemma after_Ok (op : Tx unit) (s : Store) : is_ok (op s) = true -> op s = Ok (tt, after op s).
Proof. unfold after. by destruct (op s) as [[[] s'] |]. Qed.

Definition reserve_capture (id : string) : Tx unit :=
  reservation_create (fun _ => 5) id "capture" (Some (id_splat Byte.x01)) None "n1" 600000.

Example reachable_store_schema_witness :
  schema_ok (after (reserve_capture "a") empty_store) /\
  reserve_capture "b" (after (reserve_capture "a") empty_store)
    = Err (ReservationConflict "an active {kind} reservation already exists for this scope").
Proof.
  split; [| vm_compute; reflexivity].
  apply (@reachable_store_schema hex_codec fixed_policy_codec).
  eapply (reach_step (reserve_capture "a") empty_store tt);
    [apply reach_empty | apply st_reservation_create | reflexivity].
Defined.
