(* ===== verification/StoreFacts.v ===== *)
(** What the statements of the store guarantee: the coordinator epoch, the
    exclusive reservations, checkpoint rows and their replicas, and the identity of
    nodes. *)
From S2P Require Import Prelude Errors Ident Lifecycle Checkpoint Workload Compression Policy Compat.
From S2P Require Import Capture Lineage Tables Persist Schema.
From Stdlib Require Import Strings.Ascii Numbers.DecimalString Numbers.DecimalN Numbers.DecimalPos.
From Stdlib Require Strings.Byte.

(** ** The coordinator epoch *)

Lemma to_uint_nonnil (n : N) : N.to_uint n <> Decimal.Nil.
Proof. destruct n as [| p]; [done |]. apply DecimalPos.Unsigned.to_uint_nonnil. Qed.

Lemma string_of_uint_no_plus (d : Decimal.uint) (s : string) :
  NilZero.string_of_uint d <> String "+"%char s.
Proof. by destruct d. Qed.

Lemma parse_u64_to_string (v : Z) : is_u64 v -> parse_u64 (u64_to_string v) = Some v.
Proof.
  intros [H1 H2]. unfold parse_u64, u64_to_string.
  pose proof (string_of_uint_no_plus (N.to_uint (Z.to_N v))) as Hplus.
  assert (Hd : match NilZero.string_of_uint (N.to_uint (Z.to_N v)) with
               | String "+"%char s' => s' | _ => NilZero.string_of_uint (N.to_uint (Z.to_N v)) end
             = NilZero.string_of_uint (N.to_uint (Z.to_N v))).
  { destruct (NilZero.string_of_uint _) as [| c s] eqn:E; [done |].
    destruct c as [[] [] [] [] [] [] [] []]; try done. by destruct (Hplus s). }
  rewrite Hd, NilZero.usu by apply to_uint_nonnil. cbn.
  rewrite DecimalN.Unsigned.of_to, Z2N.id by lia.
  by rewrite (proj2 (Z.leb_le _ _) H2).
Qed.

Lemma parse_u64_range (s : string) (v : Z) : parse_u64 s = Some v -> is_u64 v.
Proof.
  unfold parse_u64. destruct (NilZero.uint_of_string _) as [d |]; cbn; [| done].
  destruct (Z.leb_spec (Z.of_N (N.of_uint d)) u64_max) as [Hle |]; [| done].
  intros [= <-]. split; [lia | done].
Qed.

Lemma stored_epoch_u64 (s : Store) : is_u64 (stored_epoch s).
Proof.
  unfold stored_epoch. destruct (st_meta s !! "coordinator_epoch") as [v |]; cbn.
  - destruct (parse_u64 v) eqn:E; cbn; [by eapply parse_u64_range | by vm_compute].
  - by vm_compute.
Qed.

(** C22 (safety). A coordinator that claims an epoch gets one that is durable and
    greater than every epoch claimed before it (short of 2^64 - 1 claims); an
    explicit epoch that is not greater is refused with the typed error, so two
    coordinators never hold the same epoch.  Nothing else is written. *)
Theorem coordinator_epoch_claim (requested : option Z) (e : Z) (s s' : Store) :
  (forall v, requested = Some v -> is_u64 v) ->
  (claim_coordinator_epoch requested s = Ok (e, s') ->
     stored_epoch s' = e /\ is_u64 e /\ st_meta s' = <["coordinator_epoch" := u64_to_string e]> (st_meta s) /\
     (stored_epoch s < e \/ requested = None /\ stored_epoch s = u64_max) /\
     (forall v e' s'', claim_coordinator_epoch (Some v) s' = Ok (e', s'') -> e < e')) /\
  (forall v, requested = Some v -> v <= stored_epoch s ->
     claim_coordinator_epoch requested s
       = Err (StaleCoordinatorEpoch (saturating_add (stored_epoch s) 1) v)).
Proof.
  intros Hr. pose proof (stored_epoch_u64 s) as Hs. split.
  - intros H. unfold claim_coordinator_epoch in H. invert_ok H. injection H as <- <-.
    assert (He : is_u64 r /\ (stored_epoch s < r \/ requested = None /\ stored_epoch s = u64_max)).
    { destruct requested as [v |].
      - destruct (Z.ltb_spec (stored_epoch s) v); [| done]. injection Hstep as <-. eauto.
      - injection Hstep as <-. split; [by apply saturating_add_u64 |].
        destruct (decide (stored_epoch s = u64_max)); [by right |]. left.
        apply saturating_add_gt; unfold is_u64 in *; lia. }
    destruct He as [He1 He2].
    assert (Hst : stored_epoch (s <| st_meta := <["coordinator_epoch" := u64_to_string r]> (st_meta s) |>) = r).
    { unfold stored_epoch. cbn. rewrite lookup_insert_eq. cbn. by rewrite parse_u64_to_string. }
    split_and!; [done | done | done | done |].
    intros v e' s'' H. unfold claim_coordinator_epoch in H. rewrite Hst in H. invert_ok H.
    injection H as <- <-. destruct (Z.ltb_spec r v); [by injection Hstep0 as <- | done].
  - intros v -> Hv. unfold claim_coordinator_epoch. by rewrite (proj2 (Z.ltb_ge _ _) Hv).
Qed.

Example coordinator_epoch_claim_witness :
  exists s1, claim_coordinator_epoch (Some 7) empty_store = Ok (7, s1) /\ stored_epoch s1 = 7 /\
    claim_coordinator_epoch (Some 7) s1 = Err (StaleCoordinatorEpoch 8 7).
Proof.
  exists (after (claim_coordinator_epoch (Some 7)) empty_store).
  split; [reflexivity |]. split.
  - refine (proj1 (proj1 (coordinator_epoch_claim (Some 7) 7 empty_store _ _) eq_refl)).
    intros v [= <-]. by vm_compute.
  - refine (proj2 (coordinator_epoch_claim (Some 7) 7
      (after (claim_coordinator_epoch (Some 7)) empty_store) empty_store _) 7 eq_refl _).
    + intros v [= <-]. by vm_compute.
    + by vm_compute.
Defined.

(** ** Reservations *)

(** The reservation has a scope one of the unique indexes covers. *)
Definition exclusive_scope (kind : string) (workload_id checkpoint_id : option Id) : Prop :=
  (kind = "capture" /\ is_Some workload_id) \/ (kind = "restore" /\ is_Some checkpoint_id).

Definition holds_scope (kind : string) (workload_id checkpoint_id : option Id) (r : Reservation) : Prop :=
  is_active_reservation r = true /\ rv_kind r = kind /\
  (kind = "capture" -> rv_workload_id r = workload_id) /\
  (kind = "restore" -> rv_checkpoint_id r = checkpoint_id).

Lemma scope_conflict_iff kind w c r :
  exclusive_scope kind w c -> scope_conflict kind w c r = true <-> holds_scope kind w c r.
Proof.
  unfold exclusive_scope, scope_conflict, holds_scope.
  intros [[-> [x ->]] | [-> [x ->]]]; rewrite !andb_true_iff, bool_decide_eq_true;
    eval_string_tests; cbn [is_some andb orb]; rewrite ?orb_false_r, bool_decide_eq_true;
    (split; [intros ([? ?] & ?); split_and!; congruence
            | intros (? & ? & H1 & H2); split_and!; auto]).
Qed.

Definition conflict_error : FabricError :=
  ReservationConflict "an active {kind} reservation already exists for this scope".

Lemma reservation_create_conflict now id kind w c n ttl (s : Store) :
  wrapping_add (now 1%nat) ttl <= i64_max ->
  (exists i r, st_reservations s !! i = Some r /\ scope_conflict kind w c r = true) ->
  reservation_create now id kind w c n ttl s = Err conflict_error.
Proof.
  intros Ht (i & r & Hr & Hc). unfold reservation_create. cbn.
  rewrite (proj2 (Z.ltb_ge _ _) Ht). cbn.
  rewrite (proj2 (existsb_elem_of _ _)), orb_true_r; [done |].
  exists r. split; [| done]. apply elem_of_rows. by exists i.
Qed.

Lemma reservation_create_Ok now id kind w c n ttl (s s' : Store) u :
  reservation_create now id kind w c n ttl s = Ok (u, s') ->
  st_reservations s !! id = None /\
  (forall i r, st_reservations s !! i = Some r -> scope_conflict kind w c r = false) /\
  s' = s <| st_reservations := <[id := mkReservation id kind w c n "ACTIVE" (now 0%nat)
              (wrapping_add (now 1%nat) ttl)]> (st_reservations s) |>.
Proof.
  unfold reservation_create. intros H. invert_ok H. apply reject_if_Ok, orb_false_iff in Hstep0 as [H1 H2].
  injection H as _ <-. split_and!; [by destruct (st_reservations s !! id) | | done].
  intros i x Hx. rewrite existsb_false in H2. apply H2, elem_of_rows. by exists i.
Qed.

(** C21 (safety). Capture reservations of a workload and restore reservations of a
    checkpoint are exclusive.  Creating one succeeds exactly when its id is fresh and
    nothing active holds the scope; from then on every other attempt on the scope,
    by any id, node or time to live, gets the conflict error, until the reservation
    is released - after which the scope is free again. *)
Theorem reservation_mutual_exclusion (now : Clock) (id kind : string) (w c : option Id) (n : string)
    (ttl : Z) (s s1 : Store) :
  schema_ok s -> exclusive_scope kind w c -> wrapping_add (now 1%nat) ttl <= i64_max ->
  (is_ok (reservation_create now id kind w c n ttl s) = true <->
     st_reservations s !! id = None /\
     (forall i r, st_reservations s !! i = Some r -> ~ holds_scope kind w c r)) /\
  (reservation_create now id kind w c n ttl s = Ok (tt, s1) ->
     (forall now' id' n' ttl', wrapping_add (now' 1%nat) ttl' <= i64_max ->
        reservation_create now' id' kind w c n' ttl' s1 = Err conflict_error) /\
     (forall now' id' n' ttl', wrapping_add (now' 1%nat) ttl' <= i64_max ->
        st_reservations s1 !! id' = None ->
        is_ok (reservation_create now' id' kind w c n' ttl' (after (reservation_release id) s1)) = true)).
Proof.
  intros Hs Hscope Ht.
  assert (Hspec : forall now id n ttl s, wrapping_add (now 1%nat) ttl <= i64_max ->
    is_ok (reservation_create now id kind w c n ttl s) = true <->
     st_reservations s !! id = None /\
     (forall i r, st_reservations s !! i = Some r -> ~ holds_scope kind w c r)).
  { clear - Hscope. intros now id n ttl s Ht. split.
    - destruct (reservation_create _ _ _ _ _ _ _ s) as [[u s'] |] eqn:E; [| done].
      apply reservation_create_Ok in E as (H1 & H2 & _). intros _. split; [done |].
      intros i r Hr Hh. apply scope_conflict_iff in Hh; [| done]. by rewrite (H2 i r Hr) in Hh.
    - intros [H1 H2]. unfold reservation_create. cbn. rewrite (proj2 (Z.ltb_ge _ _) Ht), H1. cbn.
      rewrite (proj2 (existsb_false _ _)); [done |]. intros r (i & Hr)%elem_of_rows.
      apply not_true_iff_false. rewrite scope_conflict_iff by done. by apply (H2 i). }
  split; [by apply Hspec |]. intros E. apply reservation_create_Ok in E as (H1 & H2 & ->). split.
  - intros now' id' n' ttl' Ht'. apply reservation_create_conflict; [done |].
    eexists id, _. split; [apply lookup_insert_eq |].
    apply scope_conflict_iff; [done |]. by split_and!.
  - intros now' id' n' ttl' Ht' Hfresh. apply Hspec; [done |]. cbn in *.
    rewrite lookup_alter_None. split; [done |].
    intros i r [(-> & x & Hx & ->) | [Hne Hx]]%lookup_alter_Some.
    + rewrite lookup_insert_eq in Hx. injection Hx as <-. by intros [? _].
    + rewrite lookup_insert_ne in Hx by done. intros Hh.
      apply scope_conflict_iff in Hh; [| done]. by rewrite (H2 i r Hx) in Hh.
Qed.

Example reservation_mutual_exclusion_witness :
  reserve_capture "b" (after (reserve_capture "a") empty_store) = Err conflict_error /\
  is_ok (reserve_capture "b" (after (reservation_release "a") (after (reserve_capture "a") empty_store))) = true.
Proof.
  pose proof (reservation_mutual_exclusion (fun _ => 5) "a" "capture" (Some (id_splat Byte.x01)) None
    "n1" 600000 empty_store (after (reserve_capture "a") empty_store) schema_empty
    (or_introl (conj eq_refl (ex_intro _ _ eq_refl))) ltac:(by vm_compute)) as [_ H].
  destruct (H eq_refl) as [H1 H2].
  split; [by apply H1; vm_compute | by apply H2; vm_compute].
Defined.

(** ** Checkpoint rows *)

#[export] Instance text_le_total {A} (key : A -> string) : Total (text_le key).
Proof.
  intros a b. unfold text_le. destruct (String.leb (key a) (key b)) eqn:E; [by left |]. right.
  unfold String.leb in *. rewrite String.compare_antisym. by destruct (String.compare (key a) (key b)).
Qed.

#[export] Instance key_le_total {A} (key : A -> Z) : Total (key_le key).
Proof. intros a b. unfold key_le. lia. Qed.

#[export] Instance key_le_trans {A} (key : A -> Z) : Transitive (key_le key).
Proof. intros a b c. unfold key_le. lia. Qed.

Lemma insert_components_rows (l : list ComponentEntry) (m m' : gmap string ComponentEntry) :
  insert_components l m = Ok m' -> rows m' ≡ₚ l ++ rows m.
Proof.
  revert m. induction l as [| c l IH]; cbn; intros m H; [by injection H as <- |].
  invert_ok H. apply reject_if_Ok in Hstep0. rewrite (IH _ H). unfold rows.
  rewrite map_to_list_insert by (by destruct (m !! ce_component_id c)). cbn.
  by rewrite <- Permutation_middle.
Qed.

(** A checkpoint that [checkpoint_insert] accepts is read back with
    every field it had, its components in the order of their ids, and the lineage
    lists recomputed from its parent and supersession columns; an id or a
    generation of the workload that is already taken is refused and changes
    nothing, so no hybrid checkpoint can arise. *)
Theorem checkpoint_insert_get (c : CheckpointObject) (s s' : Store) :
  schema_ok s ->
  (checkpoint_insert c s = Ok (tt, s') ->
     exists comps, comps ≡ₚ ck_components c /\ Sorted (text_le ce_component_id) comps /\
       checkpoint_get (ck_checkpoint_id c) s' = Ok (Some
         (c <| ck_lineage_parents := option_list (ck_parent_checkpoint c) ++ option_list (ck_supersedes c) |>
            <| ck_lineage_children := option_list (ck_superseded_by c) |>
            <| ck_components := comps |>), s')) /\
  (is_Some (st_checkpoints s !! ck_checkpoint_id c) \/
   (exists i d, st_checkpoints s !! i = Some d /\ i <> ck_checkpoint_id c /\
      ck_workload_id d = ck_workload_id c /\
      ck_checkpoint_generation d = ck_checkpoint_generation c) ->
   checkpoint_insert c s = Err (PersistenceError "checkpoint {} insertion conflict: {e}")).
Proof.
  intros Hs. split.
  - unfold checkpoint_insert. intros H. invert_ok H. unfold insertion_conflict in Hstep.
    destruct (_ ;; _) as [v |] eqn:E in Hstep; [| done]. invert_ok E.
    apply reject_if_Ok in Hstep2. injection H as <-.
    assert (Hnone : st_components s !! ck_checkpoint_id c = None).
    { apply eq_None_not_Some. intros Hc%(so_orphans s Hs). by destruct Hc as [x Hx]; rewrite Hx in Hstep2. }
    rewrite Hnone in Hstep0. apply insert_components_rows in Hstep0.
    change (rows (default ∅ None)) with (@nil ComponentEntry) in Hstep0. rewrite app_nil_r in Hstep0.
    exists (order_by_text ce_component_id (rows r0)). split_and!.
    + unfold order_by_text. by rewrite merge_sort_Permutation.
    + apply Sorted_merge_sort, _.
    + unfold checkpoint_get, answer, read_checkpoint, checkpoint_components. cbn.
      rewrite lookup_insert_eq. cbn. by rewrite lookup_insert_eq.
  - intros H. unfold checkpoint_insert.
    assert (Hc : exists e, (bind_u64 (checkpoint_params c) ;;
      reject_if (is_some (st_checkpoints s !! ck_checkpoint_id c)) (error_from_sqlite "UNIQUE constraint failed: checkpoints.id") ;;
      reject_if (generation_taken (ck_checkpoint_id c) (ck_workload_id c) (ck_checkpoint_generation c) s)
        (error_from_sqlite "UNIQUE constraint failed: checkpoints.workload_id, checkpoints.checkpoint_generation")) = Err e).
    { destruct (bind_u64 (checkpoint_params c)) as [u | e]; cbn; [| by exists e].
      destruct H as [[x ->] | (i & d & Hd & Hne & Hw & Hg)]; [by eexists |].
      destruct (is_some _); cbn; [by eexists |].
      assert (generation_taken (ck_checkpoint_id c) (ck_workload_id c) (ck_checkpoint_generation c) s = true)
        as ->; [| by eexists].
      apply existsb_elem_of. exists d. split; [apply elem_of_rows; by exists i |].
      rewrite (so_checkpoints s Hs i d Hd), bool_decide_eq_false_2 by done.
      rewrite (bool_decide_eq_true_2 _ Hw), (proj2 (Z.eqb_eq _ _) Hg). done. }
    destruct Hc as [e ->]. done.
Qed.

Definition small_checkpoint (cid wid : Byte.byte) : CheckpointObject :=
  (sample_checkpoint (id_splat cid) (id_splat wid) (local_default "linux" "x86_64" "1.0.0"))
    <| ck_components := [ordinary_component "b" "application" true; ordinary_component "a" "rng" false] |>.

Example checkpoint_insert_get_witness :
  is_ok (checkpoint_insert (small_checkpoint Byte.x01 Byte.x09) empty_store) = true /\
  checkpoint_insert (small_checkpoint Byte.x02 Byte.x09)
      (after (checkpoint_insert (small_checkpoint Byte.x01 Byte.x09)) empty_store)
    = Err (PersistenceError "checkpoint {} insertion conflict: {e}").
Proof.
  split; [by vm_compute |].
  pose proof (schema_checkpoint_insert (small_checkpoint Byte.x01 Byte.x09) empty_store
    (after (checkpoint_insert (small_checkpoint Byte.x01 Byte.x09)) empty_store) tt eq_refl schema_empty) as Hs.
  refine (proj2 (checkpoint_insert_get (small_checkpoint Byte.x02 Byte.x09)
    (after (checkpoint_insert (small_checkpoint Byte.x01 Byte.x09)) empty_store) empty_store Hs) _).
  right. exists (id_splat Byte.x01), (checkpoint_row (small_checkpoint Byte.x01 Byte.x09)).
  by vm_compute.
Defined.

(** ** Replicas *)

Section rebind_facts.
Context `{HexCodec}.

Lemma filter_filter_neg {A} (p : A -> bool) (l : list A) :
  List.filter p (List.filter (fun a => negb (p a)) l) = [].
Proof. induction l as [| a l IH]; cbn; [done |]. destruct (p a) eqn:E; cbn; rewrite ?E; done. Qed.

Lemma filter_neg_fixed {A} (p : A -> bool) (l : list A) :
  (forall a, a ∈ l -> p a = false) -> List.filter (fun a => negb (p a)) l = l.
Proof.
  induction l as [| a l IH]; cbn; intros Hl; [done |].
  rewrite (Hl a) by left. cbn. f_equal. apply IH. intros b Hb. apply Hl. by right.
Qed.

(** A replica that is the one of the node, or lies under the commit path. *)
Definition same_replica (id : Id) (node data_dir : string) (l : DurableLocation) : bool :=
  path_eq (loc_path l) (commit_path data_dir id) || bool_decide (loc_node l = node).

Definition rebound (id : Id) (node data_dir : string) (locs : list DurableLocation) : list DurableLocation :=
  List.filter (fun l => negb (same_replica id node data_dir l)) locs ++
  [mkDurableLocation node (commit_path data_dir id)
     (existsb (fun l => same_replica id node data_dir l && loc_verified l) locs)].

Lemma rebind_is_rebound id node dir (s : Store) row :
  st_checkpoints s !! id = Some row ->
  checkpoint_rebind_location id node dir s
    = Ok (tt, update_checkpoint id (set_locations (rebound id node dir (ck_durable_locations row))) s).
Proof. intros Hr. unfold checkpoint_rebind_location. by rewrite Hr. Qed.

Lemma same_replica_new id node dir v :
  same_replica id node dir (mkDurableLocation node (commit_path dir id) v) = true.
Proof. unfold same_replica. cbn. by rewrite (bool_decide_eq_true_2 (node = node)), orb_true_r. Qed.

Lemma rebound_once id node dir locs :
  List.filter (same_replica id node dir) (rebound id node dir locs) =
    [mkDurableLocation node (commit_path dir id)
       (existsb (fun l => same_replica id node dir l && loc_verified l) locs)].
Proof.
  unfold rebound. rewrite List.filter_app, filter_filter_neg. cbn [List.filter app].
  by rewrite same_replica_new.
Qed.

Lemma rebound_idempotent id node dir locs :
  rebound id node dir (rebound id node dir locs) = rebound id node dir locs.
Proof.
  set (p := same_replica id node dir).
  assert (Hothers : forall l, l ∈ List.filter (fun l => negb (p l)) locs -> p l = false).
  { intros l Hl. apply list_elem_of_In, List.filter_In in Hl. by apply negb_true_iff, Hl. }
  assert (A : List.filter (fun l => negb (p l)) (rebound id node dir locs)
              = List.filter (fun l => negb (p l)) locs).
  { unfold rebound. fold p. rewrite List.filter_app, (filter_neg_fixed p) by done. cbn [List.filter].
    subst p. by rewrite same_replica_new, app_nil_r. }
  assert (B : existsb (fun l => p l && loc_verified l) (rebound id node dir locs)
              = existsb (fun l => p l && loc_verified l) locs).
  { unfold rebound. fold p. rewrite existsb_app.
    rewrite (proj2 (existsb_false _ (List.filter _ _))) by (intros l Hl; by rewrite Hothers).
    cbn. subst p. by rewrite same_replica_new, orb_false_r. }
  unfold rebound at 1. fold p. by rewrite A, B.
Qed.

(** Rebinding a checkpoint to a node that was restarted never
    counts a replica twice: afterwards exactly one location is that of the node or
    lies under its commit path, the other locations are untouched, the replica
    count is the number of locations, and the location is trusted only if one it
    replaces was.  Doing it again changes nothing; an unknown checkpoint is
    ignored. *)
Theorem rebind_location_spec (id : Id) (node dir : string) (s : Store) :
  match st_checkpoints s !! id with
  | None => checkpoint_rebind_location id node dir s = Ok (tt, s)
  | Some row =>
      exists s' row', checkpoint_rebind_location id node dir s = Ok (tt, s') /\
        st_checkpoints s' = <[id := row']> (st_checkpoints s) /\
        ck_lifecycle row' = ck_lifecycle row /\ ck_integrity_state row' = ck_integrity_state row /\
        ck_replica_count row' = Z.of_nat (length (ck_durable_locations row')) /\
        (exists l, List.filter (same_replica id node dir) (ck_durable_locations row') = [l] /\
           loc_node l = node /\ loc_path l = commit_path dir id /\
           (loc_verified l = true <-> exists old, old ∈ ck_durable_locations row /\
              same_replica id node dir old = true /\ loc_verified old = true)) /\
        (forall l, same_replica id node dir l = false ->
           l ∈ ck_durable_locations row' <-> l ∈ ck_durable_locations row) /\
        checkpoint_rebind_location id node dir s' = Ok (tt, s')
  end.
Proof.
  destruct (st_checkpoints s !! id) as [row |] eqn:Er;
    [| unfold checkpoint_rebind_location; by rewrite Er].
  set (locs := rebound id node dir (ck_durable_locations row)).
  exists (update_checkpoint id (set_locations locs) s), (set_locations locs row).
  split; [by apply rebind_is_rebound |].
  assert (Halt : alter (set_locations locs) id (st_checkpoints s) = <[id := set_locations locs row]> (st_checkpoints s)).
  { apply map_eq. intros i. destruct (decide (i = id)) as [-> | Hne].
    - by rewrite lookup_alter_eq, lookup_insert_eq, Er.
    - by rewrite lookup_alter_ne, lookup_insert_ne. }
  split_and!; try done.
  - eexists. split; [apply rebound_once |]. split_and!; [done | done |].
    cbn. rewrite existsb_elem_of. by setoid_rewrite andb_true_iff.
  - intros l Hl. cbn. unfold locs, rebound.
    rewrite elem_of_app, list_elem_of_singleton, !list_elem_of_In, List.filter_In, <- list_elem_of_In.
    split; [intros [[Hin _] | ->]; [done | by rewrite same_replica_new in Hl] |].
    intros Hin. left. by rewrite Hl.
  - rewrite (rebind_is_rebound _ _ _ _ (set_locations locs row)) by (cbn; by rewrite Halt, lookup_insert_eq).
    change (ck_durable_locations (set_locations locs row)) with locs.
    replace (rebound id node dir locs) with locs by (symmetry; apply rebound_idempotent).
    unfold update_checkpoint. cbn. by rewrite Halt, alter_insert_eq.
Qed.
End rebind_facts.

(** ** Nodes *)

(** A live node cannot be taken over.  A registration under another
    boot id succeeds only when the old one is [STALE] or [RETIRED]; whenever a
    registration succeeds the node is [ACTIVE] under the boot id that registered, and
    requests are honoured from that boot id and from no other. *)
Theorem node_identity_fencing (now : Clock) (id addr boot : string) (res : JsonText) (s : Store) :
  (is_ok (node_register now id addr boot res s) = true <->
     forall old, st_nodes s !! id = Some old ->
       nd_boot_id old = boot \/ nd_status old = "STALE" \/ nd_status old = "RETIRED") /\
  (forall s', node_register now id addr boot res s = Ok (tt, s') ->
     (exists n, st_nodes s' = <[id := n]> (st_nodes s) /\ nd_status n = "ACTIVE" /\ nd_boot_id n = boot) /\
     (forall boot', is_ok (node_validate_identity id boot' s') = true <-> boot' = boot)) /\
  (forall boot', is_ok (node_validate_identity id boot' s) = true <->
     exists n, st_nodes s !! id = Some n /\ nd_boot_id n = boot' /\ nd_status n = "ACTIVE").
Proof.
  assert (Hval : forall s boot', is_ok (node_validate_identity id boot' s) = true <->
    exists n, st_nodes s !! id = Some n /\ nd_boot_id n = boot' /\ nd_status n = "ACTIVE").
  { intros t boot'. unfold node_validate_identity. destruct (st_nodes t !! id) as [n |]; cbn.
    - destruct (bool_decide (nd_boot_id n = boot')) eqn:E1, (bool_decide (nd_status n = "ACTIVE")) eqn:E2;
        bool_facts; cbn; (split; [by eauto | by intros (? & [= <-] & ? & ?)]).
    - by split; [| intros (? & ? & _)]. }
  split; [| split; [| by apply Hval]].
  - unfold node_register. destruct (st_nodes s !! id) as [old |]; [| by split; [intros _ ? |]].
    destruct (bool_decide (nd_boot_id old = boot)) eqn:E1, (bool_decide (nd_status old = "STALE")) eqn:E2,
      (bool_decide (nd_status old = "RETIRED")) eqn:E3; bool_facts; cbn;
      (split; [intros ? ? [= <-]; first [done | auto] | intros Ho; try done; by destruct (Ho old eq_refl) as [? | [? | ?]]]).
  - intros s' H.
    assert (Hput : exists n, s' = s <| st_nodes := <[id := n]> (st_nodes s) |> /\
      nd_status n = "ACTIVE" /\ nd_boot_id n = boot).
    { unfold node_register in H. repeat split_match_in H; try done; unfold commit in H; simplify_eq;
        by eexists. }
    destruct Hput as (n & -> & Hst & Hb). split; [by exists n |].
    intros boot'. rewrite Hval. cbn. rewrite lookup_insert_eq.
    split; [by intros (? & [= <-] & <- & _) | intros ->; by exists n].
Qed.

Example node_identity_fencing_witness :
  is_ok (node_register (fun _ => 9) "n1" "127.0.0.1:7001" "boot-2" "{}"
    (after (node_register (fun _ => 5) "n1" "127.0.0.1:7000" "boot-1" "{}") empty_store)) = false /\
  is_ok (node_validate_identity "n1" "boot-1"
    (after (node_register (fun _ => 5) "n1" "127.0.0.1:7000" "boot-1" "{}") empty_store)) = true.
Proof.
  split; [by vm_compute |].
  apply (proj2 (proj1 (proj2 (node_identity_fencing (fun _ => 5) "n1" "127.0.0.1:7000" "boot-1" "{}"
    empty_store)) (after (node_register (fun _ => 5) "n1" "127.0.0.1:7000" "boot-1" "{}") empty_store)
    eq_refl)). reflexivity.
Defined.

Lemma filter_nil {A} (p : A -> bool) (l : list A) :
  (forall a, a ∈ l -> p a = false) -> List.filter p l = [].
Proof.
  induction l as [| a l IH]; cbn; intros Hl; [done |].
  rewrite (Hl a) by left. apply IH. intros b Hb. apply Hl. by right.
Qed.

Lemma sweep_fold_lookup (ids : list string) (s : Store) (i : string) :
  st_nodes (fold_left mark_stale ids s) !! i =
  (fun n => if bool_decide (i ∈ ids) && bool_decide (nd_status n = "ACTIVE")
            then n <| nd_status := "STALE" |> else n) <$> st_nodes s !! i.
Proof.
  revert s. induction ids as [| j ids IH]; intros s; cbn [fold_left].
  - by destruct (st_nodes s !! i).
  - rewrite IH. unfold mark_stale. cbn. destruct (decide (i = j)) as [-> | Hne].
    + rewrite lookup_alter_eq, (bool_decide_eq_true_2 (j ∈ j :: ids)) by left.
      destruct (st_nodes s !! j) as [n |]; cbn; [| done].
      destruct (bool_decide (nd_status n = "ACTIVE")) eqn:E; cbn.
      * by destruct (bool_decide (j ∈ ids)).
      * by rewrite E, andb_false_r.
    + rewrite lookup_alter_ne by done. destruct (st_nodes s !! i) as [n |]; [| done]. cbn. do 2 f_equal.
      rewrite (bool_decide_ext (i ∈ j :: ids) (i ∈ ids)); [done |].
      rewrite elem_of_cons. naive_solver.
Qed.

Lemma sweep_fold_frame (ids : list string) (s : Store) :
  st_workloads (fold_left mark_stale ids s) = st_workloads s /\
  st_checkpoints (fold_left mark_stale ids s) = st_checkpoints s.
Proof.
  revert s. induction ids as [| j l IH]; intros s; [done |]. cbn [fold_left].
  by destruct (IH (mark_stale s j)) as [-> ->].
Qed.

(** The staleness sweep declares stale exactly the [ACTIVE] nodes
    whose last heartbeat is older than the limit, returns exactly those, and leaves
    every other node - and every other table - as it was; run again at the same
    limit it finds nothing. *)
Theorem nodes_sweep_stale_spec (limit : Z) (s : Store) :
  schema_ok s -> limit <= i64_max ->
  exists stale s', nodes_sweep_stale limit s = Ok (stale, s') /\
    (forall i, i ∈ stale <-> exists n, st_nodes s !! i = Some n /\ nd_status n = "ACTIVE" /\
       nd_last_heartbeat_ms n < limit) /\
    (forall i, st_nodes s' !! i =
       (fun n => if bool_decide (i ∈ stale) then n <| nd_status := "STALE" |> else n) <$> st_nodes s !! i) /\
    st_workloads s' = st_workloads s /\ st_checkpoints s' = st_checkpoints s /\
    (exists s'', nodes_sweep_stale limit s' = Ok ([], s'')).
Proof.
  intros Hs Hl. unfold nodes_sweep_stale at 1. unfold as_i64. rewrite (proj2 (Z.leb_le _ _) Hl).
  eexists _, _. split; [reflexivity |].
  set (stale := nd_id <$> _). set (s' := fold_left _ stale s).
  assert (Hstale : forall i, i ∈ stale <-> exists n, st_nodes s !! i = Some n /\ nd_status n = "ACTIVE" /\
       nd_last_heartbeat_ms n < limit).
  { intros i. unfold stale. rewrite list_elem_of_fmap.
    setoid_rewrite list_elem_of_In. setoid_rewrite List.filter_In. setoid_rewrite <- list_elem_of_In.
    setoid_rewrite elem_of_rows. split.
    - intros (n & -> & (k & Hk) & Hp). bool_facts. exists n. by rewrite (so_nodes s Hs k n Hk).
    - intros (n & Hn & Ha & Hb). exists n. split_and!; [by rewrite (so_nodes s Hs i n Hn) | by exists i |].
      by rewrite (bool_decide_eq_true_2 _ Ha), (proj2 (Z.ltb_lt _ _) Hb). }
  assert (Hlook : forall i, st_nodes s' !! i =
       (fun n => if bool_decide (i ∈ stale) then n <| nd_status := "STALE" |> else n) <$> st_nodes s !! i).
  { intros i. unfold s'. rewrite sweep_fold_lookup. destruct (st_nodes s !! i) as [n |] eqn:En; [| done].
    cbn. destruct (bool_decide (i ∈ stale)) eqn:Ei; [| done]. bool_facts.
    apply Hstale in Ei as (n' & Hn' & Ha & _). rewrite En in Hn'. injection Hn' as <-.
    by rewrite (bool_decide_eq_true_2 _ Ha). }
  split_and!; [done | done | apply sweep_fold_frame | apply sweep_fold_frame |].
  unfold nodes_sweep_stale, as_i64. rewrite (proj2 (Z.leb_le _ _) Hl).
  assert (List.filter (fun n => bool_decide (nd_status n = "ACTIVE") && (nd_last_heartbeat_ms n <? limit))
            (rows (st_nodes s')) = []) as ->; [| by eexists].
  apply filter_nil. intros n (i & Hn)%elem_of_rows. rewrite Hlook in Hn.
  apply fmap_Some in Hn as (m & Hm & ->). destruct (bool_decide (i ∈ stale)) eqn:Ei; [done |].
  apply not_true_iff_false. intros Hp. bool_facts. apply Ei, Hstale. by exists m.
Qed.

Example nodes_sweep_stale_spec_witness :
  exists s', nodes_sweep_stale 10 (after (node_register (fun _ => 5) "n1" "addr" "boot-1" "{}") empty_store)
    = Ok (["n1"], s').
Proof.
  destruct (nodes_sweep_stale_spec 10
    (after (node_register (fun _ => 5) "n1" "addr" "boot-1" "{}") empty_store)) as (l & s' & H & _).
  - apply (schema_node_register (fun _ => 5) "n1" "addr" "boot-1" "{}" empty_store _ tt eq_refl schema_empty).
  - by vm_compute.
  - exists s'. rewrite H. f_equal. f_equal.
    assert (E : forall r, nodes_sweep_stale 10
        (after (node_register (fun _ => 5) "n1" "addr" "boot-1" "{}") empty_store) = r ->
      match r with Ok x => fst x | Err _ => [] end = ["n1"]) by (intros r <-; vm_compute; reflexivity).
    exact (E _ H).
Defined.

(** Retirement succeeds exactly on an [Available] checkpoint that is
    not pinned; the row then has no location and no replica and is no longer
    restorable, the record of what the checkpoint was - its identity, generation,
    lineage and manifest anchor - stays, and every other checkpoint is untouched. *)
Theorem checkpoint_retire_spec (id : Id) (s : Store) :
  (is_ok (checkpoint_retire id s) = true <->
     exists row, st_checkpoints s !! id = Some row /\ ck_protection row <> Pinned /\
       ck_lifecycle row = Available)  /\
  (forall s', checkpoint_retire id s = Ok (tt, s') ->
     exists row row', st_checkpoints s !! id = Some row /\
       st_checkpoints s' = <[id := row']> (st_checkpoints s) /\
       ck_lifecycle row' = Retired /\ ck_durable_locations row' = [] /\ ck_replica_count row' = 0 /\
       checkpoint_is_restorable row' = false /\
       ck_checkpoint_generation row' = ck_checkpoint_generation row /\
       ck_parent_checkpoint row' = ck_parent_checkpoint row /\
       ck_manifest_digest row' = ck_manifest_digest row).
Proof.
  split.
  - unfold checkpoint_retire. destruct (st_checkpoints s !! id) as [row |]; cbn;
      [| by split; [| intros (? & ? & _)]].
    destruct (bool_decide (ck_protection row = Pinned)) eqn:Ep; bool_facts; cbn.
    + split; [done |]. by intros (? & [= <-] & ? & _).
    + destruct (transition (ck_lifecycle row) Retired) as [[] |] eqn:Et; cbn.
      * apply transition_Ok in Et. split; [intros _ | done]. exists row. split_and!; [done | done |].
        by destruct (ck_lifecycle row).
      * split; [done |]. intros (? & [= <-] & _ & Ha). by rewrite Ha in Et.
  - intros s' H. unfold checkpoint_retire in H. invert_ok H. apply ok_or_Ok in Hstep.
    unfold commit in H. injection H as <-. eexists _, _. split; [exact Hstep |].
    split; [cbn; by rewrite (alter_insert_lookup _ _ _ _ Hstep) |]. by split_and!.
Qed.

Definition one_checkpoint : Store :=
  after (checkpoint_insert (small_checkpoint Byte.x01 Byte.x09)) empty_store.

Example checkpoint_retire_spec_witness :
  exists row row', st_checkpoints one_checkpoint !! id_splat Byte.x01 = Some row /\
    st_checkpoints (after (checkpoint_retire (id_splat Byte.x01)) one_checkpoint)
      = <[id_splat Byte.x01 := row']> (st_checkpoints one_checkpoint) /\ ck_lifecycle row' = Retired.
Proof.
  destruct (proj2 (checkpoint_retire_spec (id_splat Byte.x01) one_checkpoint)
    (after (checkpoint_retire (id_splat Byte.x01)) one_checkpoint) eq_refl)
    as (row & row' & H1 & H2 & H3 & _).
  exists row, row'. exact (conj H1 (conj H2 H3)).
Defined.

(** At the checkpoint of [one_checkpoint], restarted under a new node id. *)
Example rebind_location_spec_witness :
  exists s' row', checkpoint_rebind_location (id_splat Byte.x01) "n2" "/data"
      (update_checkpoint (id_splat Byte.x01)
         (set_locations [mkDurableLocation "n1" "/elsewhere" true]) one_checkpoint) = Ok (tt, s') /\
    st_checkpoints s' !! id_splat Byte.x01 = Some row' /\
    mkDurableLocation "n1" "/elsewhere" true ∈ ck_durable_locations row'.
Proof.
  pose proof (@rebind_location_spec hex_codec (id_splat Byte.x01) "n2" "/data"
    (update_checkpoint (id_splat Byte.x01)
       (set_locations [mkDurableLocation "n1" "/elsewhere" true]) one_checkpoint)) as H.
  destruct (st_checkpoints (update_checkpoint (id_splat Byte.x01)
       (set_locations [mkDurableLocation "n1" "/elsewhere" true]) one_checkpoint) !! id_splat Byte.x01)
    as [row |] eqn:Er; [| vm_compute in Er; discriminate Er].
  destruct H as (s' & row' & H1 & H2 & _ & _ & _ & _ & H3 & _).
  exists s', row'. split; [exact H1 |]. split; [rewrite H2; apply lookup_insert_eq |].
  apply (H3 (mkDurableLocation "n1" "/elsewhere" true)); [vm_compute; reflexivity |].
  vm_compute in Er. injection Er as <-. left.
Defined.
