(* ===== verification/Fencing.v ===== *)
(** Workload fencing: what the claim statements of the store guarantee.

    The authority over a workload is the pair of its active node and fence token,
    under the execution epoch it was granted for. *)
From S2P Require Import Prelude Errors Ident Lifecycle Checkpoint Workload Compression Policy Compat.
From S2P Require Import Capture Lineage Tables Persist Schema.
From Stdlib Require Strings.Byte.

(** A workload row as the coordinator leaves it: claimed by a node with a token
    granted for the current epoch, or not claimed at all. *)
Definition claim_consistent (w : Workload) : Prop :=
  is_some (w_active_node w) = is_some (w_fence_token w) /\
  (is_fenced w = false -> w_fence_epoch w = w_execution_epoch w) /\
  0 <= w_execution_epoch w <= i64_max /\ 0 <= w_workload_generation w <= i64_max.

Definition claims_ok (s : Store) : Prop :=
  forall id w, st_workloads s !! id = Some w -> claim_consistent w.

(** [w'] is a later state of the row [w]. *)
Definition epoch_le (w w' : Workload) : Prop :=
  w_execution_epoch w <= w_execution_epoch w' /\
  w_workload_generation w <= w_workload_generation w' /\
  w_single_active w = w_single_active w'.

(** No workload of [s0] was lost or moved back in [s]. *)
Definition epochs_from (s0 s : Store) : Prop :=
  forall id w, st_workloads s0 !! id = Some w ->
    exists w', st_workloads s !! id = Some w' /\ epoch_le w w'.

(** Nothing a claim can be checked against: the workload is held by nobody. *)
Definition revoked (s : Store) (id : Id) : Prop :=
  forall w actor token, st_workloads s !! id = Some w -> fence_valid w actor token = false.

(** * Lemmas *)

Lemma epoch_le_refl (w : Workload) : epoch_le w w.
Proof. split_and!; [lia | lia | done]. Qed.

Lemma epochs_from_refl (s : Store) : epochs_from s s.
Proof. intros id w Hw. exists w. split; [done | apply epoch_le_refl]. Qed.

Lemma epochs_from_trans (s0 s1 s2 : Store) :
  epochs_from s0 s1 -> epochs_from s1 s2 -> epochs_from s0 s2.
Proof.
  intros H1 H2 id w Hw. destruct (H1 id w Hw) as (w1 & Hw1 & L1).
  destruct (H2 id w1 Hw1) as (w2 & Hw2 & L2). exists w2. split; [done |].
  destruct L1 as (? & ? & ?), L2 as (? & ? & ?). split_and!; [lia | lia | congruence].
Qed.

(** Writing a later row keeps both. *)
Lemma epochs_from_update (s0 s : Store) (id : Id) f :
  (forall w, st_workloads s !! id = Some w -> epoch_le w (f w)) ->
  epochs_from s0 s -> epochs_from s0 (update_workload id f s).
Proof.
  intros Hf H0. apply (epochs_from_trans s0 s); [done |]. intros i w Hw. cbn.
  destruct (decide (i = id)) as [-> | Hne].
  - rewrite lookup_alter_eq, Hw. exists (f w). split; [done | by apply Hf].
  - rewrite lookup_alter_ne by done. exists w. split; [done | apply epoch_le_refl].
Qed.

Lemma claims_ok_update (s : Store) (id : Id) f :
  (forall w, st_workloads s !! id = Some w -> claim_consistent w -> claim_consistent (f w)) ->
  claims_ok s -> claims_ok (update_workload id f s).
Proof.
  intros Hf Hs i w Hi. cbn in Hi. apply lookup_alter_Some in Hi as [(-> & x & Hx & ->) | [_ Hw]].
  - apply Hf; [done | by eapply Hs].
  - by eapply Hs.
Qed.

Lemma claim_consistent_released (w : Workload) :
  claim_consistent w -> claim_consistent (w <| w_fence_token := None |> <| w_active_node := None |>).
Proof. intros (_ & _ & ? & ?). split; [done |]. split; [done |]. by split. Qed.

Lemma claim_consistent_granted (w : Workload) (node token : string) :
  claim_consistent w ->
  claim_consistent (w <| w_active_node := Some node |> <| w_fence_token := Some token |>
                      <| w_fence_epoch := w_execution_epoch w |>).
Proof. intros (_ & _ & ? & ?). split; [done |]. split; [done |]. by split. Qed.

Lemma bind_u64_Ok (l : list Z) (u : unit) :
  bind_u64 l = Ok u <-> (forall v, v ∈ l -> v <= i64_max).
Proof.
  unfold bind_u64. rewrite for_each_Ok. setoid_rewrite reject_if_Ok. by setoid_rewrite Z.ltb_ge.
Qed.

Lemma workload_claim_Ok id node token e (s s' : Store) u :
  workload_claim id node token e s = Ok (u, s') ->
  exists w, st_workloads s !! id = Some w /\ claimed_elsewhere w node = false /\
    w_execution_epoch w = e /\
    s' = update_workload id (fun row =>
      row <| w_active_node := Some node |> <| w_fence_token := Some token |>
          <| w_fence_epoch := e |>) s.
Proof.
  unfold workload_claim. intros H. invert_ok H. apply ok_or_Ok in Hstep.
  apply reject_if_Ok in Hstep0, Hstep1. bool_facts. unfold commit in H. injection H as _ <-.
  exists r. split_and!; try done. by subst e.
Qed.

Lemma workload_bump_Ok id e (s s' : Store) r :
  workload_bump_fence id e s = Ok (r, s') ->
  exists w, st_workloads s !! id = Some w /\ w_execution_epoch w = e /\
    r = wrapping_add e 1 /\ r <= i64_max /\
    s' = update_workload id (fun row =>
      row <| w_execution_epoch := r |> <| w_fence_token := None |> <| w_active_node := None |>) s.
Proof.
  unfold workload_bump_fence. intros H. invert_ok H. apply ok_or_Ok in Hstep.
  apply reject_if_Ok in Hstep0. bool_facts. rewrite bind_u64_Ok in Hstep1. subst e.
  injection H as <- <-. exists r0. split_and!; try done. apply Hstep1. left.
Qed.

(** Within the range the database can hold, the epoch increment does not wrap. *)
Lemma epoch_succ (e : Z) : 0 <= e <= i64_max -> wrapping_add e 1 = e + 1.
Proof. intros H. apply wrapping_add_small. unfold i64_max, u64_max in *. lia. Qed.

Lemma update_workload_lookup id f (s : Store) w :
  st_workloads s !! id = Some w -> st_workloads (update_workload id f s) !! id = Some (f w).
Proof. intros Hw. cbn. by rewrite lookup_alter_eq, Hw. Qed.

Lemma claimed_elsewhere_iff (w : Workload) (node : string) :
  claimed_elsewhere w node = true <->
  w_single_active w = true /\
  exists an, w_active_node w = Some an /\ an <> node /\ an <> "MIGRATING".
Proof.
  unfold claimed_elsewhere. destruct (w_single_active w), (w_active_node w) as [an |]; cbn;
    try (split; [done | by intros (? & ? & ? & ?)]).
  destruct (bool_decide (an = node)) eqn:E1, (bool_decide (an = "MIGRATING")) eqn:E2; bool_facts; cbn;
    (split; [try done; eauto | by intros (_ & ? & [= <-] & ? & ?)]).
Qed.

(** * Properties *)

(** C1 (safety). Claiming a workload.  A claim succeeds exactly for an existing
    workload, with its current epoch, when no other node holds it (a workload that
    is not single-active, or is [MIGRATING], may change hands); from then on the
    granted node and token are the only credentials that are valid, the claim is
    consistent with the epoch, and any other node that tries to claim a
    single-active workload, with any epoch, gets the fencing error. *)
Theorem workload_claim_spec (id : Id) (node token : string) (e : Z) (s : Store) :
  claims_ok s ->
  (is_ok (workload_claim id node token e s) = true <->
     exists w, st_workloads s !! id = Some w /\ w_execution_epoch w = e /\
       (w_single_active w = true -> forall an, w_active_node w = Some an ->
          an = node \/ an = "MIGRATING")) /\
  (forall s', workload_claim id node token e s = Ok (tt, s') ->
     claims_ok s' /\
     exists w', st_workloads s' !! id = Some w' /\
       (forall actor t, fence_valid w' actor t = true <-> actor = node /\ t = token) /\
       (w_single_active w' = true -> node <> "MIGRATING" ->
          forall other token' e', other <> node ->
            workload_claim id other token' e' s'
              = Err (FencingFailure "workload is single-active and already claimed by node {an}"))).
Proof.
  intros Hs.
  assert (Hcl : forall w, claimed_elsewhere w node = false <->
    (w_single_active w = true -> forall an, w_active_node w = Some an -> an = node \/ an = "MIGRATING")).
  { intros w. rewrite <- not_true_iff_false, claimed_elsewhere_iff. split.
    - intros H Ha an Han. destruct (decide (an = node)); [by left |].
      destruct (decide (an = "MIGRATING")); [by right |]. destruct H. eauto.
    - intros H (Ha & an & Han & H1 & H2). by destruct (H Ha an Han). }
  split.
  - split.
    + destruct (workload_claim id node token e s) as [[u s'] |] eqn:E; [| done]. intros _.
      apply workload_claim_Ok in E as (w & Hw & Hc & He & _). exists w. by rewrite <- Hcl.
    + intros (w & Hw & <- & Hc). apply Hcl in Hc. unfold workload_claim. rewrite Hw. cbn. rewrite Hc. cbn.
      rewrite Z.eqb_refl. cbn. destruct (Hs id w Hw) as (_ & _ & [_ Hb] & _).
      by rewrite (proj2 (Z.ltb_ge _ _) Hb).
  - intros s' H. apply workload_claim_Ok in H as (w & Hw & _ & <- & ->). split.
    + apply claims_ok_update; [| done]. intros x Hx Hx'. rewrite Hw in Hx.
      injection Hx as <-. by apply claim_consistent_granted.
    + eexists. split; [by apply update_workload_lookup |]. split.
      * intros actor t. rewrite fence_valid_iff. cbn. naive_solver.
      * intros Ha Hm other token' e' Hne. unfold workload_claim.
        rewrite (update_workload_lookup _ _ _ _ Hw). cbn [mbind FabricResult_bind ok_or].
        rewrite (proj2 (claimed_elsewhere_iff _ _)); [done |].
        split; [done |]. exists node. by split_and!.
Qed.

(** C2 (safety). Fencing a workload is a compare-and-set on its execution epoch.  It
    succeeds exactly when the caller knows the current epoch; then the epoch is one
    higher, no credentials at all are valid, and every claim with an epoch up to the
    old one - in particular by the node that was just fenced - is refused with the
    stale-epoch error.  A second fencing at the same epoch loses the race. *)
Theorem workload_fence_spec (id : Id) (e : Z) (s : Store) :
  claims_ok s -> e < i64_max ->
  (is_ok (workload_bump_fence id e s) = true <->
     exists w, st_workloads s !! id = Some w /\ w_execution_epoch w = e) /\
  (forall r s', workload_bump_fence id e s = Ok (r, s') ->
     r = e + 1 /\ claims_ok s' /\ epochs_from s s' /\ revoked s' id /\
     (forall node token e', e' <= e ->
        workload_claim id node token e' s' = Err (StaleWorkloadEpoch (e + 1) e')) /\
     workload_bump_fence id e s' = Err (StaleWorkloadEpoch e (e + 1))).
Proof.
  intros Hs He. split.
  - split.
    + destruct (workload_bump_fence id e s) as [[r s'] |] eqn:E; [| done]. intros _.
      apply workload_bump_Ok in E as (w & Hw & Hwe & _). by exists w.
    + intros (w & Hw & <-). destruct (Hs id w Hw) as (_ & _ & Hb & _).
      unfold workload_bump_fence. rewrite Hw. cbn [mbind FabricResult_bind ok_or].
      rewrite Z.eqb_refl, epoch_succ by done. cbn.
      by rewrite (proj2 (Z.ltb_ge _ _)) by lia.
  - intros r s' H. apply workload_bump_Ok in H as (w & Hw & Hwe & -> & Hr & ->).
    destruct (Hs id w Hw) as (Hc1 & Hc2 & Hb & Hg). rewrite Hwe in Hb.
    rewrite (epoch_succ e Hb) in *.
    set (s' := update_workload id _ s).
    assert (Hl : st_workloads s' !! id = Some
      (w <| w_execution_epoch := e + 1 |> <| w_fence_token := None |> <| w_active_node := None |>))
      by exact (update_workload_lookup id _ s w Hw).
    split_and!.
    + done.
    + refine (claims_ok_update s id _ _ Hs). intros x Hx _. rewrite Hw in Hx. injection Hx as <-.
      split; [done |]. split; [done |]. split; [split; cbn; lia | exact Hg].
    + refine (epochs_from_update s s id _ _ (epochs_from_refl s)). intros x Hx. rewrite Hw in Hx.
      injection Hx as <-. unfold epoch_le. cbn. split_and!; [lia | lia | done].
    + intros w' actor token Hw'. rewrite Hl in Hw'. injection Hw' as <-. by apply not_true_iff_false;
        rewrite fence_valid_iff; intros [? ?].
    + intros node token e' He'. unfold workload_claim. rewrite Hl. cbn [mbind FabricResult_bind ok_or].
      assert (claimed_elsewhere (w <| w_execution_epoch := e + 1 |> <| w_fence_token := None |>
        <| w_active_node := None |>) node = false) as -> by apply andb_false_r.
      cbn. by rewrite (proj2 (Z.eqb_neq (e + 1) e')) by lia.
    + unfold workload_bump_fence. rewrite Hl. cbn -[Z.eqb Z.add].
      by rewrite (proj2 (Z.eqb_neq (e + 1) e)) by lia.
Qed.

(** ** A concrete workload *)

Definition idle_workload (wid : Id) : Workload :=
  {| w_workload_id := wid; w_workload_generation := 0; w_owner := "alice"; w_class := "generic";
     w_created_ms := 1; w_execution_epoch := 0; w_active_node := None; w_backend_class := "cpu";
     w_checkpoint_generation := 0; w_parent_workload := None; w_fork_generation := 0;
     w_policy_version := 1; w_metadata := "{}"; w_state_schema_version := 1;
     w_runtime := local_default "linux" "x86_64" "1.0.0";
     w_resumability_class := RestartFromCheckpoint; w_protection := ProtectionSpec_default;
     w_single_active := true; w_fence_token := None; w_fence_epoch := 0 |}.

Definition one_workload : Store := after (workload_insert (idle_workload (id_splat Byte.x09))) empty_store.

Lemma one_workload_claims : claims_ok one_workload.
Proof.
  intros i w Hw. change (<[id_splat Byte.x09 := idle_workload (id_splat Byte.x09)]> (∅ : gmap Id Workload) !! i = Some w) in Hw.
  apply lookup_insert_Some in Hw as [[_ <-] | [_ Hw]]; [| done].
  split; [done |]. split; [done |]. by split; split; vm_compute.
Qed.

Definition claim_by (node : string) : Tx unit :=
  workload_claim (id_splat Byte.x09) node ("token-of-" +:+ node) 0.

Example workload_claim_spec_witness :
  claim_by "n2" (after (claim_by "n1") one_workload)
    = Err (FencingFailure "workload is single-active and already claimed by node {an}").
Proof.
  destruct (proj2 (workload_claim_spec (id_splat Byte.x09) "n1" "token-of-n1" 0 one_workload
    one_workload_claims) (after (claim_by "n1") one_workload) eq_refl) as (_ & w & Hw & _ & H).
  assert (Hsa : w_single_active w = true) by (vm_compute in Hw; injection Hw as <-; reflexivity).
  exact (H Hsa ltac:(discriminate) "n2" "token-of-n2" 0 ltac:(discriminate)).
Defined.

Example workload_fence_spec_witness :
  claim_by "n1" (after (workload_bump_fence (id_splat Byte.x09) 0) (after (claim_by "n1") one_workload))
    = Err (StaleWorkloadEpoch 1 0).
Proof.
  pose proof (proj1 (proj2 (workload_claim_spec (id_splat Byte.x09) "n1" "token-of-n1" 0 one_workload
    one_workload_claims) (after (claim_by "n1") one_workload) eq_refl)) as Hs.
  destruct (proj2 (workload_fence_spec (id_splat Byte.x09) 0 (after (claim_by "n1") one_workload) Hs
    ltac:(by vm_compute)) 1 (after (workload_bump_fence (id_splat Byte.x09) 0)
      (after (claim_by "n1") one_workload)) eq_refl) as (_ & _ & _ & _ & H & _).
  exact (H "n1" "token-of-n1" 0 ltac:(lia)).
Defined.
