(* ===== verification/Rows.v ===== *)
(** The columns of the database ([src/src/persistence.rs]): the values the statements bind,
    the rows SQLite keeps of them, and the row mappers that read them back by position.

    The tables of [Tables] hold decoded rows; here is what they stand for (reservations,
    of which only the key is ever read, policies and the two-column [meta] apart).  An [INSERT]
    names its columns, a [SELECT *] returns them in the order of the schema, and a mapper
    reads them by number: [Rows] has the three lists as the source writes them.
    [serde_json] on the types of the JSON columns is the interface [Serde], with the
    hypothesis [reads_back] on the values of a row. *)
From S2P Require Import Prelude Errors Ident Lifecycle Checkpoint Workload Compression Policy Capture.
From S2P Require Import Lineage Tables Persist Compat Fencing.
From Stdlib Require Import Strings.Byte.

(** * Definitions *)

(** ** Values and rows *)

Inductive SqlValue : Type := SqlNull | SqlInteger (z : Z) | SqlText (s : string).
Definition Row : Type := list SqlValue.

(** A column of [CREATE TABLE]: its name, [NOT NULL], [DEFAULT]. *)
Record Column := mkColumn { col_name : string; col_not_null : bool; col_default : SqlValue }.
Definition required (name : string) : Column := mkColumn name true SqlNull.
Definition nullable (name : string) : Column := mkColumn name false SqlNull.
Definition defaulted (name : string) (v : SqlValue) : Column := mkColumn name true v.

Fixpoint value_of (name : string) (names : list string) (values : list SqlValue) : option SqlValue :=
  match names, values with
  | n :: names', v :: values' => if String.eqb n name then Some v else value_of name names' values'
  | _, _ => None
  end.

Definition is_null (v : SqlValue) : bool := match v with SqlNull => true | _ => false end.

(** [INSERT INTO t(names) VALUES(values)]: the row, in the order of the schema. *)
Fixpoint insert_row (schema : list Column) (names : list string) (values : list SqlValue) : FabricResult Row :=
  match schema with
  | [] => Ok []
  | c :: schema' =>
      let v := default (col_default c) (value_of (col_name c) names values) in
      reject_if (col_not_null c && is_null v) (error_from_sqlite "NOT NULL constraint failed: {column}") ;;
      row ← insert_row schema' names values;
      Ok (v :: row)
  end.

(** [UPDATE t SET name=value, ..] on a row of the table. *)
Fixpoint update_row (schema : list Column) (names : list string) (values : list SqlValue) (r : Row) : FabricResult Row :=
  match schema, r with
  | c :: schema', old :: r' =>
      let v := default old (value_of (col_name c) names values) in
      reject_if (col_not_null c && is_null v) (error_from_sqlite "NOT NULL constraint failed: {column}") ;;
      row ← update_row schema' names values r';
      Ok (v :: row)
  | _, _ => Ok []
  end.

(** The columns a [SELECT] names. *)
Definition select_columns (schema : list Column) (names : list string) (r : Row) : Row :=
  omap (fun name => value_of name (col_name <$> schema) r) names.

(** *** Parameters ([ToSql]) *)

Definition int_u64 (z : Z) : FabricResult SqlValue :=
  reject_if (i64_max <? z) (error_from_sqlite "integer out of range") ;; Ok (SqlInteger z).
Definition int_u32 (z : Z) : FabricResult SqlValue := Ok (SqlInteger z).
Definition int_bool (b : bool) : FabricResult SqlValue := Ok (SqlInteger (if b then 1 else 0)).
Definition text (s : string) : FabricResult SqlValue := Ok (SqlText s).
Definition opt_text (o : option string) : FabricResult SqlValue :=
  Ok (match o with Some s => SqlText s | None => SqlNull end).

Fixpoint all_params (l : list (FabricResult SqlValue)) : FabricResult (list SqlValue) :=
  match l with
  | [] => Ok []
  | r :: l' => v ← r; vs ← all_params l'; Ok (v :: vs)
  end.

(** *** Columns read by number ([FromSql]) *)

Definition get_column (r : Row) (i : nat) : FabricResult SqlValue := ok_or (r !! i) (error_from_sqlite "invalid column index").
Definition get_text (r : Row) (i : nat) : FabricResult string :=
  v ← get_column r i; match v with SqlText s => Ok s | _ => Err (error_from_sqlite "invalid column type") end.
Definition get_opt_text (r : Row) (i : nat) : FabricResult (option string) :=
  v ← get_column r i;
  match v with SqlText s => Ok (Some s) | SqlNull => Ok None | _ => Err (error_from_sqlite "invalid column type") end.
Definition get_int (lo hi : Z) (r : Row) (i : nat) : FabricResult Z :=
  v ← get_column r i;
  match v with
  | SqlInteger z => reject_if ((z <? lo) || (hi <? z)) (error_from_sqlite "integer out of range") ;; Ok z
  | _ => Err (error_from_sqlite "invalid column type")
  end.
Definition get_u64 : Row -> nat -> FabricResult Z := get_int 0 i64_max.
Definition get_u32 : Row -> nat -> FabricResult Z := get_int 0 u32_max.
Definition get_opt_u64 (r : Row) (i : nat) : FabricResult (option Z) :=
  v ← get_column r i; match v with SqlNull => Ok None | _ => z ← get_u64 r i; Ok (Some z) end.
Definition get_bool (r : Row) (i : nat) : FabricResult bool :=
  z ← get_int (- 2 ^ 31) (2 ^ 31 - 1) r i; Ok (negb (z =? 0)).

(** [sql_err]. *)
Definition sql_err {A} (r : FabricResult A) : FabricResult A :=
  match r with Ok a => Ok a | Err e => Err (error_from_sqlite "{e}") end.

(** ** JSON columns *)

Class Serde (A : Type) := { to_json : A -> string; from_json : string -> option A }.
(** What the code relies on of [serde_json]: the text of a value is read back as that value. *)
Definition reads_back {A} `{Serde A} (a : A) : Prop := from_json (to_json a) = Some a.

Definition json {A} `{Serde A} (a : A) : FabricResult SqlValue := text (to_json a).
Definition get_json {A} `{Serde A} (r : Row) (i : nat) : FabricResult A :=
  s ← get_text r i; ok_or (from_json s) (error_from_sqlite "{e}").
(** [serde_json::from_str(s).unwrap_or(d)]. *)
Definition get_json_or {A} `{Serde A} (d : A) (r : Row) (i : nat) : FabricResult A :=
  s ← get_text r i; Ok (default d (from_json s)).

Section rows.
Context `{HexCodec}.

Definition id_text (i : Id) : FabricResult SqlValue := text (to_hex i).
Definition opt_id (o : option Id) : FabricResult SqlValue := opt_text (to_hex <$> o).
Definition get_id (r : Row) (i : nat) : FabricResult Id := s ← get_text r i; sql_err (from_hex s).
Definition get_opt_id (r : Row) (i : nat) : FabricResult (option Id) :=
  o ← get_opt_text r i;
  match o with Some s => i ← sql_err (from_hex s); Ok (Some i) | None => Ok None end.

Context `{!Serde JsonText, !Serde RuntimeCompatibilityDescriptor, !Serde HardwareCompatibilityDescriptor,
  !Serde ResumabilityClass, !Serde ProtectionSpec, !Serde ExecutionFrontier, !Serde CheckpointType,
  !Serde ConsistencyClass, !Serde (list ExternalDependency), !Serde IntegrityState, !Serde LifecycleState,
  !Serde ProtectionState, !Serde RetirementEligibility, !Serde (list DurableLocation), !Serde ComponentType,
  !Serde StorageRepresentation, !Serde (list string)}.

(** ** Workloads *)

Definition workloads_schema : list Column :=
  [required "id"; required "generation"; required "owner"; required "class"; required "created_ms";
   defaulted "execution_epoch" (SqlInteger 0); nullable "active_node"; required "backend_class";
   defaulted "checkpoint_generation" (SqlInteger 0); nullable "parent_workload";
   defaulted "fork_generation" (SqlInteger 0); required "policy_version"; required "metadata";
   required "state_schema_version"; required "runtime_descriptor"; required "resumability"; required "protection";
   defaulted "single_active" (SqlInteger 1); nullable "fence_token"; defaulted "fence_epoch" (SqlInteger 0);
   defaulted "state" (SqlText "ACTIVE")].

(** The parameters both insertions bind. *)
Definition workload_values (w : Workload) : list (FabricResult SqlValue) :=
  [id_text (w_workload_id w); int_u64 (w_workload_generation w); text (w_owner w); text (w_class w);
   int_u64 (w_created_ms w); int_u64 (w_execution_epoch w); opt_text (w_active_node w); text (w_backend_class w);
   int_u64 (w_checkpoint_generation w); opt_id (w_parent_workload w); int_u64 (w_fork_generation w);
   int_u32 (w_policy_version w); json (w_metadata w); int_u32 (w_state_schema_version w); json (w_runtime w);
   json (w_resumability_class w); json (w_protection w); int_bool (w_single_active w); opt_text (w_fence_token w);
   int_u64 (w_fence_epoch w)].

Definition fork_columns : list string :=
  ["id"; "generation"; "owner"; "class"; "created_ms"; "execution_epoch"; "active_node"; "backend_class";
   "checkpoint_generation"; "parent_workload"; "fork_generation"; "policy_version"; "metadata";
   "state_schema_version"; "runtime_descriptor"; "resumability"; "protection"; "single_active"; "fence_token";
   "fence_epoch"].
Definition workload_columns : list string := fork_columns ++ ["state"].

Definition insert_workload_row (w : Workload) : FabricResult Row :=
  values ← all_params (workload_values w ++ [text "ACTIVE"]); insert_row workloads_schema workload_columns values.
Definition insert_fork_row (w : Workload) : FabricResult Row :=
  values ← all_params (workload_values w); insert_row workloads_schema fork_columns values.

(** [row_to_workload]. *)
Definition row_to_workload (r : Row) : FabricResult Workload :=
  workload_id ← get_id r 0;
  workload_generation ← get_u64 r 1;
  owner ← get_text r 2;
  class ← get_text r 3;
  created_ms ← get_u64 r 4;
  execution_epoch ← get_u64 r 5;
  active_node ← get_opt_text r 6;
  backend_class ← get_text r 7;
  checkpoint_generation ← get_u64 r 8;
  parent_workload ← get_opt_id r 9;
  fork_generation ← get_u64 r 10;
  policy_version ← get_u32 r 11;
  metadata ← get_json r 12;
  state_schema_version ← get_u32 r 13;
  runtime ← get_json r 14;
  resumability_class ← get_json r 15;
  protection ← get_json r 16;
  single_active ← get_bool r 17;
  fence_token ← get_opt_text r 18;
  fence_epoch ← get_u64 r 19;
  Ok (mkWorkload workload_id workload_generation owner class created_ms execution_epoch active_node backend_class
        checkpoint_generation parent_workload fork_generation policy_version metadata state_schema_version runtime
        resumability_class protection single_active fence_token fence_epoch).

(** ** Components *)

Definition components_schema : list Column :=
  required <$> ["checkpoint_id"; "component_id"; "ctype"; "generation"; "required"; "logical_size"; "storage_repr";
                "content_hash"; "schema_version"; "restore_handler"; "compat"; "deps"; "capture_status"; "restore_status"].

Definition component_values (checkpoint_id : Id) (c : ComponentEntry) : list (FabricResult SqlValue) :=
  [id_text checkpoint_id; text (ce_component_id c); json (ce_component_type c); int_u64 (ce_generation c);
   int_bool (ce_required c); int_u64 (ce_logical_size c); json (ce_storage_representation c); text (ce_content_hash c);
   int_u32 (ce_schema_version c); text (ce_restore_handler c); json (ce_compatibility c); json (ce_dependencies c);
   text (ce_capture_status c); text (ce_restore_status c)].

Definition component_columns : list string :=
  ["checkpoint_id"; "component_id"; "ctype"; "generation"; "required"; "logical_size"; "storage_repr"; "content_hash";
   "schema_version"; "restore_handler"; "compat"; "deps"; "capture_status"; "restore_status"].

Definition insert_component_row (checkpoint_id : Id) (c : ComponentEntry) : FabricResult Row :=
  values ← all_params (component_values checkpoint_id c); insert_row components_schema component_columns values.

(** [row_to_component]. *)
Definition row_to_component (r : Row) : FabricResult ComponentEntry :=
  component_id ← get_text r 1;
  component_type ← get_json r 2;
  generation ← get_u64 r 3;
  required ← get_bool r 4;
  logical_size ← get_u64 r 5;
  storage_representation ← get_json r 6;
  content_hash ← get_text r 7;
  schema_version ← get_u32 r 8;
  restore_handler ← get_text r 9;
  compatibility ← get_json r 10;
  dependencies ← get_json r 11;
  capture_status ← get_text r 12;
  restore_status ← get_text r 13;
  Ok (mkComponentEntry component_id component_type generation required logical_size storage_representation content_hash
        schema_version restore_handler compatibility dependencies capture_status restore_status).

(** ** Checkpoints *)

Definition checkpoints_schema : list Column :=
  [required "id"; required "workload_id"; required "workload_generation"; required "checkpoint_generation";
   nullable "parent_checkpoint"; required "capture_attempt"; required "coordinator_epoch"; required "created_ms";
   required "seal_ms"; required "source_node"; required "source_backend"; required "frontier"; required "ctype";
   required "consistency"; required "resumability"; required "total_logical_bytes"; required "total_physical_bytes";
   required "compressed_bytes"; required "replica_count"; required "policy_version"; required "runtime_descriptor";
   required "hardware_descriptor"; required "deps"; required "integrity_state"; required "lifecycle";
   defaulted "restore_count" (SqlInteger 0); nullable "last_restore_result"; required "protection";
   required "retirement_eligibility"; required "metadata"; nullable "manifest_digest"; nullable "manifest_json";
   nullable "supersedes"; nullable "superseded_by"; required "locations"].

Definition checkpoint_columns : list string :=
  ["id"; "workload_id"; "workload_generation"; "checkpoint_generation"; "parent_checkpoint"; "capture_attempt";
   "coordinator_epoch"; "created_ms"; "seal_ms"; "source_node"; "source_backend"; "frontier"; "ctype"; "consistency";
   "resumability"; "total_logical_bytes"; "total_physical_bytes"; "compressed_bytes"; "replica_count"; "policy_version";
   "runtime_descriptor"; "hardware_descriptor"; "deps"; "integrity_state"; "lifecycle"; "restore_count";
   "last_restore_result"; "protection"; "retirement_eligibility"; "metadata"; "manifest_digest"; "manifest_json";
   "supersedes"; "superseded_by"; "locations"].

Definition checkpoint_values (c : CheckpointObject) : list (FabricResult SqlValue) :=
  [id_text (ck_checkpoint_id c); id_text (ck_workload_id c); int_u64 (ck_workload_generation c);
   int_u64 (ck_checkpoint_generation c); opt_id (ck_parent_checkpoint c); text (ck_capture_attempt c);
   int_u64 (ck_coordinator_epoch c); int_u64 (ck_created_ms c); int_u64 (ck_seal_ms c); text (ck_source_node c);
   text (ck_source_backend c); json (ck_frontier c); json (ck_checkpoint_type c); json (ck_consistency c);
   json (ck_resumability c); int_u64 (ck_total_logical_bytes c); int_u64 (ck_total_physical_bytes c);
   int_u64 (ck_compressed_bytes c); int_u32 (ck_replica_count c); int_u32 (ck_policy_version c);
   json (ck_runtime_descriptor c); json (ck_hardware_descriptor c); json (ck_dependencies c); json (ck_integrity_state c);
   json (ck_lifecycle c); int_u64 (ck_restore_count c); opt_text (ck_last_restore_result c); json (ck_protection c);
   json (ck_retirement_eligibility c); json (ck_metadata c); opt_text (ck_manifest_digest c);
   opt_text (ck_manifest_json c); opt_id (ck_supersedes c); opt_id (ck_superseded_by c); json (ck_durable_locations c)].

Definition insert_checkpoint_row (c : CheckpointObject) : FabricResult Row :=
  values ← all_params (checkpoint_values c); insert_row checkpoints_schema checkpoint_columns values.

(** [row_to_checkpoint], the two state columns with their fallbacks. *)
Definition read_checkpoint_row (r : Row) : FabricResult CheckpointObject :=
  sup ← get_opt_text r 32;
  sup_by ← get_opt_text r 33;
  locations ← get_json r 34;
  sup_id ← match sup with Some s => i ← sql_err (from_hex s); Ok (Some i) | None => Ok None end;
  sup_by_id ← match sup_by with Some s => i ← sql_err (from_hex s); Ok (Some i) | None => Ok None end;
  checkpoint_id ← get_id r 0;
  workload_id ← get_id r 1;
  workload_generation ← get_u64 r 2;
  checkpoint_generation ← get_u64 r 3;
  parent_checkpoint ← get_opt_id r 4;
  capture_attempt ← get_text r 5;
  coordinator_epoch ← get_u64 r 6;
  created_ms ← get_u64 r 7;
  seal_ms ← get_u64 r 8;
  source_node ← get_text r 9;
  source_backend ← get_text r 10;
  frontier ← get_json r 11;
  checkpoint_type ← get_json r 12;
  consistency ← get_json r 13;
  resumability ← get_json r 14;
  total_logical_bytes ← get_u64 r 15;
  total_physical_bytes ← get_u64 r 16;
  compressed_bytes ← get_u64 r 17;
  replica_count ← get_u32 r 18;
  policy_version ← get_u32 r 19;
  runtime_descriptor ← get_json r 20;
  hardware_descriptor ← get_json r 21;
  dependencies ← get_json r 22;
  integrity_state ← get_json_or Unverifiable r 23;
  lifecycle ← get_json_or Failed r 24;
  restore_count ← get_u64 r 25;
  last_restore_result ← get_opt_text r 26;
  protection ← get_json r 27;
  retirement_eligibility ← get_json r 28;
  metadata ← get_json r 29;
  manifest_digest ← get_opt_text r 30;
  manifest_json ← get_opt_text r 31;
  parent ← get_opt_id r 4;
  Ok {| ck_checkpoint_id := checkpoint_id; ck_workload_id := workload_id; ck_workload_generation := workload_generation;
        ck_checkpoint_generation := checkpoint_generation; ck_parent_checkpoint := parent_checkpoint;
        ck_capture_attempt := capture_attempt; ck_coordinator_epoch := coordinator_epoch; ck_created_ms := created_ms;
        ck_seal_ms := seal_ms; ck_source_node := source_node; ck_source_backend := source_backend; ck_frontier := frontier;
        ck_checkpoint_type := checkpoint_type; ck_consistency := consistency; ck_resumability := resumability;
        ck_components := []; ck_total_logical_bytes := total_logical_bytes; ck_total_physical_bytes := total_physical_bytes;
        ck_compressed_bytes := compressed_bytes; ck_durable_locations := locations; ck_replica_count := replica_count;
        ck_lineage_parents := option_list parent ++ option_list sup_id; ck_lineage_children := option_list sup_by_id;
        ck_supersedes := sup_id; ck_superseded_by := sup_by_id; ck_policy_version := policy_version;
        ck_runtime_descriptor := runtime_descriptor; ck_hardware_descriptor := hardware_descriptor;
        ck_dependencies := dependencies; ck_integrity_state := integrity_state; ck_lifecycle := lifecycle;
        ck_restore_count := restore_count; ck_last_restore_result := last_restore_result; ck_protection := protection;
        ck_retirement_eligibility := retirement_eligibility; ck_metadata := metadata;
        ck_manifest_digest := manifest_digest; ck_manifest_json := manifest_json |}.

(** ** Lineage *)

(** [seq] is the key SQLite gives to the row. *)
Definition lineage_schema : list Column :=
  [required "seq"; required "relation"; nullable "workload_id"; nullable "checkpoint_id"; nullable "other_workload";
   nullable "other_checkpoint"; required "ts_ms"; required "detail"].
Definition lineage_columns : list string :=
  ["relation"; "workload_id"; "checkpoint_id"; "other_workload"; "other_checkpoint"; "ts_ms"; "detail"].
Definition insert_lineage_row (seq : Z) (l : LineageRecord) : FabricResult Row :=
  values ← all_params [text (relation_as_str (ln_relation l)); opt_id (ln_workload_id l); opt_id (ln_checkpoint_id l);
                       opt_id (ln_other_workload l); opt_id (ln_other_checkpoint l); int_u64 (ln_ts_ms l); text (ln_detail l)];
  insert_row lineage_schema ("seq" :: lineage_columns) (SqlInteger seq :: values).

(** [row_to_lineage]: an identity that does not parse is read as none. *)
Definition get_some_id (r : Row) (i : nat) : FabricResult (option Id) :=
  o ← get_opt_text r i; Ok (s ← o; match from_hex s with Ok i => Some i | Err _ => None end).
Definition row_to_lineage (r : Row) : FabricResult LineageRecord :=
  seq ← get_int (- 2 ^ 63) i64_max r 0;
  relation ← get_text r 1;
  workload_id ← get_some_id r 2;
  checkpoint_id ← get_some_id r 3;
  other_workload ← get_some_id r 4;
  other_checkpoint ← get_some_id r 5;
  ts_ms ← get_u64 r 6;
  detail ← get_text r 7;
  Ok (mkLineageRecord seq (relation_parse_str relation) workload_id checkpoint_id other_workload other_checkpoint ts_ms detail).

(** ** Attempts *)

Definition attempts_schema : list Column :=
  [required "id"; required "kind"; nullable "checkpoint_id"; nullable "workload_id"; nullable "node"; required "state";
   required "started_ms"; nullable "finished_ms"; nullable "result"; nullable "error"].

(** The [INSERT] of [attempt_begin]. *)
Definition insert_attempt_row (id kind : string) (checkpoint_id workload_id : option Id) (node : string)
    (started_ms : Z) : FabricResult Row :=
  values ← all_params [text id; text kind; opt_id checkpoint_id; opt_id workload_id; text node; text "ACTIVE";
                       int_u64 started_ms];
  insert_row attempts_schema
    ["id"; "kind"; "checkpoint_id"; "workload_id"; "node"; "state"; "started_ms"] values.

(** The [UPDATE] of [attempt_finish]. *)
Definition finish_attempt_row (state : string) (result error : option string) (finished_ms : Z) (r : Row)
    : FabricResult Row :=
  values ← all_params [text state; opt_text result; opt_text error; int_u64 finished_ms];
  update_row attempts_schema ["state"; "result"; "error"; "finished_ms"] values r.

(** The mapper of [attempt_get] and [attempts_in_state]. *)
Definition row_to_attempt (r : Row) : FabricResult AttemptRecord :=
  id ← get_text r 0;
  kind ← get_text r 1;
  checkpoint_id ← get_opt_id r 2;
  workload_id ← get_opt_id r 3;
  node ← get_text r 4;
  state ← get_text r 5;
  started_ms ← get_u64 r 6;
  finished_ms ← get_opt_u64 r 7;
  result ← get_opt_text r 8;
  error ← get_opt_text r 9;
  Ok (mkAttemptRecord id kind checkpoint_id workload_id node state started_ms finished_ms result error).

(** ** Nodes *)

Definition nodes_schema : list Column :=
  [required "id"; nullable "addr"; required "boot_id"; required "status"; required "registered_ms";
   required "last_heartbeat_ms"; required "resources"].

(** The [INSERT] of [node_register]; [?4] is bound once for two columns. *)
Definition insert_node_row (id addr boot_id : string) (now : Z) (resources : JsonText) : FabricResult Row :=
  values ← all_params [text id; text addr; text boot_id; text "ACTIVE"; int_u64 now; int_u64 now; text resources];
  insert_row nodes_schema
    ["id"; "addr"; "boot_id"; "status"; "registered_ms"; "last_heartbeat_ms"; "resources"] values.

(** The mapper of [node_list]. *)
Definition row_to_node (r : Row) : FabricResult NodeRecord :=
  id ← get_text r 0;
  addr ← get_text r 1;
  boot_id ← get_text r 2;
  status ← get_text r 3;
  registered_ms ← get_u64 r 4;
  last_heartbeat_ms ← get_u64 r 5;
  resources ← get_text r 6;
  Ok (mkNodeRecord id addr boot_id status registered_ms last_heartbeat_ms resources).

(** ** Audit and journal *)

Definition audit_schema : list Column :=
  [required "seq"; required "ts_ms"; required "actor"; required "op"; nullable "workload_id"; nullable "checkpoint_id";
   required "result"; required "detail"].

(** The [INSERT] of [audit_append]; [seq] is the key SQLite gives to the row. *)
Definition insert_audit_row (seq : Z) (ts_ms : Z) (actor op : string) (workload_id checkpoint_id : option Id)
    (result : AuditResult) (detail : string) : FabricResult Row :=
  values ← all_params [int_u64 ts_ms; text actor; text op; opt_id workload_id; opt_id checkpoint_id;
                       text (audit_as_str result); text detail];
  insert_row audit_schema ["seq"; "ts_ms"; "actor"; "op"; "workload_id"; "checkpoint_id"; "result"; "detail"]
    (SqlInteger seq :: values).

(** The mapper of [audit_query]. *)
Definition row_to_audit (r : Row) : FabricResult AuditRecord :=
  seq ← get_int (- 2 ^ 63) i64_max r 0;
  ts_ms ← get_u64 r 1;
  actor ← get_text r 2;
  op ← get_text r 3;
  workload_id ← get_some_id r 4;
  checkpoint_id ← get_some_id r 5;
  result ← get_text r 6;
  detail ← get_text r 7;
  Ok (mkAuditRecord seq ts_ms actor op workload_id checkpoint_id (audit_parse_str result) detail).

Definition journal_schema : list Column :=
  required <$> ["seq"; "kind"; "key"; "state"; "detail"; "ts_ms"].

(** The [INSERT] of [journal_append]. *)
Definition insert_journal_row (seq : Z) (kind key state detail : string) (ts_ms : Z) : FabricResult Row :=
  values ← all_params [text kind; text key; text state; text detail; int_u64 ts_ms];
  insert_row journal_schema ["seq"; "kind"; "key"; "state"; "detail"; "ts_ms"] (SqlInteger seq :: values).

(** [SELECT state, detail, ts_ms] and the mapper of [journal_states]. *)
Definition row_to_journal (r : Row) : FabricResult (string * string * Z) :=
  let r := select_columns journal_schema ["state"; "detail"; "ts_ms"] r in
  state ← get_text r 0;
  detail ← get_text r 1;
  ts_ms ← get_int (- 2 ^ 63) i64_max r 2;
  Ok (state, detail, ts_ms mod 2 ^ 64).
End rows.

(** * Specification *)

Definition is_u32 (z : Z) : Prop := 0 <= z <= u32_max.

(** The [u64] columns of a component row. *)
Definition component_params (c : ComponentEntry) : list Z := [ce_generation c; ce_logical_size c].

Section typed.
Context `{!Serde JsonText, !Serde RuntimeCompatibilityDescriptor, !Serde HardwareCompatibilityDescriptor,
  !Serde ResumabilityClass, !Serde ProtectionSpec, !Serde ExecutionFrontier, !Serde CheckpointType,
  !Serde ConsistencyClass, !Serde (list ExternalDependency), !Serde IntegrityState, !Serde LifecycleState,
  !Serde ProtectionState, !Serde RetirementEligibility, !Serde (list DurableLocation), !Serde ComponentType,
  !Serde StorageRepresentation, !Serde (list string)}.

(** The integer fields hold integers of their types, and [serde_json] reads its texts back. *)
Definition typed_workload (w : Workload) : Prop :=
  Forall is_u64 (workload_params w) /\ is_u32 (w_policy_version w) /\ is_u32 (w_state_schema_version w) /\
  reads_back (w_metadata w) /\ reads_back (w_runtime w) /\ reads_back (w_resumability_class w) /\
  reads_back (w_protection w).

Definition typed_component (c : ComponentEntry) : Prop :=
  Forall is_u64 (component_params c) /\ is_u32 (ce_schema_version c) /\
  reads_back (ce_component_type c) /\ reads_back (ce_storage_representation c) /\
  reads_back (ce_compatibility c) /\ reads_back (ce_dependencies c).

Definition typed_checkpoint (c : CheckpointObject) : Prop :=
  Forall is_u64 (checkpoint_params c) /\ is_u32 (ck_replica_count c) /\ is_u32 (ck_policy_version c) /\
  reads_back (ck_frontier c) /\ reads_back (ck_checkpoint_type c) /\ reads_back (ck_consistency c) /\
  reads_back (ck_resumability c) /\ reads_back (ck_runtime_descriptor c) /\ reads_back (ck_hardware_descriptor c) /\
  reads_back (ck_dependencies c) /\ reads_back (ck_integrity_state c) /\ reads_back (ck_lifecycle c) /\
  reads_back (ck_protection c) /\ reads_back (ck_retirement_eligibility c) /\ reads_back (ck_metadata c) /\
  reads_back (ck_durable_locations c).
End typed.

(** * Lemmas *)

Lemma is_ok_bind {A B} (r : FabricResult A) (k : A -> FabricResult B) b :
  (forall a, is_ok (k a) = b) -> is_ok (r ≫= k) = is_ok r && b.
Proof. intros Hk. destruct r as [a | e]; [apply Hk | done]. Qed.

Lemma is_ok_params l : is_ok (all_params l) = forallb is_ok l.
Proof.
  induction l as [| r l IH]; [done |]. cbn [all_params forallb]. rewrite <- IH.
  apply is_ok_bind. intros v. by destruct (all_params l).
Qed.

Lemma is_ok_bind_u64 l : is_ok (bind_u64 l) = forallb (fun v => negb (i64_max <? v)) l.
Proof.
  unfold bind_u64. induction l as [| v l IH]; [done |]. cbn [for_each forallb]. rewrite <- IH.
  destruct (i64_max <? v); [done |]. cbn. by destruct (for_each _ l).
Qed.

Lemma is_ok_u64 z : is_ok (int_u64 z) = negb (i64_max <? z).
Proof. unfold int_u64. by destruct (i64_max <? z). Qed.

Lemma int_u64_ok z : (i64_max <? z) = false -> int_u64 z = Ok (SqlInteger z).
Proof. unfold int_u64. by intros ->. Qed.

Lemma bind_u64_ok l : bind_u64 l = Ok tt -> Forall (fun v => (i64_max <? v) = false) l.
Proof.
  intros Hl. apply Forall_forall. intros v Hv. unfold bind_u64 in Hl. rewrite for_each_Ok in Hl.
  specialize (Hl v Hv). by apply reject_if_Ok in Hl.
Qed.

Lemma get_int_ok lo hi r i z : r !! i = Some (SqlInteger z) -> lo <= z <= hi -> get_int lo hi r i = Ok z.
Proof.
  intros E Hz. unfold get_int, get_column. rewrite E. cbn.
  by rewrite (proj2 (Z.ltb_ge z lo)), (proj2 (Z.ltb_ge hi z)) by lia.
Qed.

Lemma get_u64_ok r i z :
  r !! i = Some (SqlInteger z) -> is_u64 z -> (i64_max <? z) = false -> get_u64 r i = Ok z.
Proof. unfold is_u64. intros E ? ?. apply get_int_ok; [done | lia]. Qed.

Lemma get_u32_ok r i z : r !! i = Some (SqlInteger z) -> is_u32 z -> get_u32 r i = Ok z.
Proof. apply get_int_ok. Qed.

Lemma get_opt_u64_ok r i z :
  r !! i = Some (SqlInteger z) -> is_u64 z -> (i64_max <? z) = false -> get_opt_u64 r i = Ok (Some z).
Proof.
  intros E Hu Hz. unfold get_opt_u64. rewrite (get_u64_ok _ _ _ E) by done. unfold get_column. by rewrite E.
Qed.

Lemma get_opt_u64_null r i : r !! i = Some SqlNull -> get_opt_u64 r i = Ok None.
Proof. unfold get_opt_u64, get_column. by intros ->. Qed.

Lemma get_text_ok r i s : r !! i = Some (SqlText s) -> get_text r i = Ok s.
Proof. unfold get_text, get_column. by intros ->. Qed.

Lemma get_opt_text_ok r i (o : option string) :
  r !! i = Some (match o with Some s => SqlText s | None => SqlNull end) -> get_opt_text r i = Ok o.
Proof. unfold get_opt_text, get_column. intros ->. by destruct o. Qed.

Lemma get_bool_ok r i (b : bool) : r !! i = Some (SqlInteger (if b then 1 else 0)) -> get_bool r i = Ok b.
Proof. intros E. unfold get_bool. erewrite get_int_ok by (done || by destruct b). by destruct b. Qed.

Lemma get_json_ok {A} `{Serde A} r i (a : A) :
  reads_back a -> r !! i = Some (SqlText (to_json a)) -> get_json r i = Ok a.
Proof. intros L E. unfold get_json. rewrite (get_text_ok _ _ _ E). cbn. by rewrite L. Qed.

Lemma get_json_or_ok {A} `{Serde A} r i (a d : A) :
  reads_back a -> r !! i = Some (SqlText (to_json a)) -> get_json_or d r i = Ok a.
Proof. intros L E. unfold get_json_or. rewrite (get_text_ok _ _ _ E). cbn. by rewrite L. Qed.

Section ids.
Context `{Hex : HexCodec} (HexOk : HexLaws Hex).

Lemma from_hex_to_hex i : from_hex (to_hex i) = Ok i.
Proof. apply (id_hex_roundtrip i "" i). Qed.

Lemma get_id_ok r n (i : Id) : r !! n = Some (SqlText (to_hex i)) -> get_id r n = Ok i.
Proof. intros E. unfold get_id. rewrite (get_text_ok _ _ _ E). cbn. by rewrite from_hex_to_hex. Qed.

Lemma get_opt_id_ok r n (o : option Id) :
  r !! n = Some (match to_hex <$> o with Some s => SqlText s | None => SqlNull end) -> get_opt_id r n = Ok o.
Proof.
  intros E. unfold get_opt_id. rewrite (get_opt_text_ok _ _ _ E). cbn.
  destruct o; cbn; [by rewrite from_hex_to_hex | done].
Qed.

Lemma opt_from_hex (o : option Id) :
  match to_hex <$> o with Some s => i ← sql_err (from_hex s); Ok (Some i) | None => Ok None end = Ok o.
Proof. destruct o; cbn; [by rewrite from_hex_to_hex | done]. Qed.

Lemma get_some_id_ok r n (o : option Id) :
  r !! n = Some (match to_hex <$> o with Some s => SqlText s | None => SqlNull end) -> get_some_id r n = Ok o.
Proof.
  intros E. unfold get_some_id. rewrite (get_opt_text_ok _ _ _ E). cbn.
  destruct o; cbn; [by rewrite from_hex_to_hex | done].
Qed.
End ids.

(** Reads the columns of a row whose values are known, in the order of the mapper. *)
Ltac read_columns :=
  repeat (first
    [ erewrite get_id_ok by (eassumption || reflexivity)
    | erewrite get_opt_id_ok by (eassumption || reflexivity)
    | erewrite get_some_id_ok by (eassumption || reflexivity)
    | erewrite get_json_ok by (eassumption || reflexivity)
    | erewrite get_json_or_ok by (eassumption || reflexivity)
    | erewrite get_text_ok by reflexivity
    | erewrite get_opt_text_ok by reflexivity
    | erewrite get_bool_ok by reflexivity
    | erewrite get_opt_u64_null by reflexivity
    | erewrite get_opt_u64_ok by (eassumption || reflexivity)
    | erewrite get_u64_ok by (eassumption || reflexivity)
    | erewrite get_u32_ok by (eassumption || reflexivity) ]; cbn [mbind FabricResult_bind]).

(** The row an insertion binds, when every integer fits its column. *)
Ltac row_roundtrip Hu Hb :=
  apply bind_u64_ok in Hb; unfold workload_params, checkpoint_params, component_params in *;
  rewrite ?Forall_cons in Hu, Hb; destruct_and!; cbn [all_params app];
  rewrite !int_u64_ok by assumption; cbn -[i64_max]; eexists; split_and!; [reflexivity | ..].

Section rows_facts.
Context `{Hex : HexCodec} (HexOk : HexLaws Hex).
Context `{!Serde JsonText, !Serde RuntimeCompatibilityDescriptor, !Serde HardwareCompatibilityDescriptor,
  !Serde ResumabilityClass, !Serde ProtectionSpec, !Serde ExecutionFrontier, !Serde CheckpointType,
  !Serde ConsistencyClass, !Serde (list ExternalDependency), !Serde IntegrityState, !Serde LifecycleState,
  !Serde ProtectionState, !Serde RetirementEligibility, !Serde (list DurableLocation), !Serde ComponentType,
  !Serde StorageRepresentation, !Serde (list string)}.

Lemma workload_row_ok w :
  typed_workload w -> bind_u64 (workload_params w) = Ok tt ->
  exists r, insert_workload_row w = Ok r /\ insert_fork_row w = Ok r /\ row_to_workload r = Ok w.
Proof.
  unfold insert_workload_row, insert_fork_row, workload_values, row_to_workload. intros [Hu Ht] Hb.
  row_roundtrip Hu Hb; [reflexivity |]. read_columns. by destruct w.
Qed.

Lemma component_row_ok id c :
  typed_component c -> bind_u64 (component_params c) = Ok tt ->
  exists r, insert_component_row id c = Ok r /\ row_to_component r = Ok c.
Proof.
  unfold insert_component_row, component_values, row_to_component. intros [Hu Ht] Hb.
  row_roundtrip Hu Hb. read_columns. by destruct c.
Qed.

Lemma checkpoint_row_ok c :
  typed_checkpoint c -> bind_u64 (checkpoint_params c) = Ok tt ->
  exists r, insert_checkpoint_row c = Ok r /\ read_checkpoint_row r = Ok (row_to_checkpoint (checkpoint_row c)).
Proof.
  unfold insert_checkpoint_row, checkpoint_values, read_checkpoint_row. intros [Hu Ht] Hb.
  row_roundtrip Hu Hb. erewrite (get_opt_text_ok _ 32), (get_opt_text_ok _ 33) by reflexivity.
  cbn [mbind FabricResult_bind]. rewrite !opt_from_hex by done. cbn [mbind FabricResult_bind].
  read_columns. by destruct c.
Qed.

Lemma lineage_row_ok seq l :
  ln_seq l = seq -> - 2 ^ 63 <= seq <= i64_max -> is_u64 (ln_ts_ms l) -> (i64_max <? ln_ts_ms l) = false ->
  exists r, insert_lineage_row seq l = Ok r /\ row_to_lineage r = Ok l.
Proof.
  unfold insert_lineage_row, row_to_lineage. intros Hseq Hr Hu Hb.
  cbn [all_params app]. rewrite int_u64_ok by done. cbn -[i64_max Z.opp Z.pow]. eexists. split; [reflexivity |].
  erewrite (get_int_ok _ _ _ 0) by (reflexivity || done). cbn [mbind FabricResult_bind].
  read_columns. rewrite relation_roundtrip. by destruct l; cbn in *; subst.
Qed.

Lemma audit_result_roundtrip (r : AuditResult) : audit_parse_str (audit_as_str r) = r.
Proof. by destruct r. Qed.

(** An attempt is read back as [attempt_begin] and [attempt_finish] leave it. *)
Lemma attempt_row_ok id kind cid wid node started state result error finished :
  is_u64 started -> (i64_max <? started) = false -> is_u64 finished -> (i64_max <? finished) = false ->
  exists r r', insert_attempt_row id kind cid wid node started = Ok r /\
    row_to_attempt r = Ok (mkAttemptRecord id kind cid wid node "ACTIVE" started None None None) /\
    finish_attempt_row state result error finished r = Ok r' /\
    row_to_attempt r' = Ok (mkAttemptRecord id kind cid wid node state started (Some finished) result error).
Proof.
  intros Hs Hsb Hf Hfb. unfold insert_attempt_row, finish_attempt_row, row_to_attempt.
  cbn [all_params]. rewrite !int_u64_ok by assumption. cbn -[i64_max]. do 2 eexists.
  split; [reflexivity |]. split; [| split; [cbn -[i64_max]; reflexivity |]]; by read_columns.
Qed.

Lemma node_row_ok id addr boot now resources :
  is_u64 now -> (i64_max <? now) = false ->
  exists r, insert_node_row id addr boot now resources = Ok r /\
    row_to_node r = Ok (mkNodeRecord id addr boot "ACTIVE" now now resources).
Proof.
  intros Hs Hsb. unfold insert_node_row, row_to_node. cbn [all_params]. rewrite !int_u64_ok by assumption.
  cbn -[i64_max]. eexists. split; [reflexivity |]. by read_columns.
Qed.

Lemma audit_row_ok a :
  - 2 ^ 63 <= au_seq a <= i64_max -> is_u64 (au_ts_ms a) -> (i64_max <? au_ts_ms a) = false ->
  exists r, insert_audit_row (au_seq a) (au_ts_ms a) (au_actor_name a) (au_op a) (au_workload_id a) (au_checkpoint_id a)
              (au_result a) (au_detail a) = Ok r /\ row_to_audit r = Ok a.
Proof.
  intros Hq Hs Hsb. unfold insert_audit_row, row_to_audit. cbn [all_params]. rewrite !int_u64_ok by assumption.
  cbn -[i64_max Z.opp Z.pow]. eexists. split; [reflexivity |].
  erewrite (get_int_ok _ _ _ 0) by (reflexivity || done). cbn [mbind FabricResult_bind].
  read_columns. rewrite audit_result_roundtrip. by destruct a.
Qed.

Lemma journal_row_ok seq j :
  is_u64 (jr_ts_ms j) -> (i64_max <? jr_ts_ms j) = false ->
  exists r, insert_journal_row seq (jr_kind j) (jr_key j) (jr_state j) (jr_detail j) (jr_ts_ms j) = Ok r /\
    row_to_journal r = Ok (jr_state j, jr_detail j, jr_ts_ms j).
Proof.
  intros Hs Hsb. unfold insert_journal_row, row_to_journal. cbn [all_params]. rewrite !int_u64_ok by assumption.
  cbn -[i64_max Z.opp Z.pow Z.modulo]. eexists. split; [reflexivity |]. cbn -[i64_max Z.opp Z.pow Z.modulo get_text get_int].
  unfold is_u64, u64_max, i64_max in *.
  erewrite (get_int_ok _ _ _ 2) by (reflexivity || lia). read_columns. by rewrite Z.mod_small by lia.
Qed.

Lemma refused_params l (k : list SqlValue -> FabricResult Row) :
  is_ok (all_params l) = false -> is_ok (values ← all_params l; k values) = false.
Proof. by destruct (all_params l). Qed.

(** The parameters a statement refuses are the integers it binds. *)
Ltac refused :=
  let E := fresh in
  intros E; apply refused_params; rewrite is_ok_params; rewrite is_ok_bind_u64 in E; rewrite <- E;
  cbn -[i64_max]; by rewrite !is_ok_u64.

(** An insertion binds its row exactly when every [u64] fits the driver's integer. *)
Lemma bound_row (l : list Z) (r : FabricResult Row) (back : Row -> Prop) :
  (bind_u64 l = Ok tt -> exists row, r = Ok row /\ back row) ->
  (is_ok (bind_u64 l) = false -> is_ok r = false) ->
  is_ok r = is_ok (bind_u64 l) /\ (forall row, r = Ok row -> back row).
Proof.
  intros Hok Herr. destruct (bind_u64 l) as [[] | e]; cbn in *.
  - destruct (Hok eq_refl) as (row & -> & Hb). split; [done | by intros ? [= <-]].
  - specialize (Herr eq_refl). split; [done |]. intros row E. by rewrite E in Herr.
Qed.

(** C34 (refinement). The rows of the tables are the columns of the database.  Storing a workload, a
    component or a checkpoint fails in the driver exactly when one of the integers the
    statement binds is above [i64::MAX], which is the guard of the statements of the
    store; the row it stores otherwise is read back by the mapper of its table, column
    number by column number, as the value that was stored (a checkpoint without its
    components, its lineage lists recomputed), and the two statements that insert a
    workload store the same row although one of them leaves the state column to its
    default.  A lineage row is read back as it was inserted. *)
Theorem rows_are_columns (w : Workload) (c : CheckpointObject) (e : ComponentEntry) (id : Id) (l : LineageRecord) :
  typed_workload w -> typed_checkpoint c -> typed_component e ->
  - 2 ^ 63 <= ln_seq l <= i64_max -> 0 <= ln_ts_ms l <= i64_max ->
  (is_ok (insert_workload_row w) = is_ok (bind_u64 (workload_params w)) /\
   forall r, insert_workload_row w = Ok r -> insert_fork_row w = Ok r /\ row_to_workload r = Ok w) /\
  (is_ok (insert_checkpoint_row c) = is_ok (bind_u64 (checkpoint_params c)) /\
   forall r, insert_checkpoint_row c = Ok r -> read_checkpoint_row r = Ok (row_to_checkpoint (checkpoint_row c))) /\
  (is_ok (insert_component_row id e) = is_ok (bind_u64 (component_params e)) /\
   forall r, insert_component_row id e = Ok r -> row_to_component r = Ok e) /\
  (exists r, insert_lineage_row (ln_seq l) l = Ok r /\ row_to_lineage r = Ok l).
Proof.
  intros Hw Hc He Hs Ht. refine (conj _ (conj _ (conj _ _))).
  1-3: apply bound_row.
  - by apply workload_row_ok.
  - refused.
  - by apply checkpoint_row_ok.
  - refused.
  - by apply component_row_ok.
  - refused.
  - unfold i64_max in *. apply lineage_row_ok; unfold is_u64, u64_max, i64_max; (done || lia).
Qed.
End rows_facts.

(** ** Concrete rows *)

(** JSON text is its own column. *)
#[local] Instance serde_text : Serde JsonText := {| to_json := id; from_json := Some |}.
(** A codec of a type of which a store holds one value. *)
#[local] Instance serde_one {A} (a : A) : Serde A :=
  {| to_json := fun _ => "one"; from_json := fun s => if String.eqb s "one" then Some a else None |}.

(** A workload whose fence epoch is 2^63 is refused, a checkpoint and a component are
    stored and read back. *)
Example rows_are_columns_witness :
  let w := (idle_workload (id_splat x09)) <| w_fence_epoch := 2 ^ 63 |> <| w_resumability_class := Exact |> in
  let c := needs_application in
  let e := ordinary_component "model" "generic" true in
  let l := mkLineageRecord 1 ForkedFrom (Some (id_splat x09)) None None (Some (id_splat x01)) 7 "fork" in
  let rt := serde_one (w_runtime w) in let hw := serde_one (ck_hardware_descriptor c) in
  let rc := serde_one (ck_resumability c) in let ps := serde_one (w_protection w) in
  let ef := serde_one (ck_frontier c) in let ct := serde_one (ck_checkpoint_type c) in
  let cc := serde_one (ck_consistency c) in let ed := serde_one (ck_dependencies c) in
  let si := serde_one (ck_integrity_state c) in let ls := serde_one (ck_lifecycle c) in
  let pr := serde_one (ck_protection c) in let re := serde_one (ck_retirement_eligibility c) in
  let dl := serde_one (ck_durable_locations c) in let ot := serde_one (ce_component_type e) in
  let sr := serde_one (ce_storage_representation e) in let dp := serde_one (ce_dependencies e) in
  is_ok (insert_workload_row w) = false /\ is_ok (insert_checkpoint_row c) = true /\
  (exists r, insert_lineage_row 1 l = Ok r /\ row_to_lineage r = Ok l).
Proof.
  intros w c e l rt hw rc ps ef ct cc ed si ls pr re dl ot sr dp.
  destruct (rows_are_columns hex_codec_laws w c e (id_splat x01) l)
    as ((Ew & _) & (Ec & _) & _ & Hl).
  1-3: split_and!; repeat constructor; vm_compute; congruence.
  1-2: vm_compute; split; congruence.
  split_and!; [exact Ew | exact Ec | exact Hl].
Defined.
