(* ===== verification/Commit.v ===== *)
(** The two atomic commits of the store, [capture_commit] and [restore_commit]. *)
From S2P Require Import Prelude Errors Ident Lifecycle Checkpoint Workload Compression Policy Compat.
From S2P Require Import Capture Lineage Tables Persist Schema StoreFacts Fencing.
From Stdlib Require Strings.Byte.

(** * Neighbours among the checkpoints in use *)

Lemma last_by_None {A} (key : A -> Z) (l : list A) : last_by key l = None <-> l = [].
Proof.
  unfold last_by, order_by. rewrite last_None. split; [| by intros ->].
  intros H. apply Permutation_nil. by rewrite <- H, merge_sort_Permutation.
Qed.

Lemma last_by_Some {A} (key : A -> Z) (l : list A) (x : A) :
  last_by key l = Some x -> x ∈ l /\ forall y, y ∈ l -> key y <= key x.
Proof.
  unfold last_by, order_by. intros H. pose proof (merge_sort_Permutation (key_le key) l) as Hp.
  pose proof (StronglySorted_merge_sort (key_le key) l) as Hs.
  apply last_Some in H as (l' & H). rewrite H in *. split.
  - rewrite <- Hp. apply elem_of_app. right. by apply list_elem_of_singleton.
  - intros y Hy. rewrite <- Hp in Hy. apply elem_of_app in Hy as [Hy | ->%list_elem_of_singleton]; [| lia].
    apply (StronglySorted_app_1_elem_of (key_le key) l' [x] y x Hs Hy). by apply list_elem_of_singleton.
Qed.

Lemma first_by_None {A} (key : A -> Z) (l : list A) : first_by key l = None <-> l = [].
Proof.
  unfold first_by, order_by. rewrite head_None. split; [| by intros ->].
  intros H. apply Permutation_nil. by rewrite <- H, merge_sort_Permutation.
Qed.

Lemma first_by_Some {A} (key : A -> Z) (l : list A) (x : A) :
  first_by key l = Some x -> x ∈ l /\ forall y, y ∈ l -> key x <= key y.
Proof.
  unfold first_by, order_by. intros H. pose proof (merge_sort_Permutation (key_le key) l) as Hp.
  pose proof (StronglySorted_merge_sort (key_le key) l) as Hs.
  destruct (merge_sort (key_le key) l) as [| z l'] eqn:E; [done |]. injection H as ->. split.
  - rewrite <- Hp. left.
  - intros y Hy. rewrite <- Hp in Hy. apply elem_of_cons in Hy as [-> | Hy]; [lia |].
    apply StronglySorted_inv in Hs as [_ Hs]. rewrite Forall_forall in Hs. by apply Hs.
Qed.

(** [p] is the checkpoint in use of the workload with the greatest generation below
    [g]; [n] the one with the least above it. *)
Definition is_previous (s : Store) (wid : Id) (g : Z) (p : Id) : Prop :=
  exists c, st_checkpoints s !! p = Some c /\ in_use_row wid c = true /\
    ck_checkpoint_generation c < g /\
    forall j d, st_checkpoints s !! j = Some d -> in_use_row wid d = true ->
      ck_checkpoint_generation d < g -> ck_checkpoint_generation d <= ck_checkpoint_generation c.

Definition is_next (s : Store) (wid : Id) (g : Z) (n : Id) : Prop :=
  exists c, st_checkpoints s !! n = Some c /\ in_use_row wid c = true /\
    g < ck_checkpoint_generation c /\
    forall j d, st_checkpoints s !! j = Some d -> in_use_row wid d = true ->
      g < ck_checkpoint_generation d -> ck_checkpoint_generation c <= ck_checkpoint_generation d.

Lemma elem_of_filter_rows (p : CheckpointObject -> bool) (m : gmap Id CheckpointObject) c :
  c ∈ List.filter p (rows m) <-> (exists k, m !! k = Some c) /\ p c = true.
Proof. by rewrite list_elem_of_In, List.filter_In, <- list_elem_of_In, elem_of_rows. Qed.

Lemma in_use_row_workload wid c : in_use_row wid c = true -> ck_workload_id c = wid.
Proof. unfold in_use_row. intros H. by bool_facts. Qed.

Section neighbours.
Context (s : Store) (wid : Id) (g : Z) (Hs : schema_ok s).

Lemma previous_unique p q : is_previous s wid g p -> is_previous s wid g q -> p = q.
Proof.
  intros (c & Hc & Uc & Lc & Mc) (d & Hd & Ud & Ld & Md).
  apply (so_generations s Hs p q c d Hc Hd).
  - by rewrite (in_use_row_workload wid c Uc), (in_use_row_workload wid d Ud).
  - specialize (Mc q d Hd Ud Ld). specialize (Md p c Hc Uc Lc). lia.
Qed.

Lemma next_unique p q : is_next s wid g p -> is_next s wid g q -> p = q.
Proof.
  intros (c & Hc & Uc & Lc & Mc) (d & Hd & Ud & Ld & Md).
  apply (so_generations s Hs p q c d Hc Hd).
  - by rewrite (in_use_row_workload wid c Uc), (in_use_row_workload wid d Ud).
  - specialize (Mc q d Hd Ud Ld). specialize (Md p c Hc Uc Lc). lia.
Qed.

Lemma previous_in_use_sound :
  match previous_in_use wid g s with
  | Some p => is_previous s wid g p
  | None => forall p, ~ is_previous s wid g p
  end.
Proof.
  unfold previous_in_use. destruct (last_by _ _) as [c |] eqn:E; cbn.
  - apply last_by_Some in E as [Hin Hmax]. apply elem_of_filter_rows in Hin as [(k & Hk) Hp].
    apply andb_true_iff in Hp as [Hu Hl]. apply Z.ltb_lt in Hl.
    rewrite (so_checkpoints s Hs k c Hk). exists c. split_and!; [done | done | done |].
    intros j d Hd Ud Ld. apply Hmax, elem_of_filter_rows. split; [by exists j |].
    by rewrite Ud, (proj2 (Z.ltb_lt _ _) Ld).
  - intros p (c & Hc & Uc & Lc & _). apply last_by_None in E.
    apply (not_elem_of_nil c). rewrite <- E. apply elem_of_filter_rows. split; [by exists p |].
    by rewrite Uc, (proj2 (Z.ltb_lt _ _) Lc).
Qed.

Lemma next_in_use_sound :
  match next_in_use wid g s with
  | Some p => is_next s wid g p
  | None => forall p, ~ is_next s wid g p
  end.
Proof.
  unfold next_in_use. destruct (first_by _ _) as [c |] eqn:E; cbn.
  - apply first_by_Some in E as [Hin Hmin]. apply elem_of_filter_rows in Hin as [(k & Hk) Hp].
    apply andb_true_iff in Hp as [Hu Hl]. apply Z.ltb_lt in Hl.
    rewrite (so_checkpoints s Hs k c Hk). exists c. split_and!; [done | done | done |].
    intros j d Hd Ud Ld. apply Hmin, elem_of_filter_rows. split; [by exists j |].
    by rewrite Ud, (proj2 (Z.ltb_lt _ _) Ld).
  - intros p (c & Hc & Uc & Lc & _). apply first_by_None in E.
    apply (not_elem_of_nil c). rewrite <- E. apply elem_of_filter_rows. split; [by exists p |].
    by rewrite Uc, (proj2 (Z.ltb_lt _ _) Lc).
Qed.

Lemma previous_in_use_iff p : previous_in_use wid g s = Some p <-> is_previous s wid g p.
Proof.
  pose proof previous_in_use_sound as H. destruct (previous_in_use wid g s) as [q |].
  - split; [by intros [= <-] |]. intros Hp. f_equal. by apply previous_unique.
  - split; [done |]. intros Hp. by destruct (H p).
Qed.

Lemma next_in_use_iff p : next_in_use wid g s = Some p <-> is_next s wid g p.
Proof.
  pose proof next_in_use_sound as H. destruct (next_in_use wid g s) as [q |].
  - split; [by intros [= <-] |]. intros Hp. f_equal. by apply next_unique.
  - split; [done |]. intros Hp. by destruct (H p).
Qed.
End neighbours.

(** What the two queries look at of a row. *)
Definition row_view (c : CheckpointObject) : Id * Z * bool :=
  (ck_workload_id c, ck_checkpoint_generation c, lifecycle_is_restorable (ck_lifecycle c)).

(** The stores agree on every row but the one of generation [g]. *)
Definition same_views (id : Id) (g : Z) (s s' : Store) : Prop :=
  (forall j, j <> id -> row_view <$> st_checkpoints s !! j = row_view <$> st_checkpoints s' !! j) /\
  (forall c, st_checkpoints s !! id = Some c -> ck_checkpoint_generation c = g) /\
  (forall c, st_checkpoints s' !! id = Some c -> ck_checkpoint_generation c = g).

Lemma same_views_sym id g s s' : same_views id g s s' -> same_views id g s' s.
Proof. intros (H & H1 & H2). split_and!; [| done | done]. intros j Hj. by rewrite H. Qed.

Lemma same_views_row id g s s' j d :
  same_views id g s s' -> st_checkpoints s' !! j = Some d -> ck_checkpoint_generation d <> g ->
  exists c, st_checkpoints s !! j = Some c /\ row_view c = row_view d.
Proof.
  intros (H & _ & H2) Hd Hg. destruct (decide (j = id)) as [-> | Hne]; [by destruct (Hg (H2 d Hd)) |].
  specialize (H j Hne). rewrite Hd in H. apply fmap_Some in H as (c & Hc & Hv). by exists c.
Qed.

Lemma row_view_in_use wid c d : row_view c = row_view d -> in_use_row wid c = in_use_row wid d.
Proof. unfold row_view, in_use_row. by intros [= -> _ ->]. Qed.

Lemma same_views_previous id g wid s s' p :
  same_views id g s s' -> is_previous s wid g p -> is_previous s' wid g p.
Proof.
  intros Hv (c & Hc & Uc & Lc & Mc).
  destruct (same_views_row id g s' s p c (same_views_sym _ _ _ _ Hv) Hc) as (c' & Hc' & Vc); [lia |].
  pose proof (f_equal (fun v => snd (fst v)) Vc) as Gc. cbn in Gc.
  exists c'. split_and!; [done | by rewrite (row_view_in_use wid c' c Vc) | lia |].
  intros j d Hd Ud Ld. destruct (same_views_row id g s s' j d Hv Hd) as (d' & Hd' & Vd); [lia |].
  pose proof (f_equal (fun v => snd (fst v)) Vd) as Gd. cbn in Gd. rewrite Gc, <- Gd.
  apply (Mc j d' Hd'); [by rewrite (row_view_in_use wid d' d Vd) | lia].
Qed.

Lemma same_views_next id g wid s s' p :
  same_views id g s s' -> is_next s wid g p -> is_next s' wid g p.
Proof.
  intros Hv (c & Hc & Uc & Lc & Mc).
  destruct (same_views_row id g s' s p c (same_views_sym _ _ _ _ Hv) Hc) as (c' & Hc' & Vc); [lia |].
  pose proof (f_equal (fun v => snd (fst v)) Vc) as Gc. cbn in Gc.
  exists c'. split_and!; [done | by rewrite (row_view_in_use wid c' c Vc) | lia |].
  intros j d Hd Ud Ld. destruct (same_views_row id g s s' j d Hv Hd) as (d' & Hd' & Vd); [lia |].
  pose proof (f_equal (fun v => snd (fst v)) Vd) as Gd. cbn in Gd. rewrite Gc, <- Gd.
  apply (Mc j d' Hd'); [by rewrite (row_view_in_use wid d' d Vd) | lia].
Qed.

Lemma same_views_queries id g wid s s' :
  schema_ok s -> schema_ok s' -> same_views id g s s' ->
  previous_in_use wid g s' = previous_in_use wid g s /\ next_in_use wid g s' = next_in_use wid g s.
Proof.
  intros Hs Hs' Hv.
  assert (Hopt : forall (a b : option Id), (forall p, a = Some p <-> b = Some p) -> a = b).
  { intros [x |] [y |] H; [by apply H | by destruct (proj1 (H x) eq_refl) | by apply H | done]. }
  split; apply Hopt; intros p.
  - rewrite !previous_in_use_iff by done.
    split; apply (same_views_previous id); [by apply same_views_sym | done].
  - rewrite !next_in_use_iff by done.
    split; apply (same_views_next id); [by apply same_views_sym | done].
Qed.

(** * The commit of a capture *)

(** What [capture_commit] demands of the row and of its workload. *)
Record capture_admissible (s : Store) (id : Id) (row : CheckpointObject) (w : Workload) : Prop := {
  ca_row : st_checkpoints s !! id = Some row;
  ca_lifecycle : ck_lifecycle row = Persisting \/ ck_lifecycle row = Available;
  ca_locations : ck_durable_locations row <> [];
  ca_anchor : exists d, ck_manifest_digest row = Some d /\ d <> "";
  ca_workload : st_workloads s !! ck_workload_id row = Some w;
  ca_generation : ck_lifecycle row = Persisting ->
    w_workload_generation w = ck_workload_generation row
}.

Definition capture_writes (now : Clock) (id : Id) (attempt_id : string) (row : CheckpointObject)
    (w : Workload) (s : Store) : Store :=
  let wid := ck_workload_id row in
  let prev := previous_in_use wid (ck_checkpoint_generation row) s in
  journal_insert "capture" attempt_id "db_committed" "metadata committed atomically" (now 1%nat)
    (advance_checkpoint_generation wid (w_checkpoint_generation w) row
      (record_supersedes now wid id prev
        (link_checkpoint id prev (next_in_use wid (ck_checkpoint_generation row) s) s))).

Lemma capture_commit_Ok now id a (s s' : Store) u :
  capture_commit now id a s = Ok (u, s') <->
  exists row w, capture_admissible s id row w /\ s' = capture_writes now id a row w s.
Proof.
  destruct u. split.
  - intros H. unfold capture_commit in H. invert_ok H.
    apply ok_or_Ok in Hstep, Hstep2. apply reject_if_Ok in Hstep0, Hstep1, Hstep3.
    unfold commit in H. injection H as <-. exists r, r2. split; [| done].
    apply orb_false_iff in Hstep1 as [Hl Hd]. bool_facts. split; try done.
    + destruct (decide (ck_lifecycle r = Persisting)) as [E | E]; [by left |]. right.
      rewrite bool_decide_eq_false_2 in Hstep0 by done. cbn in Hstep0. by bool_facts.
    + by destruct (ck_durable_locations r).
    + unfold unwrap_or_default in Hd. destruct (ck_manifest_digest r) as [d |]; [by exists d | done].
    + intros E. rewrite bool_decide_eq_true_2 in Hstep3 by done. cbn in Hstep3. by bool_facts.
  - intros (row & w & [Hr Hl Hloc (d & Hd & Hne) Hw Hg] & ->). unfold capture_commit.
    rewrite Hr. cbn [mbind FabricResult_bind ok_or]. rewrite Hw, Hd.
    destruct (ck_durable_locations row) as [| l ls]; [done |].
    destruct Hl as [El | El]; rewrite El in *; cbn -[capture_writes];
      rewrite (bool_decide_eq_false_2 (d = "")) by done; [by rewrite (Hg eq_refl), Z.eqb_refl | done].
Qed.

Lemma link_checkpoint_lookup id prev next (s : Store) j :
  st_checkpoints (link_checkpoint id prev next s) !! j =
  (fun r =>
     let r := if bool_decide (j = id) then
                r <| ck_lifecycle := Available |> <| ck_integrity_state := Valid |>
                  <| ck_supersedes := prev |> <| ck_superseded_by := next |> else r in
     let r := if bool_decide (prev = Some j) then r <| ck_superseded_by := Some id |> else r in
     if bool_decide (next = Some j) then r <| ck_supersedes := Some id |> else r)
  <$> st_checkpoints s !! j.
Proof.
  assert (Hone : forall i f (t : Store), st_checkpoints (update_checkpoint i f t) !! j =
    (fun r => if bool_decide (j = i) then f r else r) <$> st_checkpoints t !! j).
  { intros i f t. cbn. destruct (decide (j = i)) as [-> | Hne].
    - by rewrite lookup_alter_eq, bool_decide_eq_true_2.
    - rewrite lookup_alter_ne, bool_decide_eq_false_2 by done. by destruct (_ !! j). }
  assert (Hopt : forall o f (t : Store), st_checkpoints (update_checkpoint_opt o f t) !! j =
    (fun r => if bool_decide (o = Some j) then f r else r) <$> st_checkpoints t !! j).
  { intros [i |] f t; cbn [update_checkpoint_opt].
    - rewrite Hone. rewrite (bool_decide_ext (j = i) (Some i = Some j)); [done | naive_solver].
    - by destruct (st_checkpoints t !! j). }
  unfold link_checkpoint. rewrite !Hopt, Hone, <- !option_fmap_compose. done.
Qed.

Lemma capture_writes_checkpoints now id a row w (s : Store) :
  st_checkpoints (capture_writes now id a row w s) =
  st_checkpoints (link_checkpoint id
    (previous_in_use (ck_workload_id row) (ck_checkpoint_generation row) s)
    (next_in_use (ck_workload_id row) (ck_checkpoint_generation row) s) s).
Proof.
  unfold capture_writes, journal_insert, advance_checkpoint_generation, record_supersedes.
  by repeat split_match.
Qed.

Lemma journal_insert_contains kind key state detail ts (s : Store) :
  journal_contains kind key state (journal_insert kind key state detail ts s) = true.
Proof.
  unfold journal_contains, journal_insert. destruct (existsb _ (st_journal s)) eqn:E; [done |].
  cbn. rewrite existsb_app. cbn. unfold journal_matches. cbn.
  by rewrite !bool_decide_eq_true_2, orb_true_r.
Qed.

(** The journal is only added to. *)
Lemma journal_insert_mono k y t kind key state detail ts (s : Store) :
  journal_contains k y t s = true -> journal_contains k y t (journal_insert kind key state detail ts s) = true.
Proof.
  unfold journal_contains, journal_insert. intros H.
  destruct (existsb (journal_matches kind key state) (st_journal s)); [exact H |].
  cbn. by rewrite existsb_app, H.
Qed.

Lemma capture_writes_workloads now id a row w (s : Store) :
  st_workloads (capture_writes now id a row w s) = st_workloads
    (advance_checkpoint_generation (ck_workload_id row) (w_checkpoint_generation w) row s).
Proof.
  unfold capture_writes, journal_insert, advance_checkpoint_generation, record_supersedes, link_checkpoint,
    update_checkpoint_opt. by repeat split_match.
Qed.

Lemma capture_writes_workload now id a row w (s : Store) :
  st_workloads s !! ck_workload_id row = Some w ->
  exists w', st_workloads (capture_writes now id a row w s)
      = <[ck_workload_id row := w']> (st_workloads s) /\
    w_checkpoint_generation w' = Z.max (w_checkpoint_generation w) (ck_checkpoint_generation row) /\
    w_execution_epoch w' = w_execution_epoch w /\
    w_workload_generation w' = w_workload_generation w /\
    w_single_active w' = w_single_active w /\ w_active_node w' = w_active_node w /\
    w_fence_token w' = w_fence_token w /\ w_fence_epoch w' = w_fence_epoch w.
Proof.
  intros Hw. rewrite capture_writes_workloads. unfold advance_checkpoint_generation.
  destruct (Z.leb_spec (w_checkpoint_generation w) (ck_checkpoint_generation row)).
  - eexists. split; [cbn; by apply alter_insert_lookup |]. split_and!; cbn; (done || lia).
  - exists w. split; [by rewrite insert_id |]. split_and!; (done || lia).
Qed.

(** C3 (functional). Committing a capture.  It succeeds exactly on a checkpoint that
    is [Persisting] (of the workload's current generation) or already [Available],
    has a durable location and a manifest anchor, and whose workload exists.  Then,
    in one step: the checkpoint is [Available] and restorable; it and the nearest
    older and newer checkpoints in use point at each other by reciprocal
    supersession links; no other checkpoint changes; the workload's checkpoint
    generation is the maximum of the two, its epoch and claim are untouched; and the
    journal records the commit. *)
Theorem capture_commit_spec (now : Clock) (id : Id) (attempt : string) (s : Store) :
  schema_ok s ->
  (is_ok (capture_commit now id attempt s) = true <-> exists row w, capture_admissible s id row w) /\
  (forall s', capture_commit now id attempt s = Ok (tt, s') ->
     exists row w row' w', capture_admissible s id row w /\
       let prev := is_previous s (ck_workload_id row) (ck_checkpoint_generation row) in
       let next := is_next s (ck_workload_id row) (ck_checkpoint_generation row) in
       st_checkpoints s' !! id = Some row' /\
       ck_lifecycle row' = Available /\ checkpoint_is_restorable row' = true /\
       (forall p, ck_supersedes row' = Some p <-> prev p) /\
       (forall n, ck_superseded_by row' = Some n <-> next n) /\
       (forall p, prev p -> ck_superseded_by <$> st_checkpoints s' !! p = Some (Some id)) /\
       (forall n, next n -> ck_supersedes <$> st_checkpoints s' !! n = Some (Some id)) /\
       (forall j, j <> id -> ~ prev j -> ~ next j -> st_checkpoints s' !! j = st_checkpoints s !! j) /\
       st_workloads s' !! ck_workload_id row = Some w' /\
       w_checkpoint_generation w' = Z.max (w_checkpoint_generation w) (ck_checkpoint_generation row) /\
       w_execution_epoch w' = w_execution_epoch w /\
       (forall actor token, fence_valid w' actor token = fence_valid w actor token) /\
       journal_contains "capture" attempt "db_committed" s' = true).
Proof.
  intros Hs. split.
  { split.
    - destruct (capture_commit now id attempt s) as [[[] s'] |] eqn:E; [intros _ | done].
      apply capture_commit_Ok in E as (row & w & Ha & _). by exists row, w.
    - intros (row & w & Ha).
      by rewrite (proj2 (capture_commit_Ok now id attempt s _ tt)
                   (ex_intro _ row (ex_intro _ w (conj Ha eq_refl)))). }
  intros s' H. apply capture_commit_Ok in H as (row & w & Ha & ->). pose proof Ha as [Hr Hl Hloc Han Hw Hg].
  set (wid := ck_workload_id row). set (g := ck_checkpoint_generation row).
  assert (Hp : forall p, previous_in_use wid g s = Some p <-> is_previous s wid g p)
    by (intros; by apply previous_in_use_iff).
  assert (Hn : forall p, next_in_use wid g s = Some p <-> is_next s wid g p)
    by (intros; by apply next_in_use_iff).
  assert (Hpid : ~ is_previous s wid g id)
    by (intros (c & Hc & _ & Hlt & _); rewrite Hr in Hc; injection Hc as <-; unfold g in Hlt; lia).
  assert (Hnid : ~ is_next s wid g id)
    by (intros (c & Hc & _ & Hlt & _); rewrite Hr in Hc; injection Hc as <-; unfold g in Hlt; lia).
  assert (Hpn : forall j, is_previous s wid g j -> ~ is_next s wid g j)
    by (intros j (c & Hc & _ & Hlt & _) (d & Hd & _ & Hlt' & _); rewrite Hc in Hd; injection Hd as <-; lia).
  rewrite <- Hp in Hpid. rewrite <- Hn in Hnid. setoid_rewrite <- Hp in Hpn. setoid_rewrite <- Hn in Hpn.
  destruct (capture_writes_workload now id attempt row w s Hw)
    as (w' & Hlw & Hcg & Hep & _ & _ & Han' & Hft & _).
  eexists row, w, _, w'. split; [done |]. cbv zeta. fold wid g.
  rewrite capture_writes_checkpoints. fold wid g.
  setoid_rewrite <- Hp. setoid_rewrite <- Hn. setoid_rewrite link_checkpoint_lookup.
  split; [by rewrite Hr |].
  rewrite (bool_decide_eq_true_2 (id = id)), (bool_decide_eq_false_2 _ Hpid), (bool_decide_eq_false_2 _ Hnid) by done.
  cbv iota beta zeta. split; [done |]. split; [done |]. split; [done |]. split; [done |]. split; [| split; [| split; [| split]]].
  - intros p Hprev. rewrite (bool_decide_eq_true_2 _ Hprev), (bool_decide_eq_false_2 _ (Hpn p Hprev)).
    apply Hp in Hprev as (c & -> & _). done.
  - intros n Hnext. rewrite (bool_decide_eq_true_2 _ Hnext).
    apply Hn in Hnext as (c & -> & _). done.
  - intros j Hj H1 H2. rewrite (bool_decide_eq_false_2 _ Hj), (bool_decide_eq_false_2 _ H1), (bool_decide_eq_false_2 _ H2).
    by destruct (st_checkpoints s !! j).
  - by rewrite Hlw, lookup_insert_eq.
  - split_and!; [done | done | | apply journal_insert_contains].
    intros actor token. apply eq_bool_prop_intro. rewrite !Is_true_true, !fence_valid_iff. by rewrite Han', Hft.
Qed.

(** ** Committing twice *)

Lemma update_checkpoint_noop id f (s : Store) :
  (forall c, st_checkpoints s !! id = Some c -> f c = c) -> update_checkpoint id f s = s.
Proof.
  intros Hf. unfold update_checkpoint. assert (alter f id (st_checkpoints s) = st_checkpoints s) as H.
  { apply map_eq. intros j. destruct (decide (j = id)) as [-> | Hne]; [| by rewrite lookup_alter_ne].
    rewrite lookup_alter_eq. destruct (st_checkpoints s !! id) as [c |] eqn:E; [| done].
    cbn. by rewrite (Hf c eq_refl). }
  destruct s. cbn in *. by rewrite H.
Qed.

Lemma update_checkpoint_opt_noop o f (s : Store) :
  (forall i c, o = Some i -> st_checkpoints s !! i = Some c -> f c = c) ->
  update_checkpoint_opt o f s = s.
Proof.
  destruct o as [i |]; [| done]. intros Hf. apply update_checkpoint_noop. intros c. by apply Hf.
Qed.

Lemma update_workload_noop id f (s : Store) :
  (forall w, st_workloads s !! id = Some w -> f w = w) -> update_workload id f s = s.
Proof.
  intros Hf. unfold update_workload. assert (alter f id (st_workloads s) = st_workloads s) as H.
  { apply map_eq. intros j. destruct (decide (j = id)) as [-> | Hne]; [| by rewrite lookup_alter_ne].
    rewrite lookup_alter_eq. destruct (st_workloads s !! id) as [c |] eqn:E; [| done].
    cbn. by rewrite (Hf c eq_refl). }
  destruct s. cbn in *. by rewrite H.
Qed.

Lemma journal_insert_noop kind key state detail ts (s : Store) :
  journal_contains kind key state s = true -> journal_insert kind key state detail ts s = s.
Proof. unfold journal_contains, journal_insert. by intros ->. Qed.

Lemma record_supersedes_recorded now wid id p (s : Store) :
  supersedes_recorded id p (record_supersedes now wid id (Some p) s) = true.
Proof.
  unfold record_supersedes. destruct (supersedes_recorded id p s) eqn:E; [done |].
  unfold supersedes_recorded, lineage_insert. cbn. rewrite existsb_app. cbn.
  by rewrite !bool_decide_eq_true_2, orb_true_r by done.
Qed.

Lemma capture_writes_lineage now id a row w (s : Store) :
  st_lineage (capture_writes now id a row w s) =
  st_lineage (record_supersedes now (ck_workload_id row) id
    (previous_in_use (ck_workload_id row) (ck_checkpoint_generation row) s) s).
Proof.
  unfold capture_writes, journal_insert, advance_checkpoint_generation, record_supersedes, link_checkpoint,
    supersedes_recorded, lineage_insert, update_checkpoint_opt. by repeat split_match.
Qed.

(** The commit does not change what its own queries see. *)
Lemma capture_writes_views now id a row w (s : Store) :
  st_checkpoints s !! id = Some row ->
  same_views id (ck_checkpoint_generation row) s (capture_writes now id a row w s).
Proof.
  intros Hr. split_and!.
  - intros j Hj. rewrite capture_writes_checkpoints, link_checkpoint_lookup, (bool_decide_eq_false_2 _ Hj).
    destruct (st_checkpoints s !! j) as [c |]; [| done]. cbn.
    by destruct (bool_decide _), (bool_decide _).
  - intros c Hc. rewrite Hr in Hc. by injection Hc as <-.
  - intros c Hc. rewrite capture_writes_checkpoints, link_checkpoint_lookup, Hr in Hc.
    injection Hc as <-. by destruct (bool_decide _), (bool_decide _), (bool_decide _).
Qed.

Section twice.
Context (now now' : Clock) (id : Id) (attempt : string) (s : Store)
  (row : CheckpointObject) (w : Workload).
Context (Hs : schema_ok s) (Ha : capture_admissible s id row w).

Let wid := ck_workload_id row.
Let prev := previous_in_use wid (ck_checkpoint_generation row) s.
Let next := next_in_use wid (ck_checkpoint_generation row) s.
Let s' := capture_writes now id attempt row w s.

Lemma neighbours_distinct :
  prev <> Some id /\ next <> Some id /\ (forall j, prev = Some j -> next <> Some j).
Proof.
  unfold prev, next. split_and!.
  - rewrite previous_in_use_iff by done. intros (c & Hc & _ & Hlt & _).
    rewrite (ca_row _ _ _ _ Ha) in Hc. injection Hc as <-. lia.
  - rewrite next_in_use_iff by done. intros (c & Hc & _ & Hlt & _).
    rewrite (ca_row _ _ _ _ Ha) in Hc. injection Hc as <-. lia.
  - intros j. rewrite previous_in_use_iff, next_in_use_iff by done.
    intros (c & Hc & _ & Hlt & _) (d & Hd & _ & Hlt' & _). rewrite Hc in Hd. injection Hd as <-. lia.
Qed.

Definition committed_row : CheckpointObject :=
  row <| ck_lifecycle := Available |> <| ck_integrity_state := Valid |>
      <| ck_supersedes := prev |> <| ck_superseded_by := next |>.

Lemma committed_row_lookup : st_checkpoints s' !! id = Some committed_row.
Proof.
  destruct neighbours_distinct as (H1 & H2 & _).
  unfold s'. rewrite capture_writes_checkpoints, link_checkpoint_lookup, (ca_row _ _ _ _ Ha).
  fold wid prev next. cbn [fmap option_fmap option_map].
  by rewrite (bool_decide_eq_true_2 (id = id)), (bool_decide_eq_false_2 _ H1), (bool_decide_eq_false_2 _ H2).
Qed.

Lemma linked_twice : link_checkpoint id prev next s' = s'.
Proof.
  destruct neighbours_distinct as (H1 & H2 & H3).
  assert (Hrow : forall j c, st_checkpoints s' !! j = Some c -> j <> id ->
    (prev = Some j -> ck_superseded_by c = Some id) /\ (next = Some j -> ck_supersedes c = Some id)).
  { intros j c Hc Hj. unfold s' in Hc.
    rewrite capture_writes_checkpoints, link_checkpoint_lookup, (bool_decide_eq_false_2 _ Hj) in Hc.
    fold wid prev next in Hc. apply fmap_Some in Hc as (d & _ & ->).
    split; intros E; [rewrite (bool_decide_eq_true_2 _ E), (bool_decide_eq_false_2 _ (H3 j E)) |
                      rewrite (bool_decide_eq_true_2 _ E)]; done. }
  unfold link_checkpoint.
  rewrite (update_checkpoint_noop id) by (intros c; rewrite committed_row_lookup; by intros [= <-]).
  rewrite (update_checkpoint_opt_noop prev).
  - apply update_checkpoint_opt_noop. intros i c E Hc.
    destruct (Hrow i c Hc) as [_ Hn]; [congruence |]. specialize (Hn E). destruct c. cbn in *. by subst.
  - intros i c E Hc. destruct (Hrow i c Hc) as [Hp _]; [congruence |]. specialize (Hp E).
    destruct c. cbn in *. by subst.
Qed.

Lemma recorded_twice : record_supersedes now' wid id prev s' = s'.
Proof.
  unfold record_supersedes. destruct prev as [p |] eqn:E; [| done].
  assert (supersedes_recorded id p s' = true) as ->; [| done].
  unfold supersedes_recorded, s'. rewrite capture_writes_lineage. fold wid prev. rewrite E.
  apply record_supersedes_recorded.
Qed.

Lemma advanced_twice w' :
  st_workloads s' !! wid = Some w' ->
  advance_checkpoint_generation wid (w_checkpoint_generation w') committed_row s' = s'.
Proof.
  intros Hw'. unfold advance_checkpoint_generation. destruct (Z.leb_spec (w_checkpoint_generation w')
    (ck_checkpoint_generation committed_row)) as [Hle |]; [| done].
  apply update_workload_noop. intros x Hx. rewrite Hw' in Hx. injection Hx as <-.
  pose proof (ca_workload _ _ _ _ Ha) as Hw. fold wid in Hw.
  unfold s' in Hw'. rewrite capture_writes_workloads in Hw'. fold wid in Hw'.
  unfold advance_checkpoint_generation in Hw'.
  destruct (Z.leb_spec (w_checkpoint_generation w) (ck_checkpoint_generation row)).
  - cbn in Hw'. rewrite lookup_alter_eq, Hw in Hw'. by injection Hw' as <-.
  - rewrite Hw in Hw'. injection Hw' as <-. cbn in Hle. lia.
Qed.
End twice.

(** The commit of a capture is idempotent: once it has succeeded,
    running it again - as recovery does after a crash - succeeds and leaves the
    store exactly as it is, whatever the clock says: no second lineage or journal
    record, no other supersession link. *)
Theorem capture_commit_idempotent (now now' : Clock) (id : Id) (attempt : string) (s s' : Store) :
  schema_ok s -> capture_commit now id attempt s = Ok (tt, s') ->
  capture_commit now' id attempt s' = Ok (tt, s').
Proof.
  intros Hs Hrun. pose proof (schema_capture_commit _ _ _ _ _ _ Hrun Hs) as Hs'.
  apply capture_commit_Ok in Hrun as (row & w & Ha & ->).
  set (s' := capture_writes now id attempt row w s) in *.
  pose proof (committed_row_lookup now id attempt s row w Hs Ha) as Hrow. fold s' in Hrow.
  destruct (capture_writes_workload now id attempt row w s (ca_workload _ _ _ _ Ha))
    as (w' & Hlw & _ & _ & _). fold s' in Hlw.
  assert (Hw' : st_workloads s' !! ck_workload_id row = Some w') by (by rewrite Hlw, lookup_insert_eq).
  destruct (same_views_queries id (ck_checkpoint_generation row) (ck_workload_id row) s s' Hs Hs'
    (capture_writes_views now id attempt row w s (ca_row _ _ _ _ Ha))) as [Hp Hn].
  apply capture_commit_Ok. exists (committed_row s row), w'. split.
  - destruct Ha as [Hr Hl Hloc Han Hw Hg]. by split; try right.
  - unfold capture_writes at 1.
    change (ck_workload_id (committed_row s row)) with (ck_workload_id row).
    change (ck_checkpoint_generation (committed_row s row)) with (ck_checkpoint_generation row).
    rewrite Hp, Hn.
    pose proof (linked_twice now id attempt s row w Hs Ha) as E1.
    pose proof (recorded_twice now now' id attempt s row w) as E2.
    pose proof (advanced_twice now id attempt s row w Ha w' Hw') as E3.
    fold s' in E1, E2, E3. rewrite E1, E2, E3.
    symmetry. apply journal_insert_noop, journal_insert_contains.
Qed.

(** * The commit of a restore *)

Definition restored_workload (row : CheckpointObject) (w : Workload) (target token : string)
    (migration : bool) : Workload :=
  let epoch := w_execution_epoch w + 1 + (if migration then 1 else 0) in
  w <| w_workload_generation := w_workload_generation w + 1 |>
    <| w_checkpoint_generation := ck_checkpoint_generation row |>
    <| w_execution_epoch := epoch |> <| w_active_node := Some target |>
    <| w_fence_token := Some token |> <| w_fence_epoch := epoch |>.

Definition restored_row (row : CheckpointObject) : CheckpointObject :=
  row <| ck_lifecycle := Restored |> <| ck_integrity_state := Valid |>
      <| ck_restore_count := ck_restore_count row + 1 |> <| ck_last_restore_result := Some "restored" |>.

Lemma can_transition_Restored (l : LifecycleState) :
  can_transition l Restored = true <-> l = Restoring.
Proof. by destruct l. Qed.

Lemma saturating_add_small (a b : Z) : a + b <= i64_max -> saturating_add a b = a + b.
Proof. unfold saturating_add, i64_max, u64_max. lia. Qed.

(** The tables of workloads and checkpoints after a restore commit, and its journal. *)
Lemma restore_commit_Ok now id a target token migration rollback (s s' : Store) u :
  claims_ok s ->
  restore_commit now id a target token migration rollback s = Ok (u, s') ->
  exists row w, st_checkpoints s !! id = Some row /\ ck_lifecycle row = Restoring /\
    st_workloads s !! ck_workload_id row = Some w /\
    w_workload_generation w + 1 <= i64_max /\
    w_execution_epoch w + 1 + (if migration then 1 else 0) <= i64_max /\
    st_workloads s' = <[ck_workload_id row := restored_workload row w target token migration]> (st_workloads s) /\
    st_checkpoints s' = <[id := restored_row row]> (st_checkpoints s) /\
    journal_contains "restore" a "generation_committed" s' = true /\
    (migration = true -> journal_contains "migration" a "authority_transferred" s' = true).
Proof.
  intros Hs H. unfold restore_commit in H. invert_ok H.
  apply ok_or_Ok in Hstep, Hstep1. apply transition_Ok, can_transition_Restored in Hstep0.
  destruct (Hs _ _ Hstep1) as (_ & _ & He & Hg).
  rewrite bind_u64_Ok in Hstep2.
  assert (Hgen : w_workload_generation r1 + 1 <= i64_max).
  { pose proof (Hstep2 _ ltac:(left)) as Hb. unfold saturating_add, i64_max, u64_max in *. lia. }
  assert (Hep : w_execution_epoch r1 + 1 + (if migration then 1 else 0) <= i64_max).
  { pose proof (Hstep2 (saturating_add (saturating_add (w_execution_epoch r1) 1) (if migration then 1 else 0))
      ltac:(do 2 right; left)) as Hb. unfold saturating_add, i64_max, u64_max in *. destruct migration; lia. }
  rewrite (saturating_add_small (w_workload_generation r1) 1) in H by lia.
  rewrite (saturating_add_small (w_execution_epoch r1) 1) in H by (destruct migration; lia).
  rewrite saturating_add_small in H by done.
  unfold commit in H. injection H as _ <-.
  assert (Hj : forall t, journal_contains "restore" a "generation_committed" (journal_insert "restore" a
    "generation_committed" "generation committed atomically" (now 3%nat) t) = true)
    by (intros; apply journal_insert_contains).
  exists r, r1. do 5 (split; [done |]).
  assert (Hjt : forall k y t d ts s, st_workloads (journal_insert k y t d ts s) = st_workloads s /\
    st_checkpoints (journal_insert k y t d ts s) = st_checkpoints s).
  { intros k y t d ts x. unfold journal_insert. by destruct (existsb _ _). }
  split; [| split; [| split; [apply Hj |]]].
  - rewrite (proj1 (Hjt _ _ _ _ _ _)).
    destruct migration; [rewrite (proj1 (Hjt _ _ _ _ _ _)) |]; destruct rollback;
      exact (alter_insert_lookup _ _ _ _ Hstep1).
  - rewrite (proj2 (Hjt _ _ _ _ _ _)).
    destruct migration; [rewrite (proj2 (Hjt _ _ _ _ _ _)) |]; destruct rollback;
      exact (alter_insert_lookup _ _ _ _ Hstep).
  - intros ->. apply journal_insert_mono, journal_insert_contains.
Qed.

Lemma restored_workload_consistent row w target token (migration : bool) :
  claim_consistent w -> w_workload_generation w + 1 <= i64_max ->
  w_execution_epoch w + 1 + (if migration then 1 else 0) <= i64_max ->
  claim_consistent (restored_workload row w target token migration).
Proof.
  intros (_ & _ & He & Hg) H1 H2. split; [done |]. split; [done |]. cbn.
  destruct migration; lia.
Qed.

Lemma restored_workload_later row w target token migration :
  epoch_le w (restored_workload row w target token migration).
Proof. split_and!; cbn; [destruct migration; lia | lia | done]. Qed.

(** Inserting one later row. *)
Lemma claims_ok_insert (s s' : Store) (id : Id) (w : Workload) :
  claims_ok s -> claim_consistent w -> st_workloads s' = <[id := w]> (st_workloads s) -> claims_ok s'.
Proof.
  intros Hs Hw Heq i x Hx. rewrite Heq in Hx.
  apply lookup_insert_Some in Hx as [[_ <-] | [_ Hx]]; [done | by eapply Hs].
Qed.

Lemma epochs_from_insert (s0 s s' : Store) (id : Id) (w w' : Workload) :
  st_workloads s !! id = Some w -> epoch_le w w' ->
  st_workloads s' = <[id := w']> (st_workloads s) -> epochs_from s0 s -> epochs_from s0 s'.
Proof.
  intros Hw Hle Heq H0. apply (epochs_from_trans s0 s); [done |]. intros i x Hx. rewrite Heq.
  destruct (decide (i = id)) as [-> | Hne].
  - rewrite Hw in Hx. injection Hx as <-. exists w'. by rewrite lookup_insert_eq.
  - exists x. rewrite lookup_insert_ne by done. split; [done | apply epoch_le_refl].
Qed.

(** C4 (safety). Committing a restore moves authority exactly once.  It succeeds only
    on a checkpoint that is [Restoring]; the workload's generation and epoch then
    strictly advance (the epoch by two for a migration), the target node and its
    token are the only valid credentials, every claim made with the epoch of the
    previous owner is refused, the checkpoint is [Restored] with its restore count
    one higher, and the journal records the commit.  A second commit for the same
    checkpoint, by any attempt and for any target, is refused by the state machine. *)
Theorem restore_commit_spec (now : Clock) (id : Id) (attempt target token : string)
    (migration rollback : bool) (s s' : Store) :
  claims_ok s -> restore_commit now id attempt target token migration rollback s = Ok (tt, s') ->
  claims_ok s' /\ epochs_from s s' /\
  journal_contains "restore" attempt "generation_committed" s' = true /\
  exists row w row' w', st_checkpoints s !! id = Some row /\ st_workloads s !! ck_workload_id row = Some w /\
    st_checkpoints s' = <[id := row']> (st_checkpoints s) /\
    st_workloads s' = <[ck_workload_id row := w']> (st_workloads s) /\
    ck_lifecycle row = Restoring /\ ck_lifecycle row' = Restored /\
    ck_restore_count row' = ck_restore_count row + 1 /\
    w_workload_generation w' = w_workload_generation w + 1 /\
    w_execution_epoch w' = w_execution_epoch w + (if migration then 2 else 1) /\
    (forall actor t, fence_valid w' actor t = true <-> actor = target /\ t = token) /\
    (forall node t e, e <= w_execution_epoch w ->
       is_err (workload_claim (ck_workload_id row) node t e s') = true) /\
    (forall now' attempt' target' token' m r,
       restore_commit now' id attempt' target' token' m r s'
         = Err (InvalidLifecycleTransition "RESTORED" "RESTORED")).
Proof.
  intros Hs H. destruct (restore_commit_Ok _ _ _ _ _ _ _ _ _ _ Hs H)
    as (row & w & Hr & Hl & Hw & H1 & H2 & Hw' & Hr' & Hj & _).
  split_and!.
  - eapply claims_ok_insert; [done | | exact Hw']. apply restored_workload_consistent; [| done | done].
    by eapply Hs.
  - eapply epochs_from_insert; [exact Hw | | exact Hw' | apply epochs_from_refl].
    apply restored_workload_later.
  - done.
  - exists row, w, (restored_row row), (restored_workload row w target token migration).
    do 8 (split; [done |]). split; [cbn; destruct migration; lia |]. split; [| split].
    + intros actor t. rewrite fence_valid_iff. cbn. naive_solver.
    + intros node t e He. destruct (workload_claim _ node t e s') as [[u x] |] eqn:E; [| done].
      apply workload_claim_Ok in E as (y & Hy & _ & Hye & _).
      rewrite Hw', lookup_insert_eq in Hy. injection Hy as <-. cbn in Hye. destruct migration; lia.
    + intros now' a' t' k' m r. unfold restore_commit. by rewrite Hr', lookup_insert_eq.
Qed.

(** ** A concrete history *)

Definition staged_checkpoint (cid : Byte.byte) (g : Z) (l : LifecycleState) : CheckpointObject :=
  (small_checkpoint cid Byte.x09)
    <| ck_checkpoint_generation := g |> <| ck_lifecycle := l |>
    <| ck_durable_locations := [mkDurableLocation "n1" "/data/checkpoints/c" true] |>
    <| ck_manifest_digest := Some "d1" |>.

(** Generation 1 is available, generation 2 is persisted but not committed. *)
Definition two_generations : Store :=
  after (checkpoint_insert (staged_checkpoint Byte.x02 2 Persisting))
    (after (checkpoint_insert (staged_checkpoint Byte.x01 1 Available)) one_workload).

Lemma two_generations_schema : schema_ok two_generations.
Proof.
  assert (Hins : forall c, preserves schema_ok (checkpoint_insert c))
    by (intros c s a s'; apply schema_checkpoint_insert).
  refine (after_keeps schema_ok _ _ (Hins _) (after_keeps schema_ok _ _ (Hins _) _)).
  apply (schema_workload_put (idle_workload (id_splat Byte.x09))), schema_empty.
Qed.

Definition committed_second : Store :=
  after (capture_commit (fun _ => 9) (id_splat Byte.x02) "capture-2") two_generations.

Lemma second_commits :
  capture_commit (fun _ => 9) (id_splat Byte.x02) "capture-2" two_generations = Ok (tt, committed_second).
Proof. apply after_Ok. vm_compute. reflexivity. Qed.

Example capture_commit_spec_witness :
  exists row', st_checkpoints committed_second !! id_splat Byte.x02 = Some row' /\
    checkpoint_is_restorable row' = true.
Proof.
  destruct (proj2 (capture_commit_spec (fun _ => 9) (id_splat Byte.x02) "capture-2" two_generations
    two_generations_schema) _ second_commits)
    as (row & w & row' & w' & _ & H1 & _ & H2 & _).
  exists row'. exact (conj H1 H2).
Defined.

Example capture_commit_idempotent_witness :
  capture_commit (fun _ => 11) (id_splat Byte.x02) "capture-2" committed_second = Ok (tt, committed_second).
Proof.
  exact (capture_commit_idempotent (fun _ => 9) (fun _ => 11) (id_splat Byte.x02) "capture-2"
    two_generations _ two_generations_schema second_commits).
Defined.

Definition restoring_store : Store :=
  after (checkpoint_insert (staged_checkpoint Byte.x01 1 Restoring)) one_workload.

Lemma restoring_store_claims : claims_ok restoring_store.
Proof. intros i w Hw. exact (one_workload_claims i w Hw). Qed.

Definition migrated_store : Store :=
  after (restore_commit (fun _ => 9) (id_splat Byte.x01) "restore-1" "n2" "token" true false) restoring_store.

Lemma restore_commits :
  restore_commit (fun _ => 9) (id_splat Byte.x01) "restore-1" "n2" "token" true false restoring_store
    = Ok (tt, migrated_store).
Proof. apply after_Ok. vm_compute. reflexivity. Qed.

Example restore_commit_spec_witness :
  restore_commit (fun _ => 10) (id_splat Byte.x01) "restore-2" "n3" "other" false false migrated_store
    = Err (InvalidLifecycleTransition "RESTORED" "RESTORED").
Proof.
  destruct (restore_commit_spec (fun _ => 9) (id_splat Byte.x01) "restore-1" "n2" "token" true false
    restoring_store _ restoring_store_claims restore_commits)
    as (_ & _ & _ & row & w & row' & w' & _ & _ & _ & _ & _ & _ & _ & _ & _ & _ & _ & H).
  apply H.
Defined.
