(* ===== verification/World.v ===== *)
(** The world of the handlers: the store shared by every handler of the process, the
    failpoints, and what the environment decides.

    A handler of the coordinator ([src/src/coordinator.rs]) or of the recovery
    ([src/src/recovery.rs]) takes the mutex of the store once per statement, so other
    requests, the monitor thread and another recovery run between any two of its
    statements, and the process may die there.  Each access below is one [event]:
    before it the other threads change the store in any way [env_others] says, and
    the process may stop ([env_crash]).  What survives a stop is the store. *)
From S2P Require Import Prelude Errors Ident Lifecycle Checkpoint Workload Compression Policy Capture.
From S2P Require Import Lineage Failpoints Tables Persist Schema.

Record World := mkWorld { wd_store : Store; wd_tick : nat; wd_armed : Armed }.

(** What the environment decides at each event: the clock (its readings within one
    event), fresh identities, the other threads, and a stop of the process. *)
Class Env := {
  env_now : nat -> Clock;
  env_random : nat -> Id;
  env_others : nat -> Store -> Store;
  env_failpoints : nat -> Armed -> Armed;
  env_crash : nat -> bool
}.

Definition event `{Env} : M World nat := fun w =>
  let t := wd_tick w in
  let w' := mkWorld (env_others t (wd_store w)) (S t) (env_failpoints t (wd_armed w)) in
  if env_crash t then (Crash, w') else (Done t, w').

(** A statement of the store; a failed one changes nothing. *)
Definition run_tx {A} (op : Tx A) : M World A := fun w =>
  match op (wd_store w) with
  | Ok (a, s) => (Done a, mkWorld s (wd_tick w) (wd_armed w))
  | Err e => (Raise e, w)
  end.

(** A method call on the store, with the clock it reads. *)
Definition db `{Env} {A} (op : Clock -> Tx A) : M World A :=
  t ← event; run_tx (op (env_now t)).

(** [now_ms()]. *)
Definition now_ms `{Env} : M World Z := t ← event; mret (env_now t 0%nat).

(** [Id::random()]. *)
Definition random `{Env} : M World Id := t ← event; mret (env_random t).

(** [failpoints::fire(name)?]. *)
Definition fire_here (name : string) : M World unit := fun w =>
  let '(r, armed) := fire name (wd_armed w) in lift r (mkWorld (wd_store w) (wd_tick w) armed).

Definition failpoint `{Env} (name : string) : M World unit := event ;; fire_here name.

(** ** Assertions on the store *)

(** Predicates of the store as predicates of the world. *)
Definition on_store (P : Store -> Prop) (w : World) : Prop := P (wd_store w).

(** The other threads keep [P]. *)
Class Stable `{Env} (P : Store -> Prop) : Prop := stable : forall t s, P s -> P (env_others t s).

(** No other thread touches the store, and the process does not stop. *)
Class Quiet `{Env} : Prop := quiet : forall t s, env_others t s = s.
Class Steady `{Env} : Prop := steady : forall t, env_crash t = false.

#[export] Instance Quiet_Stable `{Env} (P : Store -> Prop) : Quiet -> Stable P.
Proof. intros Hq t s Hs. by rewrite Hq. Qed.

(** Weakest preconditions when no other thread runs: from the store [s], the handler
    ends with a result and a store in [Q], or the process stops with a store in [C].
    Ticks and failpoints are arbitrary, so any failpoint may fire. *)
Definition wp {A} (m : M World A) (Q : FabricResult A -> Store -> Prop) (C : Store -> Prop)
    (s : Store) : Prop :=
  forall t armed, match m (mkWorld s t armed) with
                  | (Done a, w) => Q (Ok a) (wd_store w)
                  | (Raise e, w) => Q (Err e) (wd_store w)
                  | (Crash, w) => C (wd_store w)
                  end.

(** An environment in which nothing else happens, for the witnesses. *)
Definition still_env : Env :=
  {| env_now := fun _ _ => 9; env_random := fun t => id_splat (Byte.x50);
     env_others := fun _ s => s; env_failpoints := fun _ m => m; env_crash := fun _ => false |}.

Lemma still_quiet : @Quiet still_env.
Proof. by intros t s. Qed.

Definition is_done {A} (o : outcome A) : bool := match o with Done _ => true | _ => false end.

(** A statement that only reads. *)
Definition reads {A} (op : Tx A) : Prop := forall s a s', op s = Ok (a, s') -> s' = s.

Section rules.
Context `{Env}.
Implicit Types P C : Store -> Prop.

Lemma keeps_event P `{!Stable P} : keeps (on_store P) event.
Proof. intros w Hw. unfold event. destruct (env_crash _); by apply stable. Qed.

Lemma keeps_db {A} P `{!Stable P} (op : Clock -> Tx A) :
  (forall now, preserves P (op now)) -> keeps (on_store P) (db op).
Proof.
  intros Hop. apply keeps_bind; [by apply keeps_event |]. intros t w Hw. unfold run_tx.
  destruct (op (env_now t) (wd_store w)) as [[a s'] | e] eqn:E; [| exact Hw].
  exact (Hop _ _ _ _ E Hw).
Qed.

Lemma keeps_now P `{!Stable P} : keeps (on_store P) now_ms.
Proof. apply keeps_bind; [by apply keeps_event | intros; apply keeps_ret]. Qed.

Lemma keeps_random P `{!Stable P} : keeps (on_store P) random.
Proof. apply keeps_bind; [by apply keeps_event | intros; apply keeps_ret]. Qed.

Lemma keeps_failpoint P `{!Stable P} name : keeps (on_store P) (failpoint name).
Proof.
  apply keeps_bind; [by apply keeps_event |]. intros _ w Hw.
  unfold fire_here, lift. by destruct (fire name (wd_armed w)) as [[u | e] armed].
Qed.

(** *** Rules of [wp] *)

Lemma wp_conseq {A} (m : M World A) Q Q' C C' s :
  wp m Q' C' s -> (forall r s', Q' r s' -> Q r s') -> (forall s', C' s' -> C s') -> wp m Q C s.
Proof.
  intros Hm HQ HC t armed. specialize (Hm t armed).
  destruct (m _) as [[a | e |] w]; auto.
Qed.

Lemma wp_ret {A} (a : A) Q C s : Q (Ok a) s -> wp (mret a) Q C s.
Proof. intros Hq t armed. exact Hq. Qed.

Lemma wp_raise {A} e (Q : FabricResult A -> Store -> Prop) C s : Q (Err e) s -> wp (raise e) Q C s.
Proof. intros Hq t armed. exact Hq. Qed.

Lemma wp_lift {A} (r : FabricResult A) Q C s : Q r s -> wp (lift r) Q C s.
Proof. intros Hq t armed. unfold lift. by destruct r. Qed.

Lemma wp_bind {A B} (m : M World A) (k : A -> M World B) Q C s :
  wp m (fun r s' => match r with Ok a => wp (k a) Q C s' | Err e => Q (Err e) s' end) C s ->
  wp (m ≫= k) Q C s.
Proof.
  intros Hm t armed. specialize (Hm t armed). unfold mbind, M_bind.
  destruct (m _) as [[a | e |] [s' t' armed']]; cbn in *; [apply Hm | done | done].
Qed.

Lemma wp_attempt {A} (m : M World A) Q C s :
  wp m (fun r => Q (Ok r)) C s -> wp (attempt m) Q C s.
Proof.
  intros Hm t armed. specialize (Hm t armed). unfold attempt.
  by destruct (m _) as [[a | e |] w].
Qed.

Lemma wp_event `{!Quiet} Q C s : C s -> (forall t, Q (Ok t) s) -> wp event Q C s.
Proof.
  intros HC HQ t armed. unfold event. cbn. rewrite quiet. destruct (env_crash t); [exact HC | apply HQ].
Qed.

Lemma wp_db `{!Quiet} {A} (op : Clock -> Tx A) Q C s :
  C s ->
  (forall now, match op now s with Ok (a, s') => Q (Ok a) s' | Err e => Q (Err e) s end) ->
  wp (db op) Q C s.
Proof.
  intros HC Hop. apply wp_bind, wp_event; [exact HC |]. intros t t' armed. unfold run_tx. cbn.
  specialize (Hop (env_now t)). by destruct (op _ s) as [[a s'] | e].
Qed.

(** The same, with an invariant of the statement at hand afterwards. *)
Lemma wp_db_inv `{!Quiet} {A} (I : Store -> Prop) (op : Clock -> Tx A) Q C s :
  (forall now, preserves I (op now)) -> I s -> C s ->
  (forall now, match op now s with Ok (a, s') => I s' -> Q (Ok a) s' | Err e => Q (Err e) s end) ->
  wp (db op) Q C s.
Proof.
  intros Hop Hs HC HQ. apply wp_db; [exact HC |]. intros now. specialize (HQ now).
  destruct (op now s) as [[a s'] | e] eqn:E; [| exact HQ]. exact (HQ (Hop now s a s' E Hs)).
Qed.

(** A statement that only reads. *)
Lemma wp_reads `{!Quiet} {A} (op : Clock -> Tx A) Q C s :
  (forall now, reads (op now)) -> C s -> (forall r, Q r s) -> wp (db op) Q C s.
Proof.
  intros Hr HC HQ. apply wp_db; [exact HC |]. intros now.
  destruct (op now s) as [[a s'] | e] eqn:E; [| apply HQ]. rewrite (Hr now s a s' E). apply HQ.
Qed.

Lemma wp_now `{!Quiet} Q C s : C s -> (forall t, Q (Ok t) s) -> wp now_ms Q C s.
Proof. intros HC HQ. apply wp_bind, wp_event; [exact HC |]. intros t. apply wp_ret, HQ. Qed.

Lemma wp_random `{!Quiet} Q C s : C s -> (forall t, Q (Ok (env_random t)) s) -> wp random Q C s.
Proof. intros HC HQ. apply wp_bind, wp_event; [exact HC |]. intros t. apply wp_ret, HQ. Qed.

Lemma wp_failpoint `{!Quiet} name Q C s :
  C s -> (forall r, Q r s) -> wp (failpoint name) Q C s.
Proof.
  intros HC HQ. apply wp_bind, wp_event; [exact HC |]. intros t t' armed.
  unfold fire_here, lift. cbn. destruct (fire name armed) as [[u | e] armed']; apply HQ.
Qed.

Lemma wp_ignore {A} (m : M World A) Q C s :
  wp m (fun _ => Q (Ok tt)) C s -> wp (ignore m) Q C s.
Proof.
  intros Hm. apply wp_bind, wp_attempt. eapply wp_conseq; [exact Hm | | done].
  intros r s' Hr. by apply wp_ret.
Qed.

Lemma wp_on_error {A} (m : M World A) h Q C s :
  wp m (fun r s' => match r with
                    | Ok a => Q (Ok a) s'
                    | Err e => wp (h e) (fun _ => Q (Err e)) C s'
                    end) C s ->
  wp (on_error m h) Q C s.
Proof.
  intros Hm. apply wp_bind, wp_attempt. eapply wp_conseq; [exact Hm | | done].
  intros [a | e] s' Hr; [by apply wp_ret |]. apply wp_bind, wp_ignore.
  eapply wp_conseq; [exact Hr | | done]. intros r s'' HQ. by apply wp_raise.
Qed.

(** [keeps] as a [wp]. *)
Lemma keeps_of_wp {A} (I : Store -> Prop) (m : M World A) :
  (forall s, I s -> wp m (fun _ => I) I s) -> keeps (on_store I) m.
Proof.
  intros Hm [s t armed] Hw. specialize (Hm s Hw t armed). unfold on_store.
  by destruct (m _) as [[a | e |] w].
Qed.

(** An invariant of the handler holds at its end as well. *)
Lemma wp_keeps {A} (I : Store -> Prop) (m : M World A) Q s :
  keeps (on_store I) m -> wp m Q (fun _ => True) s -> I s ->
  wp m (fun r s' => Q r s' /\ I s') I s.
Proof.
  intros Hk Hm Hs t armed. specialize (Hm t armed). specialize (Hk (mkWorld s t armed) Hs).
  by destruct (m _) as [[a | e |] w].
Qed.

(** A first part of which only the invariant matters. *)
Lemma wp_bind_inv {A B} (I : Store -> Prop) (m : M World A) (k : A -> M World B) Q C s :
  keeps (on_store I) m -> I s ->
  (forall a s', I s' -> wp (k a) Q C s') -> (forall e s', I s' -> Q (Err e) s') ->
  (forall s', I s' -> C s') -> wp (m ≫= k) Q C s.
Proof.
  intros Hm Hs Hk HE HC. apply wp_bind. intros t armed. specialize (Hm (mkWorld s t armed) Hs).
  destruct (m _) as [[a | e |] w]; cbn in Hm; [by apply Hk | by apply HE | by apply HC].
Qed.

Lemma wp_inv {A} (I : Store -> Prop) (m : M World A) Q C s :
  keeps (on_store I) m -> I s -> (forall r s', I s' -> Q r s') -> (forall s', I s' -> C s') ->
  wp m Q C s.
Proof.
  intros Hm Hs HQ HC t armed. specialize (Hm (mkWorld s t armed) Hs).
  destruct (m _) as [[a | e |] w]; cbn in Hm; auto.
Qed.

(** A loop keeps an invariant that every turn keeps. *)
Lemma wp_for_m {A} (f : A -> M World unit) (l : list A) (I : Store -> Prop)
    (E : FabricError -> Store -> Prop) C s :
  (forall x s', x ∈ l -> I s' -> wp (f x) (fun r s'' => match r with Ok _ => I s'' | Err e => E e s'' end) C s') ->
  I s ->
  wp (for_m f l) (fun r s' => match r with Ok _ => I s' | Err e => E e s' end) C s.
Proof.
  revert s. induction l as [| x l IH]; intros s Hf Hs; cbn; [by apply wp_ret |].
  apply wp_bind. eapply wp_conseq; [apply Hf; [left | exact Hs] | | done].
  intros [u | e] s' Hs'; [| exact Hs']. apply IH; [| exact Hs'].
  intros y s'' Hy. apply Hf. by right.
Qed.
End rules.

#[export] Hint Resolve keeps_event keeps_db keeps_now keeps_random keeps_failpoint : fabric.

(** The structure of a handler under [keeps]; what is left are its statements and
    the handlers it calls. *)
Ltac keeps_step :=
  lazymatch goal with
  | |- keeps _ (mbind _ (mret _)) => apply keeps_ret_bind
  | |- keeps _ (mbind _ (mbind (fun a => mret _) _)) => apply keeps_bind_map; [| intros]
  | |- keeps _ (mbind _ _) => apply keeps_bind; [| intros]
  | |- keeps _ (mret _) => apply keeps_ret
  | |- keeps _ (raise _) => apply keeps_raise
  | |- keeps _ (lift _) => apply keeps_lift
  | |- keeps _ (attempt _) => apply keeps_attempt
  | |- keeps _ (ignore _) => apply keeps_ignore
  | |- keeps _ (on_error _ _) => apply keeps_on_error; [| intros]
  | |- keeps _ (when _ _) => apply keeps_when
  | |- keeps _ (for_m _ _) => apply keeps_for_m; intros
  | |- keeps _ (db _) => apply keeps_db; [exact _ | intros]
  | |- keeps _ now_ms => apply keeps_now; exact _
  | |- keeps _ random => apply keeps_random; exact _
  | |- keeps _ (failpoint _) => apply keeps_failpoint; exact _
  | |- keeps _ (match ?x with _ => _ end) => destruct x
  end.
Ltac keeps_auto := repeat keeps_step; eauto with fabric.


Lemma reads_preserves {A} (P : Store -> Prop) (op : Tx A) : reads op -> preserves P op.
Proof. intros Hr s a s' Hop Hs. by rewrite (Hr _ _ _ Hop). Qed.

Ltac reads_tac :=
  intros s0 a0 s1 Hrun; run_op Hrun; done.

Lemma reads_workload_get i : reads (workload_get i). Proof. reads_tac. Qed.
Lemma reads_workload_list : reads workload_list. Proof. reads_tac. Qed.
Lemma reads_checkpoint_get i : reads (checkpoint_get i). Proof. reads_tac. Qed.
Lemma reads_checkpoint_list o : reads (checkpoint_list o). Proof. reads_tac. Qed.
Lemma reads_max_generation i : reads (checkpoint_max_generation i). Proof. reads_tac. Qed.
Lemma reads_lineage_query a b : reads (lineage_query a b). Proof. reads_tac. Qed.
Lemma reads_attempt_get i : reads (attempt_get i). Proof. reads_tac. Qed.
Lemma reads_attempts_in_state t : reads (attempts_in_state t). Proof. reads_tac. Qed.
Lemma reads_node_list : reads node_list. Proof. reads_tac. Qed.
Lemma reads_validate_identity i b : reads (node_validate_identity i b). Proof. reads_tac. Qed.
Lemma reads_reservation_active_for k w c : reads (reservation_active_for k w c). Proof. reads_tac. Qed.
Lemma reads_journal_has k y t : reads (journal_has k y t). Proof. reads_tac. Qed.
Lemma reads_stats : reads stats. Proof. reads_tac. Qed.
Lemma reads_audit_query o l : reads (audit_query o l). Proof. reads_tac. Qed.
Lemma reads_policy_versions : reads policy_versions. Proof. reads_tac. Qed.
Lemma reads_policy_load_all `{PolicyCodec} : reads policy_load_all. Proof. reads_tac. Qed.

#[export] Hint Resolve reads_preserves : fabric.
#[export] Hint Resolve reads_workload_get reads_workload_list reads_checkpoint_get reads_checkpoint_list
  reads_max_generation reads_lineage_query reads_attempt_get reads_attempts_in_state reads_node_list
  reads_validate_identity reads_reservation_active_for reads_journal_has reads_stats reads_audit_query
  reads_policy_versions reads_policy_load_all : fabric.

(** One step of a handler under [wp]. *)
Ltac wp_step :=
  lazymatch goal with
  | |- wp (mbind _ _) _ _ _ => apply wp_bind; wp_step
  | |- wp (mret _) _ _ _ => apply wp_ret
  | |- wp (raise _) _ _ _ => apply wp_raise
  | |- wp (lift _) _ _ _ => apply wp_lift
  | |- wp (attempt _) _ _ _ => apply wp_attempt; wp_step
  | |- wp (db _) _ _ _ => apply wp_db; [| intro]
  | |- wp now_ms _ _ _ => apply wp_now; [| intro]
  | |- wp random _ _ _ => apply wp_random; [| intro]
  | |- wp (failpoint _) _ _ _ => apply wp_failpoint; [| let r := fresh "r" in intros r; destruct r]
  end.
