(* ===== verification/Manifest.v ===== *)
(** The canonical manifest of a checkpoint ([src/src/manifest.rs]) and the integrity
    root derived from it ([src/src/integrity.rs]): the scaffold, sealing, parsing and
    the verification of the root.  SHA-256 and the JSON codec are the interfaces
    [Sha256] and [ManifestCodec]; the hashing of files on disk is in [Integrity]. *)
From S2P Require Import Prelude Errors Ident Lifecycle Checkpoint Workload Compression Policy.
From Stdlib Require Import Strings.Byte.

Definition MANIFEST_FORMAT_VERSION : Z := 1.

(** Integrity anchor of the manifest. *)
Record IntegrityInfo := mkIntegrityInfo {
  ii_content_hash_algorithm : string;
  ii_root : string
}.

Record Manifest := mkManifest {
  mf_format_version : Z;
  mf_checkpoint_id : Id;
  mf_workload_id : Id;
  mf_workload_generation : Z;
  mf_checkpoint_generation : Z;
  mf_parent_checkpoint : option Id;
  mf_capture_attempt : string;
  mf_coordinator_epoch : Z;
  mf_created_ms : Z;
  mf_seal_ms : Z;
  mf_source_node : string;
  mf_source_backend : string;
  mf_frontier : ExecutionFrontier;
  mf_checkpoint_type : CheckpointType;
  mf_consistency : ConsistencyClass;
  mf_resumability : ResumabilityClass;
  mf_components : list ComponentEntry;
  mf_total_logical_bytes : Z;
  mf_total_physical_bytes : Z;
  mf_compressed_bytes : Z;
  mf_durable_locations : list DurableLocation;
  mf_replica_count : Z;
  mf_lineage_parents : list Id;
  mf_policy_version : Z;
  mf_runtime_descriptor : RuntimeCompatibilityDescriptor;
  mf_hardware_descriptor : HardwareCompatibilityDescriptor;
  mf_dependencies : list ExternalDependency;
  mf_integrity : IntegrityInfo;
  mf_metadata : JsonText
}.

#[export] Instance eta_Manifest : Settable Manifest := fun m =>
  mkManifest (mf_format_version m) (mf_checkpoint_id m) (mf_workload_id m) (mf_workload_generation m)
    (mf_checkpoint_generation m) (mf_parent_checkpoint m) (mf_capture_attempt m) (mf_coordinator_epoch m)
    (mf_created_ms m) (mf_seal_ms m) (mf_source_node m) (mf_source_backend m) (mf_frontier m)
    (mf_checkpoint_type m) (mf_consistency m) (mf_resumability m) (mf_components m)
    (mf_total_logical_bytes m) (mf_total_physical_bytes m) (mf_compressed_bytes m)
    (mf_durable_locations m) (mf_replica_count m) (mf_lineage_parents m) (mf_policy_version m)
    (mf_runtime_descriptor m) (mf_hardware_descriptor m) (mf_dependencies m) (mf_integrity m)
    (mf_metadata m).

(** The hash function; [hex::encode] of its result is [sha256_hex]. *)
Class Sha256 := { sha256_hex : list byte -> string }.

(** [serde_json] on manifests. *)
Class ManifestCodec := {
  manifest_to_vec : Manifest -> list byte;
  manifest_from_slice : list byte -> option Manifest
}.

(** Updating the hasher piece by piece hashes the concatenation. *)
Definition compute_integrity_root `{Sha256} (component_hashes : list string) (manifest_bytes : list byte)
    : string :=
  sha256_hex (concat (String.list_byte_of_string <$> component_hashes) ++ manifest_bytes).

Section manifest.
Context `{Sha256, ManifestCodec}.

Definition to_canonical_bytes (m : Manifest) : list byte := manifest_to_vec m.

Definition set_root (root : string) (m : Manifest) : Manifest :=
  m <| mf_integrity := mkIntegrityInfo (ii_content_hash_algorithm (mf_integrity m)) root |>.

Definition canonical_without_root (m : Manifest) : list byte := to_canonical_bytes (set_root "" m).

Definition manifest_integrity_root (m : Manifest) : string :=
  compute_integrity_root (ce_content_hash <$> mf_components m) (canonical_without_root m).

Definition verify_integrity_root (m : Manifest) : bool :=
  bool_decide (manifest_integrity_root m = ii_root (mf_integrity m)).

Definition manifest_digest (m : Manifest) : string := sha256_hex (to_canonical_bytes m).

(** [manifest::scaffold]. *)
Definition scaffold (c : CheckpointObject) : Manifest :=
  {| mf_format_version := MANIFEST_FORMAT_VERSION;
     mf_checkpoint_id := ck_checkpoint_id c;
     mf_workload_id := ck_workload_id c;
     mf_workload_generation := ck_workload_generation c;
     mf_checkpoint_generation := ck_checkpoint_generation c;
     mf_parent_checkpoint := ck_parent_checkpoint c;
     mf_capture_attempt := ck_capture_attempt c;
     mf_coordinator_epoch := ck_coordinator_epoch c;
     mf_created_ms := ck_created_ms c;
     mf_seal_ms := ck_seal_ms c;
     mf_source_node := ck_source_node c;
     mf_source_backend := ck_source_backend c;
     mf_frontier := ck_frontier c;
     mf_checkpoint_type := ck_checkpoint_type c;
     mf_consistency := ck_consistency c;
     mf_resumability := ck_resumability c;
     mf_components := ck_components c;
     mf_total_logical_bytes := ck_total_logical_bytes c;
     mf_total_physical_bytes := ck_total_physical_bytes c;
     mf_compressed_bytes := ck_compressed_bytes c;
     mf_durable_locations := ck_durable_locations c;
     mf_replica_count := ck_replica_count c;
     mf_lineage_parents := ck_lineage_parents c;
     mf_policy_version := ck_policy_version c;
     mf_runtime_descriptor := ck_runtime_descriptor c;
     mf_hardware_descriptor := ck_hardware_descriptor c;
     mf_dependencies := ck_dependencies c;
     mf_integrity := mkIntegrityInfo "sha256" "";
     mf_metadata := ck_metadata c |}.

Record SealedManifest := mkSealedManifest {
  sm_manifest : Manifest;
  sm_canonical_bytes : list byte;
  sm_digest : string;
  sm_integrity_root : string
}.

Definition seal (m : Manifest) : SealedManifest :=
  let root := manifest_integrity_root m in
  let m := set_root root m in
  let canonical_bytes := to_canonical_bytes m in
  mkSealedManifest m canonical_bytes (sha256_hex canonical_bytes) root.

(** [manifest::parse]. *)
Definition parse (canonical : list byte) : FabricResult Manifest :=
  m ← ok_or (manifest_from_slice canonical) (CorruptedCheckpoint "bad manifest: {e}");
  reject_if (negb (mf_format_version m =? MANIFEST_FORMAT_VERSION))
    (CorruptedCheckpoint "unsupported manifest format version {}") ;;
  reject_if (negb (verify_integrity_root m)) (IntegrityFailure "manifest integrity root mismatch") ;;
  Ok m.

Definition claims_exact (m : Manifest) : bool := bool_decide (mf_resumability m = Exact).

Definition component_count (m : Manifest) : Z := Z.of_nat (length (mf_components m)).

(** [manifest::validate_policy]. *)
Definition validate_manifest_policy (m : Manifest) (policy : PolicySet) : FabricResult unit :=
  reject_if (negb (mf_policy_version m =? p_version policy))
    (PolicyViolation "manifest policy version {} does not match active policy {}").
End manifest.

(** * Lemmas and properties *)

Section manifest_theorems.
Context `{Sha256, ManifestCodec}.

(** The root does not depend on the root field it is stored in. *)
Lemma manifest_root_set (root : string) (m : Manifest) :
  manifest_integrity_root (set_root root m) = manifest_integrity_root m.
Proof. done. Qed.

Lemma verify_sealed (m : Manifest) : verify_integrity_root (sm_manifest (seal m)) = true.
Proof. apply bool_decide_eq_true. apply manifest_root_set. Qed.

Lemma parse_Ok (bytes : list byte) (m : Manifest) :
  parse bytes = Ok m <->
  manifest_from_slice bytes = Some m /\ mf_format_version m = MANIFEST_FORMAT_VERSION /\
  manifest_integrity_root m = ii_root (mf_integrity m).
Proof.
  unfold parse. split.
  - intros Hp. invert_ok Hp. injection Hp as <-.
    apply ok_or_Ok in Hstep. apply reject_if_Ok in Hstep0, Hstep1.
    unfold verify_integrity_root in Hstep1. by bool_facts.
  - intros (-> & Hv & Hr). cbn. rewrite Hv. unfold verify_integrity_root.
    by rewrite bool_decide_eq_true_2.
Qed.

(** Two inputs that break the hash. *)
Definition collision (a b : list byte) : Prop := a <> b /\ sha256_hex a = sha256_hex b.

(** What the root is the hash of. *)
Definition root_input (m : Manifest) : list byte :=
  concat (String.list_byte_of_string <$> (ce_content_hash <$> mf_components m)) ++ canonical_without_root m.

Lemma hash_eq (a b : list byte) : sha256_hex a = sha256_hex b -> a = b \/ collision a b.
Proof. intros Hh. destruct (decide (a = b)); [by left | by right]. Qed.

(** C35 (round trip). A sealed manifest is its checkpoint's integrity anchor.  Its
    canonical bytes parse back to the sealed manifest, whose content is the scaffold's
    and whose digest is the hash of those bytes.  Other bytes that parse to another
    manifest have another digest, or are a collision of the hash with the sealed
    bytes; and a parsed manifest that carries the sealed root has the sealed component
    hashes and metadata as its root input, or collides with them. *)
Theorem sealed_manifest_anchored (c : CheckpointObject) (bytes : list byte) (m' : Manifest) :
  let sm := seal (scaffold c) in
  manifest_from_slice (sm_canonical_bytes sm) = Some (sm_manifest sm) ->
  parse bytes = Ok m' ->
  parse (sm_canonical_bytes sm) = Ok (sm_manifest sm) /\
  set_root "" (sm_manifest sm) = scaffold c /\
  sm_digest sm = manifest_digest (sm_manifest sm) /\
  (m' <> sm_manifest sm ->
     sha256_hex bytes <> sm_digest sm \/ collision bytes (sm_canonical_bytes sm)) /\
  (ii_root (mf_integrity m') = sm_integrity_root sm ->
     root_input m' = root_input (scaffold c) \/ collision (root_input m') (root_input (scaffold c))).
Proof.
  intros sm Hrt Hp. split_and!; try done.
  - apply parse_Ok. split_and!; [exact Hrt | done |]. apply manifest_root_set.
  - apply parse_Ok in Hp as [Hs _]. intros Hne.
    destruct (decide (sha256_hex bytes = sm_digest sm)) as [Hd |]; [right | by left].
    split; [| exact Hd]. intros ->. congruence.
  - apply parse_Ok in Hp as (_ & _ & Hr). intros Hroot. apply hash_eq.
    change (manifest_integrity_root m' = manifest_integrity_root (scaffold c)). by rewrite Hr, Hroot.
Qed.
End manifest_theorems.

(** A codec that writes the attempt and the root, and a hash that is the identity. *)
Definition plain_sha256 : Sha256 := {| sha256_hex := fun l => String.string_of_list_byte l |}.

Definition plain_checkpoint : CheckpointObject :=
  sample_checkpoint (id_splat Byte.x01) (id_splat Byte.x02) (local_default "linux" "x86_64" "1").

Definition attempt_codec : ManifestCodec :=
  {| manifest_to_vec := fun m => String.list_byte_of_string (mf_capture_attempt m) ++
       String.list_byte_of_string (ii_root (mf_integrity m));
     manifest_from_slice := fun l =>
       Some (set_root (String.string_of_list_byte (tail l)) (scaffold plain_checkpoint)) |}.

Example sealed_manifest_anchored_witness :
  @parse plain_sha256 attempt_codec (@sm_canonical_bytes (@seal plain_sha256 attempt_codec (scaffold plain_checkpoint)))
    = Ok (sm_manifest (@seal plain_sha256 attempt_codec (scaffold plain_checkpoint))).
Proof.
  refine (proj1 (@sealed_manifest_anchored plain_sha256 attempt_codec plain_checkpoint
    (@sm_canonical_bytes (@seal plain_sha256 attempt_codec (scaffold plain_checkpoint)))
    (sm_manifest (@seal plain_sha256 attempt_codec (scaffold plain_checkpoint))) _ _));
    vm_compute; reflexivity.
Defined.
