(* ===== verification/Serial.v ===== *)
(** Concrete encodings, for the witnesses that need a codec with a law: a value written as
    bytes that end by themselves, and the manifest built from them.  The code uses JSON;
    nothing of the development depends on this choice. *)
From S2P Require Import Prelude Errors Ident Lifecycle Checkpoint Manifest.
From Stdlib Require Import Strings.Ascii Strings.Byte.

Class Serial (A : Type) := {
  put : A -> list byte;
  get : list byte -> option (A * list byte);
  get_put : forall a l, get (put a ++ l) = Some (a, l)
}.

(** What is written before a value written elsewhere. *)
Definition serial_via {A B} `{Serial B} (f : A -> B) (g : B -> option A) (Hfg : forall a, g (f a) = Some a) : Serial A.
Proof.
  refine {| put := fun a => put (f a); get := fun l => '(b, l') ← get l; a ← g b; Some (a, l') |}.
  intros a l. rewrite get_put. cbn. by rewrite Hfg.
Defined.

#[export] Instance serial_byte : Serial byte :=
  {| put := fun b => [b]; get := fun l => match l with b :: l' => Some (b, l') | [] => None end;
     get_put := fun b l => eq_refl |}.

#[export] Instance serial_pair {A B} `{Serial A, Serial B} : Serial (A * B).
Proof.
  refine {| put := fun p => put (fst p) ++ put (snd p);
            get := fun l => '(a, l1) ← get l; '(b, l2) ← get l1; Some ((a, b), l2) |}.
  intros [a b] l. cbn. rewrite <- app_assoc, get_put. cbn. by rewrite get_put.
Defined.

#[export] Instance serial_option {A} `{Serial A} : Serial (option A).
Proof.
  refine {| put := fun o => match o with None => [Byte.x00] | Some a => Byte.x01 :: put a end;
            get := fun l => match l with
                            | Byte.x00 :: l' => Some (None, l')
                            | Byte.x01 :: l' => '(a, l1) ← get l'; Some (Some a, l1)
                            | _ => None
                            end |}.
  intros [a |] l; cbn; [by rewrite get_put | done].
Defined.

(** A list: its elements after a [1] each, and a [0]. *)
Section list.
Context {A : Type} `{Serial A}.

Fixpoint put_list (xs : list A) : list byte :=
  match xs with [] => [Byte.x00] | x :: xs' => Byte.x01 :: put x ++ put_list xs' end.

Fixpoint get_list (fuel : nat) (l : list byte) : option (list A * list byte) :=
  match fuel, l with
  | S fuel', Byte.x00 :: l' => Some ([], l')
  | S fuel', Byte.x01 :: l' => '(x, l1) ← get l'; '(xs, l2) ← get_list fuel' l1; Some (x :: xs, l2)
  | _, _ => None
  end.

Lemma get_put_list xs : forall fuel l, (length xs < fuel)%nat -> get_list fuel (put_list xs ++ l) = Some (xs, l).
Proof.
  induction xs as [| x xs IH]; intros [| fuel] l Hf; cbn in *; try lia; [done |].
  rewrite <- app_assoc, get_put. cbn. by rewrite IH by lia.
Qed.

Lemma put_list_length xs : (length xs < length (put_list xs))%nat.
Proof. induction xs as [| x xs IH]; cbn; [lia |]. rewrite length_app. lia. Qed.

#[export] Instance serial_list : Serial (list A).
Proof.
  refine {| put := put_list; get := fun l => get_list (length l) l |}.
  intros xs l. apply get_put_list. rewrite length_app. pose proof (put_list_length xs). lia.
Defined.
End list.

#[export] Instance serial_string : Serial string :=
  serial_via String.list_byte_of_string (fun l => Some (String.string_of_list_byte l))
    (fun s => f_equal Some (String.string_of_list_byte_of_string s)).

(** A positive number: its bits, from the least. *)
Fixpoint put_bits (p : positive) : list byte :=
  match p with xH => [] | xO p' => Byte.x00 :: put_bits p' | xI p' => Byte.x01 :: put_bits p' end.
Fixpoint get_bits (l : list byte) : positive :=
  match l with [] => xH | Byte.x00 :: l' => xO (get_bits l') | _ :: l' => xI (get_bits l') end.

Lemma get_put_bits p : get_bits (put_bits p) = p.
Proof. induction p as [p IH | p IH |]; cbn; by rewrite ?IH. Qed.

#[export] Instance serial_positive : Serial positive :=
  serial_via put_bits (fun l => Some (get_bits l)) (fun p => f_equal Some (get_put_bits p)).

#[export] Instance serial_bool : Serial bool.
Proof.
  refine (serial_via (fun b : bool => if b then Byte.x01 else Byte.x00) (fun b => Some (Byte.eqb b Byte.x01)) _). by intros [].
Defined.

#[export] Instance serial_Z : Serial Z.
Proof.
  refine (serial_via (fun z => match z with Z0 => None | Zpos p => Some (true, p) | Zneg p => Some (false, p) end)
    (fun o => Some (match o with None => Z0 | Some (true, p) => Zpos p | Some (false, p) => Zneg p end)) _). by intros [].
Defined.

#[export] Instance serial_id : Serial Id := serial_via as_bytes from_bytes from_bytes_as_bytes.

#[export] Instance serial_map {K A} `{Countable K, Serial K, Serial A} : Serial (gmap K A).
Proof.
  refine (serial_via (B := list (K * A)) (map_to_list (M := gmap K A)) (fun l => Some (list_to_map l : gmap K A)) _).
  intros m. cbn. by rewrite list_to_map_to_list.
Defined.

(** A value of an enumeration: its name. *)
Definition named {A} (name : A -> string) (all : list A) (s : string) : option A :=
  head (List.filter (fun x => bool_decide (name x = s)) all).

(** ** The records of a manifest *)

Ltac serial_record := by intros [].

#[export] Instance serial_checkpoint_type : Serial CheckpointType.
Proof.
  refine (serial_via checkpoint_type_as_str
    (named checkpoint_type_as_str
       [Full; Incremental; Delta; Application; Process; TypeExecutionFrontier; Portable; LocalOnly]) _). serial_record.
Defined.

#[export] Instance serial_consistency : Serial ConsistencyClass.
Proof.
  refine (serial_via consistency_as_str
    (named consistency_as_str [CrashConsistent; ApplicationConsistent; ExecutionConsistent]) _). serial_record.
Defined.

#[export] Instance serial_resumability : Serial ResumabilityClass.
Proof.
  refine (serial_via resumability_as_str
    (named resumability_as_str [NonResumable; RestartFromCheckpoint; Degraded; Equivalent; Exact]) _). serial_record.
Defined.

#[export] Instance serial_component_type : Serial ComponentType.
Proof.
  refine (serial_via component_type_as_str
    (named component_type_as_str
       [ProcessMetadata; ApplicationState; MemoryRegion; AcceleratorState; RuntimeState; QueueState;
        SchedulerState; RngState; FilesystemState; OpenResourceDescriptor; ToolState; ModelState;
        KvState; CustomState]) _). serial_record.
Defined.

#[export] Instance serial_in_flight : Serial InFlightOperation.
Proof.
  refine (serial_via (fun o => (ifo_operation_id o, ifo_kind o, ifo_started_ms o, ifo_idempotent o, ifo_externally_committed o))
    (fun '(a, b, c, d, e) => Some (mkInFlightOperation a b c d e)) _). serial_record.
Defined.

#[export] Instance serial_flags : Serial ResumabilityFlags.
Proof.
  refine (serial_via (fun f => (rf_exact f, rf_equivalent f, rf_degraded f, rf_deterministic_replay_verified f,
                        rf_pending_non_replayable f, rf_unknown_side_effects f))
    (fun '(a, b, c, d, e, f) => Some (mkResumabilityFlags a b c d e f)) _). serial_record.
Defined.

#[export] Instance serial_frontier : Serial ExecutionFrontier.
Proof.
  refine (serial_via (fun f => (fr_workload_generation f, fr_execution_epoch f, fr_logical_step f, fr_application_sequence f,
                        fr_durable_side_effect_boundary f, fr_state_generation_map f, fr_tool_item_frontier f,
                        fr_external_commit_frontier f, fr_last_completed_operation_id f,
                        fr_in_flight_operations f, fr_flags f))
    (fun '(a, b, c, d, e, f, g, h, i, j, k) => Some (mkExecutionFrontier a b c d e f g h i j k)) _). serial_record.
Defined.

#[export] Instance serial_location : Serial DurableLocation.
Proof.
  refine (serial_via (fun l => (loc_node l, loc_path l, loc_verified l)) (fun '(a, b, c) => Some (mkDurableLocation a b c)) _). serial_record.
Defined.

#[export] Instance serial_storage : Serial StorageRepresentation.
Proof.
  refine (serial_via (fun r => (sr_codec r, sr_original_size r, sr_stored_size r, sr_stored_hash r, sr_relative_path r))
    (fun '(a, b, c, d, e) => Some (mkStorageRepresentation a b c d e)) _). serial_record.
Defined.

#[export] Instance serial_component : Serial ComponentEntry.
Proof.
  refine (serial_via (fun c => (ce_component_id c, ce_component_type c, ce_generation c, ce_required c, ce_logical_size c,
                        ce_storage_representation c, ce_content_hash c, ce_schema_version c, ce_restore_handler c,
                        (ce_compatibility c : string), ce_dependencies c, ce_capture_status c, ce_restore_status c))
    (fun '(a, b, c, d, e, f, g, h, i, j, k, l, m) => Some (mkComponentEntry a b c d e f g h i j k l m)) _). serial_record.
Defined.

#[export] Instance serial_dependency : Serial ExternalDependency.
Proof.
  refine (serial_via (fun d => (dep_kind d, dep_identity d, dep_expected_hash d, dep_required d))
    (fun '(a, b, c, d) => Some (mkExternalDependency a b c d)) _). serial_record.
Defined.

#[export] Instance serial_accelerator : Serial AcceleratorRequirement.
Proof.
  refine (serial_via (fun a => (ar_vendor a, ar_model a, ar_capability a, ar_memory_bytes a))
    (fun '(a, b, c, d) => Some (mkAcceleratorRequirement a b c d)) _). serial_record.
Defined.

#[export] Instance serial_hardware : Serial HardwareCompatibilityDescriptor.
Proof.
  refine (serial_via (fun h => (hw_os h, hw_arch h, hw_accelerator h, hw_word_size_bits h, hw_endianness h))
    (fun '(a, b, c, d, e) => Some (mkHardwareCompatibilityDescriptor a b c d e)) _). serial_record.
Defined.

#[export] Instance serial_runtime : Serial RuntimeCompatibilityDescriptor.
Proof.
  refine (serial_via (fun r => (rt_os r, rt_arch r, rt_runtime_version r, rt_state_schema_version r, rt_workload_class r,
                        rt_backend_class r, rt_accelerator_capabilities r, rt_provider_versions r, rt_application r))
    (fun '(a, b, c, d, e, f, g, h, i) => Some (mkRuntimeCompatibilityDescriptor a b c d e f g h i)) _). serial_record.
Defined.

#[export] Instance serial_integrity : Serial IntegrityInfo.
Proof.
  refine (serial_via (fun i => (ii_content_hash_algorithm i, ii_root i)) (fun '(a, b) => Some (mkIntegrityInfo a b)) _). serial_record.
Defined.

#[export] Instance serial_manifest : Serial Manifest.
Proof.
  refine (serial_via
    (fun m => ((mf_format_version m, mf_checkpoint_id m, mf_workload_id m, mf_workload_generation m,
                mf_checkpoint_generation m, mf_parent_checkpoint m, mf_capture_attempt m, mf_coordinator_epoch m,
                mf_created_ms m, mf_seal_ms m, mf_source_node m, mf_source_backend m, mf_frontier m,
                mf_checkpoint_type m, mf_consistency m),
               (mf_resumability m, mf_components m, mf_total_logical_bytes m, mf_total_physical_bytes m,
                mf_compressed_bytes m, mf_durable_locations m, mf_replica_count m, mf_lineage_parents m,
                mf_policy_version m, mf_runtime_descriptor m, mf_hardware_descriptor m, mf_dependencies m,
                mf_integrity m, (mf_metadata m : string))))
    (fun '((a1, a2, a3, a4, a5, a6, a7, a8, a9, a10, a11, a12, a13, a14, a15),
           (b1, b2, b3, b4, b5, b6, b7, b8, b9, b10, b11, b12, b13, b14)) =>
       Some (mkManifest a1 a2 a3 a4 a5 a6 a7 a8 a9 a10 a11 a12 a13 a14 a15
               b1 b2 b3 b4 b5 b6 b7 b8 b9 b10 b11 b12 b13 b14)) _). serial_record.
Defined.

(** The codec: every manifest is read back. *)
Definition serial_codec : ManifestCodec :=
  {| manifest_to_vec := put; manifest_from_slice := fun l => fst <$> get l |}.

Lemma serial_codec_reads (m : Manifest) :
  manifest_from_slice (ManifestCodec := serial_codec) (manifest_to_vec (ManifestCodec := serial_codec) m) = Some m.
Proof.
  unfold serial_codec, manifest_from_slice, manifest_to_vec. rewrite <- (app_nil_r (put m)). by rewrite get_put.
Qed.

Example serial_codec_runs :
  manifest_from_slice (ManifestCodec := serial_codec)
    (manifest_to_vec (ManifestCodec := serial_codec) (scaffold plain_checkpoint)) = Some (scaffold plain_checkpoint).
Proof. vm_compute. reflexivity. Qed.
