(* ===== verification/Messages.v ===== *)
(** The messages between the coordinator and the nodes ([src/src/protocol.rs]) and the
    interface [NodeRpc] of what a node may answer.  The coordinator's theorems hold for
    every [NodeRpc]: a node may fail, lie or answer out of date. *)
From S2P Require Import Prelude Errors Ident Lifecycle Checkpoint Workload Compression Policy Capture Json.
From Stdlib Require Import Strings.Byte.

Record NodeCaptureRequest := mkNodeCaptureRequest {
  ncq_attempt_id : string;
  ncq_checkpoint_id : Id;
  ncq_workload_id : Id;
  ncq_checkpoint_generation : Z;
  ncq_consistency : ConsistencyClass;
  ncq_quiescence : QuiescenceMode;
  ncq_components : list CaptureComponentRequest;
  ncq_compression : CompressionSpec;
  ncq_coordinator_epoch : Z
}.

Record NodeCaptureResult := mkNodeCaptureResult {
  ncr_attempt_id : string;
  ncr_ok : bool;
  ncr_error : option string;
  ncr_components : list ComponentEntry;
  ncr_total_logical_bytes : Z;
  ncr_total_physical_bytes : Z;
  ncr_compressed_bytes : Z;
  ncr_cooperative_ack : bool;
  ncr_staging_path : option string
}.

Record NodeRestoreRequest := mkNodeRestoreRequest {
  nrq_attempt_id : string;
  nrq_checkpoint_id : Id;
  nrq_workload_id : Id;
  nrq_expected_manifest_digest : string;
  nrq_max_component_bytes : option Z;
  nrq_coordinator_epoch : Z
}.

Record NodeRestoreResult := mkNodeRestoreResult {
  nrr_attempt_id : string;
  nrr_ok : bool;
  nrr_error : option string;
  nrr_restored_components : list string
}.

Record NodeProbeRequest := mkNodeProbeRequest {
  npq_checkpoint_id : Id;
  npq_coordinator_epoch : Z
}.

Record NodeProbeResult := mkNodeProbeResult {
  npr_checkpoint_id : Id;
  npr_has_replica : bool
}.

Record NodePromoteRequest := mkNodePromoteRequest {
  nmq_attempt_id : string;
  nmq_checkpoint_id : Id;
  nmq_manifest_bytes : list byte;
  nmq_digest : string;
  nmq_integrity_root : string;
  nmq_coordinator_epoch : Z
}.

Record NodePromoteResult := mkNodePromoteResult {
  nmr_attempt_id : string;
  nmr_ok : bool;
  nmr_error : option string;
  nmr_commit_path : option string
}.

Record NodeResumeRequest := mkNodeResumeRequest {
  nsq_attempt_id : string;
  nsq_checkpoint_id : Id;
  nsq_workload_id : Id;
  nsq_fence_token : option string;
  nsq_execution_epoch : option Z;
  nsq_resume : bool;
  nsq_coordinator_epoch : Z
}.

Record NodeResumeResult := mkNodeResumeResult {
  nsr_attempt_id : string;
  nsr_ok : bool;
  nsr_error : option string
}.

Record NodeVerifyRequest := mkNodeVerifyRequest {
  nvq_checkpoint_id : Id;
  nvq_expected_manifest_digest : string;
  nvq_coordinator_epoch : Z
}.

Record NodeVerifyResult := mkNodeVerifyResult {
  nvr_checkpoint_id : Id;
  nvr_ok : bool;
  nvr_error : option string;
  nvr_manifest_digest : option string
}.

Record RestoreCleanupTarget := mkRestoreCleanupTarget {
  rt_attempt_id : string;
  rt_checkpoint_id : Id;
  rt_workload_id : Id
}.

Record NodeCleanupRequest := mkNodeCleanupRequest {
  nlq_staging_attempts : list string;
  nlq_staging_paths : list string;
  nlq_restore_attempts : list RestoreCleanupTarget;
  nlq_checkpoint_ids : list Id;
  nlq_coordinator_epoch : Z
}.

Record NodeCleanupResult := mkNodeCleanupResult {
  nlr_removed_paths : list string;
  nlr_removed_checkpoints : list string;
  nlr_error : option string
}.

Record NodeReplicateRequest := mkNodeReplicateRequest {
  npl_attempt_id : string;
  npl_checkpoint_id : Id;
  npl_expected_manifest_digest : string;
  npl_from_addr : string;
  npl_fetch_token : string;
  npl_coordinator_epoch : Z
}.

Record NodeReplicateResult := mkNodeReplicateResult {
  npe_attempt_id : string;
  npe_ok : bool;
  npe_error : option string;
  npe_path : option string
}.

Record NodeAllowFetchRequest := mkNodeAllowFetchRequest {
  naf_checkpoint_id : Id;
  naf_fetch_token : string;
  naf_ttl_ms : Z;
  naf_coordinator_epoch : Z
}.

Record Envelope := mkEnvelope { en_status : Z; en_error : option string }.

(** The answer of a node, by the moment of the call: a decoded response, or the error
    of the connection, of the node's dispatcher or of the decoder. *)
Class NodeRpc := {
  node_capture : nat -> string -> NodeCaptureRequest -> FabricResult NodeCaptureResult;
  node_promote : nat -> string -> NodePromoteRequest -> FabricResult NodePromoteResult;
  node_resume : nat -> string -> NodeResumeRequest -> FabricResult NodeResumeResult;
  node_restore : nat -> string -> NodeRestoreRequest -> FabricResult NodeRestoreResult;
  node_probe : nat -> string -> NodeProbeRequest -> FabricResult NodeProbeResult;
  node_verify : nat -> string -> NodeVerifyRequest -> FabricResult NodeVerifyResult;
  node_cleanup : nat -> string -> NodeCleanupRequest -> FabricResult NodeCleanupResult;
  node_replicate : nat -> string -> NodeReplicateRequest -> FabricResult NodeReplicateResult;
  node_allow_fetch : nat -> string -> NodeAllowFetchRequest -> FabricResult Envelope
}.

(** What the coordinator reads out of texts: JSON, and the socket address of a node. *)
Class NodeTexts := {
  texts_json :: JsonCodec;
  parse_socket_addr : string -> option string
}.
