(* ===== verification/Recovery.v ===== *)
(** Crash recovery ([src/src/recovery.rs]): the journal states of captures and
    restores, and the reconciliation of the store after a restart.  The physical
    reconciliation of a node ([reconcile_node_storage]) is in [Storage]. *)
From S2P Require Import Prelude Errors Ident Lifecycle Checkpoint Workload Capture.
From S2P Require Import Lineage Tables Persist World.

(** [recovery::capture_states] and [recovery::restore_states]. *)
Definition capture_RESERVED : string := "reserved".
Definition capture_SEALED : string := "sealed".
Definition capture_PERSISTED : string := "persisted".
Definition capture_DB_COMMITTED : string := "db_committed".
Definition capture_RESUME_DONE : string := "resume_done".

Definition restore_RESERVED : string := "reserved".
Definition restore_PROVISIONED : string := "provisioned".
Definition restore_COMPONENTS_RESTORED : string := "components_restored".
Definition restore_GENERATION_COMMITTED : string := "generation_committed".
Definition restore_RESUMED : string := "resumed".

Record RecoveryAction := mkRecoveryAction {
  ra_kind : string;
  ra_key : string;
  ra_state : string;
  ra_detail : string
}.

Record RecoveryOutcome := mkRecoveryOutcome {
  rc_actions : list RecoveryAction;
  rc_stale_nodes : list string;
  rc_expired_reservations : Z;
  rc_ok : bool
}.

(** [coordinator::OperationContext]. *)
Record OperationContext := mkOperationContext {
  ctx_actor : string;
  ctx_roles : list string;
  ctx_stale_ms : Z
}.

Section reconcile.
Context `{Env}.

(** [ckpt.lifecycle == A || ckpt.lifecycle == B]. *)
Definition lifecycle_is (l : LifecycleState) (states : list LifecycleState) : bool :=
  existsb (fun x => bool_decide (l = x)) states.
#[global] Arguments lifecycle_is : simpl never.

(** The arm ["capture"] of [reconcile_attempt]. *)
Definition reconcile_capture (a : AttemptRecord) : M World RecoveryAction :=
  let key := at_id a in
  has_persisted ← db (fun _ => journal_has "capture" key capture_PERSISTED);
  has_db ← db (fun _ => journal_has "capture" key capture_DB_COMMITTED);
  if (has_db : bool) then
    db (fun now => attempt_finish now key "COMMITTED" (Some "capture committed before restart") None) ;;
    db (fun _ => reservation_release key) ;;
    mret (mkRecoveryAction "capture" key "db_committed"
            "capture metadata commit confirmed after restart")
  else if (has_persisted : bool) then
    ckpt_id ← lift (ok_or (at_checkpoint_id a)
                      (Internal "capture attempt {key} has no checkpoint id"));
    found ← db (fun _ => checkpoint_get ckpt_id);
    ckpt ← lift (ok_or found (CheckpointNotFound "{ckpt_id}"));
    committed ← attempt (db (fun now => capture_commit now ckpt_id key));
    match committed with
    | Err _ =>
        when (lifecycle_is (ck_lifecycle ckpt) [Persisting; Available])
          (lift (transition (ck_lifecycle ckpt) Failed) ;;
           db (fun _ => checkpoint_set_lifecycle ckpt_id Failed Corrupt)) ;;
        db (fun now => attempt_finish now key "FAILED" None
                         (Some "persisted checkpoint metadata is incomplete: {error}")) ;;
        db (fun _ => reservation_release key) ;;
        db (fun now => audit_append now "coordinator" "capture.recovery_rejected"
                         (Some (ck_workload_id ckpt)) (Some ckpt_id) AuditFailed
                         "attempt {key}: refusing to fabricate an available checkpoint from incomplete persisted metadata: {error}") ;;
        mret (mkRecoveryAction "capture" key "failed_cleanup"
                "persisted checkpoint metadata was incomplete and was rejected: {error}")
    | Ok _ =>
        db (fun now => attempt_finish now key "COMMITTED"
                         (Some "capture metadata commit completed by recovery") None) ;;
        db (fun _ => reservation_release key) ;;
        db (fun now => audit_append now "coordinator" "capture.recovery_commit"
                         (Some (ck_workload_id ckpt)) (Some ckpt_id) AuditRecovered
                         "attempt {key}: physical commit found without metadata commit; re-committed idempotently") ;;
        mret (mkRecoveryAction "capture" key "db_committed"
                "capture physically persisted; metadata commit completed by recovery")
    end
  else
    db (fun now => attempt_finish now key "FAILED" None
                     (Some "attempt interrupted before durable commit")) ;;
    db (fun _ => reservation_release key) ;;
    db (fun now => audit_append now "coordinator" "capture.aborted_by_recovery"
                     (at_workload_id a) (at_checkpoint_id a) AuditFailed
                     "attempt {key} aborted: no durable commit evidence") ;;
    mret (mkRecoveryAction "capture" key "failed"
            "capture attempt aborted by recovery (no durable commit evidence)").

(** The checkpoint of an interrupted restore goes back to [Available]. *)
Definition reopen_checkpoint (checkpoint_id : Id) : M World unit :=
  found ← db (fun _ => checkpoint_get checkpoint_id);
  match found with
  | Some checkpoint =>
      when (lifecycle_is (ck_lifecycle checkpoint) [RestorePending; Restoring])
        (lift (transition (ck_lifecycle checkpoint) Available) ;;
         db (fun _ => checkpoint_set_lifecycle checkpoint_id Available Valid))
  | None => mret tt
  end.

(** The arm ["restore" | "rollback"] of [reconcile_attempt]. *)
Definition reconcile_restore (a : AttemptRecord) : M World RecoveryAction :=
  let key := at_id a in
  has_restored ← db (fun _ => journal_has "restore" key restore_COMPONENTS_RESTORED);
  has_committed ← db (fun _ => journal_has "restore" key restore_GENERATION_COMMITTED);
  has_resumed ← db (fun _ => journal_has "restore" key restore_RESUMED);
  if (has_committed : bool) then
    if (negb has_resumed : bool) then
      db (fun now => attempt_finish now key "COMMITTED"
                       (Some "generation committed; resume unverified after restart") None) ;;
      db (fun _ => reservation_release key) ;;
      db (fun now => audit_append now "coordinator" "restore.resume_unverified"
                       (at_workload_id a) (at_checkpoint_id a) AuditRecovered
                       "restore attempt {key}: generation committed before restart; resume state unverified") ;;
      mret (mkRecoveryAction "restore" key "resume_unverified"
              "restore committed; resume unverified after restart")
    else
      db (fun now => attempt_finish now key "COMMITTED" (Some "restore committed before restart") None) ;;
      db (fun _ => reservation_release key) ;;
      mret (mkRecoveryAction "restore" key "committed" "restore confirmed committed after restart")
  else if (has_restored : bool) then
    match at_checkpoint_id a with
    | Some checkpoint_id => reopen_checkpoint checkpoint_id
    | None => mret tt
    end ;;
    db (fun now => attempt_finish now key "FAILED" None
                     (Some "restore interrupted before generation commit")) ;;
    db (fun _ => reservation_release key) ;;
    db (fun now => audit_append now "coordinator" "restore.cleaned_by_recovery"
                     (at_workload_id a) (at_checkpoint_id a) AuditFailed
                     "restore attempt {key}: components restored but generation commit missing; target cleanup required") ;;
    mret (mkRecoveryAction "restore" key "failed_cleanup"
            "restore interrupted before generation commit; target cleanup required")
  else
    db (fun now => attempt_finish now key "FAILED" None (Some "restore interrupted before provisioning")) ;;
    db (fun _ => reservation_release key) ;;
    mret (mkRecoveryAction "restore" key "failed"
            "restore attempt aborted by recovery (no durable progress)").

(** The last arm of [reconcile_attempt]. *)
Definition reconcile_unknown (a : AttemptRecord) : M World RecoveryAction :=
  let key := at_id a in
  db (fun now => attempt_finish now key "FAILED" None (Some "unknown attempt kind")) ;;
  db (fun _ => reservation_release key) ;;
  mret (mkRecoveryAction (at_kind a) key "failed" "attempt of unknown kind aborted by recovery").

Definition reconcile_attempt (a : AttemptRecord) : M World RecoveryAction :=
  if bool_decide (at_kind a = "capture") then reconcile_capture a
  else if bool_decide (at_kind a = "restore") || bool_decide (at_kind a = "rollback")
  then reconcile_restore a
  else reconcile_unknown a.

(** The loop over the attempts. *)
Fixpoint reconcile_attempts (l : list AttemptRecord) : M World (list RecoveryAction) :=
  match l with
  | [] => mret []
  | a :: l' =>
      action ← reconcile_attempt a;
      actions ← reconcile_attempts l';
      mret (action :: actions)
  end.

(** One node of the loop over the stale nodes. *)
Definition declare_stale (n : string) : M World unit :=
  db (fun _ => node_set_status n "STALE") ;;
  db (fun now => audit_append now "coordinator" "node.stale" None None AuditFailed
                   "node {n} declared stale by recovery").

Definition reconcile (ctx : OperationContext) : M World RecoveryOutcome :=
  now ← now_ms;
  expired_reservations ← db (fun _ => reservations_expire now);
  now ← now_ms;
  let stale_before := saturating_sub now (ctx_stale_ms ctx) in
  stale ← db (fun _ => nodes_sweep_stale stale_before);
  for_m declare_stale stale ;;
  attempts ← db (fun _ => attempts_in_state "ACTIVE");
  actions ← reconcile_attempts attempts;
  mret (mkRecoveryOutcome actions stale expired_reservations true).
End reconcile.
