(* ===== verification/RecoveryFacts.v ===== *)
(** Properties of the recovery ([Recovery]). *)
From S2P Require Import Prelude Errors Ident Lifecycle Checkpoint Workload Compression Policy Capture.
From S2P Require Import Lineage Tables Persist Schema StoreFacts Fencing Commit World Recovery.

(** ** What ends an attempt *)

(** The attempt row as [attempt_finish] leaves it. *)
Definition ended (state : string) (result error : option string) (ts : Z) (a : AttemptRecord) : AttemptRecord :=
  a <| at_state := state |> <| at_result := result |> <| at_error := error |> <| at_finished_ms := Some ts |>.

Definition released (r : Reservation) : Reservation :=
  if is_active_reservation r then r <| rv_state := "RELEASED" |> else r.

(** From [s] to [s'] the attempt [key] ended in [state] and gave up its reservation,
    and no other attempt or reservation changed. *)
Record settled (key state : string) (s s' : Store) : Prop := {
  sd_attempts : exists result error ts,
    st_attempts s' = alter (ended state result error ts) key (st_attempts s);
  sd_reservations : st_reservations s' = alter released key (st_reservations s);
  sd_nodes : st_nodes s' = st_nodes s
}.

Lemma settled_attempt key state (s s' : Store) a :
  settled key state s s' -> st_attempts s' !! key = Some a -> at_state a = state.
Proof.
  intros [(result & error & ts & ->) _ _]. by intros [(_ & a0 & _ & ->) | [? _]]%lookup_alter_Some.
Qed.

Lemma settled_reservation key state (s s' : Store) r :
  settled key state s s' -> st_reservations s' !! key = Some r -> is_active_reservation r = false.
Proof.
  intros [_ -> _]. unfold released. intros [(_ & r0 & _ & ->) | [? _]]%lookup_alter_Some; [| done].
  by destruct (is_active_reservation r0) eqn:Er.
Qed.

Lemma settled_other key state (s s' : Store) k :
  settled key state s s' -> k <> key ->
  st_attempts s' !! k = st_attempts s !! k /\ st_reservations s' !! k = st_reservations s !! k.
Proof.
  intros [(result & error & ts & ->) -> _] Hne. by rewrite !lookup_alter_ne.
Qed.

(** Two stores that agree on attempts, reservations and nodes. *)
Definition same_work (s s' : Store) : Prop :=
  st_attempts s' = st_attempts s /\ st_reservations s' = st_reservations s /\
  st_nodes s' = st_nodes s.

Lemma same_work_trans s1 s2 s3 : same_work s1 s2 -> same_work s2 s3 -> same_work s1 s3.
Proof. intros (A & B & D) (A' & B' & D'). unfold same_work. by rewrite A', B', D', A, B, D. Qed.

Lemma same_work_update_checkpoint_opt o f (s : Store) : same_work s (update_checkpoint_opt o f s).
Proof. by destruct o. Qed.

Lemma same_work_link id prev next (s : Store) : same_work s (link_checkpoint id prev next s).
Proof.
  eapply same_work_trans, same_work_update_checkpoint_opt.
  eapply same_work_trans, same_work_update_checkpoint_opt. done.
Qed.

Lemma same_work_record now wid id prev (s : Store) : same_work s (record_supersedes now wid id prev s).
Proof. unfold record_supersedes. destruct prev; [by split_match | done]. Qed.

Lemma same_work_advance wid g row (s : Store) :
  same_work s (advance_checkpoint_generation wid g row s).
Proof. unfold advance_checkpoint_generation. by split_match. Qed.

Lemma same_work_journal kind key state detail ts (s : Store) :
  same_work s (journal_insert kind key state detail ts s).
Proof. unfold journal_insert. by split_match. Qed.

Lemma capture_writes_frame now id attempt row w (s : Store) :
  same_work s (capture_writes now id attempt row w s).
Proof.
  eapply same_work_trans, same_work_journal. eapply same_work_trans, same_work_advance.
  eapply same_work_trans, same_work_record. apply same_work_link.
Qed.

Lemma capture_commit_committed now id attempt row w (s : Store) :
  schema_ok s -> capture_admissible s id row w ->
  exists row', st_checkpoints (capture_writes now id attempt row w s) !! id = Some row' /\
    ck_lifecycle row' = Available /\ ck_integrity_state row' = Valid.
Proof.
  intros Hs Ha. rewrite capture_writes_checkpoints, link_checkpoint_lookup, (ca_row _ _ _ _ Ha).
  rewrite (bool_decide_eq_true_2 (id = id)) by done. eexists. split; [reflexivity |].
  by repeat split_match.
Qed.

(** ** Recoverable stores *)

(** A capture whose metadata was declared durable names a checkpoint that exists. *)
Definition recoverable (s : Store) : Prop :=
  forall key a, st_attempts s !! key = Some a -> at_kind a = "capture" ->
    journal_contains "capture" key capture_PERSISTED s = true ->
    exists cid, at_checkpoint_id a = Some cid /\ is_Some (st_checkpoints s !! cid).

(** What a statement must do to keep it: no attempt appears or changes its identity,
    no checkpoint disappears, and no [PERSISTED] record appears. *)
Definition work_extends (s s' : Store) : Prop :=
  (forall key a', st_attempts s' !! key = Some a' -> exists a, st_attempts s !! key = Some a /\
     at_kind a = at_kind a' /\ at_checkpoint_id a = at_checkpoint_id a') /\
  (forall cid, is_Some (st_checkpoints s !! cid) -> is_Some (st_checkpoints s' !! cid)) /\
  (forall key, journal_contains "capture" key capture_PERSISTED s' = true ->
     journal_contains "capture" key capture_PERSISTED s = true).

Lemma recoverable_extends (s s' : Store) : work_extends s s' -> recoverable s -> recoverable s'.
Proof.
  intros (Ha & Hc & Hj) Hs key a' Ha' Hk Hp.
  destruct (Ha key a' Ha') as (a & Hl & E1 & E2).
  destruct (Hs key a Hl) as (cid & Hcid & Hrow); [congruence | by apply Hj |].
  exists cid. split; [congruence | by apply Hc].
Qed.

Lemma work_extends_refl_attempts (s s' : Store) :
  st_attempts s' = st_attempts s ->
  forall key a', st_attempts s' !! key = Some a' -> exists a, st_attempts s !! key = Some a /\
     at_kind a = at_kind a' /\ at_checkpoint_id a = at_checkpoint_id a'.
Proof. intros E key a'. rewrite E. intros Hl. by exists a'. Qed.

Lemma journal_insert_other k y t kind key state detail ts (s : Store) :
  (k, t) <> (kind, state) ->
  journal_contains k y t (journal_insert kind key state detail ts s) = journal_contains k y t s.
Proof.
  intros Hne. unfold journal_contains, journal_insert.
  destruct (existsb (journal_matches kind key state) (st_journal s)); [done |].
  cbn. rewrite existsb_app. cbn. unfold journal_matches at 2. cbn.
  destruct (decide (kind = k)) as [-> |]; [| rewrite (bool_decide_eq_false_2 (kind = k)) by done; by rewrite orb_false_r].
  destruct (decide (state = t)) as [-> |]; [done |].
  rewrite (bool_decide_eq_false_2 (state = t)) by done. by rewrite andb_false_r, orb_false_r.
Qed.

Lemma link_checkpoint_rows id prev next (s : Store) cid :
  is_Some (st_checkpoints s !! cid) -> is_Some (st_checkpoints (link_checkpoint id prev next s) !! cid).
Proof. intros [r Hr]. rewrite link_checkpoint_lookup, Hr. by eexists. Qed.

Lemma same_journal_record now wid id prev (s : Store) :
  st_journal (record_supersedes now wid id prev s) = st_journal s.
Proof. unfold record_supersedes. destruct prev; [by split_match | done]. Qed.

Lemma capture_writes_extends now id attempt row w (s : Store) :
  work_extends s (capture_writes now id attempt row w s).
Proof.
  destruct (capture_writes_frame now id attempt row w s) as (Fa & _ & _). split_and!.
  - by apply work_extends_refl_attempts.
  - intros cid. rewrite capture_writes_checkpoints. apply link_checkpoint_rows.
  - intros key. unfold capture_writes. rewrite journal_insert_other by done.
    unfold journal_contains, advance_checkpoint_generation.
    set (s1 := link_checkpoint _ _ _ s).
    assert (E : st_journal s1 = st_journal s) by (unfold s1, link_checkpoint, update_checkpoint_opt; by repeat split_match).
    clearbody s1. rewrite <- E.
    split_match; cbn; by rewrite same_journal_record.
Qed.

Lemma work_same_extends (s s' : Store) :
  st_attempts s' = st_attempts s -> st_checkpoints s' = st_checkpoints s ->
  st_journal s' = st_journal s -> recoverable s -> recoverable s'.
Proof.
  intros Ea Ec Ej. apply recoverable_extends. split_and!.
  - by apply work_extends_refl_attempts.
  - by rewrite Ec.
  - unfold journal_contains. by rewrite Ej.
Qed.

(** The statements of the recovery keep [recoverable]. *)
Lemma recoverable_finish now key state r e : preserves recoverable (attempt_finish now key state r e).
Proof.
  intros s u s' H. run_op H. apply recoverable_extends. split_and!; [| done | done].
  cbn. intros k a' [(-> & a & Ha & ->) | [_ Ha]]%lookup_alter_Some; [by exists a | by exists a'].
Qed.

Lemma recoverable_release key : preserves recoverable (reservation_release key).
Proof. by intros s u s' H; run_op H; apply work_same_extends. Qed.

Lemma recoverable_expire b : preserves recoverable (reservations_expire b).
Proof. by intros s u s' H; run_op H; apply work_same_extends. Qed.

Lemma recoverable_audit now a o w c r d : preserves recoverable (audit_append now a o w c r d).
Proof. by intros s u s' H; run_op H; apply work_same_extends. Qed.

Lemma recoverable_node_status n t : preserves recoverable (node_set_status n t).
Proof. by intros s u s' H; run_op H; apply work_same_extends. Qed.

Lemma recoverable_sweep b : preserves recoverable (nodes_sweep_stale b).
Proof.
  intros s u s' H. run_op H. apply recoverable_extends.
  set (l := (_ <$> _) : list string). clearbody l. revert s.
  induction l as [| x l IH]; intros s; cbn; [| exact (IH (mark_stale s x))].
  split_and!; [by apply work_extends_refl_attempts | done | done].
Qed.

Lemma recoverable_update_checkpoint id f (s : Store) :
  recoverable s -> recoverable (update_checkpoint id f s).
Proof.
  apply recoverable_extends. split_and!; [by apply work_extends_refl_attempts | | done].
  intros cid [r Hr]. cbn. destruct (decide (cid = id)) as [-> |].
  - rewrite lookup_alter_eq, Hr. by eexists.
  - rewrite lookup_alter_ne by done. by eexists.
Qed.

Lemma recoverable_set_lifecycle id l g : preserves recoverable (checkpoint_set_lifecycle id l g).
Proof. intros s u s' H. run_op H. by apply recoverable_update_checkpoint. Qed.

Lemma recoverable_capture_commit now id key : preserves recoverable (capture_commit now id key).
Proof.
  intros s u s' (row & w & _ & ->)%capture_commit_Ok. apply recoverable_extends, capture_writes_extends.
Qed.

#[export] Hint Resolve recoverable_finish recoverable_release recoverable_expire recoverable_audit
  recoverable_node_status recoverable_sweep recoverable_set_lifecycle recoverable_capture_commit : fabric.

(** Both invariants of a store the recovery can work on. *)
Definition sound_store (s : Store) : Prop := schema_ok s /\ recoverable s.

Lemma sound_preserves `{HexCodec, PolicyCodec} {A} (op : Tx A) :
  statement op -> preserves recoverable op -> preserves sound_store op.
Proof.
  intros Hs Hr s a s' Hop [H1 H2]. split; [by eapply statement_keeps_schema | by eapply Hr].
Qed.

(** ** What the recovery of an attempt must do *)

(** Of a capture, by the evidence in the journal. *)
Definition capture_settled (a : AttemptRecord) (s : Store) (state : string) (s' : Store) : Prop :=
  let key := at_id a in
  if journal_contains "capture" key capture_DB_COMMITTED s then
    state = "db_committed" /\ settled key "COMMITTED" s s' /\ st_checkpoints s' = st_checkpoints s
  else if journal_contains "capture" key capture_PERSISTED s then
    exists cid row, at_checkpoint_id a = Some cid /\ st_checkpoints s !! cid = Some row /\
      ((exists w, capture_admissible s cid row w /\
          state = "db_committed" /\ settled key "COMMITTED" s s' /\
          journal_contains "capture" key capture_DB_COMMITTED s' = true /\
          exists row', st_checkpoints s' !! cid = Some row' /\
            ck_lifecycle row' = Available /\ ck_integrity_state row' = Valid) \/
       ((forall w, ~ capture_admissible s cid row w) /\
          state = "failed_cleanup" /\ settled key "FAILED" s s' /\
          st_checkpoints s' =
            if lifecycle_is (ck_lifecycle row) [Persisting; Available]
            then alter (fun r => r <| ck_lifecycle := Failed |> <| ck_integrity_state := Corrupt |>) cid
                   (st_checkpoints s)
            else st_checkpoints s))
  else
    state = "failed" /\ settled key "FAILED" s s' /\ st_checkpoints s' = st_checkpoints s.

(** A checkpoint whose restore did not reach its commit is available again. *)
Definition reopened (r : CheckpointObject) : CheckpointObject :=
  if lifecycle_is (ck_lifecycle r) [RestorePending; Restoring]
  then r <| ck_lifecycle := Available |> <| ck_integrity_state := Valid |> else r.

(** Of a restore. *)
Definition restore_settled (a : AttemptRecord) (s : Store) (state : string) (s' : Store) : Prop :=
  let key := at_id a in
  if journal_contains "restore" key restore_GENERATION_COMMITTED s then
    state = (if journal_contains "restore" key restore_RESUMED s then "committed" else "resume_unverified") /\
    settled key "COMMITTED" s s' /\ st_checkpoints s' = st_checkpoints s
  else if journal_contains "restore" key restore_COMPONENTS_RESTORED s then
    state = "failed_cleanup" /\ settled key "FAILED" s s' /\
    st_checkpoints s' = match at_checkpoint_id a with
                        | Some cid => alter reopened cid (st_checkpoints s)
                        | None => st_checkpoints s
                        end
  else state = "failed" /\ settled key "FAILED" s s' /\ st_checkpoints s' = st_checkpoints s.

Definition attempt_settled (a : AttemptRecord) (s : Store) (act : RecoveryAction) (s' : Store) : Prop :=
  ra_key act = at_id a /\
  if bool_decide (at_kind a = "capture") then
    ra_kind act = "capture" /\ capture_settled a s (ra_state act) s'
  else if bool_decide (at_kind a = "restore") || bool_decide (at_kind a = "rollback") then
    ra_kind act = "restore" /\ restore_settled a s (ra_state act) s'
  else ra_kind act = at_kind a /\ ra_state act = "failed" /\
       settled (at_id a) "FAILED" s s' /\ st_checkpoints s' = st_checkpoints s.

Section specs.
Context `{Env, !Quiet}.

(** Steps over statements whose result is computed. *)
Local Ltac steps := repeat (wp_step; [exact I |]; cbn).
Local Ltac settles := split; [do 3 eexists; reflexivity | reflexivity | reflexivity].
Local Ltac answers := eexists; split; [reflexivity |]; split; [reflexivity |].

Lemma reconcile_capture_spec (a : AttemptRecord) (s : Store) :
  sound_store s -> st_attempts s !! at_id a = Some a -> at_kind a = "capture" ->
  wp (reconcile_capture a)
    (fun r s' => exists act, r = Ok act /\ ra_key act = at_id a /\ ra_kind act = "capture" /\
                   capture_settled a s (ra_state act) s') (fun _ => True) s.
Proof.
  intros [Hs Hrec] Ha Hk. unfold reconcile_capture, capture_settled.
  steps. destruct (journal_contains "capture" (at_id a) capture_DB_COMMITTED s) eqn:Ed.
  { steps. wp_step. answers. split_and!; try reflexivity. settles. }
  destruct (journal_contains "capture" (at_id a) capture_PERSISTED s) eqn:Ep.
  2: { steps. wp_step. answers. split_and!; try reflexivity. settles. }
  destruct (Hrec _ _ Ha Hk Ep) as (cid & Hc & row & Hr). clear Hrec.
  wp_step. rewrite Hc. cbn. wp_step; [exact I |]. unfold checkpoint_get. rewrite Hr. cbn.
  wp_step. cbn. wp_step; [exact I |].
  destruct (capture_commit _ cid (at_id a) s) as [[[] s1] | e] eqn:Ec.
  - apply capture_commit_Ok in Ec as (row0 & w & Had & ->).
    assert (row0 = row) as -> by (pose proof (ca_row _ _ _ _ Had); congruence).
    destruct (capture_writes_frame now2 cid (at_id a) row w s) as (Fa & Fr & Fn).
    steps. wp_step. answers. split; [reflexivity |].
    exists cid, row. split_and!; try done. left. exists w. split_and!; try done.
    + split; [do 3 eexists; rewrite <- Fa; reflexivity | rewrite <- Fr; reflexivity | done].
    + apply journal_insert_contains.
    + cbn. by apply capture_commit_committed.
  - assert (Hno : forall w, ~ capture_admissible s cid row w).
    { intros w Had. assert (Hok : capture_commit now2 cid (at_id a) s = Ok (tt, capture_writes now2 cid (at_id a) row w s)).
      { apply capture_commit_Ok. by exists row, w. } congruence. }
    destruct (lifecycle_is (ck_lifecycle row) [Persisting; Available]) eqn:El; cbn [when].
    + assert (Ht : transition (ck_lifecycle row) Failed = Ok tt) by (by destruct (ck_lifecycle row)).
      wp_step. rewrite Ht. cbn. wp_step; [exact I |]. unfold checkpoint_set_lifecycle. rewrite Hr. cbn.
      steps. wp_step. answers. split; [reflexivity |]. exists cid, row. split_and!; try done.
      right. split_and!; try done; [settles | by rewrite El].
    + wp_step. cbn. steps. wp_step. answers. split; [reflexivity |]. exists cid, row.
      split_and!; try done. right. split_and!; try done; [settles | by rewrite El].
Qed.

Lemma reopen_checkpoint_spec cid (s : Store) :
  wp (reopen_checkpoint cid)
    (fun r s' => r = Ok tt /\ s' = update_checkpoint cid reopened s) (fun _ => True) s.
Proof.
  unfold reopen_checkpoint. steps. unfold checkpoint_get. destruct (st_checkpoints s !! cid) as [row |] eqn:Er; cbn.
  - destruct (lifecycle_is (ck_lifecycle row) [RestorePending; Restoring]) eqn:El; cbn [when].
    + assert (Ht : transition (ck_lifecycle row) Available = Ok tt) by (by destruct (ck_lifecycle row)).
      wp_step. rewrite Ht. cbn. wp_step; [exact I |]. unfold checkpoint_set_lifecycle. rewrite Er. cbn.
      split; [done |]. unfold update_checkpoint. erewrite alter_ext; [reflexivity |]. cbn.
      intros r Hr. rewrite Er in Hr. injection Hr as <-. unfold reopened. by rewrite El.
    + wp_step. split; [done |]. symmetry. apply update_checkpoint_noop.
      intros r Hr. rewrite Er in Hr. injection Hr as <-. unfold reopened. by rewrite El.
  - wp_step. split; [done |]. symmetry. apply update_checkpoint_noop. intros r Hr. congruence.
Qed.

Lemma reconcile_restore_spec (a : AttemptRecord) (s : Store) :
  wp (reconcile_restore a)
    (fun r s' => exists act, r = Ok act /\ ra_key act = at_id a /\ ra_kind act = "restore" /\
                   restore_settled a s (ra_state act) s') (fun _ => True) s.
Proof.
  unfold reconcile_restore, restore_settled. steps.
  destruct (journal_contains "restore" (at_id a) restore_GENERATION_COMMITTED s).
  { destruct (journal_contains "restore" (at_id a) restore_RESUMED s); cbn; steps; wp_step;
      answers; split_and!; try reflexivity; settles. }
  destruct (journal_contains "restore" (at_id a) restore_COMPONENTS_RESTORED s).
  2: { steps. wp_step. answers. split_and!; try reflexivity. settles. }
  apply wp_bind. destruct (at_checkpoint_id a) as [cid |].
  - eapply wp_conseq; [apply reopen_checkpoint_spec | | done]. intros r s' [-> ->]. cbn.
    steps. wp_step. answers. split_and!; try reflexivity. settles.
  - wp_step. steps. wp_step. answers. split_and!; try reflexivity. settles.
Qed.

Lemma reconcile_attempt_spec (a : AttemptRecord) (s : Store) :
  sound_store s -> st_attempts s !! at_id a = Some a ->
  wp (reconcile_attempt a)
    (fun r s' => exists act, r = Ok act /\ attempt_settled a s act s') (fun _ => True) s.
Proof.
  intros Hs Ha. unfold reconcile_attempt, attempt_settled.
  destruct (decide (at_kind a = "capture")) as [Hk | Hk].
  { rewrite bool_decide_eq_true_2 by done. by apply reconcile_capture_spec. }
  rewrite bool_decide_eq_false_2 by done.
  destruct (bool_decide (at_kind a = "restore") || bool_decide (at_kind a = "rollback")).
  - apply reconcile_restore_spec.
  - unfold reconcile_unknown. steps. wp_step. answers. split_and!; try reflexivity. settles.
Qed.
End specs.

(** ** A whole run *)

Lemma attempt_settled_settled a (s s' : Store) act :
  attempt_settled a s act s' -> exists state, state <> "ACTIVE" /\ settled (at_id a) state s s'.
Proof.
  intros [_ H]. destruct (bool_decide (at_kind a = "capture")); [| destruct (_ || _)].
  - destruct H as [_ H]. unfold capture_settled in H.
    destruct (journal_contains _ _ capture_DB_COMMITTED s); [exists "COMMITTED"; by destruct H as (_ & ? & _) |].
    destruct (journal_contains _ _ capture_PERSISTED s); [| exists "FAILED"; by destruct H as (_ & ? & _)].
    destruct H as (cid & row & _ & _ & [(w & _ & _ & ? & _) | (_ & _ & ? & _)]);
      [by exists "COMMITTED" | by exists "FAILED"].
  - destruct H as [_ H]. unfold restore_settled in H. repeat split_match_in H;
      destruct H as (_ & ? & _); eauto; (by exists "COMMITTED") || (by exists "FAILED").
  - destruct H as (_ & _ & ? & _). by exists "FAILED".
Qed.

(** A statement of the recovery keeps both invariants. *)
Ltac sound :=
  intros; apply (@sound_preserves hex_codec fixed_policy_codec); [constructor | eauto with fabric].

Section run.
Context `{Env}.

Lemma keeps_reconcile_attempt `{!Stable sound_store} a : keeps (on_store sound_store) (reconcile_attempt a).
Proof.
  unfold reconcile_attempt, reconcile_capture, reconcile_restore, reconcile_unknown, reopen_checkpoint.
  repeat keeps_step; sound.
Qed.

Lemma keeps_reconcile_attempts `{!Stable sound_store} l : keeps (on_store sound_store) (reconcile_attempts l).
Proof.
  induction l as [| a l IH]; cbn; repeat keeps_step; [apply keeps_reconcile_attempt | exact IH].
Qed.

Lemma keeps_reconcile `{!Stable sound_store} ctx : keeps (on_store sound_store) (reconcile ctx).
Proof.
  unfold reconcile, declare_stale. repeat keeps_step; try sound. apply keeps_reconcile_attempts.
Qed.

(** After the attempts [keys] were settled: they are over, their scopes are free, and
    nothing else about attempts and reservations changed. *)
Definition all_settled (keys : list string) (s s' : Store) : Prop :=
  (forall k a, k ∈ keys -> st_attempts s' !! k = Some a -> at_state a <> "ACTIVE") /\
  (forall k r, k ∈ keys -> st_reservations s' !! k = Some r -> is_active_reservation r = false) /\
  (forall k, k ∉ keys -> st_attempts s' !! k = st_attempts s !! k /\
     st_reservations s' !! k = st_reservations s !! k).

Lemma all_settled_cons a keys (s s1 s' : Store) state :
  state <> "ACTIVE" -> settled (at_id a) state s s1 -> at_id a ∉ keys ->
  all_settled keys s1 s' -> all_settled (at_id a :: keys) s s'.
Proof.
  intros Hne Hs Hnk (A & R & O). destruct (O _ Hnk) as [Oa Or]. split_and!.
  - intros k x [-> | Hk]%elem_of_cons; [| by apply A]. rewrite Oa. intros Hx.
    by rewrite (settled_attempt _ _ _ _ _ Hs Hx).
  - intros k x [-> | Hk]%elem_of_cons; [| by apply R]. rewrite Or.
    by apply (settled_reservation _ _ _ _ _ Hs).
  - intros k [Hk1 Hk2]%not_elem_of_cons. destruct (O _ Hk2) as [-> ->].
    by apply (settled_other _ _ _ _ _ Hs).
Qed.

Lemma reconcile_attempts_spec `{!Quiet} l (s : Store) :
  sound_store s -> NoDup (at_id <$> l) -> (forall a, a ∈ l -> st_attempts s !! at_id a = Some a) ->
  wp (reconcile_attempts l)
    (fun r s' => (exists acts, r = Ok acts /\ ra_key <$> acts = at_id <$> l) /\
                 all_settled (at_id <$> l) s s') (fun _ => True) s.
Proof.
  revert s. induction l as [| a l IH]; intros s Hs Hnd Hl; cbn.
  { apply wp_ret. split; [by (exists []) |]. split_and!; [by intros ? ? []%not_elem_of_nil.. | done]. }
  apply NoDup_cons in Hnd as [Hna Hnd].
  apply wp_bind. eapply wp_conseq.
  - apply (wp_keeps sound_store); [apply keeps_reconcile_attempt | | exact Hs].
    apply reconcile_attempt_spec; [done | apply Hl; left].
  - intros r s1 [(act & -> & Hact) Hs1]. pose proof Hact as [Hkey _].
    apply attempt_settled_settled in Hact as (state & Hne & Hset).
    apply wp_bind. eapply wp_conseq; [apply (IH s1 Hs1 Hnd) | | done].
    + intros b Hb. assert (Hb' : st_attempts s !! at_id b = Some b) by (apply Hl; by right).
      destruct Hset as [(re & er & ts & E) _ _]. rewrite E, lookup_alter_ne; [done |].
      intros Eid. apply Hna. rewrite Eid. by apply list_elem_of_fmap_2.
    + intros r s' [(acts & -> & Hk) Hall]. apply wp_ret. split.
      * exists (act :: acts). split; [done |]. cbn. by rewrite Hkey, Hk.
      * by eapply all_settled_cons.
  - done.
Qed.
End run.

(** ** The attempts a run works on *)

Lemma keyed_rows_NoDup {K A} `{Countable K} (key : A -> K) (m : gmap K A) (p : A -> bool) :
  keyed key m -> NoDup (key <$> List.filter p (rows m)).
Proof.
  intros Hk. assert (Hr : NoDup (key <$> rows m)).
  { unfold rows. rewrite <- list_fmap_compose.
    rewrite (list_fmap_ext _ fst); [apply NoDup_fst_map_to_list |].
    intros i [k a] Hl. cbn. apply Hk. apply elem_of_map_to_list. by eapply list_elem_of_lookup_2. }
  induction (rows m) as [| a l IH]; cbn in *; [constructor |].
  apply NoDup_cons in Hr as [Ha Hr]. destruct (p a); [| by apply IH].
  cbn. constructor; [| by apply IH]. intros Hin. apply Ha.
  apply list_elem_of_fmap in Hin as (b & -> & Hb). apply list_elem_of_fmap_2.
  by apply list_elem_of_In, List.filter_In in Hb as [Hb%list_elem_of_In _].
Qed.

Lemma attempts_in_state_spec (state : string) (s : Store) :
  schema_ok s -> exists l, attempts_in_state state s = Ok (l, s) /\ NoDup (at_id <$> l) /\
    forall a, a ∈ l <-> st_attempts s !! at_id a = Some a /\ at_state a = state.
Proof.
  intros Hs. eexists. split; [reflexivity |].
  set (l := List.filter _ _). assert (Hp : order_by at_started_ms l ≡ₚ l) by apply merge_sort_Permutation.
  split.
  - rewrite Hp. apply keyed_rows_NoDup, Hs.
  - intros a. rewrite Hp. unfold l. rewrite list_elem_of_In, List.filter_In, <- list_elem_of_In, elem_of_rows.
    rewrite bool_decide_eq_true. split.
    + intros [[k Hk] Hst]. pose proof (so_attempts _ Hs _ _ Hk) as <-. done.
    + intros [Hl Hst]. split; [by eexists | done].
Qed.

(** Before the attempts are read, no attempt changes and reservations are only given up. *)
Definition prelude_done (s s' : Store) : Prop :=
  st_attempts s' = st_attempts s /\
  forall k r, st_reservations s' !! k = Some r -> is_active_reservation r = true ->
    st_reservations s !! k = Some r.

Lemma prelude_sweep l (s0 s : Store) : prelude_done s0 s -> prelude_done s0 (fold_left mark_stale l s).
Proof.
  revert s. induction l as [| x l IH]; intros s Hs; cbn; [done |]. apply IH. exact Hs.
Qed.

Section completes.
Context `{Env, !Quiet}.

Lemma reconcile_prelude (s : Store) (ctx : OperationContext) (k : Z -> list string -> M World RecoveryOutcome) Q :
  (forall e stale s', prelude_done s s' -> sound_store s' -> wp (k e stale) Q (fun _ => True) s') ->
  sound_store s ->
  wp (now ← now_ms;
      expired_reservations ← db (fun _ => reservations_expire now);
      now ← now_ms;
      let stale_before := saturating_sub now (ctx_stale_ms ctx) in
      stale ← db (fun _ => nodes_sweep_stale stale_before);
      for_m declare_stale stale ;;
      k expired_reservations stale) Q (fun _ => True) s.
Proof.
  intros Hk Hs. wp_step; [done |].
  apply wp_bind, (wp_db_inv sound_store); [sound | exact Hs | done |]. intros now. cbn. intros Hs1.
  wp_step; [done |].
  apply wp_bind, (wp_db_inv sound_store); [sound | exact Hs1 | done |]. intros now'. cbn. intros Hs2.
  apply wp_bind. eapply wp_conseq; [apply (wp_for_m _ _ (fun s' => prelude_done s s' /\ sound_store s')
    (fun _ _ => False) (fun _ => True)) | | done].
  - intros n s' _ [Hp Hs']. unfold declare_stale.
    apply wp_bind, (wp_db_inv sound_store); [sound | exact Hs' | done |]. intros now1. cbn. intros Hs3.
    apply (wp_db_inv sound_store); [sound | exact Hs3 | done |]. intros now2. cbn. done.
  - split; [| exact Hs2]. apply prelude_sweep. split; [done |]. cbn. intros key r.
    rewrite lookup_fmap. destruct (st_reservations s !! key) as [r0 |]; cbn; [| done].
    intros [= <-]. by destruct (expired _ r0).
  - intros [u | e] s'; [| done]. intros [Hp Hs']. by apply Hk.
Qed.
End completes.

(** What a whole run achieves. *)
Definition run_settled (s : Store) (out : RecoveryOutcome) (s' : Store) : Prop :=
  (forall k a, st_attempts s' !! k = Some a -> at_state a <> "ACTIVE") /\
  (forall k a, st_attempts s !! k = Some a -> at_state a <> "ACTIVE" -> st_attempts s' !! k = Some a) /\
  (forall key, key ∈ (ra_key <$> rc_actions out) <->
     exists a, st_attempts s !! key = Some a /\ at_state a = "ACTIVE") /\
  (forall key r', key ∈ (ra_key <$> rc_actions out) -> st_reservations s' !! key = Some r' ->
     is_active_reservation r' = false).

Lemma run_settled_intro (s s1 s' : Store) l acts stale e :
  schema_ok s1 -> st_attempts s1 = st_attempts s ->
  (forall a, a ∈ l <-> st_attempts s1 !! at_id a = Some a /\ at_state a = "ACTIVE") ->
  ra_key <$> acts = at_id <$> l -> all_settled (at_id <$> l) s1 s' ->
  run_settled s (mkRecoveryOutcome acts stale e true) s'.
Proof.
  intros Hs1 Ea Hl Hkeys (HA & HR & HO). unfold run_settled. cbn. rewrite Hkeys. set (keys := at_id <$> l) in *.
  assert (Hin : forall k, k ∈ keys <-> exists a, st_attempts s !! k = Some a /\ at_state a = "ACTIVE").
  { intros k. unfold keys. rewrite list_elem_of_fmap, <- Ea. split.
    - intros (a & -> & [Hla Hst]%Hl). by exists a.
    - intros (a & Hla & Hst). pose proof (so_attempts _ Hs1 _ _ Hla) as E.
      exists a. split; [done |]. apply Hl. by rewrite E. }
  rewrite Ea in HO. split_and!.
  - intros k a Ha Hst. destruct (decide (k ∈ keys)) as [Hk | Hk]; [by eapply HA |].
    apply Hk, Hin. exists a. by rewrite <- (proj1 (HO k Hk)).
  - intros k a Ha Hst. assert (Hk : k ∉ keys) by (intros (a' & Ha' & Hst')%Hin; congruence).
    by rewrite (proj1 (HO k Hk)).
  - exact Hin.
  - intros key r' Hk. by apply HR.
Qed.

(** A whole run. *)
Lemma reconcile_completes `{Env, !Quiet} (ctx : OperationContext) (s : Store) :
  sound_store s ->
  wp (reconcile ctx)
    (fun r s' => (exists out, r = Ok out /\ rc_ok out = true /\ run_settled s out s') /\ sound_store s')
    sound_store s.
Proof.
  intros Hs. apply (wp_keeps sound_store); [apply keeps_reconcile | | exact Hs].
  unfold reconcile. apply reconcile_prelude; [| exact Hs]. intros e stale s1 [Ea _] Hs1.
  destruct (attempts_in_state_spec "ACTIVE" s1 (proj1 Hs1)) as (l & El & Hnd & Hl).
  wp_step; [done |]. rewrite El. apply wp_bind.
  eapply wp_conseq; [apply (reconcile_attempts_spec l s1 Hs1 Hnd); intros a Ha; by apply Hl | | done].
  intros r s' [(acts & -> & Hkeys) Hall]. apply wp_ret. eexists. split_and!; [done.. |].
  by eapply run_settled_intro; [apply Hs1 | ..].
Qed.

(** * Properties *)

(** C19 (termination). The recovery settles every interrupted operation.  On a store
    in which every capture declared durable names its checkpoint, [reconcile] always
    answers, one action per attempt that was [ACTIVE]; afterwards no attempt is
    [ACTIVE] any more, the scope of each of them is free again, and the attempts that
    were already over are as they were.  Wherever the process stops in the middle of
    it, the store is one the next recovery can work on. *)
Theorem recovery_completes `{Env, !Quiet} (ctx : OperationContext) (s : Store) :
  sound_store s ->
  wp (reconcile ctx)
    (fun r s' => (exists out, r = Ok out /\ rc_ok out = true /\ run_settled s out s') /\ sound_store s')
    sound_store s.
Proof. apply reconcile_completes. Qed.

(** C18 (functional). What the recovery does with one interrupted attempt, by the
    evidence in the journal.  A capture whose metadata commit is recorded is confirmed;
    one recorded durable is committed by the recovery, and its checkpoint becomes
    available, exactly when its row still satisfies the commit's conditions, and is
    failed as corrupt otherwise; any other capture is failed and no checkpoint changes.
    A restore recorded committed is confirmed; one that only restored its components
    is failed and its checkpoint is available again; any other restore is failed with
    its checkpoint left as it is.  The attempt always ends and gives up its scope, and
    no other attempt, reservation or node changes. *)
Theorem recovery_follows_evidence `{Env, !Quiet} (a : AttemptRecord) (s : Store) :
  sound_store s -> st_attempts s !! at_id a = Some a ->
  wp (reconcile_attempt a)
    (fun r s' => exists act, r = Ok act /\ attempt_settled a s act s') (fun _ => True) s.
Proof. apply reconcile_attempt_spec. Qed.

(** The recovery may run beside the other handlers: whatever they do
    between two of its statements, as long as they keep the schema and do not lose the
    checkpoint of a durable capture, neither does the recovery. *)
Theorem recovery_interleaves `{Env, !Stable sound_store} (ctx : OperationContext) (w : World) :
  sound_store (wd_store w) -> sound_store (wd_store (snd (reconcile ctx w))).
Proof. exact (keeps_reconcile ctx w). Qed.

(** ** A capture interrupted after it was persisted *)

Definition interrupted_attempt : AttemptRecord :=
  mkAttemptRecord "capture-2" "capture" (Some (id_splat Byte.x02)) (Some (id_splat Byte.x09)) "n1"
    "ACTIVE" 5 None None None.

Definition interrupted_store : Store :=
  after (journal_append (fun _ => 6) "capture" "capture-2" capture_PERSISTED "checkpoint promoted on node")
    (two_generations <| st_attempts := {[ "capture-2" := interrupted_attempt ]} |>).

Lemma interrupted_sound : sound_store interrupted_store.
Proof.
  split.
  - assert (Hj : preserves schema_ok
      (journal_append (fun _ => 6) "capture" "capture-2" capture_PERSISTED "checkpoint promoted on node")).
    { apply (@statement_keeps_schema hex_codec fixed_policy_codec). apply st_journal_append. }
    apply (after_keeps schema_ok _ _ Hj), (schema_attempt_put interrupted_attempt), two_generations_schema.
  - intros key a Ha _ _. assert (a = interrupted_attempt) as ->.
    { change (({[ "capture-2" := interrupted_attempt ]} : gmap string AttemptRecord) !! key = Some a) in Ha.
      by apply lookup_singleton_Some in Ha as [_ <-]. }
    exists (id_splat Byte.x02). split; [done |]. vm_compute. by eexists.
Qed.

Definition operator_context : OperationContext := mkOperationContext "op" ["operator"] 6000.

Example recovery_completes_witness :
  exists out w, @reconcile still_env operator_context (mkWorld interrupted_store 0 ∅) = (Done out, w) /\
    run_settled interrupted_store out (wd_store w).
Proof.
  pose proof (@recovery_completes still_env still_quiet operator_context interrupted_store
    interrupted_sound 0%nat ∅) as H.
  assert (Hd : is_done (fst (@reconcile still_env operator_context (mkWorld interrupted_store 0 ∅))) = true)
    by (vm_compute; reflexivity).
  destruct (@reconcile still_env operator_context (mkWorld interrupted_store 0 ∅)) as [[out | e |] w];
    [| discriminate Hd..].
  exists out, w. split; [reflexivity |]. destruct H as [(out' & [= <-] & _ & Hr) _]. exact Hr.
Defined.

Example recovery_follows_evidence_witness :
  exists act w, @reconcile_attempt still_env interrupted_attempt (mkWorld interrupted_store 0 ∅) = (Done act, w) /\
    attempt_settled interrupted_attempt interrupted_store act (wd_store w).
Proof.
  pose proof (@recovery_follows_evidence still_env still_quiet interrupted_attempt interrupted_store
    interrupted_sound ltac:(vm_compute; reflexivity) 0%nat ∅) as H.
  assert (Hd : is_done (fst (@reconcile_attempt still_env interrupted_attempt
    (mkWorld interrupted_store 0 ∅))) = true) by (vm_compute; reflexivity).
  destruct (@reconcile_attempt still_env interrupted_attempt (mkWorld interrupted_store 0 ∅))
    as [[act | e |] w]; [| discriminate Hd..].
  exists act, w. split; [reflexivity |]. destruct H as (act' & [= <-] & Hs). exact Hs.
Defined.

Example recovery_interleaves_witness :
  sound_store (wd_store (snd (@reconcile still_env operator_context (mkWorld interrupted_store 0 ∅)))).
Proof.
  apply (@recovery_interleaves still_env (Quiet_Stable sound_store still_quiet) operator_context).
  exact interrupted_sound.
Defined.
