(* ===== verification/Attempts.v ===== *)
(** The life of one attempt: what the statements a capture or a restore runs under its
    attempt [key] and checkpoint [cid] do to the rest of the store. *)
From S2P Require Import Prelude Errors Ident Lifecycle Checkpoint Workload Compression Policy Compat.
From S2P Require Import Capture Restore Lineage Failpoints Tables Persist Schema StoreFacts Fencing Commit.
From S2P Require Import World Manifest Messages Recovery RecoveryFacts.

(** ** Stores between operations *)

(** A store on which the recovery can work and whose attempts are tracked: each has a
    reservation row of its own, and every journal record belongs to an attempt. *)
Record good (s : Store) : Prop := {
  gd_sound : sound_store s;
  gd_reserved : forall k, is_Some (st_attempts s !! k) -> is_Some (st_reservations s !! k);
  gd_journal : forall j, j ∈ st_journal s -> is_Some (st_attempts s !! jr_key j)
}.

(** ** One step of an attempt *)

(** From [s] to [s'] attempts keep their kind and checkpoint, nothing disappears, and
    journal records appear only under [key]. *)
Record evolves (key : string) (s s' : Store) : Prop := {
  ev_attempts : forall k a', st_attempts s' !! k = Some a' -> exists a, st_attempts s !! k = Some a /\
    at_kind a = at_kind a' /\ at_checkpoint_id a = at_checkpoint_id a';
  ev_kept : forall k, is_Some (st_attempts s !! k) -> is_Some (st_attempts s' !! k);
  ev_reservations : forall k, is_Some (st_reservations s !! k) -> is_Some (st_reservations s' !! k);
  ev_checkpoints : forall c, is_Some (st_checkpoints s !! c) -> is_Some (st_checkpoints s' !! c);
  ev_journal : forall j, j ∈ st_journal s' -> j ∈ st_journal s \/ jr_key j = key;
  ev_mono : forall j, j ∈ st_journal s -> j ∈ st_journal s'
}.

(** The attempt [key] of the given kind works on the existing checkpoint [cid]. *)
Definition works_on (kind key : string) (cid : Id) (s : Store) : Prop :=
  (exists a, st_attempts s !! key = Some a /\ at_kind a = kind /\ at_checkpoint_id a = Some cid) /\
  is_Some (st_checkpoints s !! cid).

Lemma journal_contains_iff kind key state (s : Store) :
  journal_contains kind key state s = true <->
  exists j, j ∈ st_journal s /\ jr_kind j = kind /\ jr_key j = key /\ jr_state j = state.
Proof.
  unfold journal_contains. rewrite existsb_elem_of. unfold journal_matches.
  split; intros (j & Hj & H); exists j; (split; [done |]); bool_facts; [done |].
  destruct H as (-> & -> & ->). by rewrite !bool_decide_eq_true_2.
Qed.

Lemma evolves_contains key (s s' : Store) k y t :
  evolves key s s' -> journal_contains k y t s = true -> journal_contains k y t s' = true.
Proof.
  intros Hev. rewrite !journal_contains_iff. intros (j & Hj & H). exists j. split; [| done].
  by apply (ev_mono _ _ _ Hev).
Qed.

Lemma evolves_works kind key cid (s s' : Store) :
  evolves key s s' -> works_on kind key cid s -> works_on kind key cid s'.
Proof.
  intros Hev [(a & Ha & Hk & Hc) Hrow]. split; [| by apply (ev_checkpoints _ _ _ Hev)].
  destruct (ev_kept _ _ _ Hev key (ex_intro _ a Ha)) as [a' Ha']. exists a'.
  destruct (ev_attempts _ _ _ Hev key a' Ha') as (a0 & Ha0 & E1 & E2).
  assert (a0 = a) as -> by congruence. split_and!; congruence.
Qed.

Lemma evolves_good kind key cid (s s' : Store) :
  schema_ok s' -> evolves key s s' -> works_on kind key cid s -> good s -> good s'.
Proof.
  intros Hs' Hev Hw [[Hs Hrec] Hres Hj]. destruct (evolves_works _ _ _ _ _ Hev Hw) as [(b & Hb & Hbk & Hbc) Hrow].
  split.
  - split; [done |]. intros k a' Ha' Hk Hp.
    destruct (decide (k = key)) as [-> | Hne].
    { assert (a' = b) as -> by congruence. by exists cid. }
    destruct (ev_attempts _ _ _ Hev k a' Ha') as (a & Ha & E1 & E2).
    destruct (Hrec k a Ha) as (c & Hc & Hcrow); [congruence | |].
    + apply journal_contains_iff in Hp as (j & Hj' & Hjk & Hjy & Hjs). apply journal_contains_iff.
      exists j. split; [| done]. destruct (ev_journal _ _ _ Hev j Hj'); [done | congruence].
    + exists c. split; [congruence | by apply (ev_checkpoints _ _ _ Hev)].
  - intros k Hk. apply (ev_reservations _ _ _ Hev), Hres. destruct Hk as [a' Ha'].
    destruct (ev_attempts _ _ _ Hev k a' Ha') as (a & Ha & _). by eexists.
  - intros j Hj'. destruct (ev_journal _ _ _ Hev j Hj') as [Hin | ->].
    + by apply (ev_kept _ _ _ Hev), Hj.
    + by exists b.
Qed.

(** *** The statements *)

Lemma evolves_same key (s s' : Store) :
  st_attempts s' = st_attempts s -> st_reservations s' = st_reservations s ->
  st_checkpoints s' = st_checkpoints s -> st_journal s' = st_journal s -> evolves key s s'.
Proof.
  intros Ea Er Ec Ej. split; [by apply work_extends_refl_attempts | | | | |]; intros;
    rewrite ?Ea, ?Er, ?Ec, ?Ej in *; by try left.
Qed.

Lemma evolves_checkpoint key id f (s : Store) : evolves key s (update_checkpoint id f s).
Proof.
  split; [by apply work_extends_refl_attempts | done | done | | by left | done].
  intros c Hc. cbn. destruct (decide (c = id)) as [-> | Hne].
  - rewrite lookup_alter_eq. destruct Hc as [r ->]. by eexists.
  - by rewrite lookup_alter_ne.
Qed.

Lemma evolves_checkpoint_opt key o f (s : Store) : evolves key s (update_checkpoint_opt o f s).
Proof. destruct o; [apply evolves_checkpoint | by apply evolves_same]. Qed.

Lemma evolves_checkpoint_put key id c comps (s : Store) :
  evolves key s (s <| st_checkpoints := <[id := c]> (st_checkpoints s) |> <| st_components := comps |>).
Proof.
  split; [by apply work_extends_refl_attempts | done | done | | by left | done].
  intros i Hi. cbn. destruct (decide (i = id)) as [-> | Hne]; [rewrite lookup_insert_eq; by eexists |].
  by rewrite lookup_insert_ne.
Qed.

Lemma evolves_journal kind key state detail ts (s : Store) :
  evolves key s (journal_insert kind key state detail ts s).
Proof.
  unfold journal_insert. destruct (existsb _ _); [by apply evolves_same |].
  split; [by apply work_extends_refl_attempts | done | done | done | |].
  - cbn. intros j [Hj | ->%list_elem_of_singleton]%elem_of_app; [by left | by right].
  - cbn. intros j Hj. apply elem_of_app. by left.
Qed.

Lemma evolves_trans key (s1 s2 s3 : Store) : evolves key s1 s2 -> evolves key s2 s3 -> evolves key s1 s3.
Proof.
  intros H1 H2. split.
  - intros k a' Ha'. destruct (ev_attempts _ _ _ H2 k a' Ha') as (a & Ha & E1 & E2).
    destruct (ev_attempts _ _ _ H1 k a Ha) as (a0 & Ha0 & E3 & E4). exists a0. split_and!; congruence.
  - intros k Hk. by apply (ev_kept _ _ _ H2), (ev_kept _ _ _ H1).
  - intros k Hk. by apply (ev_reservations _ _ _ H2), (ev_reservations _ _ _ H1).
  - intros k Hk. by apply (ev_checkpoints _ _ _ H2), (ev_checkpoints _ _ _ H1).
  - intros j Hj. destruct (ev_journal _ _ _ H2 j Hj); [by apply (ev_journal _ _ _ H1) | by right].
  - intros j Hj. by apply (ev_mono _ _ _ H2), (ev_mono _ _ _ H1).
Qed.

(** Statements under an attempt. *)
Definition evolving {A} (key : string) (op : Tx A) : Prop :=
  forall s a s', op s = Ok (a, s') -> evolves key s s'.

Lemma evolving_reads {A} key (op : Tx A) : reads op -> evolving key op.
Proof. intros Hr s a s' Hop. rewrite (Hr _ _ _ Hop). by apply evolves_same. Qed.

Lemma evolving_set_lifecycle key i l g : evolving key (checkpoint_set_lifecycle i l g).
Proof. intros s a s' Hr. run_op Hr. apply evolves_checkpoint. Qed.

Lemma evolving_set_digest key i d m : evolving key (checkpoint_set_digest i d m).
Proof. intros s a s' Hr. run_op Hr. apply evolves_checkpoint. Qed.

Lemma evolving_set_integrity key i g : evolving key (checkpoint_set_integrity i g).
Proof. intros s a s' Hr. run_op Hr. apply evolves_checkpoint. Qed.

Lemma evolving_update key c : evolving key (checkpoint_update c).
Proof. intros s a s' Hr. run_op Hr. apply evolves_checkpoint_put. Qed.

Lemma evolving_insert key c : evolving key (checkpoint_insert c).
Proof. intros s a s' Hr. run_op Hr. apply evolves_checkpoint_put. Qed.

Lemma evolving_add_location key i l : evolving key (checkpoint_add_location i l).
Proof. intros s a s' Hr. run_op Hr; apply evolves_checkpoint. Qed.

Lemma evolving_finish key now k t r e : evolving key (attempt_finish now k t r e).
Proof.
  intros s u s' Hr. run_op Hr. split; [| | done | done | by left | done]; cbn.
  - intros x a' [(-> & a & Ha & ->) | [_ Ha]]%lookup_alter_Some; [by exists a | by exists a'].
  - intros x Hx. by rewrite lookup_alter_is_Some.
Qed.

Lemma evolving_release key k : evolving key (reservation_release k).
Proof.
  intros s u s' Hr. run_op Hr. split; [by apply work_extends_refl_attempts | done | | done | by left | done].
  cbn. intros x Hx. by rewrite lookup_alter_is_Some.
Qed.

Lemma evolving_audit key now a o w c r d : evolving key (audit_append now a o w c r d).
Proof. intros s u s' Hr. run_op Hr. by apply evolves_same. Qed.

Lemma evolving_journal key now kind state d : evolving key (journal_append now kind key state d).
Proof. intros s u s' Hr. run_op Hr. apply evolves_journal. Qed.

Lemma evolving_capture_commit key now id : evolving key (capture_commit now id key).
Proof.
  intros s u s' (row & w & _ & ->)%capture_commit_Ok. unfold capture_writes.
  eapply evolves_trans, evolves_journal. set (prev := previous_in_use _ _ s). set (next := next_in_use _ _ s).
  apply (evolves_trans _ _ (link_checkpoint id prev next s)).
  { unfold link_checkpoint. eapply evolves_trans, evolves_checkpoint_opt.
    eapply evolves_trans, evolves_checkpoint_opt. apply evolves_checkpoint. }
  destruct (same_work_record now (ck_workload_id row) id prev (link_checkpoint id prev next s)) as (A & B & _).
  apply (evolves_trans _ _ (record_supersedes now (ck_workload_id row) id prev (link_checkpoint id prev next s))).
  - apply evolves_same; [done | done | | apply same_journal_record].
    unfold record_supersedes. destruct prev; [by split_match | done].
  - unfold advance_checkpoint_generation. split_match; by apply evolves_same.
Qed.

Lemma evolving_restore_commit key now id n t m r : evolving key (restore_commit now id key n t m r).
Proof.
  intros s u s' Hr. unfold restore_commit in Hr. invert_ok Hr. unfold commit in Hr. injection Hr as _ <-.
  eapply evolves_trans, evolves_journal. set (s1 := update_checkpoint id _ _).
  apply (evolves_trans _ _ s1).
  { eapply evolves_trans; [| apply evolves_checkpoint]. by apply evolves_same. }
  assert (Hl : forall a b c d e f ts x, evolves key x (lineage_insert a b c d e f ts x))
    by (intros; by apply evolves_same).
  destruct m; [eapply evolves_trans; [| apply evolves_journal]; eapply evolves_trans; [| apply Hl] |];
    (destruct r; [apply Hl | by apply evolves_same]).
Qed.

#[export] Hint Resolve evolving_reads evolving_set_lifecycle evolving_set_digest evolving_set_integrity
  evolving_update evolving_insert evolving_add_location evolving_finish evolving_release evolving_audit
  evolving_journal evolving_capture_commit evolving_restore_commit : fabric.

(** Between its statements an operation under the attempt [key] leaves a good store
    with its attempt and its checkpoint in place. *)
Definition under (kind key : string) (cid : Id) (s : Store) : Prop := good s /\ works_on kind key cid s.

Lemma under_preserves {A} kind key cid (op : Tx A) :
  @statement hex_codec fixed_policy_codec A op -> evolving key op -> preserves (under kind key cid) op.
Proof.
  intros Hst Hev s a s' Hop [Hg Hw]. specialize (Hev s a s' Hop). split.
  - eapply evolves_good; [| done..]. eapply (@statement_keeps_schema hex_codec fixed_policy_codec);
      [done.. |]. apply Hg.
  - by eapply evolves_works.
Qed.
