(* ===== verification/Footprint.v ===== *)
(** The footprint of an operation under an attempt: the rows of the attempt [key] and
    of its checkpoint [cid].  Everything else a store holds is as before. *)
From S2P Require Import Prelude Errors Ident Lifecycle Checkpoint Workload Compression Policy Compat.
From S2P Require Import Capture Restore Lineage Failpoints Tables Persist Schema StoreFacts Fencing Commit.
From S2P Require Import World Manifest Messages Recovery RecoveryFacts Attempts.

Definition foreign_journal (key : string) (s : Store) : list JournalRow :=
  List.filter (fun j => negb (bool_decide (jr_key j = key))) (st_journal s).

(** Outside of the rows of [key] and [cid], and of the audit, the stores agree. *)
Record confined (key : string) (cid : Id) (s s' : Store) : Prop := {
  cf_meta : st_meta s' = st_meta s;
  cf_policies : st_policies s' = st_policies s;
  cf_workloads : st_workloads s' = st_workloads s;
  cf_nodes : st_nodes s' = st_nodes s;
  cf_lineage : st_lineage s' = st_lineage s;
  cf_checkpoints : forall c, c <> cid -> st_checkpoints s' !! c = st_checkpoints s !! c;
  cf_components : forall c, c <> cid -> st_components s' !! c = st_components s !! c;
  cf_attempts : forall k, k <> key -> st_attempts s' !! k = st_attempts s !! k;
  cf_reservations : forall k, k <> key -> st_reservations s' !! k = st_reservations s !! k;
  cf_journal : foreign_journal key s' = foreign_journal key s
}.

#[export] Instance confined_preorder key cid : PreOrder (confined key cid).
Proof.
  split; [by split |]. intros s1 s2 s3 H1 H2. split; intros;
    (etrans; [by apply H2 | by apply H1]).
Qed.

Definition confining {A} (key : string) (cid : Id) (op : Tx A) : Prop :=
  forall s a s', op s = Ok (a, s') -> confined key cid s s'.

Lemma confining_preserves {A} key cid s0 (op : Tx A) :
  confining key cid op -> preserves (confined key cid s0) op.
Proof. intros Hop s a s' Hrun Hs. etrans; [exact Hs | by eapply Hop]. Qed.

(** By the equations of the maps. *)
Ltac confine :=
  split; try reflexivity; intros; cbn;
    rewrite ?lookup_insert_ne, ?lookup_alter_ne by done; reflexivity.

Lemma confined_update key cid f (s : Store) : confined key cid s (update_checkpoint cid f s).
Proof. confine. Qed.

Lemma confined_journal key cid kind state detail ts (s : Store) :
  confined key cid s (journal_insert kind key state detail ts s).
Proof.
  unfold journal_insert. destruct (existsb _ _); [by split |]. split; try done.
  unfold foreign_journal. cbn. rewrite List.filter_app. cbn.
  by rewrite bool_decide_eq_true_2, app_nil_r.
Qed.

Lemma confining_reads {A} key cid (op : Tx A) : reads op -> confining key cid op.
Proof. intros Hr s a s' Hop. by rewrite (Hr _ _ _ Hop). Qed.

Lemma confining_insert key c : confining key (ck_checkpoint_id c) (checkpoint_insert c).
Proof. intros s a s' Hr. run_op Hr; confine. Qed.

Lemma confining_update key c : confining key (ck_checkpoint_id c) (checkpoint_update c).
Proof. intros s a s' Hr. run_op Hr; confine. Qed.

Lemma confining_set_lifecycle key cid l g : confining key cid (checkpoint_set_lifecycle cid l g).
Proof. intros s a s' Hr. run_op Hr. apply confined_update. Qed.

Lemma confining_set_digest key cid d m : confining key cid (checkpoint_set_digest cid d m).
Proof. intros s a s' Hr. run_op Hr. apply confined_update. Qed.

Lemma confining_set_integrity key cid g : confining key cid (checkpoint_set_integrity cid g).
Proof. intros s a s' Hr. run_op Hr. apply confined_update. Qed.

Lemma confining_add_location key cid l : confining key cid (checkpoint_add_location cid l).
Proof. intros s a s' Hr. run_op Hr; apply confined_update. Qed.

Lemma confining_begin key cid now kind c w n : confining key cid (attempt_begin now key kind c w n).
Proof. intros s a s' Hr. run_op Hr; confine. Qed.

Lemma confining_finish key cid now t r e : confining key cid (attempt_finish now key t r e).
Proof. intros s a s' Hr. run_op Hr; confine. Qed.

Lemma confining_reserve key cid now kind w c n t : confining key cid (reservation_create now key kind w c n t).
Proof. intros s a s' Hr. run_op Hr; confine. Qed.

Lemma confining_release key cid : confining key cid (reservation_release key).
Proof. intros s a s' Hr. run_op Hr; confine. Qed.

Lemma confining_audit key cid now a o w c r d : confining key cid (audit_append now a o w c r d).
Proof. intros s u s' Hr. run_op Hr. by split. Qed.

Lemma confining_journal key cid now kind state d : confining key cid (journal_append now kind key state d).
Proof. intros s u s' Hr. run_op Hr. apply confined_journal. Qed.

#[export] Hint Resolve confining_preserves : fabric.
#[export] Hint Resolve confining_reads confining_insert confining_update confining_set_lifecycle
  confining_set_digest confining_set_integrity confining_add_location confining_begin confining_finish
  confining_reserve confining_release confining_audit confining_journal : fabric.
