(* ===== verification/Lifetime.v ===== *)
(** The lifetime of an attempt: its beginning (reservation, attempt, first record), the
    statements in between, and its end; shared by captures and restores. *)
From S2P Require Import Prelude Errors Ident Lifecycle Checkpoint Workload Compression Policy Compat.
From S2P Require Import Capture Restore Lineage Failpoints Tables Persist Schema StoreFacts Fencing Commit.
From S2P Require Import World Manifest Messages Recovery RecoveryFacts Attempts Footprint.

(** ** Attempts in a good store *)

(** The attempt exists in a good store. *)
Definition tracked (kind key : string) (cid : Id) (s : Store) : Prop :=
  good s /\ exists a, st_attempts s !! key = Some a /\ at_kind a = kind /\ at_checkpoint_id a = Some cid.

Lemma under_tracked kind key cid (s : Store) : under kind key cid s -> tracked kind key cid s.
Proof. by intros [Hg [Ha _]]. Qed.

Lemma tracked_under kind key cid (s : Store) :
  tracked kind key cid s -> is_Some (st_checkpoints s !! cid) -> under kind key cid s.
Proof. by intros [Hg Ha] Hr. Qed.

Lemma preserves_and {A} (P Q : Store -> Prop) (op : Tx A) :
  preserves P op -> preserves Q op -> preserves (fun s => P s /\ Q s) op.
Proof. intros HP HQ s a s' Hop [H1 H2]. split; [by eapply HP | by eapply HQ]. Qed.

(** A statement that records no durable capture keeps the attempt tracked. *)
Lemma tracked_preserves {A} kind key cid (op : Tx A) :
  @statement hex_codec fixed_policy_codec A op -> evolving key op -> preserves recoverable op ->
  preserves (tracked kind key cid) op.
Proof.
  intros Hst Hev Hrec s a s' Hop [Hg (b & Hb & Hk & Hc)]. specialize (Hev s a s' Hop). split.
  - destruct Hg as [[Hs Hr] Hres Hj]. split.
    + split; [by eapply (@statement_keeps_schema hex_codec fixed_policy_codec) | by eapply Hrec].
    + intros k [a' Ha']. apply (ev_reservations _ _ _ Hev), Hres.
      destruct (ev_attempts _ _ _ Hev k a' Ha') as (a0 & Ha0 & _). by eexists.
    + intros j Hj'. destruct (ev_journal _ _ _ Hev j Hj') as [Hin | ->].
      * by apply (ev_kept _ _ _ Hev), Hj.
      * apply (ev_kept _ _ _ Hev). by eexists.
  - destruct (ev_kept _ _ _ Hev key (ex_intro _ b Hb)) as [b' Hb']. exists b'.
    destruct (ev_attempts _ _ _ Hev key b' Hb') as (b0 & Hb0 & E1 & E2).
    assert (b0 = b) as -> by congruence. split_and!; congruence.
Qed.

(** A statement that leaves the journal and the lifecycle of every checkpoint alone. *)
Definition inert {A} (cid : Id) (op : Tx A) : Prop := forall s a s', op s = Ok (a, s') ->
  st_journal s' = st_journal s /\
  forall r', st_checkpoints s' !! cid = Some r' -> exists r, st_checkpoints s !! cid = Some r /\
    ck_lifecycle r' = ck_lifecycle r.

Lemma inert_reads {A} cid (op : Tx A) : reads op -> inert cid op.
Proof. intros Hr s a s' Hop. rewrite (Hr s a s' Hop). split; [done |]. intros r' Hr'. by exists r'. Qed.

Lemma inert_alter cid id f (m : gmap Id CheckpointObject) :
  (forall r, ck_lifecycle (f r) = ck_lifecycle r) ->
  forall r', alter f id m !! cid = Some r' -> exists r, m !! cid = Some r /\
    ck_lifecycle r' = ck_lifecycle r.
Proof.
  intros Hf r' [(_ & r & Hr & ->) | [_ Hr]]%lookup_alter_Some; [exists r; by rewrite Hf | by exists r'].
Qed.

Ltac inert := intros st0 a0 st1 Hrun; run_op Hrun; (split; [done |]); by apply inert_alter.

Lemma inert_set_digest cid id d m : inert cid (checkpoint_set_digest id d m).
Proof. inert. Qed.
Lemma inert_set_integrity cid id g : inert cid (checkpoint_set_integrity id g).
Proof. inert. Qed.
Lemma inert_add_location cid id l : inert cid (checkpoint_add_location id l).
Proof. inert. Qed.

Ltac still := intros st0 a0 st1 Hrun; run_op Hrun; (split; [done |]); cbn; intros r' Hr'; by exists r'.
Lemma inert_finish cid now k t r e : inert cid (attempt_finish now k t r e).
Proof. still. Qed.
Lemma inert_release cid k : inert cid (reservation_release k).
Proof. still. Qed.
Lemma inert_audit cid now a o w c r d : inert cid (audit_append now a o w c r d).
Proof. still. Qed.

#[export] Hint Resolve inert_reads inert_set_digest inert_set_integrity inert_add_location inert_finish
  inert_release inert_audit : fabric.

Lemma recoverable_evolving {A} key (op : Tx A) :
  evolving key op -> (forall s a s', op s = Ok (a, s') -> st_journal s' = st_journal s) ->
  preserves recoverable op.
Proof.
  intros Hev Hj s a s' Hop. apply recoverable_extends. destruct (Hev s a s' Hop) as [Ha _ _ Hc _ _].
  split_and!; [exact Ha | exact Hc |]. intros k. unfold journal_contains. by rewrite (Hj s a s' Hop).
Qed.

Lemma recoverable_insert c : preserves recoverable (checkpoint_insert c).
Proof.
  apply (recoverable_evolving ""); [auto with fabric |]. intros s a s' Hr. by run_op Hr.
Qed.

Lemma checkpoint_inserted c (s s' : Store) u :
  checkpoint_insert c s = Ok (u, s') -> is_Some (st_checkpoints s' !! ck_checkpoint_id c).
Proof. intros Hr. run_op Hr. cbn. rewrite lookup_insert_eq. by eexists. Qed.

(** ** The end of an attempt *)

(** The attempt is over in [state], and its scope is free. *)
Definition closed (key state : string) (s : Store) : Prop :=
  (forall a, st_attempts s !! key = Some a -> at_state a = state) /\
  (forall r, st_reservations s !! key = Some r -> is_active_reservation r = false).

Lemma attempt_finished now key state r e (s s' : Store) u :
  attempt_finish now key state r e s = Ok (u, s') ->
  forall a, st_attempts s' !! key = Some a -> at_state a = state.
Proof. intros Hr a. run_op Hr. cbn. by intros [(_ & a0 & _ & ->) | [? _]]%lookup_alter_Some. Qed.

Lemma reservation_released key (s s' : Store) u :
  reservation_release key s = Ok (u, s') ->
  st_attempts s' = st_attempts s /\
  forall r, st_reservations s' !! key = Some r -> is_active_reservation r = false.
Proof.
  intros Hr. run_op Hr. split; [done |]. cbn. intros r.
  intros [(_ & r0 & _ & ->) | [? _]]%lookup_alter_Some; [| done].
  by destruct (is_active_reservation r0) eqn:Er.
Qed.

Lemma closed_audit key state now a o w c r d : preserves (closed key state) (audit_append now a o w c r d).
Proof. intros s u s' Hr Hc. by run_op Hr. Qed.

Lemma attempt_finish_runs now key state r e (s : Store) : exists s', attempt_finish now key state r e s = Ok (tt, s').
Proof. by eexists. Qed.
Lemma reservation_release_runs key (s : Store) : exists s', reservation_release key s = Ok (tt, s').
Proof. by eexists. Qed.

(** A statement that keeps the states of the checkpoint. *)
Definition keeps_state {A} (cid : Id) (op : Tx A) : Prop := forall s a s', op s = Ok (a, s') ->
  forall r, st_checkpoints s !! cid = Some r -> exists r', st_checkpoints s' !! cid = Some r' /\
    ck_lifecycle r' = ck_lifecycle r /\ ck_integrity_state r' = ck_integrity_state r.

Lemma keeps_state_finish cid now k t r e : keeps_state cid (attempt_finish now k t r e).
Proof. intros s u s' Hr. run_op Hr. intros x Hx. by exists x. Qed.
Lemma keeps_state_release cid k : keeps_state cid (reservation_release k).
Proof. intros s u s' Hr. run_op Hr. intros x Hx. by exists x. Qed.
Lemma keeps_state_audit cid now a o w c r d : keeps_state cid (audit_append now a o w c r d).
Proof. intros s u s' Hr. run_op Hr. intros x Hx. by exists x. Qed.
Lemma keeps_state_journal cid now k y t d : keeps_state cid (journal_append now k y t d).
Proof.
  intros s u s' Hr. run_op Hr. intros x Hx. exists x. unfold journal_insert.
  by destruct (existsb _ _).
Qed.
Lemma keeps_state_add_location cid i l : keeps_state cid (checkpoint_add_location i l).
Proof.
  intros s u s' Hr. run_op Hr; cbn; intros x Hx;
    (destruct (decide (i = cid)) as [-> | Hne];
      [rewrite lookup_alter_eq, Hx; by eexists | rewrite lookup_alter_ne by done; by exists x]).
Qed.

Lemma recoverable_journal_other now k t y d :
  t <> capture_PERSISTED -> preserves recoverable (journal_append now y k t d).
Proof.
  intros Ht s u s' Hr. apply recoverable_extends. run_op Hr.
  destruct (same_work_journal y k t d (now 0%nat) s) as (Ea & _ & _). split_and!.
  - by apply work_extends_refl_attempts.
  - intros c. unfold journal_insert. by destruct (existsb _ _).
  - intros key. rewrite journal_insert_other; [done | congruence].
Qed.

Lemma recoverable_add_location i l : preserves recoverable (checkpoint_add_location i l).
Proof. apply (recoverable_evolving ""); [auto with fabric |]. intros s a s' Hr. by run_op Hr. Qed.

#[export] Hint Resolve keeps_state_finish keeps_state_release keeps_state_audit keeps_state_journal
  keeps_state_add_location closed_audit recoverable_add_location : fabric.

(** ** What the look-ups answer *)

Lemma journal_has_answers k y t (s : Store) : journal_has k y t s = Ok (journal_contains k y t s, s).
Proof. done. Qed.

Lemma attempt_get_answers k (s : Store) : attempt_get k s = Ok (st_attempts s !! k, s).
Proof. done. Qed.

(** The object read back has its own components and the states of its row. *)
Lemma checkpoint_get_answers cid (s : Store) : exists o, checkpoint_get cid s = Ok (o, s) /\
  ck_lifecycle <$> o = ck_lifecycle <$> st_checkpoints s !! cid /\
  ck_checkpoint_id <$> o = ck_checkpoint_id <$> st_checkpoints s !! cid.
Proof. unfold checkpoint_get. destruct (st_checkpoints s !! cid) as [r |]; by eexists. Qed.

Lemma set_lifecycle_runs cid l g r (s : Store) :
  st_checkpoints s !! cid = Some r ->
  exists s', checkpoint_set_lifecycle cid l g s = Ok (tt, s') /\ st_journal s' = st_journal s /\
    exists r', st_checkpoints s' !! cid = Some r' /\ ck_lifecycle r' = l /\ ck_integrity_state r' = g.
Proof.
  intros Hr. unfold checkpoint_set_lifecycle. rewrite Hr. cbn. eexists. split_and!; [done.. |].
  cbn. rewrite lookup_alter_eq, Hr. by eexists.
Qed.

Lemma checkpoints_finish now k t r e (s s' : Store) u :
  attempt_finish now k t r e s = Ok (u, s') -> st_checkpoints s' = st_checkpoints s /\ st_journal s' = st_journal s.
Proof. intros Hr. by run_op Hr. Qed.
Lemma checkpoints_release k (s s' : Store) u :
  reservation_release k s = Ok (u, s') -> st_checkpoints s' = st_checkpoints s /\ st_journal s' = st_journal s.
Proof. intros Hr. by run_op Hr. Qed.
Lemma checkpoints_audit now a o w c r d (s s' : Store) u :
  audit_append now a o w c r d s = Ok (u, s') -> st_checkpoints s' = st_checkpoints s /\ st_journal s' = st_journal s.
Proof. intros Hr. by run_op Hr. Qed.

(** ** The beginning of an attempt *)

Lemma no_record_without_attempt k key t (s : Store) :
  good s -> st_attempts s !! key = None -> journal_contains k key t s = false.
Proof.
  intros Hg Hn. apply not_true_iff_false. rewrite journal_contains_iff. intros (j & Hj & _ & Ey & _).
  destruct (gd_journal s Hg j Hj) as [a Ha]. congruence.
Qed.

Lemma good_reserve now key kind w c n t (s s' : Store) u :
  good s -> reservation_create now key kind w c n t s = Ok (u, s') ->
  good s' /\ st_attempts s' !! key = None /\ is_Some (st_reservations s' !! key) /\
  st_checkpoints s' = st_checkpoints s /\ st_workloads s' = st_workloads s.
Proof.
  intros Hg Hr. pose proof Hr as Hr0. run_op Hr.
  match goal with Hx : reject_if (_ || _) _ = Ok _ |- _ => apply reject_if_Ok, orb_false_iff in Hx as [Hn _] end.
  destruct (st_reservations s !! key) as [x |] eqn:Er; [done |]. destruct Hg as [[Hs Hrec] Hres Hj].
  split_and!; cbn; [| | rewrite lookup_insert_eq; by eexists | done | done].
  - split.
    + split; [| exact Hrec]. by eapply (statement_keeps_schema (H := hex_codec) (H0 := fixed_policy_codec));
        [constructor | exact Hr0 |].
    + intros k Hk. cbn. destruct (decide (k = key)) as [-> | Hne]; [rewrite lookup_insert_eq; by eexists |].
      rewrite lookup_insert_ne by done. by apply Hres.
    + exact Hj.
  - apply eq_None_not_Some. intros Ha. destruct (Hres key Ha) as [x Hx]. congruence.
Qed.

Lemma tracked_begin now kind key cid w n (s s' : Store) u :
  good s -> st_attempts s !! key = None -> is_Some (st_reservations s !! key) ->
  attempt_begin now key kind (Some cid) w n s = Ok (u, s') -> tracked kind key cid s'.
Proof.
  intros Hg Hn Hk Hr. pose proof Hr as Hr0. pose proof (no_record_without_attempt "capture" key capture_PERSISTED s Hg Hn) as Hno.
  run_op Hr; [by rewrite Hn in * |]. destruct Hg as [[Hs Hrec] Hres Hj].
  split; [| eexists; cbn; rewrite lookup_insert_eq; by split_and!]. split.
  - split; [by eapply (statement_keeps_schema (H := hex_codec) (H0 := fixed_policy_codec)); [constructor | exact Hr0 |] |].
    intros k a. cbn. intros [(<- & <-) | [Hne Ha]]%lookup_insert_Some Hkind Hp; [| by eapply Hrec].
    unfold journal_contains in Hno, Hp. cbn in Hp. congruence.
  - intros k. cbn. intros [a [(<- & _) | [Hne Ha]]%lookup_insert_Some]; [done | apply Hres; by eexists].
  - intros j Hin. cbn. destruct (decide (jr_key j = key)) as [-> | Hne]; [rewrite lookup_insert_eq; by eexists |].
    rewrite lookup_insert_ne by done. by apply Hj.
Qed.

Lemma attempt_begin_runs now key kind c w n (s : Store) :
  exists s', attempt_begin now key kind c w n s = Ok (tt, s') /\
    st_checkpoints s' = st_checkpoints s /\ st_journal s' = st_journal s.
Proof. unfold attempt_begin. destruct (is_some _); by eexists. Qed.

Lemma journal_append_runs now kind key t d (s : Store) :
  exists s', journal_append now kind key t d s = Ok (tt, s').
Proof. by eexists. Qed.

Lemma journal_append_checkpoints now kind key t d (s s' : Store) u :
  journal_append now kind key t d s = Ok (u, s') -> st_checkpoints s' = st_checkpoints s.
Proof. intros Hr. run_op Hr. unfold journal_insert. by destruct (existsb _ _). Qed.

Lemma journal_append_other now kind key t d (s s' : Store) u k y :
  journal_append now kind key t d s = Ok (u, s') -> (k, y) <> (kind, t) ->
  journal_contains k key y s' = journal_contains k key y s.
Proof. intros Hr Hne. run_op Hr. by apply journal_insert_other. Qed.

(** The audit log grows, and nothing else changes. *)
Definition audited (s s' : Store) : Prop := s' = s <| st_audit := st_audit s' |>.

Lemma audit_audits now a o w c r d (s s' : Store) u : audit_append now a o w c r d s = Ok (u, s') -> audited s s'.
Proof. intros Hr. by run_op Hr. Qed.

Lemma audited_refl s : audited s s.
Proof. by destruct s. Qed.

Lemma good_audit now a o w c r d : preserves good (audit_append now a o w c r d).
Proof.
  intros s u s' Hr [[Hs Hrec] Hres Hj].
  pose proof (recoverable_audit now a o w c r d s u s' Hr Hrec) as Hrec'.
  assert (Hs' : schema_ok s').
  { by eapply (statement_keeps_schema (H := hex_codec) (H0 := fixed_policy_codec)); [constructor | exact Hr |]. }
  apply audit_audits in Hr. split; [by split | |]; by rewrite Hr.
Qed.

(** From here on a statement is only its name. *)
Opaque checkpoint_insert checkpoint_update checkpoint_set_lifecycle capture_commit restore_commit
  checkpoint_set_digest checkpoint_set_integrity checkpoint_add_location attempt_begin attempt_finish
  reservation_create reservation_release audit_append journal_append workload_get checkpoint_get
  checkpoint_list checkpoint_max_generation attempt_get node_list journal_has.

(** ** Under [wp] *)

Section lifetime.
Context `{Env, !Quiet}.

(** No identity the process draws is in use. *)
Definition fresh_ids (s : Store) : Prop := forall t, st_checkpoints s !! env_random t = None.

(** The two statements that end an attempt. *)
Lemma wp_closing {B} (I : Store -> Prop) key state res err (k : M World B) Q C s :
  (forall now, preserves I (attempt_finish now key state res err)) -> preserves I (reservation_release key) ->
  I s -> (forall s', I s' -> C s') ->
  (forall s', I s' -> closed key state s' -> wp k Q C s') ->
  wp (db (fun now => attempt_finish now key state res err) ;; db (fun _ => reservation_release key) ;; k) Q C s.
Proof.
  intros Hf Hr Hs HC Hk. wp_step; [by apply HC |].
  destruct (attempt_finish_runs now key state res err s) as [s1 E1]. rewrite E1.
  assert (Hs1 : I s1) by exact (Hf now s tt s1 E1 Hs).
  wp_step; [by apply HC |]. destruct (reservation_release_runs key s1) as [s2 E2]. rewrite E2.
  apply Hk; [exact (Hr s1 tt s2 E2 Hs1) |].
  destruct (reservation_released key s1 s2 tt E2) as [Ea Hfree]. split; [| exact Hfree].
  rewrite Ea. by eapply attempt_finished.
Qed.

(** The reservation, the attempt and its first journal record. *)
Lemma wp_begin {B} kind key cid rkind rw rc aw node ttl jk t d (k : M World B) Q C s :
  good s -> t <> capture_PERSISTED -> (forall s', good s' -> C s') -> (forall e, Q (Err e) s) ->
  (forall s', tracked kind key cid s' -> confined key cid s s' -> st_checkpoints s' = st_checkpoints s ->
     (forall k' t', (k', t') <> (jk, t) -> journal_contains k' key t' s' = false) -> wp k Q C s') ->
  wp (db (fun now => reservation_create now key rkind rw rc node ttl) ;;
      db (fun now => attempt_begin now key kind (Some cid) aw node) ;;
      db (fun now => journal_append now jk key t d) ;; k) Q C s.
Proof.
  intros Hg Ht HC HE Hk. wp_step; [by apply HC |].
  destruct (reservation_create now key _ _ _ _ _ s) as [[[] s1] | e] eqn:E1; [| done].
  destruct (good_reserve _ _ _ _ _ _ _ _ _ _ Hg E1) as (Hg1 & Hn & Hr & Ec1 & _).
  wp_step; [by apply HC |].
  destruct (attempt_begin_runs now0 key kind (Some cid) aw node s1) as (s2 & E2 & Ec2 & Ej2). rewrite E2.
  pose proof (tracked_begin _ _ _ _ _ _ _ _ _ Hg1 Hn Hr E2) as Ht2.
  wp_step; [by apply HC, Ht2 |].
  destruct (journal_append_runs now1 jk key t d s2) as (s3 & E3). rewrite E3. apply Hk.
  - refine (tracked_preserves kind key cid (journal_append now1 jk key t d) _ _ _ s2 tt s3 E3 Ht2);
      [constructor | auto with fabric | by apply recoverable_journal_other].
  - etrans; [by eapply (confining_reserve key cid) |]. etrans; [by eapply (confining_begin key cid) |].
    by eapply (confining_journal key cid).
  - rewrite (journal_append_checkpoints _ _ _ _ _ _ _ _ E3). congruence.
  - intros k' t' Hne. rewrite (journal_append_other _ _ _ _ _ _ _ _ k' t' E3 Hne).
    unfold journal_contains. rewrite Ej2. by apply no_record_without_attempt.
Qed.

End lifetime.

(** A look-up of the validation: the store stays, and an error rejects the request. *)
Ltac looks :=
  eapply (wp_bind_inv (eq _)); [| reflexivity | intros ? ? <- | by intros ? ? <- | by intros ? <-];
    [repeat keeps_step; auto with keeps_db fabric; apply reads_preserves; auto with fabric |].

