(* ===== verification/Coordinator.v ===== *)
(** The coordinator ([src/src/coordinator.rs]): its operations as handlers over the
    shared store ([World]), the recovery ([Recovery]) and the nodes ([Messages]).

    - [audit] and the statements wrapped in [ignore] are those whose errors the source
      discards; [on_error] is [map_err] with a handler that runs for its effects;
    - [panic] is an [unwrap] on [None] or an index out of range: the handler stops
      where it is, without its error handlers;
    - the cache of connections to the nodes is part of what [NodeRpc] leaves open.
    The request dispatcher and one pass of the monitor are in [Dispatch], the server and
    the monitor thread in [CoordinatorProcess]. *)
From S2P Require Import Prelude Errors Ident Lifecycle Checkpoint Workload Compression Policy Compat.
From S2P Require Import Capture Json Restore Lineage Failpoints Tables Persist World Manifest Messages Recovery.
From Stdlib Require Import Strings.Byte.

Definition RESERVATION_TTL_MS : Z := 600000.

(** The parts of [CoordinatorInner] the operations read. *)
Record CoordinatorInner := mkCoordinatorInner {
  ci_epoch : Z;
  ci_policy : PolicySet;
  ci_stale_ms : Z
}.

Record OperationOutcome := mkOperationOutcome {
  oo_attempt_id : string;
  oo_checkpoint_id : option Id;
  oo_workload_id : option Id;
  oo_node : option string;
  oo_state : string;
  oo_result : option string;
  oo_error : option string;
  oo_resumability : option ResumabilityClass;
  oo_workload_generation : option Z;
  oo_execution_epoch : option Z
}.

(** [OperationContext::for_authority]. *)
Definition for_authority (a : Authority) (stale_ms : Z) : OperationContext :=
  mkOperationContext (au_actor a) (Policy.au_roles a) stale_ms.

(** A panic of the handler's thread. *)
Definition panic {A} : M World A := fun w => (Crash, w).

Definition unwrap {A} (o : option A) : M World A :=
  match o with Some a => mret a | None => panic end.

(** [iter().max()]. *)
Definition max_of (l : list Z) : option Z :=
  match l with [] => None | x :: l' => Some (fold_left Z.max l' x) end.

Section coordinator.
Context `{Env, NodeRpc, NodeTexts, HexCodec, Sha256, ManifestCodec}.
Context (self : CoordinatorInner).
Let policy : PolicySet := ci_policy self.
Let epoch : Z := ci_epoch self.

(** ** Plumbing *)

Definition node_is_active (node : string) : M World bool :=
  nodes ← db (fun _ => node_list);
  mret (existsb (fun n => bool_decide (nd_id n = node) && bool_decide (nd_status n = "ACTIVE")) nodes).

Definition node_runtime (node : string) : M World RuntimeCompatibilityDescriptor :=
  nodes ← db (fun _ => node_list);
  match find_first (fun n => bool_decide (nd_id n = node)) nodes with
  | Some n =>
      match json_parse (nd_resources n) ≫= json_get "runtime" with
      | Some rt => lift (ok_or (json_to_runtime rt) (Internal "{e}"))
      | None => raise (Internal "node {node} has no runtime descriptor")
      end
  | None => raise (Internal "node {node} not registered")
  end.

Definition merge_node_provider_versions (node : string) (versions : gmap string string) : M World unit :=
  nodes ← db (fun _ => node_list);
  n ← lift (ok_or (find_first (fun n => bool_decide (nd_id n = node)) nodes)
              (Internal "node {node} not registered"));
  resources ← lift (ok_or (json_parse (nd_resources n)) (Internal "{e}"));
  db (fun now => node_heartbeat now node (json_print (merge_provider_versions versions resources))).

Definition audit (ctx : OperationContext) (op : string) (workload_id checkpoint_id : option Id)
    (result : AuditResult) (detail : string) : M World unit :=
  ignore (db (fun now => audit_append now (ctx_actor ctx) op workload_id checkpoint_id result detail)).

Definition node_addr (node : string) : M World string :=
  nodes ← db (fun _ => node_list);
  n ← lift (ok_or (find_first (fun n => bool_decide (nd_id n = node)) nodes)
              (Internal "node {node} not registered"));
  lift (ok_or (parse_socket_addr (nd_addr n)) (Internal "bad node addr {addr}: {e}")).

(** [call_node]; [send] is the operation code. *)
Definition call_node {Req Resp} (send : nat -> string -> Req -> FabricResult Resp) (node : string)
    (payload : Req) : M World Resp :=
  _ ← node_addr node;
  t ← event;
  lift (send t node payload).

Definition new_fence_token : M World string := i ← random; mret (to_hex i).

Definition authorize_for (ctx : OperationContext) (required : list string) : M World unit :=
  lift (authorize (ctx_roles ctx) required).

(** ** Workload operations *)

Definition create_workload (spec : WorkloadSpec) (claim_node : option string) (ctx : OperationContext)
    : M World Workload :=
  match claim_node with
  | Some node =>
      active ← node_is_active node;
      lift (reject_if (negb active)
              (FencingFailure "cannot claim new workload for inactive node {node}"))
  | None => mret tt
  end ;;
  workload_id ← match ws_workload_id spec with Some i => mret i | None => random end;
  existing ← db (fun _ => workload_get workload_id);
  lift (reject_if (is_some existing) (InvalidArgument "workload {workload_id} already exists")) ;;
  created_ms ← now_ms;
  fence_token ← match claim_node with
                | Some _ => t ← new_fence_token; mret (Some t)
                | None => mret None
                end;
  let w := {| w_workload_id := workload_id;
              w_workload_generation := 0;
              w_owner := ws_owner spec;
              w_class := ws_class spec;
              w_created_ms := created_ms;
              w_execution_epoch := 0;
              w_active_node := claim_node;
              w_backend_class := ws_backend_class spec;
              w_checkpoint_generation := 0;
              w_parent_workload := None;
              w_fork_generation := 0;
              w_policy_version := p_version policy;
              w_metadata := ws_metadata spec;
              w_state_schema_version := ws_state_schema_version spec;
              w_runtime := ws_runtime spec;
              w_resumability_class := RestartFromCheckpoint;
              w_protection := ws_protection spec;
              w_single_active := ws_single_active spec;
              w_fence_token := fence_token;
              w_fence_epoch := 0 |} in
  db (fun _ => workload_insert w) ;;
  audit ctx "workload.create" (Some workload_id) None AuditOk "class={} backend={}" ;;
  mret w.

Definition fence_workload (id : Id) (ctx : OperationContext) : M World Workload :=
  authorize_for ctx (ap_fence (p_authority policy)) ;;
  found ← db (fun _ => workload_get id);
  w ← lift (ok_or found (WorkloadNotFound "{id}"));
  bumped ← attempt (db (fun _ => workload_bump_fence id (w_execution_epoch w)));
  match bumped with
  | Ok _ => mret tt
  | Err _ => raise (FencingFailure "workload fence race")
  end ;;
  db (fun _ => workload_release id (unwrap_or_default (w_active_node w))) ;;
  audit ctx "workload.fence" (Some id) None AuditOk "epoch bumped to {}" ;;
  found ← db (fun _ => workload_get id);
  unwrap found.

Definition attach_workload (workload_id : Id) (node node_boot_id : string) (fence_epoch : Z)
    : M World string :=
  db (fun _ => node_validate_identity node node_boot_id) ;;
  token ← new_fence_token;
  claimed ← attempt (db (fun _ => workload_claim workload_id node token fence_epoch));
  match claimed with
  | Ok _ => mret tt
  | Err (FencingFailure s) => raise (FencingFailure ("attach rejected: " +:+ s))
  | Err other => raise other
  end ;;
  mret token.

Definition detach_workload (workload_id : Id) (node : string) : M World unit :=
  db (fun _ => workload_release workload_id node).

(** ** Capture *)

Definition pick_capture_node (workload : Workload) : M World string :=
  preferred ← match w_active_node workload with
              | Some node => active ← node_is_active node; mret (if active : bool then Some node else None)
              | None => mret None
              end;
  match preferred with
  | Some node => mret node
  | None =>
      nodes ← db (fun _ => node_list);
      lift (ok_or (head (nd_id <$> List.filter (fun n => bool_decide (nd_status n = "ACTIVE")) nodes))
              (Internal "no active nodes available for capture"))
  end.

Definition set_lifecycle (ckpt : CheckpointObject) (target : LifecycleState) : M World unit :=
  cur ← db (fun _ => checkpoint_get (ck_checkpoint_id ckpt));
  let current := match cur with Some c => ck_lifecycle c | None => ck_lifecycle ckpt end in
  lift (transition current target) ;;
  db (fun _ => checkpoint_set_lifecycle (ck_checkpoint_id ckpt) target Pending).

(** The loop of [replicate_to_policy] over the candidate nodes. *)
Fixpoint replicate_targets (checkpoint_id : Id) (targets : list string) (ck : CheckpointObject)
    : M World CheckpointObject :=
  match targets with
  | [] => mret ck
  | target :: targets' =>
      if p_min_valid_replicas policy <=? ck_replica_count ck then mret ck
      else
        source ← unwrap (loc_node <$> head (ck_durable_locations ck));
        i ← random;
        let token := to_hex i in
        _ ← call_node node_allow_fetch source
              (mkNodeAllowFetchRequest checkpoint_id token 300000 epoch);
        from_addr ← node_addr source;
        j ← random;
        expected ← lift (ok_or (ck_manifest_digest ck)
                           (IntegrityFailure "checkpoint has no coordinator manifest anchor"));
        res ← call_node node_replicate target
                (mkNodeReplicateRequest
                   ("replicate-" +:+ to_hex checkpoint_id +:+ "-" +:+ to_hex j)
                   checkpoint_id expected from_addr token epoch);
        when (npe_ok res)
          (db (fun _ => checkpoint_add_location checkpoint_id
                          (mkDurableLocation target (unwrap_or_default (npe_path res)) true))) ;;
        found ← db (fun _ => checkpoint_get checkpoint_id);
        ck ← unwrap found;
        replicate_targets checkpoint_id targets' ck
  end.

Definition replicate_to_policy (checkpoint_id : Id) (ctx : OperationContext) : M World Z :=
  if p_min_valid_replicas policy <=? 1 then mret 1
  else
    found ← db (fun _ => checkpoint_get checkpoint_id);
    ck ← lift (ok_or found (CheckpointNotFound "{checkpoint_id}"));
    let have := loc_node <$> ck_durable_locations ck in
    nodes ← db (fun _ => node_list);
    let targets := nd_id <$> List.filter (fun n => bool_decide (nd_status n = "ACTIVE") &&
                                                   negb (bool_decide (nd_id n ∈ have))) nodes in
    ck ← replicate_targets checkpoint_id targets ck;
    audit ctx "checkpoint.replicate" (Some (ck_workload_id ck)) (Some checkpoint_id) AuditOk
      "replica count now {}" ;;
    mret (ck_replica_count ck).

(** The protection of a new checkpoint. *)
Definition capture_protection (workload : Workload) (checkpoint_generation : Z) : ProtectionState :=
  let latest_gen := saturating_add (w_checkpoint_generation workload) 1 in
  if saturating_sub latest_gen (p_protected_generations policy) <=? checkpoint_generation
  then Protected else Unprotected.

(** [execute_capture] up to the journaled durability of the metadata: capture on the
    node, validation, sealing, promotion and the full image of the row. *)
Definition capture_persist (workload : Workload) (node attempt_id : string) (checkpoint_id : Id)
    (checkpoint_generation : Z) (requested_consistency : ConsistencyClass) (options : CaptureOptions)
    : M World ResumabilityClass :=
  created_ms ← now_ms;
  let ckpt := checkpoint_scaffold created_ms workload checkpoint_id checkpoint_generation attempt_id
                epoch node options policy in
  db (fun _ => checkpoint_insert ckpt) ;;
  set_lifecycle ckpt Capturing ;;
  let req := {| ncq_attempt_id := attempt_id;
                ncq_checkpoint_id := checkpoint_id;
                ncq_workload_id := w_workload_id workload;
                ncq_checkpoint_generation := checkpoint_generation;
                ncq_consistency := requested_consistency;
                ncq_quiescence := co_quiescence options;
                ncq_components := co_components options;
                ncq_compression := compression_spec policy;
                ncq_coordinator_epoch := epoch |} in
  node_result ← call_node node_capture node req;
  lift (reject_if (negb (ncr_ok node_result))
          (CaptureProviderFailure (default "node capture failed" (ncr_error node_result)))) ;;
  lift (validate_component_completeness (co_components options) (ncr_components node_result)) ;;
  let achieved := derive_consistency (Some requested_consistency) (co_quiescence options)
                    (co_frontier options) (ncr_cooperative_ack node_result) in
  lift (enforce_consistency policy achieved) ;;
  let resumability := derive_resumability achieved (co_frontier options) (co_side_effects options) in
  let ckpt := ckpt <| ck_components := ncr_components node_result |>
                   <| ck_consistency := achieved |>
                   <| ck_resumability := resumability |>
                   <| ck_total_logical_bytes := ncr_total_logical_bytes node_result |>
                   <| ck_total_physical_bytes := ncr_total_physical_bytes node_result |>
                   <| ck_compressed_bytes := ncr_compressed_bytes node_result |>
                   <| ck_protection := capture_protection workload checkpoint_generation |> in
  set_lifecycle ckpt Captured ;;
  set_lifecycle ckpt Validating ;;
  failpoint "capture.before_seal" ;;
  seal_ms ← now_ms;
  let manifest := (scaffold ckpt) <| mf_seal_ms := seal_ms |> in
  let sealed := seal manifest in
  let ckpt := ckpt <| ck_seal_ms := seal_ms |>
                   <| ck_manifest_digest := Some (sm_digest sealed) |>
                   <| ck_manifest_json := Some (text_of_bytes (sm_canonical_bytes sealed)) |> in
  db (fun _ => checkpoint_set_digest checkpoint_id (sm_digest sealed)
                 (text_of_bytes (sm_canonical_bytes sealed))) ;;
  set_lifecycle ckpt Sealed ;;
  db (fun now => journal_append now "capture" attempt_id capture_SEALED "manifest sealed") ;;
  db (fun _ => checkpoint_set_integrity checkpoint_id Valid) ;;
  set_lifecycle ckpt Persisting ;;
  let promote_req := {| nmq_attempt_id := attempt_id;
                        nmq_checkpoint_id := checkpoint_id;
                        nmq_manifest_bytes := sm_canonical_bytes sealed;
                        nmq_digest := sm_digest sealed;
                        nmq_integrity_root := sm_integrity_root sealed;
                        nmq_coordinator_epoch := epoch |} in
  promote_res ← call_node node_promote node promote_req;
  lift (reject_if (negb (nmr_ok promote_res))
          (PersistenceError (default "promote failed" (nmr_error promote_res)))) ;;
  let ckpt := ckpt <| ck_durable_locations :=
                        [mkDurableLocation node (unwrap_or_default (nmr_commit_path promote_res)) true] |>
                   <| ck_replica_count := 1 |>
                   <| ck_integrity_state := Pending |>
                   <| ck_lifecycle := Persisting |>
                   <| ck_retirement_eligibility :=
                        match ck_protection ckpt with
                        | Unprotected => Eligible
                        | _ => EligProtected
                        end |> in
  db (fun _ => checkpoint_update ckpt) ;;
  db (fun now => journal_append now "capture" attempt_id capture_PERSISTED "checkpoint promoted on node") ;;
  mret resumability.

(** [execute_capture] from the commit on: commit, resume of the source, replication. *)
Definition capture_finish (workload : Workload) (node attempt_id : string) (checkpoint_id : Id)
    (resumability : ResumabilityClass) (ctx : OperationContext) : M World OperationOutcome :=
  failpoint "capture.before_db_commit" ;;
  db (fun now => capture_commit now checkpoint_id attempt_id) ;;
  let resume_req := {| nsq_attempt_id := attempt_id;
                       nsq_checkpoint_id := checkpoint_id;
                       nsq_workload_id := w_workload_id workload;
                       nsq_fence_token := None;
                       nsq_execution_epoch := None;
                       nsq_resume := true;
                       nsq_coordinator_epoch := epoch |} in
  resume_res ← call_node node_resume node resume_req;
  (if negb (nsr_ok resume_res) then
     let detail := "checkpoint committed but source resume failed: " +:+
                     unwrap_or_default (nsr_error resume_res) in
     db (fun now => attempt_finish now attempt_id "RESUME_FAILED" (Some "checkpoint committed")
                      (Some detail)) ;;
     audit ctx "capture.resume_failed" (Some (w_workload_id workload)) (Some checkpoint_id)
       AuditFailed detail ;;
     raise (CaptureProviderFailure detail)
   else mret tt) ;;
  db (fun now => journal_append now "capture" attempt_id capture_RESUME_DONE "source resumed") ;;
  _ ← replicate_to_policy checkpoint_id ctx;
  db (fun now => attempt_finish now attempt_id "COMMITTED" (Some "capture committed") None) ;;
  db (fun _ => reservation_release attempt_id) ;;
  audit ctx "capture.commit" (Some (w_workload_id workload)) (Some checkpoint_id) AuditOk
    "generation {checkpoint_generation} on node {node}: {achieved:?} {resumability:?} replicas={replicas}" ;;
  failpoint "capture.after_commit" ;;
  mret {| oo_attempt_id := attempt_id;
          oo_checkpoint_id := Some checkpoint_id;
          oo_workload_id := Some (w_workload_id workload);
          oo_node := Some node;
          oo_state := "AVAILABLE";
          oo_result := Some "capture committed";
          oo_error := None;
          oo_resumability := Some resumability;
          oo_workload_generation := Some (w_workload_generation workload);
          oo_execution_epoch := Some (w_execution_epoch workload) |}.

Definition execute_capture (workload : Workload) (node attempt_id : string) (checkpoint_id : Id)
    (checkpoint_generation : Z) (requested_consistency : ConsistencyClass) (options : CaptureOptions)
    (ctx : OperationContext) : M World OperationOutcome :=
  resumability ← capture_persist workload node attempt_id checkpoint_id checkpoint_generation
                   requested_consistency options;
  capture_finish workload node attempt_id checkpoint_id resumability ctx.

(** [abort_capture_attempt]; its only caller passes a checkpoint id. *)
Definition abort_capture_attempt (attempt_id : string) (checkpoint_id : option Id) (workload_id : Id)
    (detail : string) (ctx : OperationContext) : M World unit :=
  committed ← db (fun _ => journal_has "capture" attempt_id capture_DB_COMMITTED);
  found ← db (fun _ => attempt_get attempt_id);
  match found with
  | Some att =>
      let resume := {| nsq_attempt_id := attempt_id;
                       nsq_checkpoint_id := default (id_splat Byte.x00) checkpoint_id;
                       nsq_workload_id := workload_id;
                       nsq_fence_token := None;
                       nsq_execution_epoch := None;
                       nsq_resume := true;
                       nsq_coordinator_epoch := epoch |} in
      ignore (call_node node_resume (at_node att) resume) ;;
      let cleanup := {| nlq_staging_attempts := [attempt_id];
                        nlq_staging_paths := [];
                        nlq_restore_attempts := [];
                        nlq_checkpoint_ids := if (committed : bool) then [] else option_list checkpoint_id;
                        nlq_coordinator_epoch := epoch |} in
      ignore (call_node node_cleanup (at_node att) cleanup)
  | None => mret tt
  end ;;
  match checkpoint_id with
  | Some cid =>
      ck ← db (fun _ => checkpoint_get cid);
      match ck with
      | Some ck =>
          when (negb committed && negb (lifecycle_is (ck_lifecycle ck) [Available; Restored; Retired]))
            (db (fun _ => checkpoint_set_lifecycle cid Failed Pending))
      | None => mret tt
      end
  | None => mret tt
  end ;;
  db (fun now => attempt_finish now attempt_id (if (committed : bool) then "COMMITTED" else "FAILED")
                   (if (committed : bool) then Some "capture committed before later failure" else None)
                   (if (committed : bool) then None else Some detail)) ;;
  db (fun _ => reservation_release attempt_id) ;;
  audit ctx "capture.aborted" (Some workload_id) checkpoint_id AuditFailed detail.

(** What [request_capture] has done when the attempt begins. *)
Record CaptureStart := mkCaptureStart {
  cs_workload : Workload;
  cs_node : string;
  cs_attempt_id : string;
  cs_checkpoint_id : Id;
  cs_checkpoint_generation : Z
}.

(** [request_capture] up to the reservation, its attempt and its first journal record. *)
Definition reserve_capture_attempt (workload_id : Id) (options : CaptureOptions) (ctx : OperationContext)
    : M World CaptureStart :=
  authorize_for ctx (ap_capture (p_authority policy)) ;;
  failpoint "capture.before_validation" ;;
  found ← db (fun _ => workload_get workload_id);
  workload ← lift (ok_or found (WorkloadNotFound "{workload_id}"));
  cks ← db (fun _ => checkpoint_list (Some workload_id));
  let last_seal := max_of (ck_seal_ms <$>
    List.filter (fun c => bool_decide (ck_lifecycle c = Available)) cks) in
  now ← now_ms;
  lift (validate_capture_request workload options policy last_seal now) ;;
  lift (workload_captureable workload (w_active_node workload)) ;;
  node ← pick_capture_node workload;
  i ← random;
  let attempt_id := "capture-" +:+ to_hex workload_id +:+ "-" +:+ to_hex i in
  max_generation ← db (fun _ => checkpoint_max_generation workload_id);
  let checkpoint_generation := saturating_add max_generation 1 in
  checkpoint_id ← random;
  db (fun now => reservation_create now attempt_id "capture" (Some workload_id) None node
                   RESERVATION_TTL_MS) ;;
  db (fun now => attempt_begin now attempt_id "capture" (Some checkpoint_id) (Some workload_id) node) ;;
  db (fun now => journal_append now "capture" attempt_id capture_RESERVED "reservation committed") ;;
  mret (mkCaptureStart workload node attempt_id checkpoint_id checkpoint_generation).

Definition request_capture (workload_id : Id) (options : CaptureOptions) (ctx : OperationContext)
    : M World OperationOutcome :=
  start ← reserve_capture_attempt workload_id options ctx;
  let consistency := default CrashConsistent (co_consistency options) in
  on_error
    (execute_capture (cs_workload start) (cs_node start) (cs_attempt_id start) (cs_checkpoint_id start)
       (cs_checkpoint_generation start) consistency options ctx)
    (fun e => abort_capture_attempt (cs_attempt_id start) (Some (cs_checkpoint_id start)) workload_id
                ("capture failed: " +:+ display e) ctx).

(** ** Restore, rollback, fork, migration *)

(** The first location whose node is active; an error of the look-up counts as not. *)
Fixpoint find_active_location (l : list DurableLocation) : M World (option DurableLocation) :=
  match l with
  | [] => mret None
  | loc :: l' =>
      active ← attempt (node_is_active (loc_node loc));
      if bool_decide (active = Ok true) then mret (Some loc) else find_active_location l'
  end.

Definition ensure_replica (target_node : string) (ckpt : CheckpointObject) (attempt_id : string)
    : M World unit :=
  found ← find_active_location (ck_durable_locations ckpt);
  source ← lift (ok_or (loc_node <$> found) (Internal "no active node holds a replica for restore"));
  i ← random;
  let token := to_hex i in
  _ ← call_node node_allow_fetch source
        (mkNodeAllowFetchRequest (ck_checkpoint_id ckpt) token 300000 epoch);
  from_addr ← node_addr source;
  expected ← lift (ok_or (ck_manifest_digest ckpt)
                     (IntegrityFailure "checkpoint has no coordinator manifest anchor"));
  res ← call_node node_replicate target_node
          (mkNodeReplicateRequest attempt_id (ck_checkpoint_id ckpt) expected from_addr token epoch);
  lift (reject_if (negb (npe_ok res)) (RestoreFailure "replica staging on target failed: {}")) ;;
  db (fun _ => checkpoint_add_location (ck_checkpoint_id ckpt)
                 (mkDurableLocation target_node (unwrap_or_default (npe_path res)) true)).

(** [execute_restore] up to the journaled restore of the components on the target. *)
Definition restore_components (ckpt : CheckpointObject) (target_node attempt_id : string) : M World unit :=
  set_lifecycle ckpt RestorePending ;;
  db (fun now => journal_append now "restore" attempt_id restore_PROVISIONED "target provisioned") ;;
  res ← call_node node_probe target_node (mkNodeProbeRequest (ck_checkpoint_id ckpt) epoch);
  when (negb (npr_has_replica res)) (ensure_replica target_node ckpt attempt_id) ;;
  set_lifecycle ckpt Restoring ;;
  expected ← lift (ok_or (ck_manifest_digest ckpt)
                     (IntegrityFailure "checkpoint has no coordinator manifest anchor"));
  res ← call_node node_restore target_node
          {| nrq_attempt_id := attempt_id;
             nrq_checkpoint_id := ck_checkpoint_id ckpt;
             nrq_workload_id := ck_workload_id ckpt;
             nrq_expected_manifest_digest := expected;
             nrq_max_component_bytes := p_max_component_bytes policy;
             nrq_coordinator_epoch := epoch |};
  lift (reject_if (negb (nrr_ok res)) (RestoreFailure (default "node restore failed" (nrr_error res)))) ;;
  db (fun now => journal_append now "restore" attempt_id restore_COMPONENTS_RESTORED "components restored").

(** The rest of [execute_restore]: the commit of the authority and the resume. *)
Definition restore_finish (ckpt : CheckpointObject) (target_node attempt_id : string)
    (options : RestoreOptions) (compat_verdict : CompatVerdict) (ctx : OperationContext)
    : M World OperationOutcome :=
  failpoint "restore.before_generation_commit" ;;
  token ← match ro_target_fence_token options with
          | Some t => mret t
          | None => new_fence_token
          end;
  db (fun now => restore_commit now (ck_checkpoint_id ckpt) attempt_id target_node token
                   (ro_migration options) (ro_rollback options)) ;;
  found ← db (fun _ => workload_get (ck_workload_id ckpt));
  w ← unwrap found;
  failpoint "restore.after_generation_commit" ;;
  answer ← attempt (call_node node_resume target_node
             {| nsq_attempt_id := attempt_id;
                nsq_checkpoint_id := ck_checkpoint_id ckpt;
                nsq_workload_id := ck_workload_id ckpt;
                nsq_fence_token := Some token;
                nsq_execution_epoch := Some (w_execution_epoch w);
                nsq_resume := ro_resume options;
                nsq_coordinator_epoch := epoch |});
  let '(resumed, resume_error) :=
    match answer with
    | Ok r => (ro_resume options && nsr_ok r, if negb (nsr_ok r) then nsr_error r else None)
    | Err e => (false, Some (display e))
    end in
  db (fun now => journal_append now "restore" attempt_id restore_RESUMED
                   (if (resumed : bool) then "resumed" else "not_resumed")) ;;
  let restored_class := restored_resumability (ck_resumability ckpt) compat_verdict resumed in
  db (fun now => attempt_finish now attempt_id
                   (if (resumed : bool) then "COMMITTED" else "COMMITTED_NO_RESUME")
                   (Some (if (resumed : bool) then "restore committed and resumed"
                          else "restore committed without resume"))
                   resume_error) ;;
  db (fun _ => reservation_release attempt_id) ;;
  audit ctx "restore.commit" (Some (ck_workload_id ckpt)) (Some (ck_checkpoint_id ckpt)) AuditOk
    "restored to {target_node}: generation {} epoch {} class {restored_class:?} resumed={resumed}" ;;
  failpoint "restore.after_commit" ;;
  mret {| oo_attempt_id := attempt_id;
          oo_checkpoint_id := Some (ck_checkpoint_id ckpt);
          oo_workload_id := Some (ck_workload_id ckpt);
          oo_node := Some target_node;
          oo_state := if (resumed : bool) then "RESTORED" else "RESTORED_NO_RESUME";
          oo_result := Some (if (resumed : bool) then "restored" else "restored without resume");
          oo_error := resume_error;
          oo_resumability := Some restored_class;
          oo_workload_generation := Some (w_workload_generation w);
          oo_execution_epoch := Some (w_execution_epoch w) |}.

Definition execute_restore (ckpt : CheckpointObject) (target_node attempt_id : string)
    (options : RestoreOptions) (compat_verdict : CompatVerdict) (ctx : OperationContext)
    : M World OperationOutcome :=
  restore_components ckpt target_node attempt_id ;;
  restore_finish ckpt target_node attempt_id options compat_verdict ctx.

Definition abort_restore_attempt (attempt_id : string) (ckpt : CheckpointObject) (detail : string)
    (ctx : OperationContext) : M World unit :=
  committed ← db (fun _ => journal_has "restore" attempt_id restore_GENERATION_COMMITTED);
  if (committed : bool) then
    db (fun now => attempt_finish now attempt_id "COMMITTED_NO_RESUME"
                     (Some "restore committed before post-commit failure") (Some detail)) ;;
    db (fun _ => reservation_release attempt_id) ;;
    audit ctx "restore.post_commit_failure" (Some (ck_workload_id ckpt)) (Some (ck_checkpoint_id ckpt))
      AuditRecovered detail
  else
    found ← db (fun _ => attempt_get attempt_id);
    match found with
    | Some att =>
        ignore (call_node node_cleanup (at_node att)
          {| nlq_staging_attempts := [attempt_id];
             nlq_staging_paths := [];
             nlq_restore_attempts :=
               [mkRestoreCleanupTarget attempt_id (ck_checkpoint_id ckpt) (ck_workload_id ckpt)];
             nlq_checkpoint_ids := [];
             nlq_coordinator_epoch := epoch |})
    | None => mret tt
    end ;;
    reopen_checkpoint (ck_checkpoint_id ckpt) ;;
    db (fun now => attempt_finish now attempt_id "FAILED" None (Some detail)) ;;
    db (fun _ => reservation_release attempt_id) ;;
    audit ctx "restore.aborted" (Some (ck_workload_id ckpt)) (Some (ck_checkpoint_id ckpt))
      AuditFailed detail.

(** The admission checks of [request_restore]: the checkpoint and the verdict. *)
Definition admit_restore (checkpoint_id : Id) (target_node : string) (options : RestoreOptions)
    (ctx : OperationContext) : M World (CheckpointObject * CompatVerdict) :=
  authorize_for ctx (ap_restore (p_authority policy)) ;;
  lift (reject_if (ro_rollback options && ro_migration options)
          (InvalidArgument "restore cannot be both rollback and migration")) ;;
  when (ro_rollback options) (authorize_for ctx (ap_rollback (p_authority policy))) ;;
  when (ro_migration options) (authorize_for ctx (ap_migrate (p_authority policy))) ;;
  active ← node_is_active target_node;
  lift (reject_if (negb active) (RestoreFailure "restore target node {target_node} is not active")) ;;
  found ← db (fun _ => checkpoint_get checkpoint_id);
  ckpt ← lift (ok_or found (CheckpointNotFound "{checkpoint_id}"));
  lift (validate_restore_request ckpt policy target_node) ;;
  lift (restore_eligible ckpt policy) ;;
  lift (validate_context_refs ckpt (ro_resolved_context_refs options)) ;;
  found ← db (fun _ => workload_get (ck_workload_id ckpt));
  workload ← lift (ok_or found (WorkloadNotFound "{}"));
  lift (validate_target_claim workload target_node (ro_migration options)) ;;
  target_desc ← node_runtime target_node;
  compat ← lift (evaluate ckpt target_desc policy);
  (if bool_decide (cr_verdict compat = Incompatible) then
     audit ctx "restore.rejected" (Some (ck_workload_id ckpt)) (Some checkpoint_id) AuditRejected
       "incompatible target: {}" ;;
     raise (CompatibilityFailure (String.concat "; " (cr_reasons compat)))
   else mret tt) ;;
  lift (enforce_degraded policy (cr_verdict compat)) ;;
  mret (ckpt, cr_verdict compat).

(** The reservation, the attempt and the first journal record of a restore. *)
Definition reserve_restore_attempt (ckpt : CheckpointObject) (checkpoint_id : Id) (target_node : string)
    (options : RestoreOptions) : M World string :=
  i ← random;
  let attempt_id := "restore-" +:+ to_hex checkpoint_id +:+ "-" +:+ to_hex i in
  db (fun now => reservation_create now attempt_id "restore" None (Some checkpoint_id) target_node
                   RESERVATION_TTL_MS) ;;
  db (fun now => attempt_begin now attempt_id (if ro_rollback options then "rollback" else "restore")
                   (Some checkpoint_id) (Some (ck_workload_id ckpt)) target_node) ;;
  db (fun now => journal_append now "restore" attempt_id restore_RESERVED "restore reserved") ;;
  mret attempt_id.

Definition request_restore (checkpoint_id : Id) (target_node : string) (options : RestoreOptions)
    (ctx : OperationContext) : M World OperationOutcome :=
  admitted ← admit_restore checkpoint_id target_node options ctx;
  let ckpt := fst admitted in
  attempt_id ← reserve_restore_attempt ckpt checkpoint_id target_node options;
  on_error (execute_restore ckpt target_node attempt_id options (snd admitted) ctx)
    (fun e => abort_restore_attempt attempt_id ckpt ("restore failed: " +:+ display e) ctx).

Definition request_rollback (checkpoint_id : Id) (target_node : string) (ctx : OperationContext)
    : M World OperationOutcome :=
  authorize_for ctx (ap_rollback (p_authority policy)) ;;
  request_restore checkpoint_id target_node
    (RestoreOptions_default <| ro_rollback := true |> <| ro_resume := true |>) ctx.
End coordinator.
