(* ===== verification/Steps.v ===== *)
(** The parts of the coordinator's operations that touch no row: look-ups, calls of a
    node, audits.  Rules for them under [keeps] and [wp], shared by the theorems about
    the operations. *)
From S2P Require Import Prelude Errors Ident Lifecycle Checkpoint Workload Compression Policy Compat.
From S2P Require Import Capture Json Restore Lineage Failpoints Tables Persist Schema World Manifest Messages.
From S2P Require Import Recovery Coordinator.

Create HintDb keeps_db.

Section reading.
Context `{Env, NodeRpc, NodeTexts, HexCodec, Sha256, ManifestCodec}.
Context (I : Store -> Prop) `{!Stable I}.

Lemma keeps_reading {A} (op : Clock -> Tx A) : (forall now, reads (op now)) -> keeps (on_store I) (db op).
Proof. intros Hr. apply keeps_db; [exact _ |]. intros now. apply reads_preserves, Hr. Qed.

Local Ltac keeps_read := repeat keeps_step; eauto 2 with fabric.

Lemma keeps_node_is_active n : keeps (on_store I) (node_is_active n).
Proof. unfold node_is_active. keeps_read. Qed.
Lemma keeps_node_runtime n : keeps (on_store I) (node_runtime n).
Proof. unfold node_runtime. keeps_read. Qed.
Lemma keeps_node_addr n : keeps (on_store I) (node_addr n).
Proof. unfold node_addr. keeps_read. Qed.
Lemma keeps_call_node {Req Resp} (send : nat -> string -> Req -> FabricResult Resp) n p :
  keeps (on_store I) (call_node send n p).
Proof. unfold call_node. repeat keeps_step; [apply keeps_node_addr | by apply keeps_event]. Qed.
Lemma keeps_panic {A} : keeps (on_store I) (panic (A := A)).
Proof. by intros w Hw. Qed.
Lemma keeps_unwrap {A} (o : option A) : keeps (on_store I) (unwrap o).
Proof. destruct o; [apply keeps_ret | apply keeps_panic]. Qed.
Lemma keeps_authorize ctx l : keeps (on_store I) (authorize_for ctx l).
Proof. apply keeps_lift. Qed.
Lemma keeps_fence_token : keeps (on_store I) new_fence_token.
Proof. unfold new_fence_token. keeps_read. Qed.
Lemma keeps_pick w : keeps (on_store I) (pick_capture_node w).
Proof. unfold pick_capture_node. repeat keeps_step; eauto 2 using keeps_node_is_active with fabric. Qed.
Lemma keeps_find_active l : keeps (on_store I) (find_active_location l).
Proof.
  induction l as [| x l IH]; cbn [find_active_location]; repeat keeps_step; [| exact IH].
  apply keeps_node_is_active.
Qed.
End reading.

#[export] Hint Extern 0 (Stable _) => exact _ : keeps_db.
#[export] Hint Resolve keeps_reading keeps_node_is_active keeps_node_runtime keeps_node_addr keeps_call_node
  keeps_panic keeps_unwrap keeps_authorize keeps_fence_token keeps_pick keeps_find_active : keeps_db.

(** ** The same under [wp]: the store stays, and nothing is known of the answer *)

Section looking.
Context `{Env, !Quiet, NodeRpc, NodeTexts}.

Lemma wp_looking {A} (m : M World A) Q C s :
  keeps (on_store (eq s)) m -> C s -> (forall r, Q r s) -> wp m Q C s.
Proof.
  intros Hm HC HQ. apply (wp_inv (eq s)); [exact Hm | done | by intros r s' <- | by intros s' <-].
Qed.

Lemma wp_call_node {Req Resp} (send : nat -> string -> Req -> FabricResult Resp) n p Q C s :
  C s -> (forall r, Q r s) -> wp (call_node send n p) Q C s.
Proof. apply wp_looking, keeps_call_node, Quiet_Stable, _. Qed.
End looking.
