(* ===== verification/Maintenance.v ===== *)
(** The other operations of the coordinator ([src/src/coordinator.rs]): fork and
    migration, verification, protection, retirement, reclamation candidates, the
    recovery run with its node calls, the monitor's sweep of stale nodes, and the
    node registration and heartbeat handlers of the dispatcher. *)
From S2P Require Import Prelude Errors Ident Lifecycle Checkpoint Workload Compression Policy Compat.
From S2P Require Import Capture Json Restore Lineage Failpoints Tables Persist World Manifest Messages Recovery.
From S2P Require Import Coordinator Integrations.
From Stdlib Require Import Strings.Byte.

Section maintenance.
Context `{Env, NodeRpc, NodeTexts, HexCodec, Sha256, ManifestCodec}.
Context (self : CoordinatorInner).
Let policy : PolicySet := ci_policy self.
Let epoch : Z := ci_epoch self.

Definition fork (checkpoint_id : Id) (spec : WorkloadSpec) (ctx : OperationContext) : M World Workload :=
  authorize_for ctx (ap_fork (p_authority policy)) ;;
  found ← db (fun _ => checkpoint_get checkpoint_id);
  ckpt ← lift (ok_or found (CheckpointNotFound "{checkpoint_id}"));
  found ← db (fun _ => workload_get (ck_workload_id ckpt));
  parent ← lift (ok_or found (WorkloadNotFound "{}"));
  child_id ← match ws_workload_id spec with Some i => mret i | None => random end;
  created_ms ← now_ms;
  let child := {| w_workload_id := child_id;
                  w_workload_generation := 0;
                  w_owner := ws_owner spec;
                  w_class := ws_class spec;
                  w_created_ms := created_ms;
                  w_execution_epoch := 0;
                  w_active_node := None;
                  w_backend_class := ws_backend_class spec;
                  w_checkpoint_generation := 0;
                  w_parent_workload := Some (w_workload_id parent);
                  w_fork_generation := saturating_add (w_fork_generation parent) 1;
                  w_policy_version := p_version policy;
                  w_metadata := ws_metadata spec;
                  w_state_schema_version := ws_state_schema_version spec;
                  w_runtime := ws_runtime spec;
                  w_resumability_class := RestartFromCheckpoint;
                  w_protection := ws_protection spec;
                  w_single_active := ws_single_active spec;
                  w_fence_token := None;
                  w_fence_epoch := 0 |} in
  db (fun now => workload_insert_fork now child (w_workload_id parent) checkpoint_id
                   "fork from checkpoint {checkpoint_id} (gen {})") ;;
  audit ctx "workload.fork" (Some child_id) (Some checkpoint_id) AuditOk "forked from workload {}" ;;
  found ← db (fun _ => workload_get child_id);
  unwrap found.

(** [migrate] calls itself on a checkpoint it has just captured; [None] is out of fuel. *)
Fixpoint migrate (fuel : nat) (checkpoint_id : Id) (target_node : string) (ctx : OperationContext)
    : M World (option OperationOutcome) :=
  match fuel with
  | O => mret None
  | S fuel' =>
      authorize_for ctx (ap_migrate (p_authority policy)) ;;
      found ← db (fun _ => checkpoint_get checkpoint_id);
      ckpt ← lift (ok_or found (CheckpointNotFound "{checkpoint_id}"));
      found ← db (fun _ => workload_get (ck_workload_id ckpt));
      workload ← lift (ok_or found (WorkloadNotFound "{}"));
      let source_node := ck_source_node ckpt in
      lift (validate_migration_request (w_workload_id workload) checkpoint_id source_node target_node) ;;
      if negb (lifecycle_is_restorable (ck_lifecycle ckpt)) then
        active ← node_is_active source_node;
        lift (reject_if (negb active)
                (MigrationFailure "source node {source_node} is not active; cannot capture fresh state")) ;;
        capture_outcome ← request_capture self (w_workload_id workload)
                            (CaptureOptions_default <| co_quiescence := NoQuiescence |>) ctx;
        new_id ← lift (ok_or (oo_checkpoint_id capture_outcome)
                         (Internal "capture produced no checkpoint"));
        migrate fuel' new_id target_node ctx
      else
        outcome ← request_restore self checkpoint_id target_node
                    (RestoreOptions_default <| ro_migration := true |> <| ro_resume := true |>) ctx;
        mret (Some outcome)
  end.

Definition verify_checkpoint (checkpoint_id : Id) (ctx : OperationContext) : M World NodeVerifyResult :=
  authorize_for ctx (ap_verify (p_authority policy)) ;;
  found ← db (fun _ => checkpoint_get checkpoint_id);
  ckpt ← lift (ok_or found (CheckpointNotFound "{checkpoint_id}"));
  lift (reject_if (bool_decide (ck_lifecycle ckpt = Failed))
          (CorruptedCheckpoint "failed checkpoint cannot be verified as valid")) ;;
  loc ← find_active_location (ck_durable_locations ckpt);
  node ← lift (ok_or (loc_node <$> loc) (Internal "no active node holds a replica for verification"));
  expected ← lift (ok_or (ck_manifest_digest ckpt)
                     (IntegrityFailure "checkpoint has no coordinator manifest anchor"));
  res ← call_node node_verify node (mkNodeVerifyRequest checkpoint_id expected epoch);
  let res := if nvr_ok res && negb (bool_decide (nvr_manifest_digest res = Some expected)) then
               mkNodeVerifyResult (nvr_checkpoint_id res) false
                 (Some "node verification did not match coordinator manifest anchor")
                 (nvr_manifest_digest res)
             else res in
  db (fun _ => checkpoint_set_integrity checkpoint_id (if nvr_ok res then Valid else Corrupt)) ;;
  audit ctx "checkpoint.verify" (Some (ck_workload_id ckpt)) (Some checkpoint_id)
    (if nvr_ok res then AuditOk else AuditFailed) "verification on node {node}: {}" ;;
  mret res.

(** It asks for no role. *)
Definition protect_checkpoint (checkpoint_id : Id) (pinned : bool) (ctx : OperationContext) : M World unit :=
  found ← db (fun _ => checkpoint_get checkpoint_id);
  ckpt ← lift (ok_or found (CheckpointNotFound "{checkpoint_id}"));
  let p := if pinned then Pinned else Protected in
  db (fun _ => checkpoint_set_protection checkpoint_id p) ;;
  audit ctx (if pinned then "checkpoint.pin" else "checkpoint.protect") (Some (ck_workload_id ckpt))
    (Some checkpoint_id) AuditOk "protection set to {p:?}".

Definition unprotect_checkpoint (checkpoint_id : Id) (ctx : OperationContext) : M World unit :=
  found ← db (fun _ => checkpoint_get checkpoint_id);
  ckpt ← lift (ok_or found (CheckpointNotFound "{checkpoint_id}"));
  db (fun _ => checkpoint_set_protection checkpoint_id Unprotected) ;;
  audit ctx "checkpoint.unprotect" (Some (ck_workload_id ckpt)) (Some checkpoint_id) AuditOk
    "protection cleared".

(** The deletion of one physical replica. *)
Definition retire_replica (checkpoint_id : Id) (loc : DurableLocation) : M World unit :=
  result ← call_node node_cleanup (loc_node loc)
             {| nlq_staging_attempts := [];
                nlq_staging_paths := [];
                nlq_restore_attempts := [];
                nlq_checkpoint_ids := [checkpoint_id];
                nlq_coordinator_epoch := epoch |};
  match nlr_error result with
  | Some _ => raise (CleanupFailure "retire cleanup on {} failed: {error}")
  | None => mret tt
  end.

Definition retire_checkpoint (checkpoint_id : Id) (ctx : OperationContext) : M World unit :=
  authorize_for ctx (ap_retire (p_authority policy)) ;;
  found ← db (fun _ => checkpoint_get checkpoint_id);
  ckpt ← lift (ok_or found (CheckpointNotFound "{checkpoint_id}"));
  reservation ← db (fun _ => reservation_active_for "restore" None (Some checkpoint_id));
  lift (reject_if (is_some reservation)
          (PolicyViolation "checkpoint has an active restore reservation; retire refused")) ;;
  lift (reject_if (negb (bool_decide (ck_protection ckpt = Unprotected)))
          (PolicyViolation "checkpoint is {:?}; unprotect before retiring")) ;;
  for_m (retire_replica checkpoint_id) (ck_durable_locations ckpt) ;;
  db (fun _ => checkpoint_retire checkpoint_id) ;;
  audit ctx "checkpoint.retire" (Some (ck_workload_id ckpt)) (Some checkpoint_id) AuditOk
    "checkpoint retired".

(** The eligibility of the [i]-th of [total] checkpoints of a workload, by generation. *)
Definition candidate_eligibility (w : Workload) (total i : Z) (c : CheckpointObject) : RetirementEligibility :=
  let is_retired := bool_decide (ck_lifecycle c = Retired) in
  let protected_gen := negb is_retired &&
    (saturating_sub (w_checkpoint_generation w) (p_protected_generations policy)
       <? ck_checkpoint_generation c) in
  let min_kept := total - i <=? p_min_generations_retained policy in
  if protected_gen then EligProtected
  else if bool_decide (ck_protection c = Pinned) then EligPinned
  else if min_kept then MinimumGenerations
  else if negb (bool_decide (ck_lifecycle c = Available)) then NotEligible
  else Eligible.

Definition candidate_view (w : Workload) (total i : Z) (c : CheckpointObject) : ReclaimView :=
  {| rw_checkpoint_id := ck_checkpoint_id c;
     rw_workload_id := ck_workload_id c;
     rw_checkpoint_generation := ck_checkpoint_generation c;
     rw_lifecycle := lifecycle_as_str (ck_lifecycle c);
     rw_value := wrapping_add (ck_restore_count c) (ck_replica_count c);
     rw_protection := ck_protection c;
     rw_reconstructibility := if checkpoint_is_restorable c then "restorable" else "not_restorable";
     rw_lineage_parents := ck_lineage_parents c;
     rw_superseded_by := ck_superseded_by c;
     rw_min_generations_retained := p_min_generations_retained policy;
     rw_retirement_eligibility := candidate_eligibility w total i c;
     rw_total_physical_bytes := ck_total_physical_bytes c;
     rw_replicas := ck_replica_count c |}.

(** The candidates of the workloads [ws]. *)
Fixpoint workload_candidates (ws : list Workload) : M World (list ReclaimView) :=
  match ws with
  | [] => mret []
  | w :: ws' =>
      cks ← db (fun _ => checkpoint_list (Some (w_workload_id w)));
      let cks := order_by ck_checkpoint_generation cks in
      let total := Z.of_nat (length cks) in
      rest ← workload_candidates ws';
      mret (imap (fun i c => candidate_view w total (Z.of_nat i) c) cks ++ rest)
  end.

Definition retirement_candidates : M World (list ReclaimView) :=
  ws ← db (fun _ => workload_list);
  workload_candidates ws.

Definition compatibility (checkpoint_id : Id) (target : RuntimeCompatibilityDescriptor)
    (ctx : OperationContext) : M World CompatibilityResult :=
  found ← db (fun _ => checkpoint_get checkpoint_id);
  ckpt ← lift (ok_or found (CheckpointNotFound "{checkpoint_id}"));
  audit ctx "checkpoint.compatibility" (Some (ck_workload_id ckpt)) (Some checkpoint_id) AuditOk
    "evaluated against {}" ;;
  lift (evaluate ckpt target policy).

(** ** Recovery run *)

(** The clean-up call of the recovery; a reported error ends the run. *)
Definition recovery_cleanup (node : string) (request : NodeCleanupRequest) : M World unit :=
  result ← call_node node_cleanup node request;
  match nlr_error result with
  | Some error => raise (CleanupFailure error)
  | None => mret tt
  end.

Definition recovery_resume (node : string) (request : NodeResumeRequest) (failure : string) : M World unit :=
  result ← call_node node_resume node request;
  lift (reject_if (negb (nsr_ok result)) (CleanupFailure failure)).

(** What the node of a settled attempt is told, by the action taken. *)
Definition recover_on_node (action : RecoveryAction) (att : AttemptRecord) : M World unit :=
  if bool_decide (ra_kind action = "capture") then
    match at_checkpoint_id att, at_workload_id att with
    | Some checkpoint_id, Some workload_id =>
        recovery_resume (at_node att)
          {| nsq_attempt_id := ra_key action;
             nsq_checkpoint_id := checkpoint_id;
             nsq_workload_id := workload_id;
             nsq_fence_token := None;
             nsq_execution_epoch := None;
             nsq_resume := true;
             nsq_coordinator_epoch := epoch |}
          "capture recovery resume on {} failed: {}"
    | _, _ => mret tt
    end ;;
    recovery_cleanup (at_node att)
      {| nlq_staging_attempts := [ra_key action];
         nlq_staging_paths := [];
         nlq_restore_attempts := [];
         nlq_checkpoint_ids := if bool_decide (ra_state action = "failed_cleanup")
                               then option_list (at_checkpoint_id att) else [];
         nlq_coordinator_epoch := epoch |}
  else if bool_decide (ra_kind action = "restore") && bool_decide (ra_state action = "failed_cleanup") then
    match at_checkpoint_id att, at_workload_id att with
    | Some checkpoint_id, Some workload_id =>
        recovery_cleanup (at_node att)
          {| nlq_staging_attempts := [ra_key action];
             nlq_staging_paths := [];
             nlq_restore_attempts := [mkRestoreCleanupTarget (ra_key action) checkpoint_id workload_id];
             nlq_checkpoint_ids := [];
             nlq_coordinator_epoch := epoch |}
    | _, _ => mret tt
    end
  else if bool_decide (ra_kind action = "restore") && bool_decide (ra_state action = "resume_unverified") then
    match at_checkpoint_id att, at_workload_id att with
    | Some checkpoint_id, Some workload_id =>
        found ← db (fun _ => workload_get workload_id);
        workload ← lift (ok_or found (WorkloadNotFound "{workload_id}"));
        recovery_resume (at_node att)
          {| nsq_attempt_id := ra_key action;
             nsq_checkpoint_id := checkpoint_id;
             nsq_workload_id := workload_id;
             nsq_fence_token := w_fence_token workload;
             nsq_execution_epoch := Some (w_execution_epoch workload);
             nsq_resume := false;
             nsq_coordinator_epoch := epoch |}
          "restore recovery finalization on {} failed: {}"
    | _, _ => mret tt
    end
  else mret tt.

(** One action of the loop of [run_recovery]. *)
Definition recover_action (action : RecoveryAction) : M World unit :=
  found ← db (fun _ => attempt_get (ra_key action));
  match found with
  | None => mret tt
  | Some att =>
      active ← node_is_active (at_node att);
      when active (recover_on_node action att)
  end.

Definition run_recovery (ctx : OperationContext) : M World RecoveryOutcome :=
  out ← reconcile ctx;
  for_m recover_action (rc_actions out) ;;
  audit ctx "coordinator.recovery" None None (if rc_ok out then AuditRecovered else AuditFailed)
    "reconciled {} actions; {} stale nodes" ;;
  mret out.

(** ** The monitor's sweep *)

(** The loop of [sweep_stale] over the workloads, for the stale node [n]. *)
Definition revoke_if_on (n : string) (w : Workload) : M World unit :=
  when (bool_decide (w_active_node w = Some n))
    (ignore (db (fun _ => workload_bump_fence (w_workload_id w) (w_execution_epoch w))) ;;
     db (fun now => audit_append now "coordinator" "workload.fence_by_stale_node"
                      (Some (w_workload_id w)) None AuditRecovered
                      "node {n} went stale; workload claim revoked")).

Definition sweep_node (n : string) : M World unit :=
  db (fun _ => node_set_status n "STALE") ;;
  db (fun now => audit_append now "coordinator" "node.stale" None None AuditFailed
                   "node {n} declared stale (epoch {epoch})") ;;
  ws ← db (fun _ => workload_list);
  for_m (revoke_if_on n) ws.

Definition sweep_stale (stale_ms : Z) : M World unit :=
  now ← now_ms;
  stale ← db (fun _ => nodes_sweep_stale (saturating_sub now stale_ms));
  for_m sweep_node stale.

(** ** Registration and heartbeat *)

Record NodeRegisterRequest := mkNodeRegisterRequest {
  rgq_node_id : string;
  rgq_listen_addr : string;
  rgq_boot_id : string;
  rgq_data_dir : string;
  rgq_runtime : RuntimeCompatibilityDescriptor;
  rgq_hardware : HardwareCompatibilityDescriptor;
  rgq_resources : Json;
  rgq_committed_checkpoints : list Id;
  rgq_coordinator_epoch : Z
}.

Record NodeRegisterResponse := mkNodeRegisterResponse {
  rgr_accepted : bool;
  rgr_coordinator_epoch : Z;
  rgr_error : option string
}.

(** The loop over the checkpoints a registering node reports; the first error stops it. *)
Fixpoint rebind_until_error (node data_dir : string) (ids : list Id) : M World (option string) :=
  match ids with
  | [] => mret None
  | i :: ids' =>
      r ← attempt (db (fun _ => checkpoint_rebind_location i node data_dir));
      match r with
      | Ok _ => rebind_until_error node data_dir ids'
      | Err e => mret (Some (display e))
      end
  end.

(** The arm [Op::NodeRegister]. *)
Definition handle_node_register (req : NodeRegisterRequest) : M World NodeRegisterResponse :=
  if negb (rgq_coordinator_epoch req =? epoch) then
    mret (mkNodeRegisterResponse false epoch
            (Some "stale coordinator epoch: node holds {}, coordinator is {}"))
  else
    let resources := resources_object (JString (rgq_data_dir req)) (json_of_runtime (rgq_runtime req))
                       (json_of_hardware (rgq_hardware req)) (rgq_resources req) in
    registered ← attempt (db (fun now => node_register now (rgq_node_id req) (rgq_listen_addr req)
                                           (rgq_boot_id req) (json_print resources)));
    match registered with
    | Err e => mret (mkNodeRegisterResponse false epoch (Some (display e)))
    | Ok _ =>
        err ← rebind_until_error (rgq_node_id req) (rgq_data_dir req) (rgq_committed_checkpoints req);
        mret (mkNodeRegisterResponse (is_none err) epoch err)
    end.

Record HeartbeatWorkload := mkHeartbeatWorkload {
  hw_workload_id : Id;
  hw_fence_token : string;
  hw_execution_epoch : Z
}.

(** A claim the heartbeat reports that the coordinator no longer honours; a workload
    that cannot be read is not reported. *)
Definition heartbeat_stale (node_id : string) (hb : HeartbeatWorkload) : M World (list Id) :=
  found ← attempt (db (fun _ => workload_get (hw_workload_id hb)));
  match found with
  | Ok (Some w) =>
      mret (if negb (hw_execution_epoch hb =? w_execution_epoch w) ||
               negb (fence_valid w node_id (hw_fence_token hb))
            then [hw_workload_id hb] else [])
  | _ => mret []
  end.

Fixpoint heartbeat_stale_workloads (node_id : string) (l : list HeartbeatWorkload) : M World (list Id) :=
  match l with
  | [] => mret []
  | hb :: l' =>
      stale ← heartbeat_stale node_id hb;
      rest ← heartbeat_stale_workloads node_id l';
      mret (stale ++ rest)
  end.

Record NodeHeartbeatRequest := mkNodeHeartbeatRequest {
  hbq_node_id : string;
  hbq_boot_id : string;
  hbq_coordinator_epoch : Z;
  hbq_workloads : list HeartbeatWorkload;
  hbq_resources : Json;
  hbq_committed_checkpoints : list Id;
  hbq_provider_versions : gmap string string
}.

Record NodeHeartbeatResponse := mkNodeHeartbeatResponse {
  hbr_ok : bool;
  hbr_stale_workloads : list Id;
  hbr_error : option string
}.

(** The arm [Op::NodeHeartbeat]. *)
Definition handle_node_heartbeat (req : NodeHeartbeatRequest) : M World NodeHeartbeatResponse :=
  if negb (hbq_coordinator_epoch req =? epoch) then
    mret (mkNodeHeartbeatResponse false [] (Some "stale coordinator epoch"))
  else
    valid ← attempt (db (fun _ => node_validate_identity (hbq_node_id req) (hbq_boot_id req)));
    match valid with
    | Err e => mret (mkNodeHeartbeatResponse false [] (Some (display e)))
    | Ok _ =>
        nodes ← db (fun _ => node_list);
        let existing := default (JObject ∅)
          (n ← find_first (fun n => bool_decide (nd_id n = hbq_node_id req)) nodes;
           json_parse (nd_resources n)) in
        let resources := heartbeat_resources existing (hbq_resources req) (hbq_provider_versions req) in
        beat ← attempt (db (fun now => node_heartbeat now (hbq_node_id req) (json_print resources)));
        match beat with
        | Err e => mret (mkNodeHeartbeatResponse false [] (Some (display e)))
        | Ok _ =>
            let data_dir := default "" (json_get "data_dir" resources ≫= json_str) in
            for_m (fun i => db (fun _ => checkpoint_rebind_location i (hbq_node_id req) data_dir))
              (hbq_committed_checkpoints req) ;;
            stale ← heartbeat_stale_workloads (hbq_node_id req) (hbq_workloads req);
            mret (mkNodeHeartbeatResponse true stale None)
        end
    end.
End maintenance.

(** The candidates are the views of [integrations.rs] with the eligibility the policy
    gives them: the unchecked sum of the coordinator does not wrap on a stored row. *)
Lemma candidate_is_reclaim_view (self : CoordinatorInner) w total i c :
  0 <= ck_restore_count c <= i64_max -> 0 <= ck_replica_count c <= u32_max ->
  candidate_view self w total i c =
    (reclaim_view c (p_min_generations_retained (ci_policy self)))
      <| rw_retirement_eligibility := candidate_eligibility self w total i c |>.
Proof.
  unfold i64_max, u32_max. intros Hr Hn. unfold candidate_view, reclaim_view, update_field. cbn.
  f_equal. unfold wrapping_add, saturating_add, u64_max. rewrite Z.mod_small by lia. lia.
Qed.
