(* ===== verification/Dispatch.v ===== *)
(** The coordinator's requests ([src/src/coordinator.rs]): its start on an open store,
    its request dispatcher ([Coordinator::dispatch]) and one pass of the monitor thread
    ([start_monitor]).

    A request is the decoded payload of its operation code and a reply the value that
    is encoded into the response frame ([Payload] has the decoding and the encoding); an
    error reply is the error envelope.  The stop
    flag and the sockets are not part of the world: the reply [RShutdown] says that the
    flag was raised, and [CoordinatorProcess] has the flag. *)
From S2P Require Import Prelude Errors Ident Lifecycle Checkpoint Workload Compression Policy Compat.
From S2P Require Import Capture Json Restore Lineage Failpoints Tables Persist World Manifest Messages Recovery.
From S2P Require Import Coordinator Maintenance.

Definition envelope_ok : Envelope := mkEnvelope 0 None.
Definition envelope_err (msg : string) : Envelope := mkEnvelope 1 (Some msg).

(** [providers::ProviderSpec]. *)
Record ProviderSpec := mkProviderSpec {
  ps_component_id : string;
  ps_component_type : ComponentType;
  ps_required : bool;
  ps_schema_version : Z;
  ps_restore_handler : string;
  ps_compatibility : JsonText;
  ps_dependencies : list string
}.

Inductive Request : Type :=
| QPing
| QHello (name : string) (protocol_version : Z)
| QCoordinatorShutdown
| QWorkloadCreate (spec : WorkloadSpec) (authority : Authority) (node : option string)
| QWorkloadInspect (workload_id : Id)
| QWorkloadList
| QWorkloadFence (workload_id : Id) (authority : Authority)
| QWorkloadLineage (workload_id : Id)
| QWorkloadAttach (workload_id : Id) (node node_boot_id : string) (providers : list ProviderSpec)
    (fence_epoch : Z)
| QWorkloadDetach (workload_id : Id) (node : string)
| QCapture (workload_id : Id) (options : CaptureOptions) (authority : Authority)
| QCaptureStatus (attempt_id : string)
| QCheckpointInspect (checkpoint_id : Id)
| QCheckpointList (workload_id : option Id)
| QCheckpointVerify (checkpoint_id : Id) (authority : Authority)
| QCheckpointProtect (checkpoint_id : Id) (authority : Authority)
| QCheckpointUnprotect (checkpoint_id : Id) (authority : Authority)
| QCheckpointRetire (checkpoint_id : Id) (authority : Authority)
| QCheckpointLineage (checkpoint_id : Id)
| QRestore (checkpoint_id : Id) (node : string) (options : RestoreOptions) (authority : Authority)
| QRollback (checkpoint_id : Id) (node : string) (options : RestoreOptions) (authority : Authority)
| QFork (checkpoint_id : Id) (spec : WorkloadSpec) (authority : Authority)
| QMigrate (checkpoint_id : Id) (target_node : string) (authority : Authority)
| QCompatibility (checkpoint_id : Id) (target : RuntimeCompatibilityDescriptor) (authority : Authority)
| QAudit (since_ms : option Z) (limit : Z) (authority : Authority)
| QRecovery (dry_run : bool) (authority : Authority)
| QStats
| QNodeList
| QNodeRegister (req : NodeRegisterRequest)
| QNodeHeartbeat (req : NodeHeartbeatRequest)
| QOther (op : string).

(** Payloads that are declared and that neither side sends. *)
Record CaptureResponse := mkCaptureResponse {
  cres_attempt_id : string;
  cres_checkpoint_id : Id;
  cres_checkpoint_generation : Z;
  cres_node : string;
  cres_consistency : ConsistencyClass;
  cres_resumability : ResumabilityClass;
  cres_state : string
}.
Record RestoreResponse := mkRestoreResponse {
  rres_attempt_id : string;
  rres_checkpoint_id : Id;
  rres_workload_generation : Z;
  rres_execution_epoch : Z;
  rres_resumability : ResumabilityClass;
  rres_state : string
}.

Inductive Reply : Type :=
| RPong
| REnvelope (e : Envelope)
| RShutdown (e : Envelope)
| RWorkload (w : Workload)
| RWorkloads (l : list Workload)
| RLineage (l : list LineageRecord)
| RAttach (accepted : bool) (fence_token error : option string)
| ROutcome (o : OperationOutcome)
| RAttempt (attempt : AttemptRecord) (checkpoint_id : option Id) (state : string)
| RCheckpoint (c : CheckpointObject)
| RCheckpoints (l : list CheckpointObject)
| RVerify (r : NodeVerifyResult)
| RCompatibility (r : CompatibilityResult)
| RAudit (l : list AuditRecord)
| RRecovery (o : RecoveryOutcome)
| RStats (s : Stats)
| RNodes (l : list NodeRecord)
| RNodeRegister (r : NodeRegisterResponse)
| RNodeHeartbeat (r : NodeHeartbeatResponse).

(** The first provider of a handler names its version. *)
Definition advertised_versions (providers : list ProviderSpec) : gmap string string :=
  fold_left (fun m p => if is_some (m !! ps_restore_handler p) then m
                        else <[ps_restore_handler p := u64_to_string (ps_schema_version p)]> m)
    providers ∅.

(** [Coordinator::capture_status]. *)
Definition capture_status `{Env} (attempt_id : string) : M World AttemptRecord :=
  found ← db (fun _ => attempt_get attempt_id);
  lift (ok_or found (Internal "no such attempt: {attempt_id}")).

(** The reads of the store that are operations of their own. *)
Definition inspect_workload `{Env} (id : Id) : M World (option Workload) := db (fun _ => workload_get id).
Definition workload_lineage `{Env} (id : Id) : M World (list LineageRecord) := db (fun _ => lineage_query (Some id) None).
Definition checkpoint_lineage `{Env} (checkpoint_id : Id) : M World (list LineageRecord) :=
  db (fun _ => lineage_query None (Some checkpoint_id)).
Definition audit_records `{Env} (since_ms : option Z) (limit : Z) : M World (list AuditRecord) :=
  db (fun _ => audit_query since_ms limit).
Definition store_stats `{Env} : M World Stats := db (fun _ => stats).
Definition find_checkpoint `{Env} (checkpoint_id : Id) : M World (option CheckpointObject) :=
  db (fun _ => checkpoint_get checkpoint_id).

Section dispatch.
Context `{Env, NodeRpc, NodeTexts, HexCodec, Sha256, ManifestCodec}.
Context (self : CoordinatorInner).

(** The two arms of most operations: the reply, or the error envelope. *)
Definition reply {A} (m : M World A) (k : A -> Reply) : M World Reply :=
  r ← attempt m;
  mret (match r with Ok a => k a | Err e => REnvelope (envelope_err (display e)) end).

Definition reply_ok (m : M World unit) : M World Reply := reply m (fun _ => REnvelope envelope_ok).

(** The arm [Op::WorkloadAttach]: the claim, then the provider versions, whose failure
    is only logged. *)
Definition handle_workload_attach (workload_id : Id) (node node_boot_id : string)
    (providers : list ProviderSpec) (fence_epoch : Z) : M World Reply :=
  r ← attempt (attach_workload workload_id node node_boot_id fence_epoch);
  match r with
  | Ok token =>
      let versions := advertised_versions providers in
      when (negb (bool_decide (versions = ∅))) (ignore (merge_node_provider_versions node versions)) ;;
      mret (RAttach true (Some token) None)
  | Err e => mret (RAttach false None (Some (display e)))
  end.

(** [Coordinator::dispatch], from the protection of checkpoints to the list of nodes;
    [fuel] bounds the recursion of [migrate]: a deeper one overflows the stack, which ends
    the process. *)
Definition dispatch_operations (fuel : nat) (request : Request) : M World Reply :=
  let ctx := fun authority => for_authority authority (ci_stale_ms self) in
  match request with
  | QCheckpointProtect c a => reply_ok (protect_checkpoint c false (ctx a))
  | QCheckpointUnprotect c a => reply_ok (unprotect_checkpoint c (ctx a))
  | QCheckpointRetire c a => reply_ok (retire_checkpoint self c (ctx a))
  | QCheckpointLineage c => reply (checkpoint_lineage c) RLineage
  | QRestore c node options a => reply (request_restore self c node options (ctx a)) ROutcome
  | QRollback c node _ a => reply (request_rollback self c node (ctx a)) ROutcome
  | QFork c spec a => reply (fork self c spec (ctx a)) RWorkload
  | QMigrate c node a => reply (o ← migrate self fuel c node (ctx a); unwrap o) ROutcome
  | QCompatibility c target a => reply (compatibility self c target (ctx a)) RCompatibility
  | QAudit since limit _ => reply (audit_records since limit) RAudit
  | QRecovery _ a => reply (run_recovery self (ctx a)) RRecovery
  | QStats => reply store_stats RStats
  | QNodeList => reply (db (fun _ => node_list)) RNodes
  | QOther op => raise (ProtocolError ("coordinator cannot serve op " +:+ op))
  | _ => raise (ProtocolError "coordinator cannot serve op {op:?}")
  end.

(** [Coordinator::dispatch]. *)
Definition dispatch (fuel : nat) (request : Request) : M World Reply :=
  let ctx := fun authority => for_authority authority (ci_stale_ms self) in
  match request with
  | QPing => mret RPong
  | QHello _ _ => mret (REnvelope envelope_ok)
  | QCoordinatorShutdown => mret (RShutdown envelope_ok)
  | QWorkloadCreate spec a node => reply (create_workload self spec node (ctx a)) RWorkload
  | QWorkloadInspect i =>
      reply (inspect_workload i)
        (fun w => match w with Some w => RWorkload w | None => REnvelope (envelope_err "workload not found") end)
  | QWorkloadList => reply (db (fun _ => workload_list)) RWorkloads
  | QWorkloadFence i a => reply (fence_workload self i (ctx a)) RWorkload
  | QWorkloadLineage i => reply (workload_lineage i) RLineage
  | QWorkloadAttach i node boot providers epoch => handle_workload_attach i node boot providers epoch
  | QWorkloadDetach i node => ignore (detach_workload i node) ;; mret (REnvelope envelope_ok)
  | QCapture i options a => reply (request_capture self i options (ctx a)) ROutcome
  | QCaptureStatus i =>
      reply (capture_status i) (fun a => RAttempt a (at_checkpoint_id a) (at_state a))
  | QCheckpointInspect c =>
      reply (find_checkpoint c)
        (fun ck => match ck with
                   | Some ck => RCheckpoint ck
                   | None => REnvelope (envelope_err "checkpoint not found")
                   end)
  | QCheckpointList i => reply (db (fun _ => checkpoint_list i)) RCheckpoints
  | QCheckpointVerify c a => reply (verify_checkpoint self c (ctx a)) RVerify
  | QNodeRegister req => r ← handle_node_register self req; mret (RNodeRegister r)
  | QNodeHeartbeat req => r ← handle_node_heartbeat self req; mret (RNodeHeartbeat r)
  | _ => dispatch_operations fuel request
  end.

(** The body of the monitor's loop: its errors are logged or dropped. *)
Definition monitor_pass : M World unit :=
  ignore (sweep_stale (ci_stale_ms self)) ;;
  ignore (now ← now_ms; db (fun _ => reservations_expire now)).
End dispatch.

(** ** Start *)

(** The parts of [CoordinatorConfig] that [open] reads after the store is open. *)
Record CoordinatorConfig := mkCoordinatorConfig {
  cc_epoch : option Z;
  cc_stale_ms : Z;
  cc_policy : option PolicySet
}.

(** [Coordinator::open] on the opened store. *)
Definition open_coordinator `{Env, PolicyCodec} (config : CoordinatorConfig) : M World CoordinatorInner :=
  epoch ← db (fun _ => claim_coordinator_epoch (cc_epoch config));
  policy ← match cc_policy config with
           | Some p => db (fun _ => policy_insert p true) ;; mret p
           | None =>
               versions ← db (fun _ => policy_versions);
               if bool_decide (versions = []) then
                 let p := PolicySet_default in db (fun _ => policy_insert p true) ;; mret p
               else
                 loaded ← db (fun _ => policy_load_all);
                 mret (default PolicySet_default (last (order_by p_version loaded)))
           end;
  mret (mkCoordinatorInner epoch policy (cc_stale_ms config)).
