(* ===== verification/Frame.v ===== *)
(** The frame codec of the wire protocol ([src/src/protocol.rs], [encode] and [decode]).

    A frame is a header of 24 bytes (magic, version, operation, flags, a reserved byte,
    request identity, payload length, CRC-32C) and its payload.  The checksum is the [crc]
    crate's, so it is a parameter ([Crc32c]); the laws the codec needs of it are none but
    its width.  [castagnoli] at the end is a concrete instance. *)
From S2P Require Import Prelude Errors Ident.
From Stdlib Require Import Strings.Byte.

(** * Definitions *)

(** ** Operation codes *)

(** The type is in a module of its own: its constructors are everyday words. *)
Module Op.
Inductive Op : Type :=
| Ping | Pong | Hello | HelloAck | WorkloadCreate | WorkloadInspect | WorkloadList
| WorkloadFence | WorkloadLineage | WorkloadAttach | WorkloadDetach | Capture | CaptureStatus
| CheckpointInspect | CheckpointList | CheckpointVerify | CheckpointProtect
| CheckpointUnprotect | CheckpointRetire | CheckpointLineage | Restore | Rollback | Fork
| Migrate | Compatibility | Audit | Recovery | Stats | NodeList | NodeInfo
| CoordinatorShutdown | NodeRegister | NodeRegisterAck | NodeHeartbeat | NodeHeartbeatAck
| NodeCaptureResult | NodeRestoreResult | NodeVerifyResult | NodeCleanupResult
| NodeReplicateResult | NodeCaptureRequest | NodeRestoreRequest | NodeReplicateRequest
| NodeCleanupRequest | NodeVerifyRequest | NodeDetachRequest | NodeAllowFetch
| NodePromoteRequest | NodePromoteResult | NodeResumeRequest | NodeResumeResult | FetchManifest
| FetchComponent | FetchChunkResponse | NodeProbeRequest | NodeProbeResult.

(** [op as u8]. *)
Definition op_code (o : Op) : Z :=
  match o with
  | Ping => 1 | Pong => 2 | Hello => 3 | HelloAck => 4 | WorkloadCreate => 10
  | WorkloadInspect => 11 | WorkloadList => 12 | WorkloadFence => 13 | WorkloadLineage => 14
  | WorkloadAttach => 15 | WorkloadDetach => 16 | Capture => 20 | CaptureStatus => 21
  | CheckpointInspect => 22 | CheckpointList => 23 | CheckpointVerify => 24
  | CheckpointProtect => 25 | CheckpointUnprotect => 26 | CheckpointRetire => 27
  | CheckpointLineage => 28 | Restore => 30 | Rollback => 31 | Fork => 32 | Migrate => 33
  | Compatibility => 40 | Audit => 41 | Recovery => 42 | Stats => 43 | NodeList => 44
  | NodeInfo => 45 | CoordinatorShutdown => 46 | NodeRegister => 50 | NodeRegisterAck => 51
  | NodeHeartbeat => 52 | NodeHeartbeatAck => 53 | NodeCaptureResult => 54
  | NodeRestoreResult => 55 | NodeVerifyResult => 56 | NodeCleanupResult => 57
  | NodeReplicateResult => 58 | NodeCaptureRequest => 70 | NodeRestoreRequest => 71
  | NodeReplicateRequest => 72 | NodeCleanupRequest => 73 | NodeVerifyRequest => 74
  | NodeDetachRequest => 75 | NodeAllowFetch => 76 | NodePromoteRequest => 77
  | NodePromoteResult => 78 | NodeResumeRequest => 79 | NodeResumeResult => 80
  | FetchManifest => 90 | FetchComponent => 91 | FetchChunkResponse => 92
  | NodeProbeRequest => 93 | NodeProbeResult => 94
  end.

Definition op_from_u8 (v : Z) : option Op :=
  match v with
  | 1 => Some Ping | 2 => Some Pong | 3 => Some Hello | 4 => Some HelloAck
  | 10 => Some WorkloadCreate | 11 => Some WorkloadInspect | 12 => Some WorkloadList
  | 13 => Some WorkloadFence | 14 => Some WorkloadLineage | 15 => Some WorkloadAttach
  | 16 => Some WorkloadDetach | 20 => Some Capture | 21 => Some CaptureStatus
  | 22 => Some CheckpointInspect | 23 => Some CheckpointList | 24 => Some CheckpointVerify
  | 25 => Some CheckpointProtect | 26 => Some CheckpointUnprotect | 27 => Some CheckpointRetire
  | 28 => Some CheckpointLineage | 30 => Some Restore | 31 => Some Rollback | 32 => Some Fork
  | 33 => Some Migrate | 40 => Some Compatibility | 41 => Some Audit | 42 => Some Recovery
  | 43 => Some Stats | 44 => Some NodeList | 45 => Some NodeInfo
  | 46 => Some CoordinatorShutdown | 50 => Some NodeRegister | 51 => Some NodeRegisterAck
  | 52 => Some NodeHeartbeat | 53 => Some NodeHeartbeatAck | 54 => Some NodeCaptureResult
  | 55 => Some NodeRestoreResult | 56 => Some NodeVerifyResult | 57 => Some NodeCleanupResult
  | 58 => Some NodeReplicateResult | 70 => Some NodeCaptureRequest
  | 71 => Some NodeRestoreRequest | 72 => Some NodeReplicateRequest
  | 73 => Some NodeCleanupRequest | 74 => Some NodeVerifyRequest | 75 => Some NodeDetachRequest
  | 76 => Some NodeAllowFetch | 77 => Some NodePromoteRequest | 78 => Some NodePromoteResult
  | 79 => Some NodeResumeRequest | 80 => Some NodeResumeResult | 90 => Some FetchManifest
  | 91 => Some FetchComponent | 92 => Some FetchChunkResponse | 93 => Some NodeProbeRequest
  | 94 => Some NodeProbeResult
  | _ => None
  end.

Lemma op_from_u8_code o : op_from_u8 (op_code o) = Some o.
Proof. by destruct o. Qed.

Lemma op_code_range o : 0 <= op_code o < 256.
Proof. destruct o; cbn; lia. Qed.

Lemma op_from_u8_Some v o : op_from_u8 v = Some o -> v = op_code o.
Proof.
  intros Ho. unfold op_from_u8 in Ho. repeat (case_match; try done); by injection Ho as <-.
Qed.
End Op.

(** ** Bytes and words *)

Definition byte_of (z : Z) : byte := default Byte.x00 (Byte.of_N (Z.to_N (z mod 256))).

(** [x.to_be_bytes()] of an integer of [n] bytes, and [from_be_bytes]. *)
Fixpoint to_be (n : nat) (x : Z) : list byte :=
  match n with
  | O => []
  | S n' => byte_of (x / 256 ^ Z.of_nat n') :: to_be n' x
  end.

Definition from_be (l : list byte) : Z := foldl (fun acc b => acc * 256 + byte_val b) 0 l.

(** [&buf[a..b]], for [b] within the buffer. *)
Definition slice (a b : nat) (buf : list byte) : list byte := take (b - a) (drop a buf).

(** The CRC-32C of the [crc] crate; a digest fed in parts is the checksum of their
    concatenation. *)
Class Crc32c := { crc32c : list byte -> Z }.
Class Crc32cLaws (H : Crc32c) := { crc32c_u32 : forall l, 0 <= crc32c l < 2 ^ 32 }.

(** ** Frames *)

Definition MAGIC : list byte := [Byte.x43; Byte.x46; Byte.x41; Byte.x42].
Definition PROTOCOL_VERSION : Z := 1.
Definition MAX_FRAME_PAYLOAD : Z := 16 * 1024 * 1024.
Definition HEADER_LEN : nat := 24.
Definition FLAG_RESPONSE : Z := 1.
Definition FLAG_CLOSE : Z := 2.

Record Frame := mkFrame { fr_op : Op.Op; fr_flags : Z; fr_request_id : Z; fr_payload : list byte }.

Definition is_response (f : Frame) : bool := negb (Z.land (fr_flags f) FLAG_RESPONSE =? 0).
Definition is_close (f : Frame) : bool := negb (Z.land (fr_flags f) FLAG_CLOSE =? 0).
Definition response (op : Op.Op) (request_id : Z) (payload : list byte) : Frame :=
  mkFrame op FLAG_RESPONSE request_id payload.

Section codec.
Context `{Crc32c}.

Definition len (l : list byte) : Z := Z.of_nat (length l).

(** The header before the checksum, with the reserved byte. *)
Definition frame_header (f : Frame) : list byte :=
  MAGIC ++ [byte_of PROTOCOL_VERSION; byte_of (Op.op_code (fr_op f)); byte_of (fr_flags f); Byte.x00] ++
  to_be 8 (fr_request_id f) ++ to_be 4 (len (fr_payload f) mod 2 ^ 32).

Definition encode (f : Frame) : FabricResult (list byte) :=
  reject_if (MAX_FRAME_PAYLOAD <? len (fr_payload f))
    (ProtocolError "frame payload {} exceeds maximum {}") ;;
  let out := frame_header f in
  mret (out ++ to_be 4 (crc32c (out ++ fr_payload f)) ++ fr_payload f).

Definition byte_at (i : nat) (buf : list byte) : Z := byte_val (default Byte.x00 (buf !! i)).

Definition decode (buf : list byte) : FabricResult (option (Frame * nat)) :=
  if (length buf <? HEADER_LEN)%nat then Ok None else
  reject_if (negb (bool_decide (slice 0 4 buf = MAGIC))) (ProtocolError "bad frame magic") ;;
  reject_if (negb (byte_at 4 buf =? PROTOCOL_VERSION)) (ProtocolError "unsupported protocol version {}") ;;
  op ← ok_or (Op.op_from_u8 (byte_at 5 buf)) (ProtocolError "unknown op {}");
  let flags := byte_at 6 buf in
  let request_id := from_be (slice 8 16 buf) in
  let payload_len := from_be (slice 16 20 buf) in
  reject_if (MAX_FRAME_PAYLOAD <? payload_len)
    (ProtocolError "frame payload length {payload_len} exceeds maximum {MAX_FRAME_PAYLOAD}") ;;
  if len buf <? Z.of_nat HEADER_LEN + payload_len then Ok None else
  let total := (HEADER_LEN + Z.to_nat payload_len)%nat in
  let expected_crc := from_be (slice 20 24 buf) in
  reject_if (negb (crc32c (slice 0 20 buf ++ slice 24 total buf) =? expected_crc))
    (ProtocolError "frame checksum mismatch") ;;
  Ok (Some (mkFrame op flags request_id (slice 24 total buf), total)).
End codec.


(** ** CRC-32C, for the witnesses *)

(** One bit of the reflected polynomial. *)
Definition crc_bit (c : Z) : Z :=
  if Z.testbit c 0 then Z.lxor (Z.shiftr c 1) 0x82F63B78 else Z.shiftr c 1.

Definition crc_byte (c : Z) (b : byte) : Z := Nat.iter 8 crc_bit (Z.lxor c (byte_val b)).

Definition castagnoli : Crc32c :=
  {| crc32c := fun l => Z.lxor (foldl crc_byte 0xFFFFFFFF l) 0xFFFFFFFF mod 2 ^ 32 |}.

Lemma castagnoli_laws : Crc32cLaws castagnoli.
Proof. split. intros l. apply Z.mod_pos_bound. lia. Qed.

(** The check value of the tests of [integrity.rs]. *)
Example castagnoli_check :
  crc32c (Crc32c := castagnoli)
    [Byte.x31; Byte.x32; Byte.x33; Byte.x34; Byte.x35; Byte.x36; Byte.x37; Byte.x38; Byte.x39] = 0xe3069283.
Proof. reflexivity. Qed.

(** * Lemmas *)

(** ** Bytes and words *)

Lemma byte_val_range b : 0 <= byte_val b < 256.
Proof. unfold byte_val. pose proof (Byte.to_N_bounded b). lia. Qed.

Lemma byte_val_of z : byte_val (byte_of z) = z mod 256.
Proof.
  unfold byte_val, byte_of. assert (0 <= z mod 256 < 256) as Hz by (apply Z.mod_pos_bound; lia).
  destruct (Byte.of_N (Z.to_N (z mod 256))) as [b |] eqn:E; cbn.
  - apply Byte.to_of_N in E. rewrite E. lia.
  - apply Byte.of_N_None_iff in E. lia.
Qed.

Lemma byte_of_val b : byte_of (byte_val b) = b.
Proof.
  unfold byte_of. rewrite Z.mod_small by apply byte_val_range.
  unfold byte_val. by rewrite N2Z.id, Byte.of_to_N.
Qed.

Lemma length_to_be n x : length (to_be n x) = n.
Proof. induction n as [| n IH]; cbn; [done | by rewrite IH]. Qed.

Lemma from_be_app l l' : from_be (l ++ l') = from_be l * 256 ^ Z.of_nat (length l') + from_be l'.
Proof.
  unfold from_be. rewrite foldl_app. generalize (foldl (fun acc b => acc * 256 + byte_val b) 0 l) as a.
  induction l' as [| b l' IH] using rev_ind; intros a; cbn; [lia |].
  rewrite !foldl_app, length_app, IH. cbn.
  replace (Z.of_nat (length l' + 1)) with (Z.succ (Z.of_nat (length l'))) by lia.
  rewrite Z.pow_succ_r by lia. lia.
Qed.

Lemma from_be_cons b l : from_be (b :: l) = byte_val b * 256 ^ Z.of_nat (length l) + from_be l.
Proof. change (b :: l) with ([b] ++ l). rewrite from_be_app. unfold from_be at 1. cbn [foldl]. lia. Qed.

Lemma from_be_to_be n x : from_be (to_be n x) = x mod 256 ^ Z.of_nat n.
Proof.
  induction n as [| n IH]; [by rewrite Z.mod_1_r |]. cbn [to_be].
  rewrite from_be_cons, length_to_be, IH, byte_val_of.
  rewrite Nat2Z.inj_succ, Z.pow_succ_r by lia.
  rewrite (Z.mul_comm 256 (256 ^ _)), Z.rem_mul_r by lia. lia.
Qed.

Lemma from_be_range l : 0 <= from_be l < 256 ^ Z.of_nat (length l).
Proof.
  induction l as [| b l IH]; [cbn; lia |]. rewrite from_be_cons. cbn [length].
  rewrite Nat2Z.inj_succ, Z.pow_succ_r by lia. pose proof (byte_val_range b). nia.
Qed.

(** The bytes above are not seen by the bytes below. *)
Lemma to_be_high n m y x : (n <= m)%nat -> to_be n (y * 256 ^ Z.of_nat m + x) = to_be n x.
Proof.
  revert m. induction n as [| n IH]; intros m Hm; [done |]. cbn [to_be]. f_equal; [| apply IH; lia].
  unfold byte_of. do 3 f_equal.
  replace (Z.of_nat m) with (Z.of_nat n + Z.succ (Z.of_nat (m - n - 1))) by lia.
  rewrite Z.pow_add_r, Z.pow_succ_r by lia.
  replace (y * (256 ^ Z.of_nat n * (256 * 256 ^ Z.of_nat (m - n - 1))) + x)
    with ((y * 256 ^ Z.of_nat (m - n - 1) * 256) * 256 ^ Z.of_nat n + x) by ring.
  rewrite Z.div_add_l by lia. by rewrite Z.add_comm, Z.mod_add by lia.
Qed.

Lemma to_be_from_be l : to_be (length l) (from_be l) = l.
Proof.
  induction l as [| b l IH]; [done |]. cbn [length to_be]. rewrite from_be_cons. f_equal.
  - pose proof (from_be_range l). rewrite Z.div_add_l, Z.div_small, Z.add_0_r by lia. apply byte_of_val.
  - by rewrite to_be_high.
Qed.

(** ** The layout of a frame *)

Section layout.
Context `{Crc32c}.

(** What [decode] does with a buffer that holds a header, field by field. *)
Definition decode_fields (m : list byte) (v o fl r : byte) (rid pl crc body : list byte)
    : FabricResult (option (Frame * nat)) :=
  reject_if (negb (bool_decide (m = MAGIC))) (ProtocolError "bad frame magic") ;;
  reject_if (negb (byte_val v =? PROTOCOL_VERSION)) (ProtocolError "unsupported protocol version {}") ;;
  op ← ok_or (Op.op_from_u8 (byte_val o)) (ProtocolError "unknown op {}");
  reject_if (MAX_FRAME_PAYLOAD <? from_be pl)
    (ProtocolError "frame payload length {payload_len} exceeds maximum {MAX_FRAME_PAYLOAD}") ;;
  if len body <? from_be pl then Ok None else
  let payload := take (Z.to_nat (from_be pl)) body in
  reject_if (negb (crc32c ((m ++ [v; o; fl; r] ++ rid ++ pl) ++ payload) =? from_be crc))
    (ProtocolError "frame checksum mismatch") ;;
  Ok (Some (mkFrame op (byte_val fl) (from_be rid) payload, (HEADER_LEN + Z.to_nat (from_be pl))%nat)).

Definition fields (m : list byte) (v o fl r : byte) (rid pl crc body : list byte) : list byte :=
  m ++ [v; o; fl; r] ++ rid ++ pl ++ crc ++ body.

Lemma bind_ext {A B} (r : FabricResult A) (k k' : A -> FabricResult B) :
  (forall a, r = Ok a -> k a = k' a) -> (r ≫= k) = (r ≫= k').
Proof. destruct r as [a | e]; [intros Hk; by apply Hk | done]. Qed.

Lemma fields_app m v o fl r rid pl crc body rest :
  fields m v o fl r rid pl crc body ++ rest = fields m v o fl r rid pl crc (body ++ rest).
Proof. unfold fields. by rewrite <- !(assoc_L (++)). Qed.

(** Makes a list of known length a list of bytes. *)
Local Ltac spell l := repeat (destruct l as [| ? l]; try discriminate).

Lemma decode_of_fields m v o fl r rid pl crc body :
  length m = 4%nat -> length rid = 8%nat -> length pl = 4%nat -> length crc = 4%nat ->
  decode (fields m v o fl r rid pl crc body) = decode_fields m v o fl r rid pl crc body.
Proof.
  intros Hm Hrid Hpl Hcrc. spell m. spell rid. spell pl. spell crc.
  unfold fields, decode, decode_fields, byte_at, slice.
  cbn [length app Nat.ltb Nat.leb HEADER_LEN Nat.sub take drop lookup list_lookup default from_option id].
  repeat (apply bind_ext; intros ? _). cbn [fr_payload].
  pose proof (from_be_range [b11; b12; b13; b14]) as Hrange. cbn [length] in Hrange.
  set (n := from_be [b11; b12; b13; b14]) in *.
  unfold len. cbn [length]. rewrite !Nat2Z.inj_succ.
  replace (_ <? Z.of_nat HEADER_LEN + n) with (Z.of_nat (length body) <? n)
    by (apply eq_bool_prop_intro; rewrite !Is_true_true, !Z.ltb_lt; unfold HEADER_LEN; lia).
  destruct (_ <? n) eqn:El; [done |]. cbn [take drop].
  replace (HEADER_LEN + Z.to_nat n - 24)%nat with (Z.to_nat n) by (unfold HEADER_LEN; lia). by rewrite !take_0, drop_0.
Qed.

Lemma fields_of (buf : list byte) : (HEADER_LEN <= length buf)%nat ->
  exists m v o fl r rid pl crc body, length m = 4%nat /\ length rid = 8%nat /\ length pl = 4%nat /\
    length crc = 4%nat /\ buf = fields m v o fl r rid pl crc body.
Proof.
  intros Hl. do 24 (destruct buf as [| ? buf]; [cbn in Hl; unfold HEADER_LEN in Hl; lia |]).
  eexists [_; _; _; _], _, _, _, _, [_; _; _; _; _; _; _; _], [_; _; _; _], [_; _; _; _], buf.
  by split_and!.
Qed.
End layout.

(** ** Encoding *)

(** The values the fields of a [Frame] have by their types. *)
Definition typed_frame (f : Frame) : Prop := 0 <= fr_flags f < 256 /\ is_u64 (fr_request_id f).

Definition fits (f : Frame) : Prop := len (fr_payload f) <= MAX_FRAME_PAYLOAD.

Section encoding.
Context `{Crc32c}.

(** The bytes of a frame, with the value [r] in the reserved byte. *)
Definition wire_with (r : byte) (f : Frame) : list byte :=
  let hdr := MAGIC ++ [byte_of PROTOCOL_VERSION; byte_of (Op.op_code (fr_op f)); byte_of (fr_flags f); r] ++
             to_be 8 (fr_request_id f) ++ to_be 4 (len (fr_payload f)) in
  hdr ++ to_be 4 (crc32c (hdr ++ fr_payload f)) ++ fr_payload f.

Lemma wire_with_fields r f :
  wire_with r f = fields MAGIC (byte_of PROTOCOL_VERSION) (byte_of (Op.op_code (fr_op f))) (byte_of (fr_flags f)) r
    (to_be 8 (fr_request_id f)) (to_be 4 (len (fr_payload f)))
    (to_be 4 (crc32c ((MAGIC ++ [byte_of PROTOCOL_VERSION; byte_of (Op.op_code (fr_op f)); byte_of (fr_flags f); r] ++
             to_be 8 (fr_request_id f) ++ to_be 4 (len (fr_payload f))) ++ fr_payload f))) (fr_payload f).
Proof. unfold wire_with, fields. by rewrite <- !(assoc_L (++)). Qed.

Lemma length_wire_with r f : length (wire_with r f) = (HEADER_LEN + length (fr_payload f))%nat.
Proof. unfold wire_with. rewrite !length_app, !length_to_be. done. Qed.

Lemma encode_Ok f wire : encode f = Ok wire <-> fits f /\ wire = wire_with Byte.x00 f.
Proof.
  unfold encode, fits, frame_header. rewrite result_bind_Ok. split.
  - intros ([] & Hr%reject_if_Ok & [= <-]). bool_facts. split; [done |].
    rewrite Z.mod_small; [done |]. unfold len, MAX_FRAME_PAYLOAD in *. lia.
  - intros [Hf ->]. exists tt. rewrite reject_if_Ok, Z.ltb_ge. split; [exact Hf |].
    rewrite Z.mod_small; [done |]. unfold len, MAX_FRAME_PAYLOAD in *. lia.
Qed.

Lemma encode_Err f : ~ fits f -> exists s, encode f = Err (ProtocolError s).
Proof.
  intros Hf. unfold encode, fits in *. replace (MAX_FRAME_PAYLOAD <? len (fr_payload f)) with true by lia. by eexists.
Qed.

(** ** Decoding what was encoded *)

Lemma decode_wire `{!Crc32cLaws _} r f rest :
  typed_frame f -> fits f -> decode (wire_with r f ++ rest) = Ok (Some (f, length (wire_with r f))).
Proof.
  intros [Hfl Hid] Hf. rewrite length_wire_with, wire_with_fields, fields_app.
  rewrite decode_of_fields by (rewrite ?length_to_be; done). unfold decode_fields, fits in *.
  rewrite !byte_val_of, !from_be_to_be, (Z.mod_small (Op.op_code _)), Op.op_from_u8_code by apply Op.op_code_range.
  change (256 ^ Z.of_nat 8) with (2 ^ 64). change (256 ^ Z.of_nat 4) with (2 ^ 32).
  rewrite (Z.mod_small (fr_flags f)) by lia.
  rewrite (Z.mod_small (fr_request_id f)) by (unfold is_u64, u64_max in *; lia).
  rewrite (Z.mod_small (len (fr_payload f))) by (unfold len, MAX_FRAME_PAYLOAD in *; lia).
  rewrite (Z.mod_small (crc32c _)) by apply crc32c_u32.
  assert (Hp : take (Z.to_nat (len (fr_payload f))) (fr_payload f ++ rest) = fr_payload f)
    by (unfold len; by rewrite Nat2Z.id, take_app_length).
  rewrite Hp, Z.eqb_refl. cbn [bool_decide decide_rel]. rewrite bool_decide_eq_true_2 by done. cbn [negb reject_if].
  replace (MAX_FRAME_PAYLOAD <? len (fr_payload f)) with false by lia. cbn.
  replace (len (fr_payload f ++ rest) <? len (fr_payload f)) with false
    by (symmetry; apply Z.ltb_ge; unfold len; rewrite length_app; lia).
  unfold len. rewrite Nat2Z.id. by destruct f.
Qed.
End encoding.

(** ** What [decode] accepts *)

Section decoding.
Context `{Crc32c}.

(** A buffer that is not complete is short. *)
Lemma decode_None_short buf : decode buf = Ok None -> len buf < Z.of_nat HEADER_LEN + MAX_FRAME_PAYLOAD.
Proof.
  intros Hd. destruct (decide (HEADER_LEN <= length buf)%nat) as [Hl | Hl].
  2: { unfold len, MAX_FRAME_PAYLOAD. lia. }
  destruct (fields_of buf Hl) as (m & v & o & fl & r & rid & pl & crc & body & Hm & Hrid & Hpl & Hcrc & ->).
  rewrite decode_of_fields in Hd by done. unfold decode_fields in Hd.
  repeat (apply result_bind_Ok in Hd as (? & ? & Hd)).
  match goal with Hx : reject_if (MAX_FRAME_PAYLOAD <? _) _ = Ok _ |- _ => apply reject_if_Ok, Z.ltb_ge in Hx end.
  destruct (len body <? from_be pl) eqn:El.
  - apply Z.ltb_lt in El. unfold fields, len in *. rewrite !length_app, Hm, Hrid, Hpl, Hcrc.
    unfold HEADER_LEN. cbn [length]. lia.
  - by apply result_bind_Ok in Hd as (? & ? & Hd).
Qed.

(** An accepted frame is within its bounds, and its bytes are the ones of [encode] up to
    the reserved byte. *)
Lemma decode_Some buf f n :
  decode buf = Ok (Some (f, n)) ->
  typed_frame f /\ fits f /\ n = (HEADER_LEN + length (fr_payload f))%nat /\
  exists r rest, buf = wire_with r f ++ rest.
Proof.
  intros Hd. destruct (decide (HEADER_LEN <= length buf)%nat) as [Hl | Hl].
  2: { unfold decode in Hd. replace (length buf <? HEADER_LEN)%nat with true in Hd by (symmetry; apply Nat.ltb_lt; lia). done. }
  destruct (fields_of buf Hl) as (m & v & o & fl & r & rid & pl & crc & body & Hm & Hrid & Hpl & Hcrc & ->).
  rewrite decode_of_fields in Hd by done. unfold decode_fields in Hd.
  apply result_bind_Ok in Hd as (? & Hmagic%reject_if_Ok & Hd). apply result_bind_Ok in Hd as (? & Hv%reject_if_Ok & Hd).
  apply result_bind_Ok in Hd as (op & Hop%ok_or_Ok & Hd). apply result_bind_Ok in Hd as (? & Hmax%reject_if_Ok & Hd).
  apply Op.op_from_u8_Some in Hop. bool_facts. subst m.
  pose proof (from_be_range pl) as Hr. pose proof (from_be_range rid) as Hri. rewrite Hpl in Hr. rewrite Hrid in Hri.
  destruct (len body <? from_be pl) eqn:El; [done |]. apply Z.ltb_ge in El.
  apply result_bind_Ok in Hd as (? & Hc%reject_if_Ok & [= <- <-]). bool_facts. cbn [fr_payload].
  assert (Hlen : length (take (Z.to_nat (from_be pl)) body) = Z.to_nat (from_be pl))
    by (rewrite length_take; unfold len in El; lia).
  split; [| split; [| split]].
  - split; [apply byte_val_range | unfold is_u64, u64_max; cbn; lia].
  - unfold fits, len. cbn. rewrite Hlen. lia.
  - by rewrite Hlen.
  - exists r, (drop (Z.to_nat (from_be pl)) body). rewrite wire_with_fields. cbn [fr_payload fr_op fr_flags fr_request_id].
    rewrite fields_app, take_drop. unfold len. rewrite Hlen, Z2Nat.id by lia.
    rewrite <- Hop, <- Hv, !byte_of_val.
    replace (to_be 8 (from_be rid)) with rid by (rewrite <- Hrid; symmetry; apply to_be_from_be).
    replace (to_be 4 (from_be pl)) with pl by (rewrite <- Hpl; symmetry; apply to_be_from_be).
    rewrite Hc. replace (to_be 4 (from_be crc)) with crc by (rewrite <- Hcrc; symmetry; apply to_be_from_be).
    done.
Qed.

Lemma decode_Err buf e : decode buf = Err e -> exists s, e = ProtocolError s.
Proof.
  unfold decode. intros E. repeat
    match type of E with
    | (if ?b then _ else _) = _ => destruct b; [done |]
    | (reject_if ?b _ ≫= _) = _ =>
        destruct b; [injection E as <-; by eexists | cbn [reject_if mbind FabricResult_bind] in E]
    | (ok_or ?o _ ≫= _) = _ =>
        destruct o; [cbn [ok_or mbind FabricResult_bind] in E | injection E as <-; by eexists]
    end; done.
Qed.

Lemma decode_waits buf : decode buf = Ok None \/ decode buf <> Ok None.
Proof. destruct (decode buf) as [[x |] | e]; [right | left | right]; done. Qed.

(** What follows the bytes of a frame does not matter, nor what follows a bad header. *)
Lemma decode_app buf rest : decode buf <> Ok None -> decode (buf ++ rest) = decode buf.
Proof.
  intros Hn. destruct (decide (HEADER_LEN <= length buf)%nat) as [Hl | Hl].
  2: { unfold decode in Hn. by replace (length buf <? HEADER_LEN)%nat with true in Hn by (symmetry; apply Nat.ltb_lt; lia). }
  destruct (fields_of buf Hl) as (m & v & o & fl & r & rid & pl & crc & body & Hm & Hrid & Hpl & Hcrc & ->).
  rewrite fields_app. rewrite !decode_of_fields in * by done. unfold decode_fields in *.
  revert Hn. destruct (bool_decide _); [| done]. destruct (byte_val v =? _); [| done].
  destruct (Op.op_from_u8 _) as [op |]; [| done]. destruct (MAX_FRAME_PAYLOAD <? _); [done |]. cbn.
  destruct (len body <? from_be pl) eqn:El; [done |]. intros _.
  apply Z.ltb_ge in El. unfold len in *. replace (Z.of_nat (length (body ++ rest)) <? from_be pl) with false
    by (symmetry; apply Z.ltb_ge; rewrite length_app; lia).
  by rewrite take_app_le by lia.
Qed.

(** A proper prefix of a frame is no frame, and no error. *)
Lemma decode_part `{!Crc32cLaws _} r f part rest :
  typed_frame f -> fits f -> part ++ rest = wire_with r f -> rest <> [] -> decode part = Ok None.
Proof.
  intros Ht Hf Hw Hne. destruct (decode_waits part) as [E | Hn]; [exact E | exfalso].
  pose proof (decode_app part rest Hn) as E.
  rewrite Hw, <- (app_nil_r (wire_with _ _)), decode_wire in E by done.
  symmetry in E. apply decode_Some in E as (_ & _ & Hlen & r' & rest' & ->).
  apply (f_equal length) in Hw. rewrite !length_app, !length_wire_with in Hw.
  destruct rest; [done | cbn in Hw; lia].
Qed.
End decoding.

(** * Properties *)

(** C28 (roundtrip). A frame whose payload is within the bound is encoded in 24 bytes and
    its payload, whatever follows it on the stream it is decoded to itself and its exact
    length, and no proper prefix of it is taken for a frame or for an error.  A frame with
    a longer payload is refused. *)
Theorem frame_roundtrip `{HC : Crc32c, !Crc32cLaws HC} (f : Frame) :
  typed_frame f ->
  (fits f -> exists wire, encode f = Ok wire /\ len wire = 24 + len (fr_payload f) /\
     (forall rest, decode (wire ++ rest) = Ok (Some (f, length wire))) /\
     (forall part rest, wire = part ++ rest -> rest <> [] -> decode part = Ok None)) /\
  (~ fits f -> exists s, encode f = Err (ProtocolError s)).
Proof.
  intros Ht. split; [| apply encode_Err]. intros Hf. exists (wire_with Byte.x00 f). split_and!.
  - by apply encode_Ok.
  - unfold len. rewrite length_wire_with. unfold HEADER_LEN. lia.
  - intros rest. by apply decode_wire.
  - intros part rest Hw Hne. by apply (decode_part Byte.x00 f part rest).
Qed.

(** C29 (type). Whatever bytes arrive: what [decode] accepts is a frame within the widths
    of its fields and the payload bound, and the bytes it consumed are the ones [encode]
    writes for it, up to the reserved byte of the header, which the checksum covers but
    nothing reads; when it waits for more, the buffer is shorter than the longest frame;
    and the answer, when it does not wait, is not changed by what arrives next. *)
Theorem decode_spec `{HC : Crc32c} (buf : list byte) :
  match decode buf with
  | Ok (Some (f, n)) =>
      typed_frame f /\ fits f /\ n = (HEADER_LEN + length (fr_payload f))%nat /\ (n <= length buf)%nat /\
      exists r, take n buf = wire_with r f /\ (r = Byte.x00 -> encode f = Ok (take n buf))
  | Ok None => len buf < Z.of_nat HEADER_LEN + MAX_FRAME_PAYLOAD
  | Err e => exists s, e = ProtocolError s
  end /\
  (decode buf <> Ok None -> forall rest, decode (buf ++ rest) = decode buf).
Proof.
  split; [| intros Hn rest; by apply decode_app].
  destruct (decode buf) as [[[f n] |] | e] eqn:E.
  - apply decode_Some in E as (Ht & Hf & Hn & r & rest & ->).
    assert (Hlen : n = length (wire_with r f)) by by rewrite length_wire_with.
    split; [exact Ht |]. split; [exact Hf |]. split; [exact Hn |].
    split; [rewrite Hlen, length_app; lia |]. exists r.
    rewrite Hlen, take_app_length. split; [done |]. intros ->. by apply encode_Ok.
  - by apply decode_None_short.
  - by eapply decode_Err.
Qed.

Example frame_roundtrip_witness :
  exists wire, encode (H := castagnoli) (mkFrame Op.Ping 0 7 [Byte.x61]) = Ok wire /\
    len wire = 25 /\
    (forall rest, decode (H := castagnoli) (wire ++ rest) = Ok (Some (mkFrame Op.Ping 0 7 [Byte.x61], length wire))) /\
    (forall part rest, wire = part ++ rest -> rest <> [] -> decode (H := castagnoli) part = Ok None).
Proof.
  apply (proj1 (@frame_roundtrip castagnoli castagnoli_laws (mkFrame Op.Ping 0 7 [Byte.x61])
           ltac:(split; [cbn; lia | unfold is_u64, u64_max; cbn; lia]))).
  unfold fits, len, MAX_FRAME_PAYLOAD. cbn. lia.
Defined.
