(* ===== verification/Fs.v ===== *)
(** The file system under a node: paths, files, directories, and the calls of [std::fs]
    the node and its storage make.

    A path is the list of its components; a file system is a map from paths to files and
    directories; there are no symbolic links.  Each call is one event: it takes effect, or
    fails, or the process stops in it.  Of a call that fails or is cut short, a recursive
    removal leaves anything below the path it works on, a write leaves the file with any
    content or as it was, a creation of directories some of them, and nothing changes
    elsewhere; a rename and an unlink are atomic ([rename(2)], [unlink(2)]).  Fsync has no
    effect here: the file system after a stop is the one the calls left. *)
From S2P Require Import Prelude Errors Ident.
From Stdlib Require Import Strings.Byte.

(** * Definitions *)

Abbreviation path := (list string).

Inductive node : Type := Dir | File (content : list byte).

Abbreviation Fs := (gmap (list string) node).

#[export] Instance node_eq_dec : EqDecision node.
Proof. solve_decision. Defined.

(** ** Subtrees *)

Definition under (p q : path) : Prop := p `prefix_of` q.

#[export] Instance under_dec p q : Decision (under p q) := decide (p `prefix_of` q).

Fixpoint strip (p q : path) : option path :=
  match p, q with
  | [], q => Some q
  | x :: p', y :: q' => if bool_decide (x = y) then strip p' q' else None
  | _ :: _, [] => None
  end.

(** What is at and below [p], by relative path; putting it at [p]; the rest. *)
Definition subtree (p : path) (fs : Fs) : gmap path node :=
  list_to_map (omap (fun e : path * node => (fun r => (r, e.2)) <$> strip p e.1) (map_to_list fs)).
Definition graft (p : path) (t : gmap path node) : Fs := kmap (app p) t.
Definition outside (p : path) (fs : Fs) : Fs := filter (fun e : path * node => ~ under p e.1) fs.

(** [fs] with what [fs'] has below [p]. *)
Definition replaced (p : path) (fs fs' : Fs) : Fs := graft p (subtree p fs') ∪ outside p fs.

(** ** Calls *)

Definition is_dir (fs : Fs) (p : path) : bool := bool_decide (fs !! p = Some Dir).
Definition is_file (fs : Fs) (p : path) : bool := if fs !! p is Some (File _) then true else false.

Definition parent (p : path) : path := removelast p.

(** The directories of [create_dir_all p], from the top. *)
Definition ancestors (p : path) : list path := (fun n => take (S n) p) <$> seq 0 (length p).

Definition make_dir (fs : Fs) (p : path) : option Fs :=
  match fs !! p with Some Dir => Some fs | Some (File _) => None | None => Some (<[p := Dir]> fs) end.

Definition make_dirs (l : list path) (fs : Fs) : option Fs :=
  foldl (fun r q => r ≫= fun fs => make_dir fs q) (Some fs) l.
Definition fs_create_dir_all (p : path) (fs : Fs) : option Fs := make_dirs (ancestors p) fs.

Definition has_parent (fs : Fs) (p : path) : bool := is_dir fs (parent p).

Definition fs_write (p : path) (content : list byte) (fs : Fs) : option Fs :=
  if is_dir fs p || negb (has_parent fs p) then None else Some (<[p := File content]> fs).

(** [OpenOptions::new().create(true).append(true)] and [write_all]. *)
Definition fs_append (p : path) (content : list byte) (fs : Fs) : option Fs :=
  fs_write p (match fs !! p with Some (File old) => old | _ => [] end ++ content) fs.

Definition fs_remove_dir_all (p : path) (fs : Fs) : option Fs :=
  if is_dir fs p then Some (outside p fs) else None.

Definition children (p : path) (fs : Fs) : list string :=
  omap (fun e : path * node => strip p e.1 ≫= fun r => if r is [name] then Some name else None) (map_to_list fs).

(** [OpenOptions::new().create_new(true)] and [write_all]. *)
Definition fs_create_new (p : path) (content : list byte) (fs : Fs) : option Fs :=
  if is_some (fs !! p) then None else fs_write p content fs.

Definition fs_remove_file (p : path) (fs : Fs) : option Fs := if is_file fs p then Some (delete p fs) else None.

Definition fs_remove_dir (p : path) (fs : Fs) : option Fs :=
  if is_dir fs p && is_empty_list (children p fs) then Some (delete p fs) else None.

(** A file replaces a file. *)
Definition fs_rename_file (src dst : path) (fs : Fs) : option Fs :=
  match fs !! src with
  | Some (File content) =>
      if is_dir fs dst || negb (has_parent fs dst) then None else Some (<[dst := File content]> (delete src fs))
  | _ => None
  end.

(** A directory replaces nothing but an empty directory. *)
Definition fs_rename (src dst : path) (fs : Fs) : option Fs :=
  if is_dir fs src && has_parent fs dst && negb (bool_decide (under src dst)) &&
     (is_none (fs !! dst) || (is_dir fs dst && is_empty_list (children dst fs)))
  then Some (graft dst (subtree src fs) ∪ outside src (outside dst fs)) else None.

(** ** Events *)

Inductive io_outcome : Type := IoDone | IoFailed | IoStopped.

(** What happens to each call: its outcome; what a removal that does not take effect leaves,
    what the file of such a write holds, when it was touched, and how many directories such
    a creation has made; the ages of directories (in milliseconds, when the
    platform knows them), their length, the order in which they are listed; whether a
    stopped rename or unlink took effect; the clock, and random identities. *)
Class DiskEnv := {
  disk_outcome : nat -> io_outcome;
  disk_left : nat -> Fs -> Fs;
  disk_torn : nat -> option (list byte);
  disk_made : nat -> nat;
  disk_dir_len : nat -> Z;
  disk_age : nat -> path -> option Z;
  disk_order : nat -> list string -> list string;
  disk_renamed : nat -> bool;
  disk_now : nat -> Z;
  disk_random : nat -> Id
}.

(** A directory is listed completely, and nothing twice. *)
Class DiskLaws (H : DiskEnv) := {
  disk_order_perm : forall t l, disk_order t l ≡ₚ l
}.

Record Disk := mkDisk { dk_fs : Fs; dk_tick : nat }.

Section calls.
Context `{DiskEnv}.

Definition io_error : FabricError := error_from_io "{e}".

(** A call that changes what is below [p]. *)
Definition change (p : path) (f : Fs -> option Fs) : M Disk unit := fun d =>
  let t := dk_tick d in
  let torn := mkDisk (replaced p (dk_fs d) (disk_left t (dk_fs d))) (S t) in
  match disk_outcome t with
  | IoDone => match f (dk_fs d) with
              | Some fs => (Done tt, mkDisk fs (S t))
              | None => (Raise io_error, mkDisk (dk_fs d) (S t))
              end
  | IoFailed => (Raise io_error, torn)
  | IoStopped => (Crash, torn)
  end.

Definition create_dir_all (p : path) : M Disk unit := fun d =>
  let t := dk_tick d in
  let torn := mkDisk (default (dk_fs d) (make_dirs (take (disk_made t) (ancestors p)) (dk_fs d))) (S t) in
  match disk_outcome t with
  | IoDone => match fs_create_dir_all p (dk_fs d) with
              | Some fs => (Done tt, mkDisk fs (S t))
              | None => (Raise io_error, torn)
              end
  | IoFailed => (Raise io_error, torn)
  | IoStopped => (Crash, torn)
  end.
(** A call that writes the file [p]; one that does not take effect may leave other content. *)
Definition torn_file (p : path) (t : nat) (fs : Fs) : Fs :=
  match disk_torn t with Some content => default fs (fs_write p content fs) | None => fs end.

Definition change_file (p : path) (f : Fs -> option Fs) : M Disk unit := fun d =>
  let t := dk_tick d in
  let torn := mkDisk (torn_file p t (dk_fs d)) (S t) in
  match disk_outcome t with
  | IoDone => match f (dk_fs d) with
              | Some fs => (Done tt, mkDisk fs (S t))
              | None => (Raise io_error, mkDisk (dk_fs d) (S t))
              end
  | IoFailed => (Raise io_error, torn)
  | IoStopped => (Crash, torn)
  end.
Definition write (p : path) (content : list byte) : M Disk unit := change_file p (fs_write p content).
Definition append (p : path) (content : list byte) : M Disk unit := change_file p (fs_append p content).
Definition remove_dir_all (p : path) : M Disk unit := change p (fs_remove_dir_all p).

(** A call that takes effect at once or not at all. *)
Definition atomic (f : Fs -> option Fs) : M Disk unit := fun d =>
  let t := dk_tick d in
  match disk_outcome t, f (dk_fs d) with
  | IoDone, Some fs => (Done tt, mkDisk fs (S t))
  | IoStopped, Some fs => (Crash, mkDisk (if disk_renamed t then fs else dk_fs d) (S t))
  | IoStopped, None => (Crash, mkDisk (dk_fs d) (S t))
  | _, _ => (Raise io_error, mkDisk (dk_fs d) (S t))
  end.
Definition rename (src dst : path) : M Disk unit := atomic (fs_rename src dst).
Definition rename_file (src dst : path) : M Disk unit := atomic (fs_rename_file src dst).
Definition remove_file (p : path) : M Disk unit := atomic (fs_remove_file p).
Definition remove_dir (p : path) : M Disk unit := atomic (fs_remove_dir p).

(** A creation that fails on a file that is there leaves it; another may leave a torn file. *)
Definition create_new (p : path) (content : list byte) : M Disk unit := fun d =>
  if is_some (dk_fs d !! p)
  then (match disk_outcome (dk_tick d) with IoStopped => Crash | _ => Raise io_error end, mkDisk (dk_fs d) (S (dk_tick d)))
  else change_file p (fs_create_new p content) d.

(** A call that reads. *)
Definition look {A} (f : nat -> Fs -> option A) : M Disk A := fun d =>
  let t := dk_tick d in
  let d' := mkDisk (dk_fs d) (S t) in
  match disk_outcome t with
  | IoDone => match f t (dk_fs d) with Some a => (Done a, d') | None => (Raise io_error, d') end
  | IoFailed => (Raise io_error, d')
  | IoStopped => (Crash, d')
  end.

(** [m.unwrap_or(a)]. *)
Definition or_else {A} (m : M Disk A) (a : A) : M Disk A :=
  r ← attempt m; mret (match r with Ok x => x | Err _ => a end).

Definition read (p : path) : M Disk (list byte) :=
  look (fun _ fs => if fs !! p is Some (File b) then Some b else None).
Definition path_exists (p : path) : M Disk bool := or_else (look (fun _ fs => Some (is_some (fs !! p)))) false.
Definition path_is_dir (p : path) : M Disk bool := or_else (look (fun _ fs => Some (is_dir fs p))) false.
Definition path_is_file (p : path) : M Disk bool := or_else (look (fun _ fs => Some (is_file fs p))) false.

(** [metadata(p).len()], of a directory too. *)
Definition metadata_len (p : path) : M Disk Z :=
  look (fun t fs => match fs !! p with
                    | Some (File b) => Some (Z.of_nat (length b))
                    | Some Dir => Some (disk_dir_len t)
                    | None => None
                    end).

Definition read_dir (p : path) : M Disk (list string) :=
  look (fun t fs => if is_dir fs p then Some (disk_order t (children p fs)) else None).

(** The entries of a directory, or that there is none ([ErrorKind::NotFound]). *)
Definition entries_of (p : path) : M Disk (option (list string)) :=
  look (fun t fs => match fs !! p with
                    | Some Dir => Some (Some (disk_order t (children p fs)))
                    | Some (File _) => None
                    | None => Some None
                    end).

(** Whether a path is a file or a directory, by its metadata. *)
Definition metadata (p : path) : M Disk node := look (fun _ fs => fs !! p).

Definition random_id : M Disk Id := fun d => (Done (disk_random (dk_tick d)), mkDisk (dk_fs d) (S (dk_tick d))).

(** The age of a directory by its modification time. *)
Definition modified_age (p : path) : M Disk (option Z) := or_else (look (fun t fs => Some (disk_age t p))) None.

Definition disk_now_ms : M Disk Z := fun d => (Done (disk_now (dk_tick d)), mkDisk (dk_fs d) (S (dk_tick d))).
End calls.

(** * Lemmas *)

(** ** Subtrees *)

Lemma strip_Some p q r : strip p q = Some r <-> q = p ++ r.
Proof.
  revert q. induction p as [| x p IH]; intros [| y q]; cbn; try naive_solver.
  case_bool_decide as E; [subst y; rewrite IH; naive_solver | naive_solver].
Qed.

Lemma under_app p r : under p (p ++ r).
Proof. by exists r. Qed.

Lemma under_refl p : under p p.
Proof. done. Qed.

Lemma under_trans p q r : under p q -> under q r -> under p r.
Proof. unfold under. intros. by etrans. Qed.

Create HintDb fs.
#[export] Hint Resolve under_app under_refl : fs.

Lemma lookup_subtree p fs r : subtree p fs !! r = fs !! (p ++ r).
Proof.
  unfold subtree. apply option_eq. intros n. rewrite <- elem_of_list_to_map.
  - rewrite list_elem_of_omap. split.
    + intros ([q m] & Hin & Hs). cbn in Hs. destruct (strip p q) as [r' |] eqn:E; [| done].
      injection Hs as -> ->. apply strip_Some in E as ->. by apply elem_of_map_to_list.
    + intros Hn. exists (p ++ r, n). split; [by apply elem_of_map_to_list |]. cbn.
      by rewrite (proj2 (strip_Some p (p ++ r) r) eq_refl).
  - assert (Hnd : NoDup (map_to_list fs).*1) by apply NoDup_fst_map_to_list.
    revert Hnd. induction (map_to_list fs) as [| [q m] l IH]; intros Hnd; [constructor |].
    apply NoDup_cons in Hnd as [Hq Hnd]. cbn. destruct (strip p q) as [r' |] eqn:E; cbn; [| by apply IH].
    apply strip_Some in E as ->. constructor; [| by apply IH]. intros Hin. apply Hq.
    apply list_elem_of_fmap in Hin as ([r2 m2] & -> & Hin). apply list_elem_of_omap in Hin as ([q2 m3] & Hin & Hs).
    cbn in Hs. destruct (strip p q2) as [r3 |] eqn:E2; [| done]. injection Hs as -> ->.
    apply strip_Some in E2 as ->. apply list_elem_of_fmap. by exists (p ++ r2, m2).
Qed.

Lemma lookup_graft p t r : graft p t !! (p ++ r) = t !! r.
Proof. apply (lookup_kmap (app p)). Qed.

Lemma lookup_graft_ne p t q : ~ under p q -> graft p t !! q = None.
Proof.
  intros Hq. apply (lookup_kmap_None (app p)). intros r ->. by destruct Hq; apply under_app.
Qed.

Lemma lookup_outside p fs q : ~ under p q -> outside p fs !! q = fs !! q.
Proof.
  intros Hq. unfold outside. apply option_eq. intros n. rewrite map_lookup_filter_Some. by split; [intros [? _] |].
Qed.

Lemma lookup_outside_under p fs r : outside p fs !! (p ++ r) = None.
Proof. apply map_lookup_filter_None. right. intros n _ Hn. by destruct Hn; apply under_app. Qed.

(** ** What a call leaves alone *)

Definition same_outside (p : path) (fs fs' : Fs) : Prop := forall q, ~ under p q -> fs' !! q = fs !! q.

Lemma same_outside_refl p fs : same_outside p fs fs.
Proof. by intros q. Qed.

Lemma same_outside_trans p fs1 fs2 fs3 : same_outside p fs1 fs2 -> same_outside p fs2 fs3 -> same_outside p fs1 fs3.
Proof. intros H1 H2 q Hq. by rewrite H2, H1. Qed.

Lemma same_outside_replaced p fs fs' : same_outside p fs (replaced p fs fs').
Proof.
  intros q Hq. unfold replaced. by rewrite lookup_union_r, lookup_outside by by try apply lookup_graft_ne.
Qed.

Lemma same_outside_outside p fs : same_outside p fs (outside p fs).
Proof. intros q Hq. by apply lookup_outside. Qed.

Lemma same_outside_insert p r n fs : same_outside p fs (<[p ++ r := n]> fs).
Proof. intros q Hq. apply lookup_insert_ne. intros <-. by destruct Hq; apply under_app. Qed.

Lemma same_outside_write p r content fs fs' : fs_write (p ++ r) content fs = Some fs' -> same_outside p fs fs'.
Proof.
  unfold fs_write. destruct (_ || _); [done |]. intros [= <-]. apply same_outside_insert.
Qed.

Lemma same_outside_remove p r fs fs' : fs_remove_dir_all (p ++ r) fs = Some fs' -> same_outside p fs fs'.
Proof.
  unfold fs_remove_dir_all. destruct (is_dir _ _); [| done]. intros [= <-] q Hq.
  apply lookup_outside. intros Hr. apply Hq. by eapply under_trans; [apply under_app |].
Qed.

Lemma same_outside_below p r fs fs' : same_outside (p ++ r) fs fs' -> same_outside p fs fs'.
Proof. intros Hs q Hq. apply Hs. intros Hr. apply Hq. by eapply under_trans; [apply under_app |]. Qed.

(** Paths of different trees. *)
Definition apart (p q : path) : Prop := ~ under p q /\ ~ under q p.

Lemma apart_sym p q : apart p q -> apart q p.
Proof. by intros []. Qed.

Lemma apart_under p q r : apart p q -> ~ under p (q ++ r).
Proof.
  intros [H1 H2] Hp. destruct (prefix_weak_total p q (q ++ r) Hp (under_app q r)); auto.
Qed.

Lemma apart_fork p x y r r' : x <> y -> apart (p ++ x :: r) (p ++ y :: r').
Proof.
  intros Hne. split; unfold under; intros [z Hz]; rewrite <- (assoc_L (++)) in Hz;
    apply app_inv_head in Hz; cbn in Hz; congruence.
Qed.

Lemma subtree_same p q fs fs' : same_outside p fs fs' -> apart p q -> subtree q fs' = subtree q fs.
Proof.
  intros Hs Ha. apply map_eq. intros r. rewrite !lookup_subtree. by apply Hs, apart_under.
Qed.

(** ** Renaming *)

Lemma fs_rename_spec src dst fs fs' :
  fs_rename src dst fs = Some fs' ->
  is_dir fs src = true /\ is_dir fs (parent dst) = true /\
  (fs !! dst = None \/ fs !! dst = Some Dir /\ children dst fs = []) /\
  subtree dst fs' = subtree src fs /\
  (forall q, ~ under src q -> ~ under dst q -> fs' !! q = fs !! q) /\
  (forall q, under src q -> ~ under dst q -> fs' !! q = None).
Proof.
  unfold fs_rename. destruct (_ && _) eqn:E; [| done]. intros [= <-]. bool_facts.
  split; [done |]. split; [done |]. split; [| split; [| split]].
  - match goal with Hx : is_none _ || _ = true |- _ => apply orb_true_iff in Hx as [Hx | Hx] end.
    + left. by destruct (fs !! dst).
    + right. bool_facts. unfold is_dir in *. bool_facts. split; [done |]. by destruct (children dst fs).
  - apply map_eq. intros r. rewrite !lookup_subtree, lookup_union, lookup_graft, lookup_subtree.
    replace (outside src (outside dst fs) !! (dst ++ r)) with (@None node); [by destruct (fs !! (src ++ r)) |].
    symmetry. destruct (decide (under src (dst ++ r))) as [[r' Hr'] | Hs]; [rewrite Hr'; apply lookup_outside_under |].
    rewrite lookup_outside by done. apply lookup_outside_under.
  - intros q Hs Hd. rewrite lookup_union_r by by apply lookup_graft_ne. by rewrite !lookup_outside.
  - intros q [r ->] Hd. rewrite lookup_union_r by by apply lookup_graft_ne. apply lookup_outside_under.
Qed.

(** ** Runs

    [run m Q C w]: from [w], [m] ends with a result and a world in [Q], or the process
    stops with a world in [C]. *)

Definition run {W A} (m : M W A) (Q : FabricResult A -> W -> Prop) (C : W -> Prop) (w : W) : Prop :=
  match m w with
  | (Done a, w') => Q (Ok a) w'
  | (Raise e, w') => Q (Err e) w'
  | (Crash, w') => C w'
  end.

Section runs.
Context {W : Type}.
Implicit Types C I : W -> Prop.

Lemma run_ret {A} (a : A) Q C w : Q (Ok a) w -> run (mret a) Q C w.
Proof. done. Qed.
Lemma run_raise {A} e (Q : FabricResult A -> W -> Prop) C w : Q (Err e) w -> run (raise e) Q C w.
Proof. done. Qed.
Lemma run_lift {A} (r : FabricResult A) Q C w : Q r w -> run (lift r) Q C w.
Proof. unfold run, lift. by destruct r. Qed.

Lemma run_bind {A B} (m : M W A) (k : A -> M W B) Q C w :
  run m (fun r w' => match r with Ok a => run (k a) Q C w' | Err e => Q (Err e) w' end) C w ->
  run (m ≫= k) Q C w.
Proof. unfold run, mbind, M_bind. destruct (m w) as [[a | e |] w']; auto. Qed.

Lemma run_attempt {A} (m : M W A) Q C w : run m (fun r => Q (Ok r)) C w -> run (attempt m) Q C w.
Proof. unfold run, attempt. by destruct (m w) as [[a | e |] w']. Qed.

Lemma run_ignore {A} (m : M W A) Q C w : run m (fun _ => Q (Ok tt)) C w -> run (ignore m) Q C w.
Proof. intros Hm. apply run_bind, run_attempt. unfold run in *. destruct (m w) as [[a | e |] w']; auto. Qed.

Lemma run_conseq {A} (m : M W A) (Q Q' : FabricResult A -> W -> Prop) C C' w :
  run m Q' C' w -> (forall r w', Q' r w' -> Q r w') -> (forall w', C' w' -> C w') -> run m Q C w.
Proof. unfold run. destruct (m w) as [[a | e |] w']; auto. Qed.

Lemma run_keeps {A} I (m : M W A) Q C w :
  keeps I m -> I w -> (forall r w', I w' -> Q r w') -> (forall w', I w' -> C w') -> run m Q C w.
Proof. intros Hm Hw HQ HC. specialize (Hm w Hw). unfold run. destruct (m w) as [[a | e |] w']; cbn in Hm; auto. Qed.
End runs.

(** ** The calls *)

Definition on_fs (I : Fs -> Prop) (d : Disk) : Prop := I (dk_fs d).

(** [I] does not speak of what is below [p]. *)
Definition ignores (p : path) (I : Fs -> Prop) : Prop := forall fs fs', same_outside p fs fs' -> I fs -> I fs'.

(** [I] bears the directories on the way to [p]. *)
Definition bears (p : path) (I : Fs -> Prop) : Prop :=
  forall q fs, q ∈ ancestors p -> fs !! q = None -> I fs -> I (<[q := Dir]> fs).

Section call_rules.
Context `{DiskEnv}.
Implicit Types I : Fs -> Prop.

Lemma keeps_change I p f :
  ignores p I -> (forall fs fs', f fs = Some fs' -> same_outside p fs fs') -> keeps (on_fs I) (change p f).
Proof.
  intros Hi Hf [fs t] Hw. unfold change, on_fs in *. cbn in *.
  destruct (disk_outcome t); cbn; [| by eapply Hi, Hw; apply same_outside_replaced..].
  destruct (f fs) as [fs' |] eqn:E; cbn; [| exact Hw]. eapply Hi, Hw. by apply Hf.
Qed.

Lemma same_outside_torn p t fs : same_outside p fs (torn_file p t fs).
Proof.
  unfold torn_file. destruct (disk_torn t) as [c |]; [| by intros q].
  destruct (fs_write p c fs) as [fs' |] eqn:E; [| by intros q]. cbn.
  rewrite <- (app_nil_r p) in E. by eapply same_outside_write.
Qed.

Lemma keeps_change_file I p f :
  ignores p I -> (forall fs fs', f fs = Some fs' -> same_outside p fs fs') -> keeps (on_fs I) (change_file p f).
Proof.
  intros Hi Hf [fs t] Hw. unfold change_file, on_fs in *. cbn in *.
  destruct (disk_outcome t); cbn; [| by eapply Hi, Hw; apply same_outside_torn..].
  destruct (f fs) as [fs' |] eqn:E; cbn; [| exact Hw]. eapply Hi, Hw. by apply Hf.
Qed.

Lemma keeps_write I p content : ignores p I -> keeps (on_fs I) (write p content).
Proof.
  intros Hi. apply keeps_change_file; [exact Hi |]. intros fs fs' Hw.
  rewrite <- (app_nil_r p) in Hw. by eapply same_outside_write.
Qed.

Lemma keeps_append I p content : ignores p I -> keeps (on_fs I) (append p content).
Proof.
  intros Hi. apply keeps_change_file; [exact Hi |]. intros fs fs' Hw.
  unfold fs_append in Hw. rewrite <- (app_nil_r p) in Hw at 1. by eapply same_outside_write.
Qed.

Lemma keeps_remove I p : ignores p I -> keeps (on_fs I) (remove_dir_all p).
Proof.
  intros Hi. apply keeps_change; [exact Hi |]. intros fs fs' Hw.
  rewrite <- (app_nil_r p) in Hw. by eapply same_outside_remove.
Qed.

Lemma make_dirs_bears I p l fs fs' :
  bears p I -> (forall q, q ∈ l -> q ∈ ancestors p) -> make_dirs l fs = Some fs' -> I fs -> I fs'.
Proof.
  intros Hb. unfold make_dirs. revert fs. induction l as [| q l IH]; intros fs Hl; cbn; [congruence |].
  unfold make_dir. destruct (fs !! q) as [[| c] |] eqn:E; cbn.
  - apply IH. intros x Hx. apply Hl. by right.
  - intros Hn. exfalso. clear -Hn. induction l as [| x l IH]; cbn in Hn; [done | by apply IH].
  - intros Hm Hi. eapply IH; [| exact Hm |]; [intros x Hx; apply Hl; by right |].
    apply Hb; [apply Hl; by left | done | done].
Qed.

Lemma keeps_create I p : bears p I -> keeps (on_fs I) (create_dir_all p).
Proof.
  intros Hb [fs t] Hw. unfold create_dir_all, on_fs in *. cbn in *.
  assert (Htorn : I (default fs (make_dirs (take (disk_made t) (ancestors p)) fs))).
  { destruct (make_dirs _ fs) as [fs' |] eqn:E; [| done]. eapply make_dirs_bears; [exact Hb | | exact E | exact Hw].
    intros q (i & Hi & _)%elem_of_take. by eapply list_elem_of_lookup_2. }
  destruct (disk_outcome t); cbn; [| exact Htorn..].
  destruct (fs_create_dir_all p fs) as [fs' |] eqn:E; cbn; [| exact Htorn].
  by eapply make_dirs_bears; [exact Hb | | exact E |].
Qed.

Lemma keeps_look I {A} (f : nat -> Fs -> option A) : keeps (on_fs I) (look f).
Proof. intros [fs t] Hw. unfold look. cbn. destruct (disk_outcome t); [destruct (f t fs) | |]; exact Hw. Qed.

Lemma keeps_or_else {A} (J : Disk -> Prop) (m : M Disk A) a : keeps J m -> keeps J (or_else m a).
Proof. intros Hm. apply keeps_bind; [by apply keeps_attempt | intros; apply keeps_ret]. Qed.
End call_rules.
