(* ===== verification/Integrity.v ===== *)
(** Hashes of files and their verification ([src/src/integrity.rs]).

    SHA-256 and CRC-32C are the interfaces [Sha256] and [Crc32c].  A file is hashed in
    pieces by the source; feeding a digest in pieces is hashing their concatenation, so
    here a file is read at once. *)
From S2P Require Import Prelude Errors Ident Lifecycle Checkpoint Workload Compression Policy.
From S2P Require Import Manifest Frame Fs.
From Stdlib Require Import Strings.Byte.

(** * Definitions *)

(** [format!("{x:08x}")] of a [u32]. *)
Definition hex_digit (d : Z) : string := String.substring (Z.to_nat d) 1 "0123456789abcdef".
Fixpoint hex_of (n : nat) (x : Z) : string :=
  match n with O => "" | S n' => hex_digit (x / 16 ^ Z.of_nat n' mod 16) +:+ hex_of n' x end.
Definition crc_text (crc : Z) : string := hex_of 8 crc.

(** [format!("{s}\n")]. *)
Definition line (s : string) : list byte := bytes_of s ++ [Byte.x0a].

Section files.
Context `{DiskEnv, Crc32c, Sha256}.

(** [fs::read_to_string]. *)
Definition read_to_string (p : path) : M Disk string :=
  b ← read p;
  if utf8_valid b then mret (text_of_bytes b) else raise io_error.

(** ** Files *)

Definition sha256_file (p : path) : M Disk string := b ← read p; mret (sha256_hex b).
Definition crc32c_file (p : path) : M Disk Z := b ← read p; mret (crc32c b).

(** A path with an extension appended to its last component. *)
Definition sidecar (p : path) (ext : string) : path := parent p ++ [default "" (last p) +:+ ext].
Definition sidecar_sha_path (p : path) : path := sidecar p ".sha256".
Definition sidecar_crc_path (p : path) : path := sidecar p ".crc32c".

Definition write_hashed_payload (p : path) (payload : list byte) : M Disk unit :=
  let content_hash := sha256_hex payload in
  let crc := crc32c payload in
  write p payload ;;
  write (sidecar_sha_path p) (line content_hash) ;;
  write (sidecar_crc_path p) (line (crc_text crc)).

Definition verify_stored_file (p : path) (expected_content_hash : string) (expected_size : option Z) : M Disk unit :=
  size ← map_err (metadata_len p) (IntegrityFailure "missing {}: {e}");
  (match expected_size with
   | Some expected => lift (reject_if (negb (size =? expected)) (IntegrityFailure "size mismatch for {}: expected {size}, got {}"))
   | None => mret tt
   end) ;;
  has_crc ← path_exists (sidecar_crc_path p);
  (if (has_crc : bool) then
     expected ← map_err (read_to_string (sidecar_crc_path p)) (IntegrityFailure "{e}");
     actual ← crc32c_file p;
     lift (reject_if (negb (bool_decide (crc_text actual = trim expected)))
             (IntegrityFailure "fast corruption detected for {}: crc mismatch"))
   else mret tt) ;;
  actual ← sha256_file p;
  lift (reject_if (negb (bool_decide (actual = expected_content_hash)))
          (IntegrityFailure "content hash mismatch for {}: expected {expected_content_hash}, got {actual}")).

Definition hash_and_crc (payload : list byte) : string * Z := (sha256_hex payload, crc32c payload).
End files.

(** * Lemmas *)

Lemma sidecar_last p x ext : sidecar (p ++ [x]) ext = p ++ [x +:+ ext].
Proof. unfold sidecar, parent. by rewrite removelast_last, last_snoc. Qed.

(** Text without spaces at its ends, such as a number in hexadecimal. *)
Definition plain_char (b : byte) : bool := in_bytes 48 57 b || in_bytes 97 102 b.

Lemma plain_not_space b : plain_char b = true -> space1 (byte_val b) = false.
Proof.
  unfold plain_char, in_bytes, space1. intros Hp. apply orb_false_iff. split;
    [apply bool_decide_eq_false | apply andb_false_iff]; lia.
Qed.

Lemma trim_start_plain b l : plain_char b = true -> trim_start (b :: l) = b :: l.
Proof.
  intros Hp. cbn. rewrite plain_not_space by done. destruct l as [| c l]; [done |].
  unfold plain_char, in_bytes in Hp.
  assert (Hs : space2 (byte_val b) (byte_val c) = false) by (unfold space2; lia). rewrite Hs.
  destruct l as [| d l]; [done |].
  assert (Hs3 : space3 (byte_val b) (byte_val c) (byte_val d) = false); [| by rewrite Hs3].
  unfold space3. apply orb_false_iff. split; [| lia]. apply bool_decide_eq_false. rewrite !elem_of_cons.
  intros Hin. destruct_or!; simplify_eq; [lia..|]. by apply not_elem_of_nil in Hin.
Qed.

Lemma trim_end_plain b l : plain_char b = true -> trim_end_rev (b :: l) = b :: l.
Proof.
  intros Hp. cbn. rewrite plain_not_space by done. destruct l as [| c l]; [done |].
  unfold plain_char, in_bytes in Hp.
  assert (Hs : space2 (byte_val c) (byte_val b) = false) by (unfold space2; lia). rewrite Hs.
  destruct l as [| d l]; [done |].
  assert (Hs3 : space3 (byte_val d) (byte_val c) (byte_val b) = false); [| by rewrite Hs3].
  unfold space3. apply orb_false_iff. split; [| lia]. apply bool_decide_eq_false. rewrite !elem_of_cons.
  intros Hin. destruct_or!; simplify_eq; [lia..|]. by apply not_elem_of_nil in Hin.
Qed.

Lemma text_bytes (s : string) : text_of_bytes (bytes_of s) = s.
Proof. apply String.string_of_list_byte_of_string. Qed.
Lemma bytes_text (l : list byte) : bytes_of (text_of_bytes l) = l.
Proof. apply String.list_byte_of_string_of_list_byte. Qed.

(** A line of plain characters is read back without its end. *)
Definition plain (s : string) : Prop := Forall (fun b => plain_char b = true) (bytes_of s).

Lemma trim_line s : plain s -> trim (text_of_bytes (line s)) = s.
Proof.
  unfold plain, trim, line. rewrite bytes_text. intros Hp.
  destruct (bytes_of s) as [| b l] eqn:E.
  - cbn. apply (f_equal text_of_bytes) in E. by rewrite text_bytes in E.
  - pose proof Hp as Hall. apply Forall_cons in Hp as [Hb _]. cbn [app]. rewrite trim_start_plain by done.
    change (b :: l ++ [Byte.x0a]) with ((b :: l) ++ [Byte.x0a]). rewrite reverse_app.
    assert (Hne : reverse (b :: l) <> []) by (intros Hr; by apply (f_equal length) in Hr; rewrite length_reverse in Hr).
    apply Forall_reverse in Hall. destruct (reverse (b :: l)) as [| c r] eqn:Er; [done |].
    apply Forall_cons in Hall as [Hc _].
    change (reverse [Byte.x0a] ++ c :: r) with (Byte.x0a :: c :: r).
    change (trim_end_rev (Byte.x0a :: c :: r)) with (trim_end_rev (c :: r)).
    rewrite trim_end_plain, <- Er, reverse_involutive by done. rewrite <- E. apply text_bytes.
Qed.

Lemma utf8_plain l : Forall (fun b => plain_char b = true) l -> utf8_valid (l ++ [Byte.x0a]) = true.
Proof.
  induction 1 as [| b l Hb Hl IH]; [done |]. cbn [app utf8_valid].
  replace (in_bytes 0 0x7F b) with true; [exact IH |]. unfold plain_char, in_bytes in *. lia.
Qed.

Lemma utf8_line s : plain s -> utf8_valid (line s) = true.
Proof. apply utf8_plain. Qed.

(** [{:08x}] gives eight digits, which tell the number. *)
Lemma hex_digit_plain d : 0 <= d < 16 -> exists b, bytes_of (hex_digit d) = [b] /\ plain_char b = true.
Proof.
  intros Hd. assert (d = 0 \/ d = 1 \/ d = 2 \/ d = 3 \/ d = 4 \/ d = 5 \/ d = 6 \/ d = 7 \/ d = 8 \/ d = 9 \/
    d = 10 \/ d = 11 \/ d = 12 \/ d = 13 \/ d = 14 \/ d = 15) as Hc by lia.
  destruct_or!; subst d; by eexists.
Qed.

Lemma bytes_of_app s1 s2 : bytes_of (s1 +:+ s2) = bytes_of s1 ++ bytes_of s2.
Proof.
  unfold bytes_of. induction s1 as [| c s1 IH]; [done |].
  change (Ascii.byte_of_ascii c :: String.list_byte_of_string (s1 +:+ s2) =
    Ascii.byte_of_ascii c :: String.list_byte_of_string s1 ++ String.list_byte_of_string s2). by rewrite IH.
Qed.

Lemma hex_of_plain n x : plain (hex_of n x).
Proof.
  unfold plain. induction n as [| n IH]; [constructor |]. cbn [hex_of]. rewrite bytes_of_app.
  destruct (hex_digit_plain (x / 16 ^ Z.of_nat n mod 16)) as (b & -> & Hb); [apply Z.mod_pos_bound; lia |].
  by constructor.
Qed.
