(* ===== verification/Storage.v ===== *)
(** The local storage of a node ([src/src/storage.rs]): staging, promotion, the committed
    checkpoints and their verification.

    [promote] syncs a whole tree; the traversal is one event here, which succeeds on a
    directory, fails, or stops the process.  [free_bytes], which no other code calls, is
    left out. *)
From S2P Require Import Prelude Errors Ident Lifecycle Checkpoint Workload Compression Policy Compat.
From S2P Require Import Capture Lineage Tables Persist.
From S2P Require Import Manifest Frame Fs Integrity.
From Stdlib Require Import Strings.Byte.

(** * Definitions *)

(** The components of a relative path: [Path::components] skips empty ones and [.]. *)
Definition rel_components (rel : string) : path :=
  filter (fun c => c <> "" /\ c <> ".") (split_path rel).

(** [safe_join]. *)
Definition safe_join (base : path) (rel : string) : FabricResult path :=
  reject_if (String.prefix "/" rel || existsb (fun c => bool_decide (c = "..")) (rel_components rel))
    (InvalidArgument "path traversal attempt rejected: {rel}") ;;
  mret (base ++ rel_components rel).

(** [LocalStorage]: its root. *)
Record LocalStorage := mkLocalStorage { ls_root : path }.

Definition checkpoints_dir (st : LocalStorage) : path := ls_root st ++ ["checkpoints"].
Definition staging_root (st : LocalStorage) : path := ls_root st ++ ["staging"].
Definition staging_dir (st : LocalStorage) (attempt_id : string) : path :=
  staging_root st ++ [sanitize_segment attempt_id].

(** The order of [Id]: the bytes, from the first. *)
Fixpoint bytes_leb (a b : list byte) : bool :=
  match a, b with
  | [], _ => true
  | _ :: _, [] => false
  | x :: a', y :: b' => if byte_val x =? byte_val y then bytes_leb a' b' else byte_val x <? byte_val y
  end.
Definition id_le (a b : Id) : Prop := bytes_leb (id_bytes a) (id_bytes b) = true.
#[export] Instance id_le_dec a b : Decision (id_le a b) := decide (bytes_leb (id_bytes a) (id_bytes b) = true).

Section storage.
Context `{DiskEnv, Crc32c, Sha256, HexCodec}.
Context (st : LocalStorage).

(** [LocalStorage::new]. *)
Definition storage_new : M Disk unit :=
  create_dir_all (staging_root st) ;; create_dir_all (checkpoints_dir st).

Definition commit_dir (checkpoint_id : Id) : path := checkpoints_dir st ++ [to_hex checkpoint_id].

(** [a && b] of two tests. *)
Definition both (a b : M Disk bool) : M Disk bool := x ← a; if (x : bool) then b else mret false.

Definition is_committed_dir (p : path) : M Disk bool :=
  both (path_is_dir p)
    (both (path_is_file (p ++ ["manifest"]))
       (both (path_is_file (p ++ ["manifest.digest"])) (path_is_dir (p ++ ["integrity"])))).

Definition has_committed (checkpoint_id : Id) : M Disk bool := is_committed_dir (commit_dir checkpoint_id).

(** [sync_dir_children]. *)
Definition sync_dir_children (dir : path) : M Disk unit :=
  look (fun _ fs => if is_dir fs dir then Some tt else None).

(** [sync_dir]. *)
Definition sync_dir (dir : path) : M Disk unit := ignore (look (fun _ fs => if is_dir fs dir then Some tt else None)).

Definition promote (staging commit : path) : M Disk unit :=
  exists_ ← path_exists commit;
  lift (reject_if exists_ (StorageError "commit path already exists: {}")) ;;
  lift (reject_if (is_empty_list commit) (StorageError "commit path has no parent")) ;;
  has_parent ← path_exists (parent commit);
  (if negb has_parent then create_dir_all (parent commit) else mret tt) ;;
  sync_dir_children staging ;;
  rename staging commit ;;
  sync_dir (parent commit).

Definition read_checkpoint_file (checkpoint_id : Id) (rel : string) : M Disk (list byte) :=
  p ← lift (safe_join (commit_dir checkpoint_id) rel);
  map_err (read p) (StorageError "read {}: {e}").

Definition delete_committed (checkpoint_id : Id) : M Disk unit :=
  let dir := commit_dir checkpoint_id in
  exists_ ← path_exists dir;
  if (exists_ : bool) then remove_dir_all dir else mret tt.

(** The loop of [enumerate_committed] over the entries. *)
Fixpoint committed_of (names : list string) : M Disk (list Id) :=
  match names with
  | [] => mret []
  | name :: names' =>
      let p := checkpoints_dir st ++ [name] in
      dir ← path_is_dir p;
      ids ← (match from_hex name with
             | Ok id =>
                 if (dir : bool) then
                   committed ← is_committed_dir p;
                   mret (if (committed : bool) then [id] else [])
                 else mret []
             | Err _ => mret []
             end);
      rest ← committed_of names';
      mret (ids ++ rest)
  end.

Definition enumerate_committed : M Disk (list Id) :=
  names ← read_dir (checkpoints_dir st);
  ids ← committed_of names;
  mret (merge_sort id_le ids).

(** The loop of [recover_partial_older_than]. *)
Fixpoint remove_abandoned (keep : gset path) (ttl_ms : Z) (names : list string) : M Disk (list path) :=
  match names with
  | [] => mret []
  | name :: names' =>
      let p := staging_root st ++ [name] in
      dir ← path_is_dir p;
      if negb dir || bool_decide (p ∈ keep) then remove_abandoned keep ttl_ms names' else
      old_enough ← (if ttl_ms =? 0 then mret true else
                      age ← modified_age p;
                      mret (match age with Some a => ttl_ms <=? a | None => false end));
      if (old_enough : bool) then
        remove_dir_all p ;;
        removed ← remove_abandoned keep ttl_ms names';
        mret (p :: removed)
      else remove_abandoned keep ttl_ms names'
  end.

Definition recover_partial_older_than (keep : gset path) (ttl_ms : Z) : M Disk (list path) :=
  entries ← attempt (read_dir (staging_root st));
  match entries with
  | Ok names => remove_abandoned keep ttl_ms names
  | Err _ => mret []
  end.

Definition recover_partial (keep : gset path) : M Disk (list path) := recover_partial_older_than keep 0.

(** [recovery::reconcile_node_storage]. *)
Definition reconcile_node_storage (active_attempts : list string) : M Disk (list path) :=
  recover_partial (list_to_set (staging_dir st <$> active_attempts)).

(** ** Verification *)

Context `{ManifestCodec}.

Definition require_present (present : M Disk bool) (what : string) : M Disk unit :=
  b ← present; lift (reject_if (negb b) (CorruptedCheckpoint what)).

Definition verify_committed_layout (checkpoint_id : Id) : M Disk string :=
  let commit := commit_dir checkpoint_id in
  require_present (path_is_file (commit ++ ["manifest"])) "missing manifest for {checkpoint_id}" ;;
  require_present (path_is_file (commit ++ ["manifest.digest"])) "missing manifest.digest for {checkpoint_id}" ;;
  require_present (path_is_dir (commit ++ ["integrity"])) "missing integrity dir for {checkpoint_id}" ;;
  manifest_bytes ← read (commit ++ ["manifest"]);
  manifest ← lift (Manifest.parse manifest_bytes);
  let digest := sha256_hex manifest_bytes in
  recorded ← read_to_string (commit ++ ["manifest.digest"]);
  lift (reject_if (negb (bool_decide (trim recorded = digest))) (IntegrityFailure "manifest digest sidecar mismatch")) ;;
  recorded_root ← read_to_string (commit ++ ["integrity"; "root"]);
  lift (reject_if (negb (bool_decide (trim recorded_root = ii_root (mf_integrity manifest))))
          (IntegrityFailure "manifest integrity-root sidecar mismatch")) ;;
  mret digest.

Definition verify_component_payload (commit : path) (rel_path stored_hash : string) (stored_size : Z) : M Disk unit :=
  p ← lift (safe_join commit rel_path);
  require_present (path_is_file p) "missing component payload {}" ;;
  verify_stored_file p stored_hash (Some stored_size).
End storage.

(** * Lemmas *)

(** ** The layout *)

Section layout.
Context `{HexCodec}.
Context (st : LocalStorage).

Lemma staging_apart a id : apart (staging_dir st a) (commit_dir st id).
Proof.
  unfold staging_dir, staging_root, commit_dir, checkpoints_dir. rewrite <- !(assoc_L (++)). by apply apart_fork.
Qed.

Lemma staging_apart_checkpoints a : apart (staging_dir st a) (checkpoints_dir st).
Proof.
  unfold staging_dir, staging_root, checkpoints_dir. rewrite <- !(assoc_L (++)). by apply apart_fork.
Qed.

Lemma commit_apart id id' : HexLaws _ -> id <> id' -> apart (commit_dir st id) (commit_dir st id').
Proof.
  intros Hl Hne. unfold commit_dir. apply apart_fork. intros Hh. by apply Hne, to_hex_inj.
Qed.

Lemma parent_commit id : parent (commit_dir st id) = checkpoints_dir st.
Proof. unfold parent, commit_dir. by rewrite removelast_last. Qed.
Lemma commit_longer id : ~ under (commit_dir st id) (checkpoints_dir st).
Proof.
  unfold commit_dir. intros [r Hr]. apply (f_equal length) in Hr. rewrite !length_app in Hr. cbn in Hr. lia.
Qed.
End layout.

Lemma elem_of_ancestors q p : q ∈ ancestors p <-> q <> [] /\ under q p.
Proof.
  unfold ancestors. rewrite list_elem_of_fmap. split.
  - intros (n & -> & Hn%elem_of_seq). split.
    + destruct p; [cbn in Hn; lia | done].
    + exists (drop (S n) p). by rewrite take_drop.
  - intros [Hq [r ->]]. exists (length q - 1)%nat. rewrite length_app, elem_of_seq.
    destruct q as [| x q]; [done |]. cbn [length]. split; [| lia].
    replace (S (S (length q) - 1)) with (length (x :: q)) by (cbn; lia). by rewrite take_app_length.
Qed.

(** A segment is one component. *)
Lemma split_segment s : all_chars segment_char s = true -> split_path s = [s].
Proof.
  induction s as [| c s IH]; [done |]. cbn [all_chars split_path]. intros [Hc Hs]%andb_true_iff.
  rewrite (IH Hs). case_bool_decide as E; [by subst c | done].
Qed.

Lemma safe_join_segment base dir s :
  safe_segment dir -> safe_segment s -> safe_join base (dir +:+ "/" +:+ s) = Ok (base ++ [dir; s]).
Proof.
  intros (Hd & Hd1 & Hd2 & Hd3) (Hs & Hs1 & Hs2 & Hs3).
  assert (Hsplit : split_path (dir +:+ "/" +:+ s) = [dir; s]).
  { clear Hd1 Hd2 Hd3. induction dir as [| c dir IH]; [by rewrite <- (split_segment s Hs) |].
    apply andb_true_iff in Hd as [Hc Hd].
    change (split_path (String c (dir +:+ "/" +:+ s)) = [String c dir; s]). cbn [split_path].
    rewrite (IH Hd). case_bool_decide as E; [by subst c | done]. }
  unfold safe_join, rel_components. rewrite Hsplit.
  rewrite !filter_cons_True, filter_nil by done. cbn [existsb].
  rewrite !bool_decide_eq_false_2 by done.
  replace (String.prefix "/" (dir +:+ "/" +:+ s)) with false; [done |].
  destruct dir as [| c dir]; [done |]. cbn in Hd. apply andb_true_iff in Hd as [Hc _].
  destruct c as [[] [] [] [] [] [] [] []]; done.
Qed.

(** ** Promotion *)

(** At most directories on the way to [p] are new. *)
Definition grown (p : path) (fs fs' : Fs) : Prop :=
  forall q, fs' !! q = fs !! q \/ (q ∈ ancestors p /\ fs !! q = None /\ fs' !! q = Some Dir).

Lemma grown_refl p fs : grown p fs fs.
Proof. intros q. by left. Qed.

Lemma grown_bears p fs : bears p (grown p fs).
Proof.
  intros q fs' Hq Hn Hg x. destruct (decide (q = x)) as [-> | Hne].
  - rewrite lookup_insert_eq. right. split; [done |]. destruct (Hg x) as [E | (_ & E & _)]; split; congruence.
  - rewrite lookup_insert_ne by done. apply Hg.
Qed.

Lemma grown_same p q fs fs' : grown p fs fs' -> ~ under q p -> subtree q fs' = subtree q fs.
Proof.
  intros Hg Hq. apply map_eq. intros r. rewrite !lookup_subtree.
  destruct (Hg (q ++ r)) as [E | (Ha & _)]; [exact E |]. apply elem_of_ancestors in Ha as [_ Ha].
  destruct Hq. by eapply under_trans; [apply under_app |].
Qed.

(** No checkpoint was at [commit]; what was staged is there now, is gone from the staging
    area, and nothing else changed. *)
Record promoted (staging commit : path) (fs fs' : Fs) : Prop := {
  pr_fresh : fs !! commit = None \/ fs !! commit = Some Dir /\ children commit fs = [];
  pr_image : subtree commit fs' = subtree staging fs;
  pr_moved : forall q, under staging q -> fs' !! q = None;
  pr_frame : forall q, ~ under staging q -> ~ under commit q ->
    fs' !! q = fs !! q \/ (q ∈ ancestors (parent commit) /\ fs !! q = None /\ fs' !! q = Some Dir);
  pr_dir : fs' !! commit = Some Dir
}.

Lemma elem_of_children p fs name : name ∈ children p fs <-> is_Some (fs !! (p ++ [name])).
Proof.
  unfold children. rewrite list_elem_of_omap. split.
  - intros ([q n] & Hq & Hs). cbn in Hs. destruct (strip p q) as [r |] eqn:Es; [| done].
    apply strip_Some in Es as ->. destruct r as [| x [| y r]]; try done. injection Hs as ->.
    apply elem_of_map_to_list in Hq. by exists n.
  - intros [n Hn]. exists (p ++ [name], n). split; [by apply elem_of_map_to_list |]. cbn.
    by rewrite (proj2 (strip_Some p (p ++ [name]) [name]) eq_refl).
Qed.

Lemma children_empty p fs : children p fs = [] <-> forall name, fs !! (p ++ [name]) = None.
Proof.
  split.
  - intros Hc name. apply eq_None_not_Some. rewrite <- elem_of_children, Hc. apply not_elem_of_nil.
  - intros Hn. destruct (children p fs) as [| name l] eqn:E; [done | exfalso].
    assert (Hin : name ∈ children p fs) by (rewrite E; by left).
    apply elem_of_children in Hin as [n Hin]. congruence.
Qed.

(** A rename after the directories on the way were made. *)
Lemma rename_promotes staging commit p fs fs1 fs2 :
  parent commit = p -> ~ under commit p -> apart staging commit -> apart staging p -> grown p fs fs1 ->
  fs_rename staging commit fs1 = Some fs2 -> promoted staging commit fs fs2.
Proof.
  intros Hp Hlong Ha Hac Hg Hr. apply fs_rename_spec in Hr as (Hsrc & _ & Hdst & Himg & Hsame & Hgone).
  assert (Hcommit : forall q, under commit q -> fs1 !! q = fs !! q).
  { intros q Hq. destruct (Hg q) as [E | (Hanc & _)]; [exact E | exfalso]. apply elem_of_ancestors in Hanc as [_ Hanc].
    apply Hlong. by eapply under_trans. }
  split.
  - destruct Hdst as [Hn | [Hn Hch]]; [left | right]; rewrite <- Hcommit by done; [done |]. split; [done |].
    rewrite children_empty in *. intros name. rewrite <- Hcommit by apply under_app. apply Hch.
  - rewrite Himg. eapply grown_same; [exact Hg | apply Hac].
  - intros q Hq. apply Hgone; [exact Hq |]. intros Hcq. destruct Hq as [r ->].
    exact (apart_under commit staging r (apart_sym _ _ Ha) Hcq).
  - intros q Hq1 Hq2. rewrite Hsame, Hp by done. apply Hg.
  - apply (f_equal (lookup [])) in Himg. rewrite !lookup_subtree, !app_nil_r in Himg. rewrite Himg.
    unfold is_dir in Hsrc. by bool_facts.
Qed.

Section promote.
Context `{DiskEnv}.

Lemma run_look {A} (f : nat -> Fs -> option A) Q C d :
  (forall t d', dk_fs d' = dk_fs d -> Q (match f t (dk_fs d) with Some a => Ok a | None => Err io_error end) d') ->
  (forall d', dk_fs d' = dk_fs d -> Q (Err io_error) d') -> (forall d', dk_fs d' = dk_fs d -> C d') ->
  run (look f) Q C d.
Proof.
  intros HQ HE HC. unfold run, look. destruct (disk_outcome (dk_tick d)); [| by apply HE | by apply HC].
  specialize (HQ (dk_tick d) (mkDisk (dk_fs d) (S (dk_tick d))) eq_refl).
  by destruct (f (dk_tick d) (dk_fs d)).
Qed.

(** A look that only the caller's own knowledge matters after. *)
Lemma run_reading {A} (m : M Disk A) Q C d :
  (forall fs, keeps (on_fs (eq fs)) m) ->
  (forall r d', dk_fs d' = dk_fs d -> Q r d') -> (forall d', dk_fs d' = dk_fs d -> C d') -> run m Q C d.
Proof.
  intros Hm HQ HC. apply (run_keeps (on_fs (eq (dk_fs d)))); [apply Hm | done | |]; unfold on_fs;
    intros; [by apply HQ | by apply HC].
Qed.

Lemma reading_exists fs p : keeps (on_fs (eq fs)) (path_exists p).
Proof. apply keeps_or_else, keeps_look. Qed.

Lemma promote_spec st `{HexCodec} staging id d :
  apart staging (commit_dir st id) -> apart staging (checkpoints_dir st) ->
  let commit := commit_dir st id in
  run (promote staging commit)
    (fun r d' => match r with
                 | Ok _ => promoted staging commit (dk_fs d) (dk_fs d')
                 | Err _ => grown (checkpoints_dir st) (dk_fs d) (dk_fs d')
                 end)
    (fun d' => promoted staging commit (dk_fs d) (dk_fs d') \/ grown (checkpoints_dir st) (dk_fs d) (dk_fs d')) d.
Proof.
  intros Ha Hac commit. set (G := grown (checkpoints_dir st) (dk_fs d)).
  assert (Hpc : parent commit = checkpoints_dir st) by apply parent_commit.
  assert (Hlong : ~ under commit (checkpoints_dir st)) by apply commit_longer.
  assert (Hg : G (dk_fs d)) by apply grown_refl.
  unfold promote. rewrite Hpc.
  apply run_bind, run_reading; [intros; apply reading_exists | | intros d' ->; by right].
  intros [e1 | err] d1 E1; [| by rewrite E1]. apply run_bind, run_lift. destruct (reject_if e1 _); [| by rewrite E1].
  apply run_bind, run_lift. destruct (reject_if _ _); [| by rewrite E1].
  apply run_bind, run_reading; [intros; apply reading_exists | | intros d' E; right; by rewrite E, E1].
  intros [e2 | err] d2 E2; [| by rewrite E2, E1].
  apply run_bind, (run_keeps (on_fs G)).
  { destruct (negb e2); [apply keeps_create, grown_bears | apply keeps_ret]. }
  { unfold on_fs. by rewrite E2, E1. }
  2: { intros d' Hd'. by right. }
  intros [[] | err] d3 Hd3; [| exact Hd3]. unfold on_fs in Hd3.
  apply run_bind, run_reading; [intros; apply keeps_look | | intros d' ->; by right].
  intros [[] | err] d4 E4; [| by rewrite E4].
  (* the rename *)
  apply run_bind. unfold run at 1, rename, atomic. rewrite E4.
  destruct (fs_rename staging commit (dk_fs d3)) as [fs5 |] eqn:Er.
  2: { destruct (disk_outcome (dk_tick d4)); cbn; [exact Hd3 | exact Hd3 | by right]. }
  assert (Hp : promoted staging commit (dk_fs d) fs5) by by eapply rename_promotes, Er.
  destruct (disk_outcome (dk_tick d4)); cbn; [| exact Hd3 | destruct (disk_renamed _); auto].
  apply run_ignore, run_reading; [intros; apply keeps_look | |]; intros; cbn; simplify_eq/=; try left; congruence.
Qed.
End promote.
