(* ===== verification/Providers.v ===== *)
(** Capture providers ([src/src/providers.rs]): the trait, the component payloads on disk,
    the providers that hold their state in memory, and the registry of a node.

    A provider acts on the disk and on the state of the application it belongs to, [App],
    which is a parameter.  [ProcessMetadataProvider], which reads the process environment,
    is in [ProcessProvider], and [FilesystemProvider] with its restore journal in
    [FsProvider]. *)
From S2P Require Import Prelude Errors Ident Lifecycle Checkpoint Workload Compression Policy Compat.
From S2P Require Import Capture Json Restore Lineage Failpoints Tables Persist.
From S2P Require Import Manifest Messages Dispatch Frame Fs Integrity Storage.
From Stdlib Require Import Strings.Byte.

(** * Definitions *)

Inductive QuiesceOutcome : Type := QuiesceAcked | QuiesceForced.

Record CaptureContext := mkCaptureContext {
  cx_workload_id : Id;
  cx_attempt_id : string;
  cx_staging_dir : path;
  cx_compression : CompressionSpec;
  cx_quiescence : QuiescenceMode
}.

Record RestoreContext := mkRestoreContext {
  rx_checkpoint_id : Id;
  rx_workload_id : Id;
  rx_attempt_id : string;
  rx_staging_dir : path;
  rx_commit_dir : path
}.

(** The disk and the application. *)
Record AppWorld (App : Type) := mkAppWorld { aw_disk : Disk; aw_app : App }.
Arguments mkAppWorld {App}.
Arguments aw_disk {App}.
Arguments aw_app {App}.

Section trait.
Context {App : Type}.

Definition on_disk {A} (m : M Disk A) : M (AppWorld App) A := fun w =>
  let '(o, d) := m (aw_disk w) in (o, mkAppWorld d (aw_app w)).

(** A method that only works on the application. *)
Definition on_app {A} (f : App -> FabricResult A * App) : M (AppWorld App) A := fun w =>
  let '(r, a) := f (aw_app w) in
  (match r with Ok x => Done x | Err e => Raise e end, mkAppWorld (aw_disk w) a).

(** The trait [CaptureProvider]. *)
Record CaptureProvider := mkCaptureProvider {
  pv_spec : ProviderSpec;
  pv_prepare_capture : CaptureContext -> M (AppWorld App) unit;
  pv_quiesce : CaptureContext -> M (AppWorld App) QuiesceOutcome;
  pv_capture : CaptureContext -> M (AppWorld App) (list byte);
  pv_verify : CaptureContext -> M (AppWorld App) unit;
  pv_resume_source : CaptureContext -> M (AppWorld App) unit;
  pv_abort_capture : CaptureContext -> M (AppWorld App) unit;
  pv_restore : RestoreContext -> list byte -> M (AppWorld App) unit;
  pv_verify_restore : RestoreContext -> M (AppWorld App) unit;
  pv_cleanup_restore : RestoreContext -> M (AppWorld App) unit;
  pv_commit_restore : RestoreContext -> M (AppWorld App) unit
}.

(** ** Providers in memory *)

(** The answer to a quiescence request of a provider without a hook. *)
Definition refuse_cooperative (ctx : CaptureContext) (reason : string) : M (AppWorld App) QuiesceOutcome :=
  if bool_decide (cx_quiescence ctx = Cooperative) then raise (QuiescenceFailure reason) else mret QuiesceForced.

(** A hook of an application, when there is one. *)
Definition run_hook (hook : option (App -> FabricResult unit * App)) : M (AppWorld App) unit :=
  match hook with Some h => on_app h | None => mret tt end.

(** [ApplicationStateProvider]: closures over the application. *)
Definition application_state_provider (spec : ProviderSpec)
    (snapshot : App -> FabricResult (list byte) * App) (apply : list byte -> App -> FabricResult unit * App)
    (quiesce_hook resume_hook cleanup_hook : option (App -> FabricResult unit * App)) : CaptureProvider :=
  {| pv_spec := spec;
     pv_prepare_capture := fun _ => mret tt;
     pv_quiesce := fun ctx =>
       if bool_decide (cx_quiescence ctx = Cooperative) then
         match quiesce_hook with
         | Some hook => on_app hook ;; mret QuiesceAcked
         | None => raise (QuiescenceFailure "provider '{}' has no cooperative quiesce hook")
         end
       else mret QuiesceForced;
     pv_capture := fun _ => on_app snapshot;
     pv_verify := fun _ => mret tt;
     pv_resume_source := fun _ => run_hook resume_hook;
     pv_abort_capture := fun _ => run_hook resume_hook;
     pv_restore := fun _ payload => on_app (apply payload);
     pv_verify_restore := fun _ => mret tt;
     pv_cleanup_restore := fun _ => run_hook cleanup_hook;
     pv_commit_restore := fun _ => mret tt |}.

(** [CustomProvider]; without [with_cleanup] the hook does nothing. *)
Definition custom_provider (spec : ProviderSpec) (capture_fn : App -> FabricResult (list byte) * App)
    (restore_fn : list byte -> App -> FabricResult unit * App)
    (cleanup_fn : option (App -> FabricResult unit * App)) : CaptureProvider :=
  {| pv_spec := spec;
     pv_prepare_capture := fun _ => mret tt;
     pv_quiesce := fun ctx => refuse_cooperative ctx "custom provider has no cooperative quiescence";
     pv_capture := fun _ => on_app capture_fn;
     pv_verify := fun _ => mret tt;
     pv_resume_source := fun _ => mret tt;
     pv_abort_capture := fun _ => mret tt;
     pv_restore := fun _ payload => on_app (restore_fn payload);
     pv_verify_restore := fun _ => mret tt;
     pv_cleanup_restore := fun _ => run_hook cleanup_fn;
     pv_commit_restore := fun _ => mret tt |}.

(** [MemoryRegionProvider]: named regions of the application, captured in the order of
    their names, and the regions a restore fills.  [serde_json] on them is an interface. *)
Definition Region : Type := string * list byte.

Record RegionMemory := mkRegionMemory { rm_regions : list Region; rm_target_regions : list Region }.

Class RegionCodec := {
  regions_to_vec : list Region -> list byte;
  regions_from_slice : list byte -> option (list Region)
}.

(** The order of [String]: the bytes, from the first. *)
Definition region_le (a b : Region) : Prop := String.leb a.1 b.1 = true.
#[export] Instance region_le_dec a b : Decision (region_le a b) := decide (String.leb a.1 b.1 = true).

Definition register_region (name : string) (bytes : list byte) (m : RegionMemory) : RegionMemory :=
  mkRegionMemory (rm_regions m ++ [(name, bytes)]) (rm_target_regions m).

Definition memory_region_provider `{RegionCodec} (spec : ProviderSpec) (memory : App -> RegionMemory)
    (set_memory : RegionMemory -> App -> App) : CaptureProvider :=
  {| pv_spec := spec;
     pv_prepare_capture := fun _ => mret tt;
     pv_quiesce := fun ctx => refuse_cooperative ctx "memory region provider cannot quiesce the source process";
     pv_capture := fun _ => on_app (fun a => (Ok (regions_to_vec (merge_sort region_le (rm_regions (memory a)))), a));
     pv_verify := fun _ => mret tt;
     pv_resume_source := fun _ => mret tt;
     pv_abort_capture := fun _ => mret tt;
     pv_restore := fun _ payload => on_app (fun a =>
       match regions_from_slice payload with
       | Some entries => (Ok tt, set_memory (mkRegionMemory (rm_regions (memory a)) entries) a)
       | None => (Err (RestoreFailure "bad memory payload: {e}"), a)
       end);
     pv_verify_restore := fun _ => mret tt;
     pv_cleanup_restore := fun _ => on_app (fun a => (Ok tt, set_memory (mkRegionMemory (rm_regions (memory a)) []) a));
     pv_commit_restore := fun _ => mret tt |}.

(** ** The registry *)

Definition ProviderRegistry : Type := gmap (Id * string) CaptureProvider.

Definition register (workload_id : Id) (p : CaptureProvider) (reg : ProviderRegistry) : ProviderRegistry :=
  <[(workload_id, ps_component_id (pv_spec p)) := p]> reg.

Definition get_provider (workload_id : Id) (component_id : string) (reg : ProviderRegistry)
    : option CaptureProvider := reg !! (workload_id, component_id).

Definition spec_le (a b : ProviderSpec) : Prop := String.leb (ps_component_id a) (ps_component_id b) = true.
#[local] Instance spec_le_dec a b : Decision (spec_le a b) :=
  decide (String.leb (ps_component_id a) (ps_component_id b) = true).

(** [ProviderRegistry::list]. *)
Definition list_specs (workload_id : Id) (reg : ProviderRegistry) : list ProviderSpec :=
  merge_sort spec_le
    ((fun e => pv_spec e.2) <$> filter (fun e => e.1.1 = workload_id) (map_to_list reg)).

(** The first provider of the iteration decides the version of a handler. *)
Definition provider_versions (reg : ProviderRegistry) : gmap string string :=
  foldl (fun out e => let s := pv_spec e.2 in
           match out !! ps_restore_handler s with
           | Some _ => out
           | None => <[ps_restore_handler s := u64_to_string (ps_schema_version s)]> out
           end) ∅ (map_to_list reg).

Definition remove_provider (workload_id : Id) (component_id : string) (reg : ProviderRegistry) : ProviderRegistry :=
  delete (workload_id, component_id) reg.

Definition remove_workload (workload_id : Id) (reg : ProviderRegistry) : ProviderRegistry :=
  filter (fun e => e.1.1 <> workload_id) reg.
End trait.
Arguments CaptureProvider : clear implicits.
Arguments ProviderRegistry : clear implicits.

(** ** Component payloads *)

Section payloads.
Context `{DiskEnv, Crc32c, Sha256, Zstd}.

Definition payload_path (dir : path) (component_id : string) : path :=
  dir ++ ["components"; sanitize_segment component_id].

Definition write_component_payload (staging : path) (component_id : string) (payload : list byte)
    (compression : CompressionSpec) : M Disk StorageRepresentation :=
  create_dir_all (staging ++ ["components"]) ;;
  create_dir_all (staging ++ ["integrity"]) ;;
  let p := payload_path staging component_id in
  stored ← lift (compress_bytes compression payload);
  write p stored ;;
  let stored_hash := sha256_hex stored in
  write (sidecar p ".sha256") (line stored_hash) ;;
  write (sidecar p ".crc32c") (line (crc_text (crc32c stored))) ;;
  write (staging ++ ["integrity"; sanitize_segment component_id +:+ ".sha256"]) (line (sha256_hex payload)) ;;
  mret {| sr_codec := codec_as_str (cs_codec compression);
          sr_original_size := byte_len payload;
          sr_stored_size := byte_len stored;
          sr_stored_hash := stored_hash;
          sr_relative_path := "components/" +:+ sanitize_segment component_id |}.

Definition read_component_payload (commit : path) (repr : StorageRepresentation) (content_hash : string)
    (max_bytes : Z) : M Disk (list byte) :=
  p ← lift (safe_join commit (sr_relative_path repr));
  stored ← read p;
  lift (reject_if (max_bytes <? byte_len stored) (IntegrityFailure "component payload exceeds policy size bound")) ;;
  codec ← lift (from_str_strict (sr_codec repr));
  out ← lift (decompress_bytes (mkCompressionSpec codec 0 "1") stored max_bytes);
  lift (reject_if (negb (byte_len out =? sr_original_size repr))
          (IntegrityFailure "component decoded size {} does not match recorded original size {}")) ;;
  lift (reject_if (negb (bool_decide (sha256_hex out = content_hash)))
          (IntegrityFailure "component {} content hash mismatch after decode")) ;;
  mret out.
End payloads.

(** The entry of a captured component. *)
Definition component_entry (spec : ProviderSpec) (repr : StorageRepresentation) (content_hash : string)
    : ComponentEntry :=
  {| ce_component_id := ps_component_id spec;
     ce_component_type := ps_component_type spec;
     ce_generation := 0;
     ce_required := ps_required spec;
     ce_logical_size := sr_original_size repr;
     ce_storage_representation := repr;
     ce_content_hash := content_hash;
     ce_schema_version := ps_schema_version spec;
     ce_restore_handler := ps_restore_handler spec;
     ce_compatibility := ps_compatibility spec;
     ce_dependencies := ps_dependencies spec;
     ce_capture_status := "captured";
     ce_restore_status := "pending" |}.
