(* ===== verification/FsProvider.v ===== *)
(** The provider of files ([FilesystemProvider] of [src/src/providers.rs]): capture of the
    files below its sources, restore below a root behind a durable journal, roll-back.

    The journals the provider holds in memory are part of the application state, as the
    regions of the memory provider are; the JSON of payloads and journals is the interface
    [FileCodec].  The file system has no symbolic links here, so the tests for them are
    the tests for directories and files. *)
From S2P Require Import Prelude Errors Ident Lifecycle Checkpoint Workload Compression Policy Compat.
From S2P Require Import Capture Json Restore Lineage Failpoints Tables Persist.
From S2P Require Import Manifest Messages Dispatch Frame Fs Integrity Storage Providers.
From Stdlib Require Import Strings.Ascii Strings.Byte.

(** * Definitions *)

Definition FileEntry : Type := string * list byte.

Record FilesystemRestoreJournal := mkFilesystemRestoreJournal {
  fj_files : list (string * option (list byte));
  fj_created_dirs : list string;
  fj_root_created : bool
}.

Class FileCodec := {
  files_to_vec : list FileEntry -> list byte;
  files_from_slice : list byte -> option (list FileEntry);
  journal_to_vec : FilesystemRestoreJournal -> list byte;
  journal_from_slice : list byte -> option FilesystemRestoreJournal
}.

(** What is written is read back. *)
Class FileCodecLaws (H : FileCodec) := {
  files_round_trip : forall l, files_from_slice (files_to_vec l) = Some l;
  journal_round_trip : forall j, journal_from_slice (journal_to_vec j) = Some j
}.

Definition RESTORE_JOURNAL_DIR : string := ".checkpoint-fabric-restore-journals".

(** The configuration of a provider. *)
Record FilesystemProvider := mkFilesystemProvider {
  fp_spec : ProviderSpec;
  fp_source_paths : list path;
  fp_restore_roots : list path
}.

Definition Journals : Type := gmap string FilesystemRestoreJournal.

(** The text of a relative path. *)
Definition relative_text (p : path) : string := String.concat "/" p.

(** The order of file names. *)
Definition file_le (a b : FileEntry) : Prop := String.leb a.1 b.1 = true.
#[export] Instance file_le_dec a b : Decision (file_le a b) := decide (String.leb a.1 b.1 = true).

(** Deeper directories first. *)
Definition deeper (a b : string) : Prop :=
  (length (path_components b).2 <= length (path_components a).2)%nat.
#[export] Instance deeper_dec a b : Decision (deeper a b) :=
  decide (length (path_components b).2 <= length (path_components a).2)%nat.

(** [checked_restore_relative]: normal components only, and not the journals. *)
Definition checked_restore_relative (rel : string) : FabricResult path :=
  let '(root, components) := path_components rel in
  reject_if (bool_decide (rel = "") || root ||
             existsb (fun c => bool_decide (c = "." \/ c = "..")) components ||
             bool_decide (head components = Some RESTORE_JOURNAL_DIR))
    (InvalidArgument "restore payload path traversal rejected: {path}") ;;
  Ok components.

Section provider.
Context `{DiskEnv, Sha256, HexCodec, FileCodec}.
Context (self : FilesystemProvider).

Definition restore_root : FabricResult path :=
  ok_or (head (fp_restore_roots self)) (RestoreFailure "filesystem provider has no restore root").

Definition journal_dir (root : path) : path := root ++ [RESTORE_JOURNAL_DIR].
Definition journal_path (root : path) (attempt_id : string) : path :=
  journal_dir root ++ [sha256_hex (bytes_of attempt_id) +:+ ".json"].

(** [remove_directory_if_empty]; a directory that vanishes in between is gone all the same. *)
Definition remove_directory_if_empty (p : path) : M Disk unit :=
  found ← attempt (entries_of p);
  match found with
  | Ok None => mret tt
  | Ok (Some (_ :: _)) => mret tt
  | Err _ => raise (CleanupFailure "{error}")
  | Ok (Some []) =>
      removed ← attempt (remove_dir p);
      match removed with
      | Ok _ => mret tt
      | Err _ =>
          current ← attempt (entries_of p);
          match current with
          | Ok None => mret tt
          | Ok (Some (_ :: _)) => mret tt
          | _ => raise (CleanupFailure "{error}")
          end
      end
  end.

(** ** The journal *)

Definition require_dir (p : path) (e : FabricError) : M Disk unit :=
  n ← metadata p; lift (match n with Dir => Ok tt | File _ => Err e end).

Definition persist_restore_journal (root : path) (attempt_id : string) (journal : FilesystemRestoreJournal)
    : M Disk unit :=
  let p := journal_path root attempt_id in
  let dir := journal_dir root in
  dir_exists ← path_exists dir;
  (if (dir_exists : bool)
   then require_dir dir (RestoreFailure "restore journal directory {} is not a real directory")
   else create_dir_all dir) ;;
  exists_ ← path_exists p;
  lift (reject_if exists_ (RestoreFailure "filesystem restore attempt {attempt_id} already has a durable journal")) ;;
  i ← random_id;
  let temp := dir ++ ["." +:+ to_hex i +:+ ".tmp"] in
  create_new temp (journal_to_vec journal) ;;
  rename_file temp p.

Definition load_restore_journal (root : path) (attempt_id : string) : M Disk (option FilesystemRestoreJournal) :=
  let p := journal_path root attempt_id in
  exists_ ← path_exists p;
  if negb exists_ then mret None else
  bytes ← read p;
  journal ← lift (ok_or (journal_from_slice bytes) (CleanupFailure "invalid durable restore journal: {e}"));
  mret (Some journal).

Definition remove_restore_journal (root : path) (attempt_id : string) : M Disk unit :=
  let p := journal_path root attempt_id in
  exists_ ← path_exists p;
  (if (exists_ : bool) then remove_file p else mret tt) ;;
  remove_directory_if_empty (journal_dir root).

(** ** Capture *)

(** [to_string_lossy().replace('\\', "/")]. *)
Fixpoint slashes (s : string) : string :=
  match s with
  | EmptyString => EmptyString
  | String c s' => String (if bool_decide (c = "\"%char) then "/"%char else c) (slashes s')
  end.

(** The entries of one directory below [base]: the directories, and the files read. *)
Fixpoint walk_entries (base d : path) (names : list string) : M Disk (list path * list FileEntry) :=
  match names with
  | [] => mret ([], [])
  | name :: names' =>
      let p := d ++ [name] in
      n ← metadata p;
      here ← (match n with
              | Dir => mret ([p], [])
              | File _ =>
                  rel ← lift (ok_or (strip base p) (CaptureProviderFailure "strip_prefix"));
                  content ← read p;
                  mret ([], [(slashes (relative_text rel), content)])
              end);
      rest ← walk_entries base d names';
      mret (here.1 ++ rest.1, here.2 ++ rest.2)
  end.

(** The loop over the stack of directories; the last pushed is popped first. *)
Fixpoint walk (fuel : nat) (base : path) (stack : list path) : M Disk (list FileEntry) :=
  match fuel, stack with
  | _, [] => mret []
  | O, _ :: _ => raise (Internal "walk: out of fuel")
  | S fuel', d :: stack' =>
      names ← read_dir d;
      found ← walk_entries base d names;
      rest ← walk fuel' base (reverse found.1 ++ stack');
      mret (found.2 ++ rest)
  end.

(** One step for each directory. *)
Definition walk_all (base : path) : M Disk (list FileEntry) := fun d => walk (size (dk_fs d)) base [base] d.

Fixpoint capture_sources (sources : list path) : M Disk (list FileEntry) :=
  match sources with
  | [] => mret []
  | p :: sources' =>
      dir ← path_is_dir p;
      here ← (if (dir : bool) then walk_all p else
                file ← path_is_file p;
                if (file : bool) then content ← read p; mret [(default (relative_text p) (last p), content)]
                else mret []);
      rest ← capture_sources sources';
      mret (here ++ rest)
  end.

Definition fs_capture : M Disk (list byte) :=
  entries ← capture_sources (fp_source_paths self);
  mret (files_to_vec (merge_sort file_le entries)).

Definition fs_prepare : M Disk unit :=
  for_m (fun p => exists_ ← path_exists p;
                  lift (reject_if (negb exists_) (CaptureProviderFailure "filesystem provider source {} does not exist")))
    (fp_source_paths self).

(** ** Restore *)

(** The directories above [rel], below the root. *)
Definition proper_prefixes (rel : path) : list path := (fun n => take (S n) rel) <$> seq 0 (length rel - 1).

Fixpoint scan_ancestors (root : path) (above : list path) (created : list string) : M Disk (list string) :=
  match above with
  | [] => mret created
  | r :: above' =>
      exists_ ← path_exists (root ++ r);
      created ← (if (exists_ : bool) then
                   require_dir (root ++ r) (RestoreFailure "filesystem restore ancestor {} is not a real directory") ;;
                   mret created
                 else mret (if bool_decide (relative_text r ∈ created) then created else created ++ [relative_text r]));
      scan_ancestors root above' created
  end.

(** What is at the destination of a file. *)
Definition previous_content (dest : path) : M Disk (option (list byte)) :=
  exists_ ← path_exists dest;
  if (exists_ : bool) then
    n ← metadata dest;
    lift (match n with
          | File _ => Ok tt
          | Dir => Err (RestoreFailure "filesystem restore destination {} is not a regular file")
          end) ;;
    content ← read dest; mret (Some content)
  else mret None.

(** The loop that fills the journal, before anything is written. *)
Fixpoint scan_files (root : path) (entries : list FileEntry) (seen : list path) (journal : FilesystemRestoreJournal)
    : M Disk FilesystemRestoreJournal :=
  match entries with
  | [] => mret journal
  | (rel, _) :: entries' =>
      r ← lift (checked_restore_relative rel);
      lift (reject_if (bool_decide (r ∈ seen)) (RestoreFailure "duplicate filesystem restore destination {}")) ;;
      created ← scan_ancestors root (proper_prefixes r) (fj_created_dirs journal);
      previous ← previous_content (root ++ r);
      scan_files root entries' (r :: seen)
        (mkFilesystemRestoreJournal (fj_files journal ++ [(rel, previous)]) created (fj_root_created journal))
  end.

(** The root is made when it is missing. *)
Definition prepare_root (root : path) : M Disk bool :=
  exists_ ← path_exists root;
  (if (exists_ : bool) then metadata root ;; mret tt else mret tt) ;;
  present ← path_exists root;
  if negb present then create_dir_all root ;; mret true else mret false.

(** [restore] up to the journal: the root, the files of the payload and their journal. *)
Definition plan_restore (payload : list byte) : M Disk (path * list FileEntry * FilesystemRestoreJournal) :=
  entries ← lift (ok_or (files_from_slice payload) (RestoreFailure "bad fs payload: {e}"));
  root ← lift restore_root;
  root_created ← prepare_root root;
  journal ← scan_files root entries [] (mkFilesystemRestoreJournal [] [] root_created);
  mret (root, entries, journal).

Fixpoint apply_files (root : path) (entries : list FileEntry) : M Disk unit :=
  match entries with
  | [] => mret tt
  | (rel, content) :: entries' =>
      let dest := root ++ (path_components rel).2 in
      create_dir_all (parent dest) ;;
      write dest content ;;
      apply_files root entries'
  end.

(** ** Roll-back *)

Fixpoint undo_files (root : path) (files : list (string * option (list byte))) : M Disk unit :=
  match files with
  | [] => mret tt
  | (rel, previous) :: files' =>
      r ← lift (checked_restore_relative rel);
      let p := root ++ r in
      (match previous with
       | Some content => create_dir_all (parent p) ;; write p content
       | None =>
           exists_ ← path_exists p;
           if (exists_ : bool) then map_err (remove_file p) (CleanupFailure "{e}") else mret tt
       end) ;;
      undo_files root files'
  end.

Fixpoint undo_dirs (root : path) (dirs : list string) : M Disk unit :=
  match dirs with
  | [] => mret tt
  | rel :: dirs' =>
      r ← lift (checked_restore_relative rel);
      exists_ ← path_exists (root ++ r);
      (if (exists_ : bool) then remove_directory_if_empty (root ++ r) else mret tt) ;;
      undo_dirs root dirs'
  end.

Definition undo_restore (root : path) (attempt_id : string) (journal : FilesystemRestoreJournal) : M Disk unit :=
  undo_files root (reverse (fj_files journal)) ;;
  undo_dirs root (merge_sort deeper (fj_created_dirs journal)) ;;
  remove_restore_journal root attempt_id ;;
  (if fj_root_created journal then
     exists_ ← path_exists root;
     if (exists_ : bool) then remove_directory_if_empty root else mret tt
   else mret tt).

(** ** The provider *)

Section app.
Context {App : Type}.
Context (journals : App -> Journals) (set_journals : Journals -> App -> App).

Definition get_journal (attempt_id : string) : M (AppWorld App) (option FilesystemRestoreJournal) :=
  on_app (fun a => (Ok (journals a !! attempt_id), a)).
Definition put_journals (f : Journals -> Journals) : M (AppWorld App) unit :=
  on_app (fun a => (Ok tt, set_journals (f (journals a)) a)).

Definition fs_restore (ctx : RestoreContext) (payload : list byte) : M (AppWorld App) unit :=
  planned ← on_disk (plan_restore payload);
  let '(root, entries, journal) := planned in
  active ← get_journal (rx_attempt_id ctx);
  lift (reject_if (is_some active) (RestoreFailure "filesystem restore attempt {} is already active")) ;;
  on_disk (persist_restore_journal root (rx_attempt_id ctx) journal) ;;
  put_journals (insert (rx_attempt_id ctx) journal) ;;
  on_disk (apply_files root entries).

(** The durable journal is read even when the one in memory is used. *)
Definition fs_cleanup_restore (ctx : RestoreContext) : M (AppWorld App) unit :=
  memory ← get_journal (rx_attempt_id ctx);
  put_journals (delete (rx_attempt_id ctx)) ;;
  root ← lift restore_root;
  durable ← on_disk (load_restore_journal root (rx_attempt_id ctx));
  match (match memory with Some j => Some j | None => durable end) with
  | None => mret tt
  | Some journal => on_disk (undo_restore root (rx_attempt_id ctx) journal)
  end.

Definition fs_commit_restore (ctx : RestoreContext) : M (AppWorld App) unit :=
  put_journals (delete (rx_attempt_id ctx)) ;;
  root ← lift restore_root;
  on_disk (remove_restore_journal root (rx_attempt_id ctx)).

Definition filesystem_provider : CaptureProvider App :=
  {| pv_spec := fp_spec self;
     pv_prepare_capture := fun _ => on_disk fs_prepare;
     pv_quiesce := fun ctx => refuse_cooperative ctx "filesystem provider has no cooperative quiescence";
     pv_capture := fun _ => on_disk fs_capture;
     pv_verify := fun _ => mret tt;
     pv_resume_source := fun _ => mret tt;
     pv_abort_capture := fun _ => mret tt;
     pv_restore := fs_restore;
     pv_verify_restore := fun _ => mret tt;
     pv_cleanup_restore := fs_cleanup_restore;
     pv_commit_restore := fs_commit_restore |}.
End app.
End provider.
