(* ===== verification/ProcessProvider.v ===== *)
(** The provider of process metadata ([ProcessMetadataProvider] of [src/src/providers.rs])
    and the clock it reads ([src/src/time.rs]).

    The process environment is an argument: its variables in the order they are listed, the
    arguments, the process number, the system clock.  The JSON of a snapshot is the
    interface [SnapshotCodec]. *)
From S2P Require Import Prelude Errors Ident Lifecycle Checkpoint Workload Compression Policy Compat.
From S2P Require Import Capture Json Restore Lineage Failpoints Tables Persist.
From S2P Require Import Manifest Messages Dispatch Frame Fs Integrity Storage Providers.
From Stdlib Require Import Strings.Byte.

(** * Definitions *)

(** [time::now_ms] of a system clock in nanoseconds since the epoch, negative before it. *)
Definition now_ms_of (nanos : Z) : Z :=
  let since_epoch := if nanos <? 0 then 0 else nanos in
  Z.min (since_epoch / 1000000) u64_max.

Class ProcessEnv := {
  env_vars : list (string * string);
  env_args : list string;
  process_id : Z;
  system_nanos : nat -> Z
}.

Record ProcessMetadataProvider := mkProcessMetadataProvider {
  pm_spec : ProviderSpec;
  pm_env_allowlist : list string
}.

Definition new_process_provider (spec : ProviderSpec) : ProcessMetadataProvider :=
  mkProcessMetadataProvider spec [].
Definition with_env (self : ProcessMetadataProvider) (keys : list string) : ProcessMetadataProvider :=
  mkProcessMetadataProvider (pm_spec self) keys.

Record ProcessSnapshot := mkProcessSnapshot {
  sn_pid : Z;
  sn_command : string;
  sn_workload_id : string;
  sn_captured_at_ms : Z;
  sn_env_keys : list string;
  sn_env_allowlisted : gmap string string
}.

Class SnapshotCodec := {
  snapshot_to_vec : ProcessSnapshot -> list byte;
  snapshot_from_slice : list byte -> option ProcessSnapshot
}.

Definition fabric_variable (k : string) : bool := starts_with k "CF_" || starts_with k "CHECKPOINTFABRIC_".

(** The loop over the variables. *)
Definition sort_variable (allowlist : list string) (acc : list string * gmap string string) (kv : string * string)
    : list string * gmap string string :=
  let '(k, v) := kv in
  if bool_decide (k ∈ allowlist) then (acc.1, <[k := v]> acc.2)
  else if fabric_variable k then (acc.1 ++ [k], acc.2) else acc.
Definition sort_variables (allowlist : list string) (vars : list (string * string)) : list string * gmap string string :=
  fold_left (sort_variable allowlist) vars ([], ∅).

Definition name_le (a b : string) : Prop := String.leb a b = true.
#[export] Instance name_le_dec a b : Decision (name_le a b) := decide (String.leb a b = true).

Section provider.
Context `{ProcessEnv, HexCodec, SnapshotCodec}.
Context (self : ProcessMetadataProvider).

Definition take_snapshot (ctx : CaptureContext) (tick : nat) : ProcessSnapshot :=
  let '(keys, allowlisted) := sort_variables (pm_env_allowlist self) env_vars in
  {| sn_pid := process_id;
     sn_command := String.concat " " env_args;
     sn_workload_id := to_hex (cx_workload_id ctx);
     sn_captured_at_ms := now_ms_of (system_nanos tick);
     sn_env_keys := merge_sort name_le keys;
     sn_env_allowlisted := allowlisted |}.

Definition process_capture (ctx : CaptureContext) : M Disk (list byte) := fun d =>
  (Done (snapshot_to_vec (take_snapshot ctx (dk_tick d))), mkDisk (dk_fs d) (S (dk_tick d))).

(** A restore only looks at the payload. *)
Definition process_restore {W} (payload : list byte) : M W unit :=
  lift (snap ← ok_or (snapshot_from_slice payload) (RestoreFailure "bad process snapshot: {e}"); Ok tt).

Definition process_metadata_provider {App} : CaptureProvider App :=
  {| pv_spec := pm_spec self;
     pv_prepare_capture := fun _ => mret tt;
     pv_quiesce := fun ctx => refuse_cooperative ctx "process metadata provider cannot quiesce the source process";
     pv_capture := fun ctx => on_disk (process_capture ctx);
     pv_verify := fun _ => mret tt;
     pv_resume_source := fun _ => mret tt;
     pv_abort_capture := fun _ => mret tt;
     pv_restore := fun _ payload => process_restore payload;
     pv_verify_restore := fun _ => mret tt;
     pv_cleanup_restore := fun _ => mret tt;
     pv_commit_restore := fun _ => mret tt |}.
End provider.

(** * Lemmas *)

Lemma now_ms_is_u64 nanos : is_u64 (now_ms_of nanos).
Proof.
  unfold now_ms_of, is_u64. cbv zeta. destruct (Z.ltb_spec nanos 0); [done |].
  assert (0 <= nanos / 1000000) by (apply Z.div_pos; lia). unfold u64_max in *. lia.
Qed.

Lemma now_ms_monotone a b : a <= b -> now_ms_of a <= now_ms_of b.
Proof.
  intros Hab. unfold now_ms_of. cbv zeta. destruct (Z.ltb_spec a 0), (Z.ltb_spec b 0); try lia.
  - assert (0 <= b / 1000000) by (apply Z.div_pos; lia). assert (0 / 1000000 = 0) by done. lia.
  - assert (a / 1000000 <= b / 1000000) by (apply Z.div_le_mono; lia). lia.
Qed.

(** Variables with the same names, and the same values where the list allows them. *)
Definition agree (allowlist : list string) (a b : string * string) : Prop :=
  a.1 = b.1 /\ (a.1 ∈ allowlist -> a.2 = b.2).

Lemma sort_variables_agree allowlist l l' :
  Forall2 (agree allowlist) l l' -> sort_variables allowlist l = sort_variables allowlist l'.
Proof.
  unfold sort_variables. generalize (@nil string, (∅ : gmap string string)). intros acc Hl. revert acc.
  induction Hl as [| [k v] [k' v'] l l' [Hk Hv] Hl IH]; intros acc; [done |]. cbn in Hk, Hv. subst k'.
  cbn. rewrite IH. f_equal. unfold sort_variable. case_bool_decide; [by rewrite Hv | done].
Qed.

(** The variables a snapshot looks at. *)
Definition relevant (allowlist : list string) (kv : string * string) : Prop :=
  kv.1 ∈ allowlist \/ fabric_variable kv.1 = true.
#[export] Instance relevant_dec allowlist kv : Decision (relevant allowlist kv).
Proof. unfold relevant. apply _. Defined.

Lemma sort_variables_relevant allowlist l :
  sort_variables allowlist (filter (relevant allowlist) l) = sort_variables allowlist l.
Proof.
  unfold sort_variables. generalize (@nil string, (∅ : gmap string string)). intros acc. revert acc.
  induction l as [| [k v] l IH]; intros acc; [done |]. rewrite filter_cons. case_decide as Hr; cbn; [by rewrite IH |].
  rewrite IH. f_equal. unfold sort_variable. rewrite bool_decide_eq_false_2 by (intros Hin; apply Hr; by left).
  destruct (fabric_variable k) eqn:Ek; [by destruct Hr; right | done].
Qed.

(** What the loop has sorted. *)
Definition sorted_from (allowlist : list string) (vars : list (string * string)) (acc : list string * gmap string string) : Prop :=
  (forall k, (k ∈ acc.1) <-> (k ∉ allowlist) /\ fabric_variable k = true /\ k ∈ vars.*1) /\
  (forall k v, acc.2 !! k = Some v -> k ∈ allowlist /\ (k, v) ∈ vars) /\
  (forall k, k ∈ allowlist -> k ∈ vars.*1 -> is_Some (acc.2 !! k)).

Lemma sort_variables_sorted allowlist vars : sorted_from allowlist vars (sort_variables allowlist vars).
Proof.
  unfold sort_variables. induction vars as [| [k v] vars IH] using rev_ind.
  { split; [| split]; cbn.
    - intros k. split; [by intros ?%not_elem_of_nil | by intros (_ & _ & ?%not_elem_of_nil)].
    - intros k v Hk. by rewrite lookup_empty in Hk.
    - by intros k _ ?%not_elem_of_nil. }
  rewrite fold_left_app. cbn [fold_left]. destruct (fold_left _ vars _) as [keys m]. destruct IH as (Hkeys & Hm & Hall).
  cbn [fst snd] in *. unfold sorted_from. setoid_rewrite fmap_app. setoid_rewrite elem_of_app. cbn [sort_variable fst snd fmap list_fmap].
  setoid_rewrite list_elem_of_singleton. case_bool_decide as Hin; [| destruct (fabric_variable k) eqn:Ek]; cbn [fst snd].
  - split; [| split].
    + intros k'. rewrite Hkeys. split; [intros (Ha & Hf & Hv); auto | intros (Ha & Hf & [Hv | ->]); [auto | done]].
    + intros k' v' [[-> ->] | [_ Hv]]%lookup_insert_Some; [by auto | destruct (Hm _ _ Hv); auto].
    + intros k' Hk' [Hv | ->]; [| by rewrite lookup_insert_eq; eexists].
      destruct (decide (k' = k)) as [-> |]; [by rewrite lookup_insert_eq; eexists | rewrite lookup_insert_ne by done; auto].
  - split; [| split].
    + intros k'. rewrite elem_of_app, list_elem_of_singleton, Hkeys. split.
      * intros [(Ha & Hf & Hv) | ->]; auto.
      * intros (Ha & Hf & [Hv | ->]); auto.
    + intros k' v' Hv. destruct (Hm _ _ Hv); auto.
    + intros k' Hk' [Hv | ->]; [auto | done].
  - split; [| split].
    + intros k'. rewrite Hkeys. split; [intros (Ha & Hf & Hv); auto | intros (Ha & Hf & [Hv | ->]); [auto | congruence]].
    + intros k' v' Hv. destruct (Hm _ _ Hv); auto.
    + intros k' Hk' [Hv | ->]; [auto | done].
Qed.

(** C37.  A capture of process metadata holds the values of the listed variables only, and
    the sorted names of the fabric's own others: the values of all other variables, and the
    names of those that are not the fabric's, have no effect on it. *)
Theorem process_capture_redacts (self : ProcessMetadataProvider) `{HexCodec, SnapshotCodec} (E E' : ProcessEnv) ctx d :
  @env_args E = @env_args E' -> @process_id E = @process_id E' -> @system_nanos E = @system_nanos E' ->
  Forall2 (agree (pm_env_allowlist self)) (filter (relevant (pm_env_allowlist self)) (@env_vars E))
    (filter (relevant (pm_env_allowlist self)) (@env_vars E')) ->
  @process_capture E _ _ self ctx d = @process_capture E' _ _ self ctx d /\
  exists snap, @process_capture E _ _ self ctx d = (Done (snapshot_to_vec snap), mkDisk (dk_fs d) (S (dk_tick d))) /\
    (forall k v, sn_env_allowlisted snap !! k = Some v -> k ∈ pm_env_allowlist self /\ (k, v) ∈ @env_vars E) /\
    (forall k, (k ∈ sn_env_keys snap) <-> (k ∉ pm_env_allowlist self) /\ fabric_variable k = true /\ k ∈ (@env_vars E).*1) /\
    Sorted name_le (sn_env_keys snap).
Proof.
  intros Ha Hp Hn Hv. unfold process_capture. split.
  - unfold take_snapshot. rewrite Ha, Hp, Hn. rewrite <- (sort_variables_relevant _ (@env_vars E)).
    rewrite (sort_variables_agree _ _ _ Hv). by rewrite (sort_variables_relevant _ (@env_vars E')).
  - exists (@take_snapshot E _ self ctx (dk_tick d)). split; [done |]. unfold take_snapshot.
    pose proof (sort_variables_sorted (pm_env_allowlist self) (@env_vars E)) as (Hkeys & Hm & _).
    destruct (sort_variables _ _) as [keys m]. cbn in *. split; [exact Hm |]. split.
    + intros k. rewrite merge_sort_Permutation. apply Hkeys.
    + apply Sorted_merge_sort. intros a b. unfold name_le. destruct (String.leb_total a b); auto.
Qed.

Definition plain_snapshots : SnapshotCodec :=
  {| snapshot_to_vec := fun s => bytes_of (sn_command s +:+ String.concat "," (sn_env_keys s) +:+
       String.concat "," ((fun kv => kv.1 +:+ "=" +:+ kv.2) <$> map_to_list (sn_env_allowlisted s)));
     snapshot_from_slice := fun _ => None |}.

Definition process_env (secret : string) (others : list (string * string)) : ProcessEnv :=
  {| env_vars := [("LANG", "C"); ("CF_TOKEN", secret)] ++ others; env_args := ["app"]; process_id := 7;
     system_nanos := fun t => Z.of_nat t |}.

Example process_capture_redacts_witness :
  let self := with_env (new_process_provider {| ps_component_id := "p"; ps_component_type := ProcessMetadata;
    ps_required := false; ps_schema_version := 1; ps_restore_handler := "p"; ps_compatibility := "{}"; ps_dependencies := [] |}) ["LANG"] in
  let ctx := mkCaptureContext (id_splat Byte.x01) "a" [] CompressionSpec_none Forced in
  @process_capture (process_env "s1" [("AWS_SECRET", "k")]) hex_codec plain_snapshots self ctx (mkDisk ∅ 0) =
    (Done (bytes_of "appCF_TOKENLANG=C"), mkDisk ∅ 1) /\
  @process_capture (process_env "s2" []) hex_codec plain_snapshots self ctx (mkDisk ∅ 0) =
    (Done (bytes_of "appCF_TOKENLANG=C"), mkDisk ∅ 1).
Proof.
  cbv zeta. match goal with |- ?a = ?b /\ ?c = _ => assert (E : a = b) by (by vm_compute); assert (Ea : a = c) end.
  - eapply (process_capture_redacts _ (process_env "s1" [("AWS_SECRET", "k")]) (process_env "s2" [])); [done | done | done |].
    constructor; [by split |]. constructor; [| constructor]. split; [done |]. cbn. intros H%list_elem_of_singleton. discriminate H.
  - split; [exact E | exact (eq_trans (eq_sym Ea) E)].
Defined.
