(* ===== verification/Node.v ===== *)
(** The node runtime ([src/src/node.rs]): workload attachment, capture, promotion, resume,
    restore, verification, cleanup, replication, the requests it serves, and its side of
    registration and heartbeat.

    The state of the node ([NodeState]) holds what the source keeps behind mutexes; the
    disk and the application are the [AppWorld] of [Providers].  The coordinator and a
    peer that is replicated from are interfaces.  The start of the process is in
    [NodeStart] and the serving loop in [Transport]; the spawning and joining of threads is
    not modelled, requests are handled one at a time. *)
From S2P Require Import Prelude Errors Ident Lifecycle Checkpoint Workload Compression Policy Compat.
From S2P Require Import Capture Json Restore Lineage Failpoints Tables Persist World.
From S2P Require Import Manifest Messages Coordinator Maintenance Dispatch Frame Fs Integrity Storage Providers.
From Stdlib Require Import Strings.Byte.

(** * Definitions *)

(** ** Messages *)

Record FetchManifestRequest := mkFetchManifestRequest { fmq_checkpoint_id : Id; fmq_fetch_token : string }.
Record FetchManifestResponse := mkFetchManifestResponse {
  fmr_ok : bool;
  fmr_error : option string;
  fmr_manifest_bytes : option (list byte);
  fmr_components : list ComponentEntry
}.
Record FetchComponentRequest := mkFetchComponentRequest {
  fcq_checkpoint_id : Id;
  fcq_component_id : string;
  fcq_offset : Z;
  fcq_fetch_token : string
}.
Record FetchChunkResponse := mkFetchChunkResponse {
  fcr_ok : bool;
  fcr_error : option string;
  fcr_offset : Z;
  fcr_bytes : list byte;
  fcr_last : bool
}.
Record WorkloadAttachRequest := mkWorkloadAttachRequest {
  waq_workload_id : Id;
  waq_node : string;
  waq_node_boot_id : string;
  waq_providers : list ProviderSpec;
  waq_fence_epoch : Z
}.
Record WorkloadAttachResponse := mkWorkloadAttachResponse {
  war_accepted : bool;
  war_fence_token : option string;
  war_error : option string
}.

(** The other side of the connections of a node, by the moment of the call. *)
Class PeerRpc := {
  peer_connect : nat -> string -> FabricResult unit;
  peer_fetch_manifest : nat -> string -> FetchManifestRequest -> FabricResult FetchManifestResponse;
  peer_fetch_component : nat -> string -> FetchComponentRequest -> FabricResult FetchChunkResponse;
  coordinator_attach : nat -> WorkloadAttachRequest -> FabricResult WorkloadAttachResponse;
  coordinator_connect : nat -> FabricResult unit;
  coordinator_register : nat -> NodeRegisterRequest -> FabricResult NodeRegisterResponse;
  coordinator_heartbeat : nat -> NodeHeartbeatRequest -> FabricResult NodeHeartbeatResponse
}.

(** ** State *)

Record AttachedWorkload := mkAttachedWorkload { aw_fence_token : string; aw_execution_epoch : Z }.

(** Workload, checkpoint and restored components of a restore that awaits its commit. *)
Definition PendingRestore : Type := Id * Id * list string.

Section node.
Context {App : Type}.

Record NodeState := mkNodeState {
  ns_providers : ProviderRegistry App;
  ns_attached : gmap Id AttachedWorkload;
  ns_coordinator_epoch : Z;
  ns_coordinator : bool;
  ns_fetch_tokens : gmap (Id * string) Z;
  ns_staging_leases : gmap path Z;
  ns_quiesced_captures : gmap string Id;
  ns_pending_restores : gmap string PendingRestore;
  ns_failpoints : Armed;
  ns_stop : bool
}.
#[export] Instance eta_NodeState : Settable NodeState := fun n =>
  mkNodeState (ns_providers n) (ns_attached n) (ns_coordinator_epoch n) (ns_coordinator n) (ns_fetch_tokens n)
    (ns_staging_leases n) (ns_quiesced_captures n) (ns_pending_restores n) (ns_failpoints n) (ns_stop n).

Record NodeWorld := mkNodeWorld { nw_app : AppWorld App; nw_node : NodeState }.

(** The fixed part of [NodeRuntime]: identity, configuration, storage. *)
Record NodeRuntime := mkNodeRuntime {
  nr_node_id : string;
  nr_boot_id : string;
  nr_listen_addr : option string;
  nr_data_dir : string;
  nr_runtime : RuntimeCompatibilityDescriptor;
  nr_hardware : HardwareCompatibilityDescriptor;
  nr_resources : Json;
  nr_staging_ttl_ms : Z;
  nr_storage : LocalStorage
}.

Definition in_app {A} (m : M (AppWorld App) A) : M NodeWorld A := fun w =>
  let '(o, a) := m (nw_app w) in (o, mkNodeWorld a (nw_node w)).
Definition disk {A} (m : M Disk A) : M NodeWorld A := in_app (on_disk m).

(** One critical section on the state of the node. *)
Definition node_get {A} (f : NodeState -> A) : M NodeWorld A := fun w => (Done (f (nw_node w)), w).
Definition node_set (f : NodeState -> NodeState) : M NodeWorld unit := fun w =>
  (Done tt, mkNodeWorld (nw_app w) (f (nw_node w))).

(** A call of another process, at the moment [t]. *)
Definition remote {A} (f : nat -> FabricResult A) : M NodeWorld A := fun w => lift (f (dk_tick (aw_disk (nw_app w)))) w.

Context `{DiskEnv, Crc32c, Sha256, HexCodec, Zstd, ManifestCodec, NodeTexts, PeerRpc}.
Context (self : NodeRuntime).
Let storage := nr_storage self.

(** [to_string_lossy] of an absolute path, and back. *)
Definition path_text (p : path) : string := "/" +:+ String.concat "/" p.
Definition text_path (s : string) : option path :=
  let '(root, components) := path_components s in if (root : bool) then Some components else None.

(** ** Guards *)

Definition check_epoch (claimed : Z) : M NodeWorld unit :=
  actual ← node_get ns_coordinator_epoch;
  lift (reject_if (negb (claimed =? actual)) (StaleCoordinatorEpoch actual claimed)).

(** Expired tokens are dropped first. *)
Definition check_token (checkpoint_id : Id) (token : string) : M NodeWorld unit :=
  now ← disk disk_now_ms;
  node_set (fun n => n <| ns_fetch_tokens := filter (fun e => now <= e.2) (ns_fetch_tokens n) |>) ;;
  tokens ← node_get ns_fetch_tokens;
  lift (match tokens !! (checkpoint_id, token) with
        | Some _ => Ok tt
        | None => Err (FencingFailure "unknown fetch token for {checkpoint_id}")
        end).

Definition lease_staging (p : path) : M NodeWorld unit :=
  now ← disk disk_now_ms; node_set (fun n => n <| ns_staging_leases := <[p := now]> (ns_staging_leases n) |>).
Definition release_staging (p : path) : M NodeWorld unit :=
  node_set (fun n => n <| ns_staging_leases := delete p (ns_staging_leases n) |>).

(** The directories of a fresh staging area. *)
Definition fresh_staging (staging : path) : M NodeWorld unit :=
  lease_staging staging ;;
  exists_ ← disk (path_exists staging);
  (if (exists_ : bool) then disk (remove_dir_all staging) else mret tt) ;;
  disk (create_dir_all (staging ++ ["components"])) ;;
  disk (create_dir_all (staging ++ ["integrity"])) ;;
  disk (create_dir_all (staging ++ ["journal"])).

(** ** Capture *)

Definition provider_of (workload_id : Id) (component_id : string) : M NodeWorld (option (CaptureProvider App)) :=
  node_get (fun n => get_provider workload_id component_id (ns_providers n)).

(** The providers of the requested components; an optional one may be missing. *)
Fixpoint select_providers (workload_id : Id) (components : list CaptureComponentRequest)
    (reg : ProviderRegistry App) : FabricResult (list (CaptureProvider App)) :=
  match components with
  | [] => Ok []
  | c :: cs =>
      match get_provider workload_id (cq_component_id c) reg with
      | Some p => ps ← select_providers workload_id cs reg; Ok (p :: ps)
      | None => if cq_required c
                then Err (MissingDependency "required component '{}' has no provider attached")
                else select_providers workload_id cs reg
      end
  end.

(** The providers prepared, up to the first that fails. *)
Fixpoint prepare_all (ctx : CaptureContext) (ps : list (CaptureProvider App))
    : M NodeWorld (list (CaptureProvider App) * FabricResult unit) :=
  match ps with
  | [] => mret ([], Ok tt)
  | p :: ps' =>
      r ← attempt (in_app (pv_prepare_capture p ctx));
      match r with
      | Ok _ => rest ← prepare_all ctx ps'; mret (p :: fst rest, snd rest)
      | Err e => mret ([], Err e)
      end
  end.

(** Whether every provider acknowledged. *)
Fixpoint quiesce_cooperative (ctx : CaptureContext) (ps : list (CaptureProvider App)) (ack : bool)
    : M NodeWorld bool :=
  match ps with
  | [] => mret ack
  | p :: ps' =>
      o ← in_app (pv_quiesce p ctx);
      quiesce_cooperative ctx ps' (match o with QuiesceAcked => ack | QuiesceForced => false end)
  end.

Definition quiesce_all (ctx : CaptureContext) (ps : list (CaptureProvider App)) : M NodeWorld bool :=
  match cx_quiescence ctx with
  | NoQuiescence => mret false
  | Cooperative => quiesce_cooperative ctx ps (negb (is_empty_list ps))
  | Forced => for_m (fun p => ignore (in_app (pv_quiesce p ctx))) ps ;; mret false
  end.

Definition capture_component (ctx : CaptureContext) (p : CaptureProvider App) : M NodeWorld ComponentEntry :=
  payload ← in_app (pv_capture p ctx);
  in_app (pv_verify p ctx) ;;
  repr ← disk (write_component_payload (cx_staging_dir ctx) (ps_component_id (pv_spec p)) payload (cx_compression ctx));
  mret (component_entry (pv_spec p) repr (sha256_hex payload)).

Fixpoint capture_components (ctx : CaptureContext) (ps : list (CaptureProvider App))
    : M NodeWorld (list ComponentEntry) :=
  match ps with
  | [] => mret []
  | p :: ps' => c ← capture_component ctx p; cs ← capture_components ctx ps'; mret (c :: cs)
  end.

Definition stored_sizes (l : list ComponentEntry) : list Z := (fun c => sr_stored_size (ce_storage_representation c)) <$> l.
Definition logical_sizes (l : list ComponentEntry) : list Z := ce_logical_size <$> l.
Definition total (l : list Z) : Z := foldl saturating_add 0 l.

Definition do_capture (req : NodeCaptureRequest) : M NodeWorld NodeCaptureResult :=
  let staging := staging_dir storage (ncq_attempt_id req) in
  fresh_staging staging ;;
  let ctx := mkCaptureContext (ncq_workload_id req) (ncq_attempt_id req) staging (ncq_compression req)
               (ncq_quiescence req) in
  reg ← node_get ns_providers;
  let selected := select_providers (ncq_workload_id req) (ncq_components req) reg in
  prepared ← (match selected with Ok ps => prepare_all ctx ps | Err e => mret ([], Err e) end);
  result ← attempt (ps ← lift selected;
                    lift (snd prepared) ;;
                    ack ← quiesce_all ctx ps;
                    captured ← capture_components ctx ps;
                    mret (captured, ack));
  match result with
  | Err e =>
      for_m (fun p => ignore (in_app (pv_abort_capture p ctx))) (reverse (fst prepared)) ;;
      ignore (disk (remove_dir_all staging)) ;;
      release_staging staging ;;
      mret (mkNodeCaptureResult (ncq_attempt_id req) false (Some (display e)) [] 0 0 0 false None)
  | Ok (captured, ack) =>
      node_set (fun n => n <| ns_quiesced_captures :=
                              <[ncq_attempt_id req := ncq_workload_id req]> (ns_quiesced_captures n) |>) ;;
      mret (mkNodeCaptureResult (ncq_attempt_id req) true None captured (total (logical_sizes captured))
              (total (stored_sizes captured))
              (if is_compressed (ncq_compression req) then total (stored_sizes captured) else 0)
              ack (Some (path_text staging)))
  end.

(** ** Promotion *)

Definition promote_refused (req : NodePromoteRequest) (reason : string) : NodePromoteResult :=
  mkNodePromoteResult (nmq_attempt_id req) false (Some reason) None.

Definition do_promote (req : NodePromoteRequest) : M NodeWorld NodePromoteResult :=
  lift (reject_if (negb (bool_decide (sha256_hex (nmq_manifest_bytes req) = nmq_digest req)))
          (IntegrityFailure "promoted manifest does not match coordinator digest")) ;;
  parsed ← lift (Manifest.parse (nmq_manifest_bytes req));
  lift (reject_if (negb (bool_decide (mf_checkpoint_id parsed = nmq_checkpoint_id req)) ||
                   negb (bool_decide (mf_capture_attempt parsed = nmq_attempt_id req)) ||
                   negb (bool_decide (ii_root (mf_integrity parsed) = nmq_integrity_root req)))
          (IntegrityFailure "promoted manifest identity or integrity root mismatch")) ;;
  let staging := staging_dir storage (nmq_attempt_id req) in
  exists_ ← disk (path_exists staging);
  if negb exists_ then mret (promote_refused req "staging directory is missing") else
  disk (write (staging ++ ["manifest"]) (nmq_manifest_bytes req)) ;;
  disk (write (staging ++ ["manifest.digest"]) (line (nmq_digest req))) ;;
  disk (create_dir_all (staging ++ ["integrity"])) ;;
  disk (write (staging ++ ["integrity"; "root"]) (line (nmq_integrity_root req))) ;;
  now ← disk disk_now_ms;
  disk (append (staging ++ ["journal"; "records.jsonl"]) (line (u64_to_string now +:+ " promote manifest"))) ;;
  let commit := commit_dir storage (nmq_checkpoint_id req) in
  r ← attempt (disk (promote staging commit));
  match r with
  | Ok _ => release_staging staging ;;
            mret (mkNodePromoteResult (nmq_attempt_id req) true None (Some (path_text commit)))
  | Err e => mret (promote_refused req (display e))
  end.

(** ** Resume *)

(** Commits the restore of one provider and resumes it; the first error is kept. *)
Definition resume_provider (req : NodeResumeRequest) (cctx : CaptureContext) (rctx : RestoreContext)
    (transfer : bool) (p : CaptureProvider App) (first_err : option FabricError) : M NodeWorld (option FabricError) :=
  err ← (if (transfer : bool) then
           r ← attempt (in_app (pv_commit_restore p rctx));
           mret (match r with Ok _ => first_err | Err e => Some (default e first_err) end)
         else mret first_err);
  if nsq_resume req then
    r ← attempt (in_app (pv_resume_source p cctx));
    mret (match r with Ok _ => err | Err e => Some (default e err) end)
  else mret err.

Fixpoint resume_providers (req : NodeResumeRequest) (cctx : CaptureContext) (rctx : RestoreContext)
    (transfer : bool) (specs : list ProviderSpec) (first_err : option FabricError) : M NodeWorld (option FabricError) :=
  match specs with
  | [] => mret first_err
  | s :: specs' =>
      found ← provider_of (nsq_workload_id req) (ps_component_id s);
      err ← (match found with
             | Some p => resume_provider req cctx rctx transfer p first_err
             | None => mret first_err
             end);
      resume_providers req cctx rctx transfer specs' err
  end.

Definition resume_outcome (req : NodeResumeRequest) (err : option FabricError) : NodeResumeResult :=
  mkNodeResumeResult (nsq_attempt_id req) (is_none err) (display <$> err).

(** Adopts an authority grant; or takes back the quiescence of a capture, [false] when
    there was none. *)
Definition adopt_grant (req : NodeResumeRequest) : M NodeWorld unit :=
  token ← lift (ok_or (nsq_fence_token req) (FencingFailure "authority grant is missing fence token"));
  epoch ← lift (ok_or (nsq_execution_epoch req) (FencingFailure "authority grant is missing execution epoch"));
  node_set (fun n => n <| ns_attached := <[nsq_workload_id req := mkAttachedWorkload token epoch]> (ns_attached n) |>).

Definition take_quiesced (attempt_id : string) : M NodeWorld bool :=
  found ← node_get (fun n => ns_quiesced_captures n !! attempt_id);
  node_set (fun n => n <| ns_quiesced_captures := delete attempt_id (ns_quiesced_captures n) |>) ;;
  mret (is_some found).

Definition do_resume (req : NodeResumeRequest) : M NodeWorld NodeResumeResult :=
  let transfer := is_some (nsq_fence_token req) || is_some (nsq_execution_epoch req) in
  known ← (if (transfer : bool) then adopt_grant req ;; mret true else take_quiesced (nsq_attempt_id req));
  if negb known then mret (resume_outcome req None) else
  specs ← node_get (fun n => list_specs (nsq_workload_id req) (ns_providers n));
  let cctx := mkCaptureContext (nsq_workload_id req) (nsq_attempt_id req) [] CompressionSpec_none NoQuiescence in
  let rctx := mkRestoreContext (nsq_checkpoint_id req) (nsq_workload_id req) (nsq_attempt_id req)
                (staging_dir storage (nsq_attempt_id req)) (commit_dir storage (nsq_checkpoint_id req)) in
  err ← resume_providers req cctx rctx transfer specs None;
  (if transfer && is_none err then
     node_set (fun n => n <| ns_pending_restores := delete (nsq_attempt_id req) (ns_pending_restores n) |>)
   else mret tt) ;;
  mret (resume_outcome req err).

(** ** Restore *)

Definition cleanup_restored (ps : list (CaptureProvider App)) (ctx : RestoreContext) : M NodeWorld unit :=
  for_m (fun p => ignore (in_app (pv_cleanup_restore p ctx))) (reverse ps).

(** [fs::read_to_string(p).map(|s| s.trim().to_string()).unwrap_or_default()]. *)
Definition sidecar_text (p : path) : M NodeWorld string :=
  r ← attempt (disk (read_to_string p)); mret (match r with Ok s => trim s | Err _ => "" end).

Definition restore_refused (req : NodeRestoreRequest) (reason : string) (restored : list string) : NodeRestoreResult :=
  mkNodeRestoreResult (nrq_attempt_id req) false (Some reason) restored.

(** The stored files of all components are intact; the first that is not, if any. *)
Fixpoint verify_components (commit : path) (components : list ComponentEntry) : M NodeWorld (option string) :=
  match components with
  | [] => mret None
  | c :: cs =>
      let repr := ce_storage_representation c in
      p ← lift (safe_join commit (sr_relative_path repr));
      present ← disk (path_is_file p);
      if negb present then mret (Some "missing component payload {}") else
      r ← attempt (disk (verify_stored_file p (sr_stored_hash repr) (Some (sr_stored_size repr))));
      match r with
      | Ok _ => verify_components commit cs
      | Err e => mret (Some "component '{}' failed integrity: {e}")
      end
  end.

(** The restore of the components, in the order of the manifest: the restored ones, with
    the reason when it stopped.  What was applied is cleaned up then. *)
Fixpoint restore_entries (req : NodeRestoreRequest) (ctx : RestoreContext) (components : list ComponentEntry)
    (restored : list string) (applied : list (CaptureProvider App)) : M NodeWorld (list string * option string) :=
  match components with
  | [] => mret (restored, None)
  | c :: cs =>
      found ← provider_of (nrq_workload_id req) (ce_component_id c);
      match found with
      | None =>
          if ce_required c then
            cleanup_restored applied ctx ;;
            mret (restored, Some "no restore handler '{}' for required component '{}'")
          else restore_entries req ctx cs restored applied
      | Some p =>
          payload ← attempt (disk (read_component_payload (rx_commit_dir ctx) (ce_storage_representation c)
                                    (ce_content_hash c) (default (2 ^ 30) (nrq_max_component_bytes req))));
          match payload with
          | Err e => cleanup_restored applied ctx ;; mret (restored, Some "payload decode of '{}' failed: {e}")
          | Ok payload =>
              let applied := applied ++ [p] in
              r ← attempt (in_app (pv_restore p ctx payload));
              match r with
              | Err e => cleanup_restored applied ctx ;; mret (restored, Some "restore of '{}' failed: {e}")
              | Ok _ =>
                  r ← attempt (in_app (pv_verify_restore p ctx));
                  match r with
                  | Err e => cleanup_restored applied ctx ;; mret (restored, Some "verification of '{}' failed: {e}")
                  | Ok _ => restore_entries req ctx cs (restored ++ [ce_component_id c]) applied
                  end
              end
          end
      end
  end.

Definition node_failpoint (name : string) : M NodeWorld unit := fun w =>
  let '(r, armed) := fire name (ns_failpoints (nw_node w)) in
  lift r (mkNodeWorld (nw_app w) ((nw_node w) <| ns_failpoints := armed |>)).

Definition do_restore (req : NodeRestoreRequest) : M NodeWorld NodeRestoreResult :=
  node_failpoint "restore.node.before_apply" ;;
  let commit := commit_dir storage (nrq_checkpoint_id req) in
  found ← attempt (disk (read (commit ++ ["manifest"])));
  match found with
  | Err _ => mret (restore_refused req "no local replica of {} on node {}" [])
  | Ok manifest_bytes =>
      sidecar_digest ← sidecar_text (commit ++ ["manifest.digest"]);
      if negb (bool_decide (sha256_hex manifest_bytes = nrq_expected_manifest_digest req)) ||
         negb (bool_decide (sidecar_digest = nrq_expected_manifest_digest req))
      then mret (restore_refused req "manifest does not match coordinator integrity anchor" []) else
      manifest ← lift (Manifest.parse manifest_bytes);
      if negb (bool_decide (mf_checkpoint_id manifest = nrq_checkpoint_id req)) ||
         negb (bool_decide (mf_workload_id manifest = nrq_workload_id req))
      then mret (restore_refused req "manifest identity does not match restore request" []) else
      bad ← verify_components commit (mf_components manifest);
      match bad with
      | Some reason => mret (restore_refused req reason [])
      | None =>
          let ctx := mkRestoreContext (nrq_checkpoint_id req) (nrq_workload_id req) (nrq_attempt_id req)
                       (staging_dir storage (nrq_attempt_id req)) commit in
          out ← restore_entries req ctx (mf_components manifest) [] [];
          match snd out with
          | Some reason => mret (restore_refused req reason (fst out))
          | None =>
              node_set (fun n => n <| ns_pending_restores :=
                <[nrq_attempt_id req := (nrq_workload_id req, nrq_checkpoint_id req, fst out)]> (ns_pending_restores n) |>) ;;
              mret (mkNodeRestoreResult (nrq_attempt_id req) true None (fst out))
          end
      end
  end.

(** ** Verification and probing *)

(** The first component that fails, as [do_verify] reports it. *)
Fixpoint failed_component (commit : path) (components : list ComponentEntry) : M NodeWorld (option string) :=
  match components with
  | [] => mret None
  | c :: cs =>
      let repr := ce_storage_representation c in
      match safe_join commit (sr_relative_path repr) with
      | Err e => mret (Some (display e))
      | Ok p =>
          r ← attempt (disk (verify_stored_file p (sr_stored_hash repr) (Some (sr_stored_size repr))));
          match r with
          | Ok _ => failed_component commit cs
          | Err e => mret (Some "component '{}': {e}")
          end
      end
  end.

Definition do_verify (req : NodeVerifyRequest) : M NodeWorld NodeVerifyResult :=
  let commit := commit_dir storage (nvq_checkpoint_id req) in
  found ← attempt (disk (read (commit ++ ["manifest"])));
  match found with
  | Err _ => mret (mkNodeVerifyResult (nvq_checkpoint_id req) false (Some "checkpoint not present on this node") None)
  | Ok manifest_bytes =>
      parsed ← lift (Manifest.parse manifest_bytes);
      let digest := sha256_hex manifest_bytes in
      stored_digest ← sidecar_text (commit ++ ["manifest.digest"]);
      if negb (bool_decide (stored_digest = digest)) || negb (bool_decide (digest = nvq_expected_manifest_digest req))
      then mret (mkNodeVerifyResult (nvq_checkpoint_id req) false
                   (Some "manifest digest does not match coordinator anchor") None)
      else
        failed ← failed_component commit (mf_components parsed);
        mret (mkNodeVerifyResult (nvq_checkpoint_id req) (is_none failed) failed (Some digest))
  end.

Definition do_probe (req : NodeProbeRequest) : M NodeWorld NodeProbeResult :=
  b ← disk (has_committed storage (npq_checkpoint_id req)); mret (mkNodeProbeResult (npq_checkpoint_id req) b).

(** ** Cleanup *)

(** What a cleanup has removed, and the last error. *)
Record Cleaned := mkCleaned { cl_paths : list string; cl_checkpoints : list string; cl_error : option string }.

(** Removes a directory; the label goes to the result. *)
Definition with_error (acc : Cleaned) (e : string) : Cleaned :=
  mkCleaned (cl_paths acc) (cl_checkpoints acc) (Some e).

Definition clean_path (p : path) (label error : string) (acc : Cleaned) : M NodeWorld Cleaned :=
  r ← attempt (disk (remove_dir_all p));
  mret (match r with
        | Ok _ => mkCleaned (cl_paths acc ++ [label]) (cl_checkpoints acc) (cl_error acc)
        | Err e => with_error acc error
        end).

Fixpoint clean_attempts (attempts : list string) (acc : Cleaned) : M NodeWorld Cleaned :=
  match attempts with
  | [] => mret acc
  | attempt_id :: rest =>
      let p := staging_dir storage attempt_id in
      release_staging p ;;
      exists_ ← disk (path_exists p);
      acc ← (if (exists_ : bool) then clean_path p (path_text p) "cleanup attempt {attempt}: {e}" acc else mret acc);
      clean_attempts rest acc
  end.

(** [is_under_staging]: one component below the staging root, and no [..]. *)
Definition is_under_staging (p : path) : M NodeWorld bool :=
  match strip (staging_root storage) p with
  | Some [name] =>
      if bool_decide (name = "..") then mret false else
      exists_ ← disk (path_exists p);
      if negb exists_ then mret true else
      root ← attempt (disk (look (fun _ fs => if is_dir fs (staging_root storage) then Some tt else None)));
      candidate ← attempt (disk (look (fun _ fs => if is_some (fs !! p) then Some tt else None)));
      mret (is_ok root && is_ok candidate)
  | _ => mret false
  end.

Fixpoint clean_paths (paths : list string) (acc : Cleaned) : M NodeWorld Cleaned :=
  match paths with
  | [] => mret acc
  | sp :: rest =>
      acc ← (match text_path sp with
             | Some p =>
                 inside ← is_under_staging p;
                 if negb inside
                 then mret (with_error acc "cleanup path outside staging: {sp}")
                 else
                   exists_ ← disk (path_exists p);
                   if (exists_ : bool) then release_staging p ;; clean_path p sp "cleanup {sp}: {e}" acc else mret acc
             | None => mret (with_error acc "cleanup path outside staging: {sp}")
             end);
      clean_paths rest acc
  end.

Fixpoint clean_providers (workload_id : Id) (ctx : RestoreContext) (ids : list string) (acc : Cleaned)
    : M NodeWorld Cleaned :=
  match ids with
  | [] => mret acc
  | i :: ids' =>
      found ← provider_of workload_id i;
      acc ← (match found with
             | Some p =>
                 r ← attempt (in_app (pv_cleanup_restore p ctx));
                 mret (match r with
                       | Ok _ => acc
                       | Err e => with_error acc "restore cleanup {} component {}: {e}"
                       end)
             | None => mret acc
             end);
      clean_providers workload_id ctx ids' acc
  end.

(** Undoes a restore: its recorded components, or all providers of the workload. *)
Definition clean_restore (target : RestoreCleanupTarget) (acc : Cleaned) : M NodeWorld Cleaned :=
  pending ← node_get (fun n => ns_pending_restores n !! rt_attempt_id target);
  node_set (fun n => n <| ns_pending_restores := delete (rt_attempt_id target) (ns_pending_restores n) |>) ;;
  ids ← (match pending with
         | Some (_, _, ids) => mret ids
         | None => node_get (fun n => ps_component_id <$> list_specs (rt_workload_id target) (ns_providers n))
         end);
  let ctx := mkRestoreContext (rt_checkpoint_id target) (rt_workload_id target) (rt_attempt_id target)
               (staging_dir storage (rt_attempt_id target)) (commit_dir storage (rt_checkpoint_id target)) in
  clean_providers (rt_workload_id target) ctx (reverse ids) acc.

Fixpoint clean_restores (targets : list RestoreCleanupTarget) (acc : Cleaned) : M NodeWorld Cleaned :=
  match targets with
  | [] => mret acc
  | target :: rest => acc ← clean_restore target acc; clean_restores rest acc
  end.

Fixpoint clean_checkpoints (ids : list Id) (acc : Cleaned) : M NodeWorld Cleaned :=
  match ids with
  | [] => mret acc
  | i :: rest =>
      r ← attempt (disk (delete_committed storage i));
      clean_checkpoints rest
        (match r with
         | Ok _ => mkCleaned (cl_paths acc) (cl_checkpoints acc ++ [to_hex i]) (cl_error acc)
         | Err e => with_error acc "cleanup {cid}: {e}"
         end)
  end.

Definition do_cleanup (req : NodeCleanupRequest) : M NodeWorld NodeCleanupResult :=
  acc ← clean_attempts (nlq_staging_attempts req) (mkCleaned [] [] None);
  acc ← clean_paths (nlq_staging_paths req) acc;
  acc ← clean_restores (nlq_restore_attempts req) acc;
  acc ← clean_checkpoints (nlq_checkpoint_ids req) acc;
  mret (mkNodeCleanupResult (cl_paths acc) (cl_checkpoints acc) (cl_error acc)).

(** ** Replication *)

Definition replicate_refused (req : NodeReplicateRequest) (error : option string) : NodeReplicateResult :=
  mkNodeReplicateResult (npl_attempt_id req) false error None.

(** Drops the staging area of a replication that failed. *)
Definition drop_staging (staging : path) : M NodeWorld unit :=
  ignore (disk (remove_dir_all staging)) ;; release_staging staging.

(** Why a chunk is not taken. *)
Definition chunk_refused (chunk : FetchChunkResponse) (offset stored_size : Z) : option (option string) :=
  if negb (fcr_ok chunk) then Some (fcr_error chunk)
  else if negb (fcr_offset chunk =? offset) then Some (Some "fetch offset mismatch: expected {offset}, got {}")
  else if (is_empty_list (fcr_bytes chunk) && negb (fcr_last chunk)) ||
          (stored_size <? saturating_add offset (byte_len (fcr_bytes chunk)))
       then Some (Some "component '{}' made no progress or exceeded declared size")
       else None.

(** What became of the transfer of a file. *)
Inductive Fetched : Type := FetchDone (offset : Z) | FetchRefused (error : option string) | FetchOutOfFuel.

(** The loop over the chunks of a component, which are appended to [dest]. *)
Fixpoint fetch_chunks (req : NodeReplicateRequest) (addr : string) (c : ComponentEntry) (dest : path)
    (fuel : nat) (offset : Z) : M NodeWorld Fetched :=
  match fuel with
  | O => mret FetchOutOfFuel
  | S fuel' =>
      chunk ← remote (fun t => peer_fetch_component t addr
                 (mkFetchComponentRequest (npl_checkpoint_id req) (ce_component_id c) offset (npl_fetch_token req)));
      match chunk_refused chunk offset (sr_stored_size (ce_storage_representation c)) with
      | Some error => mret (FetchRefused error)
      | None =>
          disk (append dest (fcr_bytes chunk)) ;;
          let offset := saturating_add offset (byte_len (fcr_bytes chunk)) in
          if fcr_last chunk then mret (FetchDone offset)
          else fetch_chunks req addr c dest fuel' offset
      end
  end.

(** Every chunk but the last brings a byte of the declared size. *)
Definition fetch_fuel (c : ComponentEntry) : nat := S (S (Z.to_nat (sr_stored_size (ce_storage_representation c)))).

(** One component: [None] when it is in place, or the answer that ends the replication. *)
Definition fetch_component (req : NodeReplicateRequest) (addr : string) (staging : path) (c : ComponentEntry)
    : M NodeWorld (option NodeReplicateResult) :=
  let repr := ce_storage_representation c in
  let safe_component := sanitize_segment (ce_component_id c) in
  if negb (bool_decide (safe_component = ce_component_id c)) ||
     negb (bool_decide (sr_relative_path repr = "components/" +:+ safe_component))
  then drop_staging staging ;;
       mret (Some (replicate_refused req (Some "unsafe or inconsistent component path for '{}'"))) else
  dest ← lift (safe_join staging (sr_relative_path repr));
  disk (write dest []) ;;
  out ← fetch_chunks req addr c dest (fetch_fuel c) 0;
  match out with
  | FetchOutOfFuel => raise (Internal "fetch_chunks: out of fuel")
  | FetchRefused error => drop_staging staging ;; mret (Some (replicate_refused req error))
  | FetchDone offset =>
      if negb (offset =? sr_stored_size repr) then
        drop_staging staging ;;
        mret (Some (replicate_refused req (Some "component '{}' ended at {offset} bytes, expected {}")))
      else
        stored ← disk (read dest);
        if negb (bool_decide (sha256_hex stored = sr_stored_hash repr)) then
          drop_staging staging ;;
          mret (Some (replicate_refused req (Some "fetched component '{}' failed hash check")))
        else
          disk (write (sidecar dest ".crc32c") (line (crc_text (crc32c stored)))) ;;
          disk (write (sidecar dest ".sha256") (line (sha256_hex stored))) ;;
          disk (write (staging ++ ["integrity"; safe_component +:+ ".sha256"]) (line (ce_content_hash c))) ;;
          mret None
  end.

Fixpoint fetch_components (req : NodeReplicateRequest) (addr : string) (staging : path) (cs : list ComponentEntry)
    : M NodeWorld (option NodeReplicateResult) :=
  match cs with
  | [] => mret None
  | c :: cs' =>
      out ← fetch_component req addr staging c;
      match out with Some r => mret (Some r) | None => fetch_components req addr staging cs' end
  end.

Definition do_replicate (req : NodeReplicateRequest) : M NodeWorld NodeReplicateResult :=
  addr ← lift (ok_or (parse_socket_addr (npl_from_addr req)) (InvalidArgument "bad from_addr: {e}"));
  remote (fun t => peer_connect t addr) ;;
  mresp ← remote (fun t => peer_fetch_manifest t addr (mkFetchManifestRequest (npl_checkpoint_id req) (npl_fetch_token req)));
  if negb (fmr_ok mresp) then mret (replicate_refused req (fmr_error mresp)) else
  manifest_bytes ← lift (ok_or (fmr_manifest_bytes mresp) (ProtocolError "missing manifest bytes"));
  if negb (bool_decide (sha256_hex manifest_bytes = npl_expected_manifest_digest req))
  then mret (replicate_refused req (Some "source manifest does not match coordinator anchor")) else
  manifest ← lift (Manifest.parse manifest_bytes);
  lift (reject_if (negb (bool_decide (mf_checkpoint_id manifest = npl_checkpoint_id req)))
          (IntegrityFailure "replication manifest checkpoint id mismatch")) ;;
  let staging := staging_dir storage (npl_attempt_id req) in
  fresh_staging staging ;;
  disk (write (staging ++ ["manifest"]) manifest_bytes) ;;
  disk (write (staging ++ ["manifest.digest"]) (line (sha256_hex manifest_bytes))) ;;
  disk (write (staging ++ ["integrity"; "root"]) (line (ii_root (mf_integrity manifest)))) ;;
  if negb (bool_decide (fmr_components mresp = mf_components manifest)) then
    drop_staging staging ;;
    mret (replicate_refused req (Some "source component list does not match anchored manifest"))
  else
    out ← fetch_components req addr staging (mf_components manifest);
    match out with
    | Some r => mret r
    | None =>
        let commit := commit_dir storage (npl_checkpoint_id req) in
        r ← attempt (disk (promote staging commit));
        release_staging staging ;;
        mret (match r with
              | Ok _ => mkNodeReplicateResult (npl_attempt_id req) true None (Some (path_text commit))
              | Err e => replicate_refused req (Some (display e))
              end)
    end.

(** ** Serving a replica *)

Definition serve_manifest (req : FetchManifestRequest) : M NodeWorld FetchManifestResponse :=
  check_token (fmq_checkpoint_id req) (fmq_fetch_token req) ;;
  let commit := commit_dir storage (fmq_checkpoint_id req) in
  found ← attempt (disk (read (commit ++ ["manifest"])));
  manifest_bytes ← lift (match found with Ok b => Ok b | Err _ => Err (CorruptedCheckpoint "no replica of {}") end);
  manifest ← lift (Manifest.parse manifest_bytes);
  mret (mkFetchManifestResponse true None (Some manifest_bytes) (mf_components manifest)).

Definition FETCH_CHUNK : Z := 2 ^ 20.

(** One read from an offset, which a seek must accept: at most a chunk. *)
Definition serve_component (req : FetchComponentRequest) : M NodeWorld FetchChunkResponse :=
  check_token (fcq_checkpoint_id req) (fcq_fetch_token req) ;;
  p ← lift (safe_join (commit_dir storage (fcq_checkpoint_id req))
              ("components/" +:+ sanitize_segment (fcq_component_id req)));
  present ← disk (path_is_file p);
  if negb present
  then mret (mkFetchChunkResponse false (Some "component '{}' not found") (fcq_offset req) [] true) else
  content ← disk (read p);
  lift (reject_if (i64_max <? fcq_offset req) io_error) ;;
  let buf := take (Z.to_nat FETCH_CHUNK) (drop (Z.to_nat (fcq_offset req)) content) in
  size ← disk (metadata_len p);
  mret (mkFetchChunkResponse true None (fcq_offset req) buf
          (size <=? saturating_add (fcq_offset req) (byte_len buf))).

(** ** Requests *)

Inductive NodeRequest : Type :=
| NPing
| NHello
| NCapture (req : NodeCaptureRequest)
| NPromote (req : NodePromoteRequest)
| NResume (req : NodeResumeRequest)
| NRestore (req : NodeRestoreRequest)
| NVerify (req : NodeVerifyRequest)
| NProbe (req : NodeProbeRequest)
| NCleanup (req : NodeCleanupRequest)
| NReplicate (req : NodeReplicateRequest)
| NAllowFetch (req : NodeAllowFetchRequest)
| NDetach (workload_id : Id)
| NFetchManifest (req : FetchManifestRequest)
| NFetchComponent (req : FetchComponentRequest)
| NOther (op : string).

Inductive NodeReply : Type :=
| NRPong
| NREnvelope (e : Envelope)
| NRCapture (r : NodeCaptureResult)
| NRPromote (r : NodePromoteResult)
| NRResume (r : NodeResumeResult)
| NRRestore (r : NodeRestoreResult)
| NRVerify (r : NodeVerifyResult)
| NRProbe (r : NodeProbeResult)
| NRCleanup (r : NodeCleanupResult)
| NRReplicate (r : NodeReplicateResult)
| NRManifest (r : FetchManifestResponse)
| NRChunk (r : FetchChunkResponse).

Definition allow_fetch (req : NodeAllowFetchRequest) : M NodeWorld unit :=
  now ← disk disk_now_ms;
  node_set (fun n => n <| ns_fetch_tokens :=
    <[(naf_checkpoint_id req, naf_fetch_token req) := wrapping_add now (naf_ttl_ms req)]> (ns_fetch_tokens n) |>).

Definition detach_workload (workload_id : Id) : M NodeWorld unit :=
  node_set (fun n => n <| ns_attached := delete workload_id (ns_attached n) |>) ;;
  node_set (fun n => n <| ns_providers := remove_workload workload_id (ns_providers n) |>).

(** An arm that checks the epoch of the coordinator first. *)
Definition fenced {A} (epoch : Z) (m : M NodeWorld A) (k : A -> NodeReply) : M NodeWorld NodeReply :=
  check_epoch epoch ;; r ← m; mret (k r).

Definition node_dispatch (request : NodeRequest) : M NodeWorld NodeReply :=
  match request with
  | NPing => mret NRPong
  | NHello => mret (NREnvelope envelope_ok)
  | NCapture req => fenced (ncq_coordinator_epoch req) (do_capture req) NRCapture
  | NPromote req => fenced (nmq_coordinator_epoch req) (do_promote req) NRPromote
  | NResume req => fenced (nsq_coordinator_epoch req) (do_resume req) NRResume
  | NRestore req => fenced (nrq_coordinator_epoch req) (do_restore req) NRRestore
  | NVerify req => fenced (nvq_coordinator_epoch req) (do_verify req) NRVerify
  | NProbe req => fenced (npq_coordinator_epoch req) (do_probe req) NRProbe
  | NCleanup req => fenced (nlq_coordinator_epoch req) (do_cleanup req) NRCleanup
  | NReplicate req => fenced (npl_coordinator_epoch req) (do_replicate req) NRReplicate
  | NAllowFetch req => fenced (naf_coordinator_epoch req) (allow_fetch req) (fun _ => NREnvelope envelope_ok)
  | NDetach workload_id => detach_workload workload_id ;; mret (NREnvelope envelope_ok)
  | NFetchManifest req => r ← serve_manifest req; mret (NRManifest r)
  | NFetchComponent req => r ← serve_component req; mret (NRChunk r)
  | NOther op => raise (ProtocolError "node cannot serve op {op:?}")
  end.

(** The handler of the node's server: an error is answered by its envelope. *)
Definition node_handler (request : NodeRequest) : M NodeWorld NodeReply :=
  r ← attempt (node_dispatch request);
  mret (match r with Ok reply => reply | Err e => NREnvelope (envelope_err (display e)) end).

(** ** The coordinator's side of a node *)

Definition attach_workload (workload_id : Id) (fence_epoch : Z) (providers : list (CaptureProvider App))
    : M NodeWorld AttachedWorkload :=
  node_set (fun n => n <| ns_providers := foldl (fun reg p => register workload_id p reg) (ns_providers n) providers |>) ;;
  connected ← node_get ns_coordinator;
  lift (reject_if (negb connected) (Internal "not connected to coordinator")) ;;
  resp ← remote (fun t => coordinator_attach t
           (mkWorkloadAttachRequest workload_id (nr_node_id self) (nr_boot_id self) (pv_spec <$> providers) fence_epoch));
  if negb (war_accepted resp) then
    node_set (fun n => n <| ns_providers := remove_workload workload_id (ns_providers n) |>) ;;
    raise (FencingFailure (default "attach rejected" (war_error resp)))
  else
    let attached := mkAttachedWorkload (default "" (war_fence_token resp)) fence_epoch in
    node_set (fun n => n <| ns_attached := <[workload_id := attached]> (ns_attached n) |>) ;;
    mret attached.

Definition register_once : M NodeWorld Z :=
  remote coordinator_connect ;;
  listen_addr ← lift (ok_or (nr_listen_addr self) (Internal "node has no listener yet"));
  committed ← disk (enumerate_committed storage);
  epoch ← node_get ns_coordinator_epoch;
  resp ← remote (fun t => coordinator_register t
    {| rgq_node_id := nr_node_id self;
       rgq_listen_addr := listen_addr;
       rgq_boot_id := nr_boot_id self;
       rgq_data_dir := nr_data_dir self;
       rgq_runtime := nr_runtime self;
       rgq_hardware := nr_hardware self;
       rgq_resources := nr_resources self;
       rgq_committed_checkpoints := committed;
       rgq_coordinator_epoch := epoch |});
  node_set (fun n => n <| ns_coordinator_epoch := rgr_coordinator_epoch resp |>) ;;
  if rgr_accepted resp then
    node_set (fun n => n <| ns_coordinator := true |>) ;;
    mret (rgr_coordinator_epoch resp)
  else raise (FencingFailure (default "registration rejected" (rgr_error resp))).

(** [heartbeat_tick]: whether the coordinator answered. *)
Definition heartbeat_tick : M NodeWorld bool :=
  connected ← node_get ns_coordinator;
  if negb connected then mret false else
  attached ← node_get ns_attached;
  epoch ← node_get ns_coordinator_epoch;
  committed ← attempt (disk (enumerate_committed storage));
  versions ← node_get (fun n => provider_versions (ns_providers n));
  answer ← attempt (remote (fun t => coordinator_heartbeat t
    {| hbq_node_id := nr_node_id self;
       hbq_boot_id := nr_boot_id self;
       hbq_coordinator_epoch := epoch;
       hbq_workloads := (fun e => mkHeartbeatWorkload e.1 (aw_fence_token e.2) (aw_execution_epoch e.2)) <$> map_to_list attached;
       hbq_resources := nr_resources self;
       hbq_committed_checkpoints := match committed with Ok ids => ids | Err _ => [] end;
       hbq_provider_versions := versions |}));
  match answer with
  | Ok resp =>
      if negb (hbr_ok resp) then node_set (fun n => n <| ns_coordinator := false |>) ;; mret false
      else
        node_set (fun n => n <| ns_attached := foldr delete (ns_attached n) (hbr_stale_workloads resp) |>) ;;
        mret true
  | Err e => node_set (fun n => n <| ns_coordinator := false |>) ;; mret false
  end.

(** One round of the heartbeat thread: the failures in a row, and the round. *)
Definition heartbeat_round (consecutive_failures tick : Z) : M NodeWorld (Z * Z) :=
  ok ← heartbeat_tick;
  let failures := if (ok : bool) then 0 else consecutive_failures + 1 in
  if negb ok && (10 <=? failures) then
    node_set (fun n => n <| ns_stop := true |>) ;; mret (failures, tick)
  else
    let tick := tick + 1 in
    (if tick mod 10 =? 0 then
       keep ← node_get (fun n => dom (ns_staging_leases n));
       ignore (disk (recover_partial_older_than storage keep (nr_staging_ttl_ms self)))
     else mret tt) ;;
    mret (failures, tick).

(** The thread, for [rounds] rounds at most. *)
Fixpoint heartbeat_thread (rounds : nat) (consecutive_failures tick : Z) : M NodeWorld unit :=
  match rounds with
  | O => mret tt
  | S rounds' =>
      stop ← node_get ns_stop;
      if (stop : bool) then mret tt else
      r ← heartbeat_round consecutive_failures tick;
      heartbeat_thread rounds' (fst r) (snd r)
  end.

(** The end of [NodeRuntime::shutdown], after the threads have been joined. *)
Definition shutdown : M NodeWorld unit :=
  node_set (fun n => n <| ns_stop := true |> <| ns_coordinator := false |>) ;;
  ignore (disk (recover_partial storage ∅)) ;;
  node_set (fun n => n <| ns_attached := ∅ |>).
End node.
