(* ===== verification/NodeFacts.v ===== *)
(** What the requests of a node do to its committed checkpoints ([Node]), whatever the
    disk, the peers and the providers do. *)
From S2P Require Import Prelude Errors Ident Lifecycle Checkpoint Workload Compression Policy Compat.
From S2P Require Import Capture Json Restore Lineage Failpoints Tables Persist World.
From S2P Require Import Manifest Messages Coordinator Maintenance Dispatch Frame Fs Integrity Storage Providers Node.
From Stdlib Require Import Strings.Byte.

(** ** Images *)

(** The files of a committed checkpoint. *)
Definition image `{HexCodec} (st : LocalStorage) (id : Id) (fs : Fs) : gmap path node := subtree (commit_dir st id) fs.

(** Nothing, or an empty directory. *)
Definition vacant (img : gmap path node) : Prop :=
  img !! [] = None \/ img !! [] = Some Dir /\ forall name, img !! [name] = None.

(** Below [p] nothing changed. *)
Definition same_below (p : path) (fs fs' : Fs) : Prop := forall q, under p q -> fs' !! q = fs !! q.

Lemma same_below_trans p fs1 fs2 fs3 : same_below p fs1 fs2 -> same_below p fs2 fs3 -> same_below p fs1 fs3.
Proof. intros H1 H2 q Hq. by rewrite H2, H1. Qed.

Lemma subtree_below p r fs fs' : same_below p fs fs' -> subtree (p ++ r) fs' = subtree (p ++ r) fs.
Proof.
  intros Hs. apply map_eq. intros x. rewrite !lookup_subtree. apply Hs. rewrite <- (assoc_L (++)). apply under_app.
Qed.

Lemma apart_app p q r : apart p q -> apart (p ++ r) q.
Proof.
  intros Ha. split.
  - intros Hu. apply (proj1 Ha). by eapply under_trans; [apply under_app |].
  - by apply apart_under, apart_sym.
Qed.

(** ** Providers *)

(** A method that changes nothing below [p]. *)
Definition leaves {App A} (p : path) (m : M (AppWorld App) A) : Prop :=
  forall fs0, keeps (fun w => same_below p fs0 (dk_fs (aw_disk w))) m.

(** A provider whose methods change nothing below [p]. *)
Record respects {App} (p : path) (pv : CaptureProvider App) : Prop := {
  rs_prepare : forall ctx, leaves p (pv_prepare_capture pv ctx);
  rs_quiesce : forall ctx, leaves p (pv_quiesce pv ctx);
  rs_capture : forall ctx, leaves p (pv_capture pv ctx);
  rs_verify : forall ctx, leaves p (pv_verify pv ctx);
  rs_resume : forall ctx, leaves p (pv_resume_source pv ctx);
  rs_abort : forall ctx, leaves p (pv_abort_capture pv ctx);
  rs_restore : forall ctx payload, leaves p (pv_restore pv ctx payload);
  rs_verify_restore : forall ctx, leaves p (pv_verify_restore pv ctx);
  rs_cleanup : forall ctx, leaves p (pv_cleanup_restore pv ctx);
  rs_commit : forall ctx, leaves p (pv_commit_restore pv ctx)
}.
#[export] Hint Resolve rs_prepare rs_quiesce rs_capture rs_verify rs_resume rs_abort rs_restore
  rs_verify_restore rs_cleanup rs_commit : fs.

(** The providers in memory touch no file. *)
Lemma leaves_on_app {App A} p (f : App -> FabricResult A * App) : leaves p (on_app f).
Proof. intros fs0 w Hw. unfold on_app. by destruct (f (aw_app w)) as [[a | e] app]. Qed.

Lemma leaves_ret {App A} p (a : A) : leaves (App := App) p (mret a).
Proof. intros fs0. apply keeps_ret. Qed.
Lemma leaves_raise {App A} p e : leaves (App := App) (A := A) p (raise e).
Proof. intros fs0. apply keeps_raise. Qed.
Lemma leaves_hook {App} p (hook : option (App -> FabricResult unit * App)) : leaves p (run_hook hook).
Proof. destruct hook; [apply leaves_on_app | apply leaves_ret]. Qed.
Lemma leaves_refuse {App} p ctx s : leaves (App := App) p (refuse_cooperative ctx s).
Proof. unfold refuse_cooperative. case_bool_decide; [apply leaves_raise | apply leaves_ret]. Qed.
#[export] Hint Resolve leaves_on_app leaves_ret leaves_raise leaves_hook leaves_refuse : fs.

Lemma application_provider_respects {App} p spec snapshot apply_ qh rh ch :
  respects (App := App) p (application_state_provider spec snapshot apply_ qh rh ch).
Proof.
  split; intros; cbn; auto with fs. case_bool_decide; [| apply leaves_ret].
  destruct qh; [| apply leaves_raise]. intros fs0. apply keeps_bind; [apply leaves_on_app | intros; apply keeps_ret].
Qed.

Lemma custom_provider_respects {App} p spec c r h : respects (App := App) p (custom_provider spec c r h).
Proof. split; intros; cbn; auto with fs. Qed.

Lemma memory_provider_respects {App} `{RegionCodec} p spec get set_ :
  respects (App := App) p (memory_region_provider spec get set_).
Proof. split; intros; cbn; auto with fs. Qed.

(** ** Invariants of a node *)

Section invariants.
Context {App : Type}.

(** [I] of the disk, and every hosted provider respects [p]. *)
Definition hosted (p : path) (n : NodeState (App := App)) : Prop :=
  forall key pv, ns_providers n !! key = Some pv -> respects p pv.

Definition guarded (p : path) (I : Fs -> Prop) (w : NodeWorld (App := App)) : Prop :=
  I (dk_fs (aw_disk (nw_app w))) /\ hosted p (nw_node w).

(** [I] only speaks of what is below [p]. *)
Definition local_to (p : path) (I : Fs -> Prop) : Prop := forall fs fs', same_below p fs fs' -> I fs -> I fs'.

Context (p : path) (I : Fs -> Prop).

Lemma keeps_disk {A} (m : M Disk A) : keeps (on_fs I) m -> keeps (guarded p I) (disk m).
Proof.
  intros Hm [[d a] n] [Hi Hh]. specialize (Hm d Hi). unfold disk, in_app, on_disk. cbn.
  destruct (m d) as [o d']. by split.
Qed.

Lemma keeps_method {A} (m : M (AppWorld App) A) : local_to p I -> leaves p m -> keeps (guarded p I) (in_app m).
Proof.
  intros Hl Hm [a n] [Hi Hh]. unfold in_app. cbn in *. specialize (Hm (dk_fs (aw_disk a)) a ltac:(by intros q)).
  destruct (m a) as [o a']. split; [by eapply Hl |]. exact Hh.
Qed.

Lemma keeps_node_set (f : NodeState -> NodeState) :
  (forall n, hosted p n -> hosted p (f n)) -> keeps (guarded p I) (node_set f).
Proof. intros Hf [a n] [Hi Hh]. split; [exact Hi | by apply Hf]. Qed.

Lemma keeps_node_get {A B} (f : NodeState -> A) (k : A -> M NodeWorld B) :
  (forall n, hosted p n -> keeps (guarded p I) (k (f n))) -> keeps (guarded p I) (node_get f ≫= k).
Proof. intros Hk w Hw. unfold node_get, mbind, M_bind. cbn. by apply Hk; [apply Hw |]. Qed.

Lemma keeps_remote {A} (f : nat -> FabricResult A) : keeps (guarded p I) (remote f).
Proof. intros w Hw. unfold remote, lift. by destruct (f _). Qed.

Lemma keeps_disk_now `{DiskEnv} : keeps (guarded p I) (disk disk_now_ms).
Proof. apply keeps_disk. by intros d Hd. Qed.

Lemma keeps_node_failpoint name : keeps (guarded p I) (node_failpoint name).
Proof. intros w Hw. unfold node_failpoint, lift. by destruct (fire _ _) as [[u | e] armed]. Qed.

(** A result of which something is known. *)
Lemma keeps_bind_such {W A B} (J : W -> Prop) (P : A -> Prop) (m : M W A) (k : A -> M W B) :
  keeps J m -> (forall w a w', m w = (Done a, w') -> P a) -> (forall a, P a -> keeps J (k a)) -> keeps J (m ≫= k).
Proof.
  intros Hm HP Hk w Hw. specialize (Hm w Hw). specialize (HP w). unfold mbind, M_bind.
  destruct (m w) as [[a | e |] w'] eqn:E; cbn in *; [| exact Hm..]. apply Hk; [by eapply HP | exact Hm].
Qed.

Lemma keeps_bind_lift {W A B} (J : W -> Prop) (r : FabricResult A) (k : A -> M W B) :
  (forall a, r = Ok a -> keeps J (k a)) -> keeps J (lift r ≫= k).
Proof. intros Hk. destruct r as [a | e]; [by apply Hk | by intros w Hw]. Qed.

Lemma keeps_for_all {W A} (J : W -> Prop) (P : A -> Prop) (f : A -> M W unit) (l : list A) :
  Forall P l -> (forall a, P a -> keeps J (f a)) -> keeps J (for_m f l).
Proof.
  intros Hl Hf. induction Hl as [| a l Ha Hl IH]; cbn [for_m]; [apply keeps_ret |].
  apply keeps_bind; [by apply Hf | by intros].
Qed.

Lemma select_respects w cs n  (ps : list (CaptureProvider App)) :
  hosted p n -> select_providers w cs (ns_providers n) = Ok ps -> Forall (respects p) ps.
Proof.
  intros Hn. revert ps. induction cs as [| c cs IH]; cbn; intros ps; [intros [= <-]; constructor |].
  destruct (get_provider _ _ _) as [pv |] eqn:Ep.
  - destruct (select_providers _ _ _) as [ps' | e]; cbn; [| done]. intros [= <-]. constructor; [| by apply IH].
    by eapply Hn.
  - destruct (cq_required c); [done | apply IH].
Qed.

Lemma keeps_provider_of {B} wid c (k : option (CaptureProvider App) -> M NodeWorld B) :
  (forall found, (forall pv, found = Some pv -> respects p pv) -> keeps (guarded p I) (k found)) ->
  keeps (guarded p I) (provider_of wid c ≫= k).
Proof. intros Hk. apply keeps_node_get. intros n Hn. apply Hk. intros pv Hpv. by eapply Hn. Qed.
End invariants.

(** ** A publication elsewhere *)

Section elsewhere.
Context `{HexCodec}.
Context (st : LocalStorage).

Lemma staging_fork a a' : sanitize_segment a <> sanitize_segment a' -> apart (staging_dir st a) (staging_dir st a').
Proof. intros Hne. unfold staging_dir. by apply apart_fork. Qed.

(** The same files where a path is neither in [a]'s area nor in the checkpoint [id], nor
    above the checkpoints. *)
Lemma promoted_elsewhere a id fs fs' p :
  promoted (staging_dir st a) (commit_dir st id) fs fs' ->
  apart (staging_dir st a) p -> apart (commit_dir st id) p -> ~ under p (checkpoints_dir st) ->
  subtree p fs' = subtree p fs.
Proof.
  intros [_ _ _ Hframe _] Ha Hc Hp. apply map_eq. intros r. rewrite !lookup_subtree.
  destruct (Hframe (p ++ r)) as [E | (Hanc & _)]; [by apply apart_under | by apply apart_under | exact E | exfalso].
  rewrite parent_commit in Hanc. apply elem_of_ancestors in Hanc as [_ Hanc]. apply Hp.
  by eapply under_trans; [apply under_app |].
Qed.

Lemma keeps_promote_elsewhere `{DiskEnv} a id p img :
  apart (staging_dir st a) p -> apart (commit_dir st id) p -> ~ under p (checkpoints_dir st) ->
  keeps (on_fs (fun fs => subtree p fs = img)) (promote (staging_dir st a) (commit_dir st id)).
Proof.
  intros Ha Hc Hp d Hd. unfold on_fs in *.
  pose proof (promote_spec st (staging_dir st a) id d (staging_apart st a id) (staging_apart_checkpoints st a)) as Hs.
  assert (Hgrown : forall fs', grown (checkpoints_dir st) (dk_fs d) fs' -> subtree p fs' = img)
    by (intros fs' Hg; rewrite <- Hd; by apply (grown_same _ _ _ _ Hg)).
  assert (Hprom : forall fs', promoted (staging_dir st a) (commit_dir st id) (dk_fs d) fs' -> subtree p fs' = img)
    by (intros fs' Hpr; rewrite <- Hd; by eapply promoted_elsewhere).
  unfold run in Hs. destruct (promote _ _ d) as [[u | e |] d']; cbn; [auto | auto | destruct Hs; auto].
Qed.
End elsewhere.

(** ** Committed images *)

(** The image of a checkpoint is still [img0], unless it is [free] to change. *)
Definition kept `{HexCodec} (st : LocalStorage) (id : Id) (free : Prop) (img0 : gmap path node) (fs : Fs) : Prop :=
  image st id fs = img0 \/ free.

Section kept.
Context `{HexCodec}.
Context (st : LocalStorage) (id : Id) (free : Prop) (img0 : gmap path node).
Let I := kept st id free img0.

Lemma kept_same fs fs' : image st id fs' = image st id fs -> I fs -> I fs'.
Proof. intros E [Hi | Hp]; [left; congruence | by right]. Qed.

Lemma kept_ignores p : apart p (commit_dir st id) -> ignores p I.
Proof. intros Ha fs fs' Hs. apply kept_same. by eapply subtree_same. Qed.

Lemma kept_ignores_staging a r : ignores (staging_dir st a ++ r) I.
Proof. apply kept_ignores, apart_app, staging_apart. Qed.

Lemma kept_bears p : ~ under (commit_dir st id) p -> bears p I.
Proof.
  intros Hp q fs Hq Hn. apply kept_same. apply map_eq. intros r. unfold image. rewrite !lookup_subtree.
  apply lookup_insert_ne. intros ->. apply elem_of_ancestors in Hq as [_ Hq]. destruct Hp.
  by eapply under_trans; [apply under_app |].
Qed.

Lemma kept_bears_staging a r : bears (staging_dir st a ++ r) I.
Proof. apply kept_bears. apply apart_under, apart_sym, staging_apart. Qed.

Lemma kept_local : local_to (checkpoints_dir st) I.
Proof. intros fs fs' Hs. apply kept_same. by apply subtree_below. Qed.

Context (Hex : HexLaws _).

Lemma promoted_kept a id' fs fs' :
  (id' = id -> vacant img0 -> free) -> promoted (staging_dir st a) (commit_dir st id') fs fs' -> I fs -> I fs'.
Proof.
  intros Hpub [Hfresh _ _ Hframe _] [Hi | Hi]; [| by right]. destruct (decide (id' = id)) as [-> | Hne].
  - right. apply Hpub; [done |]. unfold vacant. rewrite <- Hi. unfold image.
    setoid_rewrite lookup_subtree. rewrite app_nil_r. destruct Hfresh as [E | [E Hc]]; [by left | right].
    split; [done | by apply children_empty].
  - left. rewrite <- Hi. unfold image. apply map_eq. intros r. rewrite !lookup_subtree.
    destruct (Hframe (commit_dir st id ++ r)) as [E | (Ha & _)]; [| | exact E |].
    + apply apart_under, staging_apart.
    + by apply apart_under, commit_apart.
    + exfalso. rewrite parent_commit in Ha. apply elem_of_ancestors in Ha as [_ Ha].
      apply (commit_longer st id). by eapply under_trans; [apply under_app |].
Qed.

Context `{DiskEnv}.

Lemma keeps_promote a id' : (id' = id -> vacant img0 -> free) -> keeps (on_fs I) (promote (staging_dir st a) (commit_dir st id')).
Proof.
  intros Hpub d Hd.
  pose proof (promote_spec st (staging_dir st a) id' d (staging_apart st a id') (staging_apart_checkpoints st a)) as Hs.
  assert (Hgrown : forall fs', grown (checkpoints_dir st) (dk_fs d) fs' -> I fs').
  { intros fs' Hg. eapply kept_same, Hd. apply (grown_same _ _ _ _ Hg), commit_longer. }
  unfold run in Hs. destruct (promote _ _ d) as [[u | e |] d']; cbn; unfold on_fs.
  - by eapply promoted_kept.
  - by apply Hgrown.
  - destruct Hs as [Hs | Hs]; [by eapply promoted_kept | by apply Hgrown].
Qed.

Lemma keeps_delete_committed id' : (id' = id -> free) -> keeps (on_fs I) (delete_committed st id').
Proof.
  intros Hfree. destruct (decide (id' = id)) as [-> | Hne].
  { intros d _. right. by apply Hfree. } unfold delete_committed. apply keeps_bind; [apply keeps_or_else, keeps_look |]. intros [].
  - by apply keeps_remove, kept_ignores, commit_apart.
  - apply keeps_ret.
Qed.
End kept.

(** ** Reading *)

(** Readers change no file. *)
Definition reader {A} (m : M Disk A) : Prop := forall I, keeps (on_fs I) m.

Section readers.
Context `{DiskEnv, Crc32c, Sha256, Zstd, HexCodec}.

Lemma reader_look {A} (f : nat -> Fs -> option A) : reader (look f).
Proof. intros I. apply keeps_look. Qed.
Lemma reader_ret {A} (a : A) : reader (mret a).
Proof. intros I. apply keeps_ret. Qed.
Lemma reader_lift {A} (r : FabricResult A) : reader (lift r).
Proof. intros I. apply keeps_lift. Qed.
Lemma reader_raise {A} e : reader (A := A) (raise e).
Proof. intros I. apply keeps_raise. Qed.
Lemma reader_bind {A B} (m : M Disk A) (k : A -> M Disk B) : reader m -> (forall a, reader (k a)) -> reader (m ≫= k).
Proof. intros Hm Hk I. apply keeps_bind; [apply Hm | intros; apply Hk]. Qed.
Lemma reader_attempt {A} (m : M Disk A) : reader m -> reader (attempt m).
Proof. intros Hm I. apply keeps_attempt, Hm. Qed.
Lemma reader_or_else {A} (m : M Disk A) a : reader m -> reader (or_else m a).
Proof. intros Hm I. apply keeps_or_else, Hm. Qed.
Lemma reader_map_err {A} (m : M Disk A) e : reader m -> reader (map_err m e).
Proof. intros Hm. apply reader_bind; [by apply reader_attempt | intros; apply reader_lift]. Qed.
End readers.

Ltac reader_tac :=
  repeat lazymatch goal with
  | |- reader (mbind _ _) => apply reader_bind; [| intros]
  | |- reader (look _) => apply reader_look
  | |- reader (mret _) => apply reader_ret
  | |- reader (lift _) => apply reader_lift
  | |- reader (raise _) => apply reader_raise
  | |- reader (attempt _) => apply reader_attempt
  | |- reader (or_else _ _) => apply reader_or_else
  | |- reader (map_err _ _) => apply reader_map_err
  | |- reader (match ?x with _ => _ end) => destruct x
  end.

Section reader_calls.
Context `{DiskEnv, Crc32c, Sha256, Zstd, HexCodec}.

Lemma reader_read p : reader (read p). Proof. apply reader_look. Qed.
Lemma reader_exists p : reader (path_exists p). Proof. unfold path_exists. reader_tac. Qed.
Lemma reader_is_dir p : reader (path_is_dir p). Proof. unfold path_is_dir. reader_tac. Qed.
Lemma reader_is_file p : reader (path_is_file p). Proof. unfold path_is_file. reader_tac. Qed.
Lemma reader_len p : reader (metadata_len p). Proof. unfold metadata_len. reader_tac. Qed.
Lemma reader_read_to_string p : reader (read_to_string p).
Proof. unfold read_to_string, read. reader_tac. Qed.
Lemma reader_verify_stored p h n : reader (verify_stored_file p h n).
Proof.
  unfold verify_stored_file, metadata_len, path_exists, read_to_string, crc32c_file, sha256_file, read. reader_tac.
Qed.
Lemma reader_payload commit repr h n : reader (read_component_payload commit repr h n).
Proof. unfold read_component_payload, read. reader_tac. Qed.
Lemma reader_committed st id : reader (has_committed st id).
Proof. unfold has_committed, is_committed_dir, both, path_is_dir, path_is_file. reader_tac. Qed.
End reader_calls.
#[export] Hint Resolve reader_look reader_read reader_exists reader_is_dir reader_is_file reader_len
  reader_read_to_string reader_verify_stored reader_payload reader_committed : fs.

(** ** Requests *)

Create HintDb node.

Section requests.
Context {App : Type}.
Context `{DiskEnv, Crc32c, Sha256, HexCodec, Zstd, ManifestCodec, NodeTexts, PeerRpc}.
Context (self : NodeRuntime).
Let storage := nr_storage self.

(** A property of what is below [root], which is indifferent to some staging areas. *)
Context (root : path) (I : Fs -> Prop) (area : string -> Prop).
Context (Hlocal : local_to root I).
Context (Hignores : forall name r, area name -> ignores (staging_root storage ++ name :: r) I).
Context (Hbears : forall name r, area name -> bears (staging_root storage ++ name :: r) I).
Let G : NodeWorld (App := App) -> Prop := guarded root I.
#[local] Abbreviation own a := (area (sanitize_segment a)).

Lemma own_ignores a r : own a -> ignores (staging_dir storage a ++ r) I.
Proof. unfold staging_dir. rewrite <- (assoc_L (++)). apply Hignores. Qed.
Lemma own_bears a r : own a -> bears (staging_dir storage a ++ r) I.
Proof. unfold staging_dir. rewrite <- (assoc_L (++)). apply Hbears. Qed.

Lemma keeps_reader {A} (m : M Disk A) : reader m -> keeps G (disk m).
Proof. intros Hm. apply keeps_disk, Hm. Qed.

Lemma keeps_node_read {A} (f : NodeState -> A) : keeps G (node_get f).
Proof. by intros w Hw. Qed.

Lemma keeps_provider {A} (m : M (AppWorld App) A) : leaves root m -> keeps G (in_app m).
Proof. by apply keeps_method. Qed.

Lemma staged_write a r content : own a -> keeps (on_fs I) (write (staging_dir storage a ++ r) content).
Proof. intros. by apply keeps_write, own_ignores. Qed.
Lemma staged_append a r content : own a -> keeps (on_fs I) (append (staging_dir storage a ++ r) content).
Proof. intros. by apply keeps_append, own_ignores. Qed.
Lemma staged_create a r : own a -> keeps (on_fs I) (create_dir_all (staging_dir storage a ++ r)).
Proof. intros. by apply keeps_create, own_bears. Qed.
Lemma staged_sidecar a d s ext content :
  own a -> keeps (on_fs I) (write (sidecar (staging_dir storage a ++ [d; s]) ext) content).
Proof.
  change [d; s] with ([d] ++ [s]). rewrite (assoc_L (++)), sidecar_last, <- (assoc_L (++)). apply staged_write.
Qed.
Hint Resolve staged_write staged_append staged_create staged_sidecar : node.

Lemma keeps_staged {A} (m : M Disk A) : keeps (on_fs I) m -> keeps G (disk m).
Proof. apply keeps_disk. Qed.
Lemma keeps_remove_staging a : own a -> keeps G (disk (remove_dir_all (staging_dir storage a))).
Proof.
  intros. apply keeps_disk, keeps_remove. rewrite <- (app_nil_r (staging_dir _ _)). by apply own_ignores.
Qed.

(** What the requests change of the node does not concern its providers, or drops some. *)
Lemma hosted_same (f : NodeState -> NodeState) :
  (forall n, ns_providers (f n) = ns_providers n) -> keeps G (node_set f).
Proof. intros Hf. apply keeps_node_set. intros n Hn key pv. rewrite Hf. apply Hn. Qed.

Lemma keeps_release p : keeps G (release_staging p).
Proof. by apply hosted_same. Qed.
Lemma keeps_lease p : keeps G (lease_staging p).
Proof. apply keeps_bind; [apply keeps_disk_now | intros; by apply hosted_same]. Qed.

Lemma keeps_drop a : own a -> keeps G (drop_staging (staging_dir storage a)).
Proof. intros. apply keeps_bind; [by apply keeps_ignore, keeps_remove_staging | intros; apply keeps_release]. Qed.

Hint Resolve keeps_reader keeps_node_read keeps_provider keeps_staged keeps_remove_staging keeps_release keeps_lease keeps_drop keeps_remote keeps_disk_now
  keeps_node_failpoint : node.

(** The structure of a request; what is left are its calls. *)
Ltac node_step :=
  lazymatch goal with
  | |- keeps _ (mbind _ (node_get _)) => apply keeps_node_get; intros
  | |- keeps _ (mbind _ (provider_of _ _)) => apply keeps_provider_of; intros
  | |- keeps _ (disk _) => solve [auto with node fs]
  | |- keeps _ (in_app _) => solve [auto with node fs]
  | |- keeps _ (node_set _) => solve [by apply hosted_same]
  | |- keeps _ (node_get _) => apply keeps_node_read
  | |- _ => keeps_step
  end.
Ltac node_tac := repeat node_step; eauto with node fs.

Lemma keeps_check_epoch claimed : keeps G (check_epoch claimed).
Proof. unfold check_epoch. node_tac. Qed.

Lemma keeps_check_token i token : keeps G (check_token i token).
Proof. unfold check_token. node_tac. Qed.

Lemma keeps_fresh a : own a -> keeps G (fresh_staging (staging_dir storage a)).
Proof. intros Ha. unfold fresh_staging. node_tac. Qed.

(** *** Capture *)

Lemma keeps_prepare ctx ps : Forall (respects (App := App) root) ps -> keeps G (prepare_all ctx ps).
Proof. induction 1 as [| p ps Hp Hps IH]; cbn [prepare_all]; node_tac. Qed.

Lemma prepare_respects ctx ps w out w' :
  Forall (respects (App := App) root) ps -> prepare_all ctx ps w = (Done out, w') -> Forall (respects root) (fst out).
Proof.
  intros Hps. revert w out w'. induction Hps as [| p ps Hp Hps IH]; cbn [prepare_all]; intros w out w'.
  { intros [= <- <-]. constructor. }
  unfold mbind, M_bind, attempt. destruct (in_app _ w) as [[u | e |] w1]; [| intros [= <- <-]; constructor | done].
  destruct (prepare_all ctx ps w1) as [[r | e |] w2] eqn:E; [| done..]. intros [= <- <-]. constructor; [done |].
  by eapply IH.
Qed.

Lemma keeps_quiesce ctx ps : Forall (respects (App := App) root) ps -> keeps G (quiesce_all ctx ps).
Proof.
  intros Hps. unfold quiesce_all. destruct (cx_quiescence ctx); [| | apply keeps_ret].
  - generalize (negb (is_empty_list ps)). induction Hps as [| p ps Hp Hps IH]; cbn [quiesce_cooperative]; intros ack; node_tac.
  - apply keeps_bind; [| intros; apply keeps_ret]. eapply keeps_for_all; [exact Hps | intros; node_tac].
Qed.

Lemma keeps_capture_components ctx a ps :
  own a -> cx_staging_dir ctx = staging_dir storage a -> Forall (respects (App := App) root) ps -> keeps G (capture_components ctx ps).
Proof.
  intros Ha Hc. induction 1 as [| p ps Hp Hps IH]; cbn [capture_components]; [apply keeps_ret |].
  apply keeps_bind; [| intros; by node_tac]. unfold capture_component. rewrite Hc. node_tac. apply keeps_disk.
  unfold write_component_payload, payload_path. keeps_auto; auto with node.
Qed.

Lemma keeps_do_capture req : own (ncq_attempt_id req) -> keeps G (do_capture self req).
Proof.
  intros Ha. unfold do_capture. apply keeps_bind; [by apply keeps_fresh | intros _]. apply keeps_node_get. intros n Hn.
  pose proof (select_respects root (ncq_workload_id req) (ncq_components req) n) as Hs.
  destruct (select_providers _ _ _) as [ps | e]; cycle 1.
  all: apply (keeps_bind_such _ (fun prepared => Forall (respects (App := App) root) (fst prepared))).
  all: try apply keeps_prepare; eauto using prepare_respects, keeps_ret.
  { intros w a w' [= <- <-]. constructor. }
  all: intros [prepared r] Hp; apply keeps_bind; [apply keeps_attempt, keeps_bind_lift; intros ? [= <-] |].
  2: { node_tac; [apply keeps_quiesce | apply (keeps_capture_components _ (ncq_attempt_id req))]; auto. }
  all: intros [[captured ack] | e']; [node_tac |].
  all: apply keeps_bind; [| intros _; node_tac].
  all: apply (keeps_for_all G (respects root)); [by apply Forall_reverse | intros; node_tac].
Qed.

(** *** Promotion and replication *)

Lemma keeps_do_promote req :
  own (nmq_attempt_id req) ->
  keeps (on_fs I) (promote (staging_dir storage (nmq_attempt_id req)) (commit_dir storage (nmq_checkpoint_id req))) ->
  keeps G (do_promote self req).
Proof. intros Ha Hpub. unfold do_promote. node_tac. Qed.

Lemma keeps_fetch_chunks req addr c a r fuel offset :
  own a -> keeps G (fetch_chunks req addr c (staging_dir storage a ++ r) fuel offset).
Proof.
  intros Ha. revert offset. induction fuel as [| fuel IH]; intros offset; cbn [fetch_chunks]; [apply keeps_ret |].
  apply keeps_bind; [apply keeps_remote |]. intros chunk. destruct (chunk_refused _ _ _); [apply keeps_ret |].
  node_tac.
Qed.

Lemma keeps_fetch_component req addr a c : own a -> keeps G (fetch_component req addr (staging_dir storage a) c).
Proof.
  intros Ha. unfold fetch_component. destruct (negb _ || negb _) eqn:E; [node_tac |]. bool_facts.
  match goal with Hs : sanitize_segment _ = _, Hr : sr_relative_path _ = _ |- _ =>
    rewrite Hr; change ("components/" +:+ ?s) with ("components" +:+ "/" +:+ s) end.
  rewrite safe_join_segment by (try apply sanitize_segment_safe; by vm_compute).
  apply keeps_bind_lift. intros dest [= <-]. node_tac. by apply keeps_fetch_chunks.
Qed.

Lemma keeps_fetch_components req addr a cs : own a -> keeps G (fetch_components req addr (staging_dir storage a) cs).
Proof. intros Ha. induction cs as [| c cs IH]; cbn [fetch_components]; node_tac. by apply keeps_fetch_component. Qed.

Lemma keeps_do_replicate req :
  own (npl_attempt_id req) ->
  keeps (on_fs I) (promote (staging_dir storage (npl_attempt_id req)) (commit_dir storage (npl_checkpoint_id req))) ->
  keeps G (do_replicate self req).
Proof.
  intros Ha Hpub. unfold do_replicate. node_tac; [by apply keeps_fresh | by apply keeps_fetch_components].
Qed.

(** *** Resume and restore *)

Lemma keeps_resume_providers req cctx rctx transfer specs err :
  keeps G (resume_providers req cctx rctx transfer specs err).
Proof.
  revert err. induction specs as [| s specs IH]; intros err; cbn [resume_providers]; [apply keeps_ret |].
  apply keeps_provider_of. intros found Hf. apply keeps_bind; [| intros; apply IH].
  destruct found as [pv |]; [| apply keeps_ret]. specialize (Hf pv eq_refl). unfold resume_provider. node_tac.
Qed.

Lemma keeps_do_resume req : keeps G (do_resume self req).
Proof. unfold do_resume, adopt_grant, take_quiesced. node_tac. apply keeps_resume_providers. Qed.

Lemma keeps_cleanup_restored ps ctx :
  Forall (respects (App := App) root) ps -> keeps G (cleanup_restored ps ctx).
Proof.
  intros Hps. apply (keeps_for_all G (respects root)); [by apply Forall_reverse | intros; node_tac].
Qed.

Lemma keeps_restore_entries req ctx cs restored applied :
  Forall (respects (App := App) root) applied -> keeps G (restore_entries req ctx cs restored applied).
Proof.
  revert restored applied. induction cs as [| c cs IH]; intros restored applied Ha; cbn [restore_entries];
    [apply keeps_ret |].
  apply keeps_provider_of. intros [pv |] Hf.
  - specialize (Hf pv eq_refl).
    assert (Ha' : Forall (respects root) (applied ++ [pv])) by by apply Forall_app_2; [| apply Forall_singleton].
    node_tac; by apply keeps_cleanup_restored.
  - destruct (ce_required c); [| by apply IH]. node_tac. by apply keeps_cleanup_restored.
Qed.

Lemma keeps_verify_components commit cs : keeps G (verify_components commit cs).
Proof. induction cs as [| c cs IH]; cbn [verify_components]; node_tac. Qed.

Lemma keeps_failed_component commit cs : keeps G (failed_component commit cs).
Proof. induction cs as [| c cs IH]; cbn [failed_component]; node_tac. Qed.
Hint Resolve keeps_verify_components keeps_failed_component : node.

Lemma keeps_do_restore req : keeps G (do_restore self req).
Proof. unfold do_restore, sidecar_text. node_tac. by apply keeps_restore_entries. Qed.

Lemma keeps_do_verify req : keeps G (do_verify self req).
Proof. unfold do_verify, sidecar_text. node_tac. Qed.

(** *** Cleanup *)

Lemma keeps_remove_under name : area name -> keeps G (disk (remove_dir_all (staging_root storage ++ [name]))).
Proof. intros. by apply keeps_disk, keeps_remove, Hignores. Qed.

Lemma keeps_clean_path p label error acc : keeps G (disk (remove_dir_all p)) -> keeps G (clean_path p label error acc).
Proof. intros Hp. apply keeps_bind; [by apply keeps_attempt | intros; apply keeps_ret]. Qed.

Lemma keeps_clean_attempts l acc : Forall (fun a => own a) l -> keeps G (clean_attempts self l acc).
Proof.
  intros Hl. revert acc. induction Hl as [| a l Ha Hl IH]; intros acc; cbn [clean_attempts]; [apply keeps_ret |]. node_tac.
  apply keeps_clean_path. node_tac.
Qed.

Lemma keeps_under_staging {B} p (k : bool -> M NodeWorld B) :
  keeps G (k false) -> (forall name, p = staging_root storage ++ [name] -> keeps G (k true)) ->
  keeps G (is_under_staging self p ≫= k).
Proof.
  intros Hf Ht. eapply (keeps_bind_such _ (fun inside => inside = true -> exists name, p = staging_root storage ++ [name])).
  - unfold is_under_staging. node_tac.
  - intros w inside w' Hm ->. unfold is_under_staging in Hm.
    destruct (strip _ p) as [[| name []] |] eqn:Es; try discriminate Hm. apply strip_Some in Es. by exists name.
  - intros [] Hp; [| done]. destruct (Hp eq_refl) as [name Hn]. by eapply Ht.
Qed.

Lemma keeps_clean_paths l acc :
  Forall (fun sp => forall name, text_path sp = Some (staging_root storage ++ [name]) -> area name) l ->
  keeps G (clean_paths self l acc).
Proof.
  intros Hl. revert acc. induction Hl as [| sp l Hsp Hl IH]; intros acc; cbn [clean_paths]; [apply keeps_ret |].
  apply keeps_bind; [| intros; apply IH]. destruct (text_path sp) as [p |]; [| apply keeps_ret].
  apply keeps_under_staging; [apply keeps_ret |]. intros name ->. cbn [negb]. node_tac.
  by apply keeps_clean_path, keeps_remove_under, Hsp.
Qed.

Lemma keeps_clean_providers w ctx ids acc : keeps G (clean_providers w ctx ids acc).
Proof.
  revert acc. induction ids as [| i ids IH]; intros acc; cbn [clean_providers]; [apply keeps_ret |].
  apply keeps_provider_of. intros [pv |] Hf; [specialize (Hf pv eq_refl) | clear Hf]; node_tac.
Qed.

Lemma keeps_clean_restores l acc : keeps G (clean_restores self l acc).
Proof.
  revert acc. induction l as [| t l IH]; intros acc; cbn [clean_restores]; [apply keeps_ret |].
  apply keeps_bind; [| intros; apply IH]. unfold clean_restore. node_tac; apply keeps_clean_providers.
Qed.

Lemma keeps_clean_checkpoints l acc :
  Forall (fun i => keeps (on_fs I) (delete_committed storage i)) l -> keeps G (clean_checkpoints self l acc).
Proof.
  intros Hl. revert acc. induction Hl as [| i l Hi Hl IH]; intros acc; cbn [clean_checkpoints]; [apply keeps_ret |].
  apply keeps_bind; [| intros; apply IH]. by apply keeps_attempt, keeps_disk.
Qed.

Lemma keeps_do_cleanup req :
  Forall (fun a => own a) (nlq_staging_attempts req) ->
  Forall (fun sp => forall name, text_path sp = Some (staging_root storage ++ [name]) -> area name) (nlq_staging_paths req) ->
  Forall (fun i => keeps (on_fs I) (delete_committed storage i)) (nlq_checkpoint_ids req) -> keeps G (do_cleanup self req).
Proof.
  intros. unfold do_cleanup.
  repeat (apply keeps_bind; [auto using keeps_clean_attempts, keeps_clean_paths, keeps_clean_restores, keeps_clean_checkpoints | intros]).
  apply keeps_ret.
Qed.

(** *** The handler *)

Lemma keeps_node_detach w : keeps G (detach_workload w).
Proof.
  apply keeps_bind; [by apply hosted_same | intros]. apply keeps_node_set. intros n Hn key pv Hk.
  unfold remove_workload in Hk. cbn in Hk. apply (map_lookup_filter_Some (M := gmap (Id * string))) in Hk as [Hk _]. by eapply Hn.
Qed.

Lemma keeps_do_probe req : keeps G (do_probe self req).
Proof. unfold do_probe. node_tac. Qed.

Lemma keeps_allow_fetch req : keeps G (allow_fetch req).
Proof. unfold allow_fetch. node_tac. Qed.

Hint Resolve keeps_check_token : node.
Lemma keeps_serve_manifest req : keeps G (serve_manifest self req).
Proof. unfold serve_manifest. node_tac. Qed.

Lemma keeps_serve_component req : keeps G (serve_component self req).
Proof. unfold serve_component. node_tac. Qed.

Lemma keeps_fenced {A} epoch (m : M NodeWorld A) k : keeps G m -> keeps G (fenced epoch m k).
Proof. intros Hm. apply keeps_bind; [apply keeps_check_epoch | intros; node_tac]. Qed.
End requests.

(** The checkpoint a request puts in place, and those it removes. *)
Definition publishes (request : NodeRequest) (id : Id) : Prop :=
  match request with
  | NPromote req => nmq_checkpoint_id req = id
  | NReplicate req => npl_checkpoint_id req = id
  | _ => False
  end.

Definition removes (request : NodeRequest) : list Id :=
  match request with NCleanup req => nlq_checkpoint_ids req | _ => [] end.

(** The epoch of the coordinator that a request claims. *)
Definition claimed_epoch (request : NodeRequest) : option Z :=
  match request with
  | NCapture req => Some (ncq_coordinator_epoch req)
  | NPromote req => Some (nmq_coordinator_epoch req)
  | NResume req => Some (nsq_coordinator_epoch req)
  | NRestore req => Some (nrq_coordinator_epoch req)
  | NVerify req => Some (nvq_coordinator_epoch req)
  | NProbe req => Some (npq_coordinator_epoch req)
  | NCleanup req => Some (nlq_coordinator_epoch req)
  | NReplicate req => Some (npl_coordinator_epoch req)
  | NAllowFetch req => Some (naf_coordinator_epoch req)
  | _ => None
  end.

Section handler.
Context {App : Type}.
Context `{DiskEnv, Crc32c, Sha256, HexCodec, Zstd, ManifestCodec, NodeTexts, PeerRpc}.
Context (self : NodeRuntime).
Let storage := nr_storage self.

(** The staging areas a request may write, and the one it may publish as a checkpoint. *)
Definition staging_names (request : NodeRequest) : list string :=
  match request with
  | NCapture req => [sanitize_segment (ncq_attempt_id req)]
  | NPromote req => [sanitize_segment (nmq_attempt_id req)]
  | NReplicate req => [sanitize_segment (npl_attempt_id req)]
  | NCleanup req => (sanitize_segment <$> nlq_staging_attempts req) ++
      omap (fun sp => p ← text_path sp; match strip (staging_root storage) p with Some [name] => Some name | _ => None end)
        (nlq_staging_paths req)
  | _ => []
  end.
Definition installs (request : NodeRequest) (a : string) (id : Id) : Prop :=
  match request with
  | NPromote req => nmq_attempt_id req = a /\ nmq_checkpoint_id req = id
  | NReplicate req => npl_attempt_id req = a /\ npl_checkpoint_id req = id
  | _ => False
  end.

(** Whatever a property says, a handler keeps it if its steps on the disk do. *)
Lemma handler_keeps request root I (area : string -> Prop) :
  local_to root I ->
  (forall name r, area name -> ignores (staging_root storage ++ name :: r) I) ->
  (forall name r, area name -> bears (staging_root storage ++ name :: r) I) ->
  Forall area (staging_names request) ->
  (forall a id, installs request a id -> keeps (on_fs I) (promote (staging_dir storage a) (commit_dir storage id))) ->
  Forall (fun i => keeps (on_fs I) (delete_committed storage i)) (removes request) ->
  keeps (guarded (App := App) root I) (node_handler self request).
Proof.
  intros Hlocal Hi Hb Harea Hpub Hdel.
  pose proof (keeps_do_capture (App := App) self root I area) as Hcap.
  pose proof (keeps_do_promote (App := App) self root I area) as Hpro.
  pose proof (keeps_do_replicate (App := App) self root I area) as Hrep.
  apply keeps_bind; [| intros; apply keeps_ret]. apply keeps_attempt.
  destruct request; cbn [node_dispatch staging_names installs removes] in *;
    first [apply keeps_fenced | apply keeps_bind; [| intros; apply keeps_ret] | idtac];
    rewrite ?Forall_singleton in Harea;
    eauto using keeps_ret, keeps_raise, keeps_do_resume, keeps_do_restore, keeps_do_verify, keeps_do_probe,
      keeps_allow_fetch, keeps_node_detach, keeps_serve_manifest, keeps_serve_component.
  apply Forall_app in Harea as [Ha Hp]. rewrite Forall_fmap in Ha.
  apply (keeps_do_cleanup self root I area); [exact Hlocal | exact Hi | exact Ha | | exact Hdel]. apply Forall_forall. intros sp Hsp name Hn. rewrite Forall_forall in Hp. apply Hp, list_elem_of_omap.
  exists sp. split; [done |]. rewrite Hn. cbn. by rewrite (proj2 (strip_Some _ _ [name]) eq_refl).
Qed.

Lemma keeps_handler request id (free : Prop) img0 :
  HexLaws _ -> (publishes request id -> vacant img0 -> free) -> (id ∈ removes request -> free) ->
  keeps (guarded (App := App) (checkpoints_dir storage) (kept storage id free img0)) (node_handler self request).
Proof.
  intros Hex Hpub Hdel. apply handler_keeps with (area := fun _ => True).
  - apply kept_local.
  - intros name r _. apply kept_ignores. unfold staging_root, commit_dir, checkpoints_dir. rewrite <- !(assoc_L (++)).
    by apply apart_fork.
  - intros name r _. apply kept_bears. unfold staging_root, commit_dir, checkpoints_dir. rewrite <- !(assoc_L (++)).
    by apply apart_fork.
  - by apply Forall_true.
  - intros a id' Hi. apply keeps_promote; [exact Hex |]. intros ->. apply Hpub. by destruct request; try destruct Hi.
  - apply Forall_forall. intros i Hi. apply keeps_delete_committed; try done. intros ->. by apply Hdel.
Qed.

(** A staging area is private to the requests that name it. *)
Lemma keeps_handler_staging request a img :
  HexLaws _ -> sanitize_segment a ∉ staging_names request ->
  keeps (guarded (App := App) (staging_dir storage a) (fun fs => subtree (staging_dir storage a) fs = img))
    (node_handler self request).
Proof.
  intros Hex Ha. apply handler_keeps with (area := fun name => name <> sanitize_segment a).
  - intros fs fs' Hs <-. pose proof (subtree_below (staging_dir storage a) [] fs fs' Hs) as E. by rewrite app_nil_r in E.
  - intros name r Hne fs fs' Hs <-. eapply subtree_same; [exact Hs |]. by apply apart_fork.
  - intros name r Hne q fs Hq Hn <-. apply map_eq. intros r'. rewrite !lookup_subtree. apply lookup_insert_ne. intros ->.
    apply elem_of_ancestors in Hq as [_ Hq]. destruct (apart_fork (staging_root storage) name (sanitize_segment a) r [] Hne) as [_ Hu].
    apply Hu. by eapply under_trans; [apply under_app |].
  - apply Forall_forall. intros name Hin ->. done.
  - intros a' id Hi. assert (Hne : sanitize_segment a' <> sanitize_segment a).
    { intros E. apply Ha. rewrite <- E. destruct request; try done; destruct Hi as [<- _]; by left. }
    apply keeps_promote_elsewhere; [by apply staging_fork | apply apart_sym, staging_apart |].
    intros Hu. by apply (proj1 (staging_apart_checkpoints storage a)).
  - apply Forall_forall. intros i Hi. unfold delete_committed. apply keeps_bind; [apply keeps_or_else, keeps_look |]. intros [].
    + apply keeps_remove. intros fs fs' Hs <-. eapply subtree_same; [exact Hs |]. apply apart_sym, staging_apart.
    + apply keeps_ret.
Qed.

(** A request of another epoch is refused. *)
Lemma fenced_stale {A} epoch (m : M NodeWorld A) k (w : NodeWorld (App := App)) :
  epoch <> ns_coordinator_epoch (nw_node w) ->
  fenced epoch m k w = (Raise (StaleCoordinatorEpoch (ns_coordinator_epoch (nw_node w)) epoch), w).
Proof.
  intros Hne. unfold fenced, check_epoch, node_get, mbind, M_bind. cbn.
  by rewrite (proj2 (Z.eqb_neq _ _) Hne).
Qed.

Lemma handler_stale request epoch (w : NodeWorld (App := App)) :
  claimed_epoch request = Some epoch -> epoch <> ns_coordinator_epoch (nw_node w) ->
  node_handler self request w =
    (Done (NREnvelope (envelope_err (display (StaleCoordinatorEpoch (ns_coordinator_epoch (nw_node w)) epoch)))), w).
Proof.
  intros Hc Hne. unfold node_handler, mbind, M_bind, attempt.
  destruct request; try discriminate Hc; injection Hc as Hc; rewrite <- Hc in *; cbn [node_dispatch];
    by rewrite fenced_stale.
Qed.

(** The answer of a handler is the answer of its operation. *)
Lemma handler_done request (w w' : NodeWorld (App := App)) reply :
  node_handler self request w = (Done reply, w') ->
  node_dispatch self request w = (Done reply, w') \/ exists e, reply = NREnvelope e.
Proof.
  unfold node_handler, mbind, M_bind, attempt. destruct (node_dispatch self request w) as [[r | e |] w1]; cbn.
  - intros [= <- <-]. by left.
  - intros [= <- <-]. right. by eexists.
  - done.
Qed.

Lemma fenced_done {A} epoch (m : M NodeWorld A) k (w w' : NodeWorld (App := App)) reply :
  fenced epoch m k w = (Done reply, w') -> exists r, m w = (Done r, w') /\ reply = k r.
Proof.
  unfold fenced, check_epoch, node_get, mbind, M_bind, lift. cbn. destruct (reject_if _ _); [| done].
  destruct (m w) as [[r | e |] w1]; [| done..]. intros [= <- <-]. by exists r.
Qed.

Lemma fenced_current {A} epoch (m : M NodeWorld A) k r (w w' : NodeWorld (App := App)) :
  epoch = ns_coordinator_epoch (nw_node w) -> m w = (Done r, w') -> fenced epoch m k w = (Done (k r), w').
Proof.
  intros -> E. unfold fenced, check_epoch, node_get, mbind, M_bind, lift. cbn. rewrite Z.eqb_refl. cbn. by rewrite E.
Qed.
End handler.
