(* ===== verification/Stored.v ===== *)
(** What a capture leaves on the disk of a node, what a promotion makes of it, and what a
    verification and a restore find there ([Node], [Storage], [Providers]). *)
From S2P Require Import Prelude Errors Ident Lifecycle Checkpoint Workload Compression Policy Compat.
From S2P Require Import Capture Json Restore Lineage Failpoints Tables Persist World.
From S2P Require Import Manifest Messages Coordinator Maintenance Dispatch Frame Fs Integrity Storage Providers Node.
From S2P Require Import NodeFacts.
From Stdlib Require Import Strings.Byte.

(** ** Results

    [ensures m Q w]: if [m] returns from [w], its result and world are in [Q].
    [returns J m a]: from every world of [J], [m] returns [a] and a world of [J].
    [ends J m Q]: from every world of [J], [m] returns or fails, with a result in [Q] and
    a world of [J]. *)

Definition ensures {W A} (m : M W A) (Q : A -> W -> Prop) (w : W) : Prop :=
  match m w with (Done a, w') => Q a w' | _ => True end.

Definition returns {W A} (J : W -> Prop) (m : M W A) (a : A) : Prop :=
  forall w, J w -> exists w', m w = (Done a, w') /\ J w'.

Definition ends {W A} (J : W -> Prop) (m : M W A) (Q : FabricResult A -> Prop) : Prop :=
  forall w, J w -> exists r w', attempt m w = (Done r, w') /\ Q r /\ J w'.

Definition is_refusal {A} (r : FabricResult A) : Prop := match r with Ok _ => False | Err _ => True end.

Section ensures.
Context {W : Type}.

Lemma ends_bind {A B} (J : W -> Prop) (m : M W A) (k : A -> M W B) Q R :
  ends J m Q -> (forall a, Q (Ok a) -> ends J (k a) R) -> (forall e, Q (Err e) -> R (Err e)) -> ends J (m ≫= k) R.
Proof.
  intros Hm Hk He w Hw. destruct (Hm w Hw) as (r & w' & E & HQ & Hw'). revert E. unfold attempt, mbind, M_bind.
  destruct (m w) as [[a | e |] w1]; intros [= <- <-]; [by apply Hk | by exists (Err e), w1; auto].
Qed.

Lemma ends_then {A B} (J : W -> Prop) (m : M W A) (k : A -> M W B) R :
  ends J m (fun _ => True) -> (forall a, ends J (k a) R) -> (forall e, R (Err e)) -> ends J (m ≫= k) R.
Proof. intros Hm Hk He. eapply ends_bind; eauto. Qed.

(** The result of a call is what every statement about the call says. *)
Lemma ends_self {A} (J : W -> Prop) (m : M W A) :
  ends J m (fun _ => True) -> ends J m (fun r => forall Q, ends J m Q -> Q r).
Proof.
  intros Hm w Hw. destruct (Hm w Hw) as (r & w' & E & _ & Hw'). exists r, w'. split; [exact E |]. split; [| exact Hw'].
  intros Q HQ. destruct (HQ w Hw) as (r' & w'' & E' & Hr & _). congruence.
Qed.

Lemma ends_conseq {A} (J : W -> Prop) (m : M W A) (Q R : FabricResult A -> Prop) :
  ends J m Q -> (forall r, Q r -> R r) -> ends J m R.
Proof. intros Hm HR w Hw. destruct (Hm w Hw) as (r & w' & E & HQ & Hw'). exists r, w'. auto. Qed.

Lemma ends_lift {A} (J : W -> Prop) (r : FabricResult A) (Q : FabricResult A -> Prop) : Q r -> ends J (lift r) Q.
Proof. intros HQ w Hw. exists r, w. unfold attempt, lift. by destruct r. Qed.

Lemma ends_returns {A} (J : W -> Prop) (m : M W A) a : returns J m a -> ends J m (eq (Ok a)).
Proof. intros Hm w Hw. destruct (Hm w Hw) as (w' & E & Hw'). exists (Ok a), w'. unfold attempt. by rewrite E. Qed.

Lemma ends_attempt {A} (J : W -> Prop) (m : M W A) Q :
  ends J m Q -> ends J (attempt m) (fun r => exists r', r = Ok r' /\ Q r').
Proof.
  intros Hm w Hw. destruct (Hm w Hw) as (r & w' & E & HQ & Hw'). exists (Ok r), w'. unfold attempt at 1. rewrite E.
  split; [done |]. split; [by exists r | done].
Qed.

Lemma ensures_bind {A B} (m : M W A) (k : A -> M W B) Q w :
  ensures m (fun a => ensures (k a) Q) w -> ensures (m ≫= k) Q w.
Proof. unfold ensures, mbind, M_bind. destruct (m w) as [[a | e |] w']; auto. Qed.

Lemma ensures_ret {A} (a : A) (Q : A -> W -> Prop) w : Q a w -> ensures (mret a) Q w.
Proof. done. Qed.

Lemma ensures_lift {A} (r : FabricResult A) (Q : A -> W -> Prop) w :
  (forall a, r = Ok a -> Q a w) -> ensures (lift r) Q w.
Proof. intros HQ. unfold ensures, lift. destruct r; [by apply HQ | done]. Qed.

Lemma ensures_any {A} (m : M W A) (Q : A -> W -> Prop) w : (forall a w', Q a w') -> ensures m Q w.
Proof. intros HQ. unfold ensures. destruct (m w) as [[a | e |] w']; auto. Qed.

Lemma ensures_attempt {A} (m : M W A) (Q : FabricResult A -> W -> Prop) w :
  ensures m (fun a => Q (Ok a)) w -> (forall e w', Q (Err e) w') -> ensures (attempt m) Q w.
Proof. unfold ensures, attempt. destruct (m w) as [[a | e |] w']; auto. Qed.

Lemma ensures_keeps {A} (J : W -> Prop) (m : M W A) (Q : A -> W -> Prop) w :
  keeps J m -> J w -> (forall a w', J w' -> Q a w') -> ensures m Q w.
Proof. intros Hm Hw HQ. specialize (Hm w Hw). unfold ensures. destruct (m w) as [[a | e |] w']; cbn in Hm; auto. Qed.

Lemma ensures_conseq {A} (m : M W A) (Q Q' : A -> W -> Prop) w :
  ensures m Q' w -> (forall a w', Q' a w' -> Q a w') -> ensures m Q w.
Proof. unfold ensures. destruct (m w) as [[a | e |] w']; auto. Qed.

Lemma ensures_and {A} (m : M W A) (Q Q' : A -> W -> Prop) w :
  ensures m Q w -> ensures m Q' w -> ensures m (fun a w' => Q a w' /\ Q' a w') w.
Proof. unfold ensures. destruct (m w) as [[a | e |] w']; auto. Qed.

Lemma returns_bind {A B} (J : W -> Prop) (m : M W A) (k : A -> M W B) a b :
  returns J m a -> returns J (k a) b -> returns J (m ≫= k) b.
Proof.
  intros Hm Hk w Hw. destruct (Hm w Hw) as (w1 & E & Hw1). unfold mbind, M_bind. rewrite E. by apply Hk.
Qed.

Lemma returns_ret {A} (J : W -> Prop) (a : A) : returns J (mret a) a.
Proof. intros w Hw. by exists w. Qed.

Lemma returns_lift {A} (J : W -> Prop) (a : A) : returns J (lift (Ok a)) a.
Proof. intros w Hw. by exists w. Qed.

Lemma returns_attempt {A} (J : W -> Prop) (m : M W A) a : returns J m a -> returns J (attempt m) (Ok a).
Proof. intros Hm w Hw. destruct (Hm w Hw) as (w1 & E & Hw1). exists w1. unfold attempt. by rewrite E. Qed.
End ensures.

(** ** The disk *)

Section disk.
Context `{DiskEnv, Crc32c, Sha256, Zstd, HexCodec}.

Lemma ensures_write p content d : ensures (write p content) (fun _ d' => dk_fs d' = <[p := File content]> (dk_fs d)) d.
Proof.
  unfold ensures, write, change_file, fs_write. destruct (disk_outcome _); cbn; [| done..]. by destruct (_ || _).
Qed.

Lemma ensures_append p content d :
  ensures (append p content) (fun _ d' => exists c, dk_fs d' = <[p := File c]> (dk_fs d)) d.
Proof.
  unfold ensures, append, change_file, fs_append, fs_write. destruct (disk_outcome _); cbn; [| done..].
  destruct (_ || _); [done |]. by eexists.
Qed.

Lemma ensures_create p d : ensures (create_dir_all p) (fun _ d' => grown p (dk_fs d) (dk_fs d')) d.
Proof.
  eapply (ensures_keeps (on_fs (grown p (dk_fs d)))); [apply keeps_create, grown_bears | apply grown_refl | auto].
Qed.

Lemma ensures_reader {A} (m : M Disk A) d : reader m -> ensures m (fun _ d' => dk_fs d' = dk_fs d) d.
Proof.
  intros Hm. eapply (ensures_keeps (on_fs (fun fs => fs = dk_fs d))); [apply Hm | done | auto].
Qed.

(** From [fs] on, every call succeeds. *)
Definition quiet_at (fs : Fs) (d : Disk) : Prop :=
  dk_fs d = fs /\ forall t, (dk_tick d <= t)%nat -> disk_outcome t = IoDone.

Lemma returns_look {A} (f : nat -> Fs -> option A) fs a :
  (forall t, f t fs = Some a) -> returns (quiet_at fs) (look f) a.
Proof.
  intros Hf [fs' t] [Hfs Hq]. cbn in *. subst fs'. unfold look. cbn. rewrite Hq, Hf by done.
  eexists. split; [done |]. split; [done |]. cbn. intros. apply Hq. lia.
Qed.

Lemma returns_or_else {A} (m : M Disk A) fs a b : returns (quiet_at fs) m a -> returns (quiet_at fs) (or_else m b) a.
Proof. intros Hm. eapply returns_bind; [by apply returns_attempt | apply returns_ret]. Qed.

Lemma returns_map_err {A} (m : M Disk A) fs a e : returns (quiet_at fs) m a -> returns (quiet_at fs) (map_err m e) a.
Proof. intros Hm. eapply returns_bind; [by apply returns_attempt | apply returns_lift]. Qed.

Lemma returns_read fs p b : fs !! p = Some (File b) -> returns (quiet_at fs) (read p) b.
Proof. intros Hp. apply returns_look. by rewrite Hp. Qed.

Lemma returns_exists fs p b : is_some (fs !! p) = b -> returns (quiet_at fs) (path_exists p) b.
Proof. intros <-. by apply returns_or_else, returns_look. Qed.

Lemma returns_is_file fs p b : is_file fs p = b -> returns (quiet_at fs) (path_is_file p) b.
Proof. intros <-. by apply returns_or_else, returns_look. Qed.

Lemma returns_len fs p b : fs !! p = Some (File b) -> returns (quiet_at fs) (metadata_len p) (byte_len b).
Proof. intros Hp. apply returns_look. by rewrite Hp. Qed.

Lemma returns_line fs p s : plain s -> fs !! p = Some (File (line s)) ->
  returns (quiet_at fs) (read_to_string p) (text_of_bytes (line s)).
Proof.
  intros Hs Hp. eapply returns_bind; [by apply returns_read |]. cbn beta. rewrite utf8_line by done. apply returns_ret.
Qed.
End disk.

(** ** Stored components *)

(** The files a component has among the components. *)
Definition component_names (s : string) : list string := [s; s +:+ ".sha256"; s +:+ ".crc32c"].

Definition segment_of (c : ComponentEntry) : string := sanitize_segment (ce_component_id c).

Section stored.
Context `{Crc32c, Sha256, Zstd}.

(** The file of [c] is in [img] with its checksum, and satisfies [P]. *)
Definition at_rest (img : gmap path node) (c : ComponentEntry) (P : list byte -> Prop) : Prop :=
  sr_relative_path (ce_storage_representation c) = "components/" +:+ segment_of c /\
  exists s,
    img !! ["components"; segment_of c] = Some (File s) /\
    img !! ["components"; segment_of c +:+ ".crc32c"] = Some (File (line (crc_text (crc32c s)))) /\ P s.

(** It is the file the entry speaks of. *)
Definition is_intact (c : ComponentEntry) (s : list byte) : Prop :=
  sr_stored_hash (ce_storage_representation c) = sha256_hex s /\
  sr_stored_size (ce_storage_representation c) = byte_len s.
Definition intact (img : gmap path node) (c : ComponentEntry) : Prop := at_rest img c (is_intact c).

(** It holds the payload of the entry. *)
Definition is_stored (c : ComponentEntry) (s : list byte) : Prop :=
  is_intact c s /\ exists payload spec,
    compress_bytes spec payload = Ok s /\ sr_codec (ce_storage_representation c) = codec_as_str (cs_codec spec) /\
    sr_original_size (ce_storage_representation c) = byte_len payload /\ ce_logical_size c = byte_len payload /\
    ce_content_hash c = sha256_hex payload.
Definition stored (img : gmap path node) (c : ComponentEntry) : Prop := at_rest img c (is_stored c).

Lemma stored_intact img c : stored img c -> intact img c.
Proof. intros [Hr (s & Hf & Hc & Hi & _)]. split; [done |]. by exists s. Qed.

(** What is among the components in [img] is there in [img'] too. *)
Definition carried (img img' : gmap path node) : Prop :=
  forall name n, img !! ["components"; name] = Some n -> img' !! ["components"; name] = Some n.

Lemma carried_mono img img' : img ⊆ img' -> carried img img'.
Proof. intros Hi name n E. by eapply lookup_weaken. Qed.

Lemma carried_insert img r n : (forall name, r <> ["components"; name]) -> carried img (<[r := n]> img).
Proof. intros Hr name n' E. by rewrite lookup_insert_ne. Qed.

#[export] Instance carried_refl : Reflexive carried.
Proof. by intros img name n. Qed.
#[export] Instance carried_trans : Transitive carried.
Proof. intros img1 img2 img3 H1' H2' name n E. by apply H2', H1'. Qed.

Lemma at_rest_carried img img' c P : carried img img' -> at_rest img c P -> at_rest img' c P.
Proof.
  intros Hi [Hr (s & Hf & Hc & Hs)]. split; [exact Hr |].
  exists s. by split; [| split; [| exact Hs]]; apply Hi.
Qed.

Lemma subtree_insert p r n fs : subtree p (<[p ++ r := n]> fs) = <[r := n]> (subtree p fs).
Proof.
  apply map_eq. intros x. rewrite lookup_subtree. destruct (decide (r = x)) as [-> | Hne].
  - by rewrite !lookup_insert_eq.
  - rewrite !lookup_insert_ne, lookup_subtree; [done | done |]. intros E. by apply app_inv_head in E.
Qed.

Lemma subtree_grown p q fs fs' : grown q fs fs' -> subtree p fs ⊆ subtree p fs'.
Proof.
  intros Hg. apply map_subseteq_spec. intros r n. rewrite !lookup_subtree. intros Hr.
  destruct (Hg (p ++ r)) as [E | (_ & E & _)]; congruence.
Qed.

(** ** Writing a component *)

Context `{DiskEnv}.

(** A step on [staging] that writes none of the files of the components [ids]. *)
Record keeps_stored (staging : path) (ids : list string) (fs fs' : Fs) : Prop := {
  ks_components : forall c P, segment_of c ∈ ids -> at_rest (subtree staging fs) c P -> at_rest (subtree staging fs') c P;
  ks_files : forall name b, subtree staging fs !! [name] = Some (File b) -> subtree staging fs' !! [name] = Some (File b)
}.

Lemma keeps_stored_refl staging ids fs fs' : subtree staging fs' = subtree staging fs -> keeps_stored staging ids fs fs'.
Proof. intros E. by split; intros *; rewrite E. Qed.

Lemma keeps_stored_trans staging ids ids' fs1 fs2 fs3 :
  keeps_stored staging ids fs1 fs2 -> keeps_stored staging (ids ++ ids') fs2 fs3 -> keeps_stored staging ids fs1 fs3.
Proof.
  intros [H1c H1f] [H2c H2f]. split; [| by auto]. intros c P Hc Hst. apply H2c; [by apply elem_of_app; left | by apply H1c].
Qed.

Definition distinct_names (l : list string) : Prop := NoDup (concat (component_names <$> l)).

Lemma names_in ids i x : i ∈ ids -> x ∈ component_names i -> x ∈ concat (component_names <$> ids).
Proof. intros Hi Hx. apply list_elem_of_In, List.in_concat. exists (component_names i). split; apply list_elem_of_In; [by apply list_elem_of_fmap_2 | done]. Qed.

Lemma names_apart ids i id x y :
  distinct_names (ids ++ [id]) -> i ∈ ids -> x ∈ component_names i -> y ∈ component_names id -> x <> y.
Proof.
  unfold distinct_names. rewrite fmap_app, concat_app, NoDup_app. intros (_ & Hd & _) Hi Hx Hy ->.
  apply (Hd y); [by eapply names_in | by rewrite (list_fmap_singleton component_names), concat_cons, app_nil_r].
Qed.

Lemma longer_name x e : e <> "" -> x <> x +:+ e.
Proof.
  intros He E. apply He, (inj (String.append x)). rewrite <- E. clear E. induction x as [| b x IH]; [done |].
  change (String.String b x = String.String b (String.append x "")). by rewrite <- IH.
Qed.

Lemma names_of_one x : distinct_names [x].
Proof.
  pose proof (longer_name x) as Hx.
  unfold distinct_names. cbn [fmap list_fmap concat]. rewrite app_nil_r. unfold component_names.
  rewrite !NoDup_cons, !elem_of_cons, !elem_of_nil. split_and!; [| | tauto | apply NoDup_nil_2].
  - intros [E | [E | []]]; by eapply Hx in E.
  - intros [E%(inj (String.append x)) | []]. done.
Qed.

Lemma names_self id : id <> id +:+ ".sha256" /\ id <> id +:+ ".crc32c" /\ id +:+ ".sha256" <> id +:+ ".crc32c".
Proof.
  pose proof (names_of_one id) as Hn. unfold distinct_names in Hn. cbn [fmap list_fmap concat] in Hn.
  rewrite app_nil_r in Hn. unfold component_names in Hn. rewrite !NoDup_cons in Hn. set_solver.
Qed.

(** A name is not among those of the component called after its checksum. *)
Lemma not_above_self x : x ∉ component_names (x +:+ ".crc32c").
Proof.
  assert (Ha : forall e, String.append (x +:+ ".crc32c") e = x +:+ (".crc32c" +:+ e)).
  { intros e. induction x as [| b x IH]; [done |].
    change (String.String b (String.append (x +:+ ".crc32c") e) = String.String b (x +:+ (".crc32c" +:+ e))). by rewrite IH. }
  unfold component_names. rewrite !Ha, !not_elem_of_cons.
  split_and!; [by apply longer_name.. | apply not_elem_of_nil].
Qed.

(** The files of the other components stay. *)
Definition spares_others (c : ComponentEntry) (img img' : gmap path node) : Prop :=
  forall name n, name ∉ component_names (segment_of c) ->
    img !! ["components"; name] = Some n -> img' !! ["components"; name] = Some n.

(** The four files of a component. *)
Lemma component_placed staging c s x y P fs :
  sr_relative_path (ce_storage_representation c) = "components/" +:+ segment_of c -> P s ->
  let fs' := <[staging ++ ["integrity"; segment_of c +:+ ".sha256"] := File x]>
    (<[staging ++ ["components"; segment_of c +:+ ".sha256"] := File y]>
    (<[staging ++ ["components"; segment_of c +:+ ".crc32c"] := File (line (crc_text (crc32c s)))]>
    (<[staging ++ ["components"; segment_of c] := File s]> fs))) in
  at_rest (subtree staging fs') c P /\ spares_others c (subtree staging fs) (subtree staging fs') /\
  (forall name b, subtree staging fs !! [name] = Some (File b) -> subtree staging fs' !! [name] = Some (File b)).
Proof.
  intros Hrel HP fs'. subst fs'. pose proof (names_self (segment_of c)) as (Ha & Hcrc & Hsha).
  rewrite !subtree_insert. split; [| split].
  - split; [exact Hrel |]. exists s.
    rewrite lookup_insert_ne, lookup_insert_ne, lookup_insert_ne, lookup_insert_eq by congruence.
    rewrite lookup_insert_ne, lookup_insert_ne, lookup_insert_eq by congruence. by repeat split.
  - unfold spares_others, component_names. intros name n. rewrite !not_elem_of_cons. intros (? & ? & ? & _) Hf. by rewrite !lookup_insert_ne by congruence.
  - intros name b Hf. by rewrite !lookup_insert_ne.
Qed.

Lemma spares_keeps staging ids c fs fs' :
  distinct_names (ids ++ [segment_of c]) -> spares_others c (subtree staging fs) (subtree staging fs') ->
  (forall name b, subtree staging fs !! [name] = Some (File b) -> subtree staging fs' !! [name] = Some (File b)) ->
  keeps_stored staging ids fs fs'.
Proof.
  intros Hn Hs Hf. split; [| exact Hf]. intros c' P Hc' [Hr (s & Hp & Hc & HP)]. split; [exact Hr |]. exists s.
  split; [| split; [| exact HP]]; apply Hs; try done; intros Hin;
    (eapply (names_apart ids (segment_of c')); [exact Hn | exact Hc' | | exact Hin | reflexivity]); unfold component_names; set_solver.
Qed.

(** [c] was written: it is stored, and the files of the others are as they were. *)
Record adds (c : ComponentEntry) (img img' : gmap path node) : Prop := {
  ad_stored : stored img' c;
  ad_others : spares_others c img img'
}.

Lemma write_component_adds staging spec cid payload cspec d :
  ps_component_id spec = cid ->
  ensures (write_component_payload staging cid payload cspec)
    (fun repr d' => adds (component_entry spec repr (sha256_hex payload)) (subtree staging (dk_fs d)) (subtree staging (dk_fs d'))) d.
Proof.
  intros Hid. unfold write_component_payload, payload_path.
  eapply ensures_bind, ensures_conseq; [apply ensures_create |]. intros [] d1 G1.
  eapply ensures_bind, ensures_conseq; [apply ensures_create |]. intros [] d2 G2.
  apply ensures_bind, ensures_lift. intros s Hs.
  change (["components"; sanitize_segment cid]) with (["components"] ++ [sanitize_segment cid]).
  rewrite (assoc_L (++)), !sidecar_last, <- !(assoc_L (++)). cbn [app].
  do 4 (eapply ensures_bind, ensures_conseq; [apply ensures_write |]; intros [] ? ?). apply ensures_ret.
  repeat match goal with E : dk_fs _ = <[_ := _]> _ |- _ => rewrite E; clear E end.
  pose proof (names_self (sanitize_segment cid)) as (_ & _ & Hne).
  rewrite (insert_insert_ne _ (staging ++ ["components"; _ +:+ ".crc32c"]) (staging ++ ["components"; _ +:+ ".sha256"]))
    by (intros E; apply app_inv_head in E; congruence).
  match goal with |- adds ?x _ _ => set (c := x) end.
  assert (Hseg : sanitize_segment cid = segment_of c) by by rewrite <- Hid. rewrite Hseg.
  destruct (component_placed staging c s (line (sha256_hex payload)) (line (sha256_hex s)) (is_stored c) (dk_fs d2))
    as (Hst & Hk & _); [by rewrite <- Hseg | by split; [| exists payload, cspec] |].
  split; [exact Hst |]. intros name n Hname E. apply Hk; [exact Hname |].
  apply (subtree_grown staging) in G1, G2. by apply (carried_mono _ _ G2), (carried_mono _ _ G1).
Qed.

(** *** Several components *)

(** The components were written one after another. *)
Inductive wrote : list ComponentEntry -> gmap path node -> gmap path node -> Prop :=
  | wrote_none img img' : carried img img' -> wrote [] img img'
  | wrote_next c cs img img1 img' : adds c img img1 -> wrote cs img1 img' -> wrote (c :: cs) img img'.

Lemma wrote_carried cs img img1 img' : wrote cs img img1 -> carried img1 img' -> wrote cs img img'.
Proof. induction 1 as [img img1 Hc | ? ? ? ? ? Ha ? IH]; intros Hc'; econstructor; eauto. by etrans. Qed.

Lemma wrote_spares cs img img' name n :
  wrote cs img img' -> (forall d, d ∈ cs -> name ∉ component_names (segment_of d)) ->
  img !! ["components"; name] = Some n -> img' !! ["components"; name] = Some n.
Proof.
  induction 1 as [img img' Hc | c cs img img1 img' Ha Hw IH]; intros Hn E; [by apply Hc |].
  apply IH; [intros d Hd; apply Hn; by right |]. apply (ad_others _ _ _ Ha); [apply Hn; by left | exact E].
Qed.

Lemma wrote_split l1 c l2 img img' :
  wrote (l1 ++ c :: l2) img img' -> exists img1, stored img1 c /\ wrote l2 img1 img'.
Proof.
  revert img. induction l1 as [| d l1 IH]; intros img Hw; inversion Hw as [| ? ? ? img1 ? Ha Hw']; subst; [| by eapply IH].
  exists img1. by split; [apply Ha |].
Qed.

Lemma wrote_stored cs img img' :
  wrote cs img img' -> distinct_names (segment_of <$> cs) -> Forall (stored img') cs.
Proof.
  induction 1 as [| c cs img img1 img' Ha Hw IH]; intros Hn; constructor.
  - unfold distinct_names in Hn. rewrite !fmap_cons, concat_cons in Hn. apply NoDup_app in Hn as (_ & Hn & _).
    destruct (ad_stored _ _ _ Ha) as [Hr (s & Hf & Hc & Hs)]. split; [exact Hr |]. exists s.
    split; [| split; [| exact Hs]]; (eapply wrote_spares; [exact Hw | | done]); intros d Hd Hin;
      (eapply Hn; [| eapply names_in; [apply list_elem_of_fmap_2; exact Hd | exact Hin]]); unfold component_names; set_solver.
  - apply IH. unfold distinct_names in *. rewrite !fmap_cons, concat_cons in Hn. by apply NoDup_app in Hn as (_ & _ & ?).
Qed.

(** *** A name that clashes *)

(** The file of [c] and the file that is both the checksum of [c] and the payload of
    [c']: whichever of the two was written first. *)
Definition clash (c c' : ComponentEntry) (img : gmap path node) : Prop :=
  sr_relative_path (ce_storage_representation c) = "components/" +:+ segment_of c /\
  sr_relative_path (ce_storage_representation c') = "components/" +:+ segment_of c' /\
  exists s s' f, is_stored c s /\ is_stored c' s' /\
    img !! ["components"; segment_of c] = Some (File s) /\ img !! ["components"; segment_of c'] = Some (File f) /\
    (f = s' \/ f = line (crc_text (crc32c s))).

Lemma wrote_clash cs img img' c c' :
  wrote cs img img' -> c ∈ cs -> c' ∈ cs -> segment_of c' = segment_of c +:+ ".crc32c" ->
  NoDup (segment_of <$> cs) ->
  (forall d, d ∈ cs -> segment_of d <> segment_of c -> segment_of d <> segment_of c' ->
     (segment_of c ∉ component_names (segment_of d)) /\ (segment_of c' ∉ component_names (segment_of d))) ->
  clash c c' img'.
Proof.
  intros Hw Hc Hc' Hseg Hnd Hothers. pose proof (names_self (segment_of c)) as (_ & Hne & _). rewrite <- Hseg in Hne.
  assert (Hself : segment_of c ∉ component_names (segment_of c')) by (rewrite Hseg; apply not_above_self).
  apply list_elem_of_split in Hc as (l1 & l2 & ->). rewrite fmap_app, fmap_cons in Hnd.
  pose proof Hnd as Htail. apply NoDup_app in Htail as (_ & _ & [Hnot Hnd2]%NoDup_cons).
  assert (Hl2 : forall d, d ∈ l2 -> segment_of d <> segment_of c).
  { intros d Hd E. apply Hnot. rewrite <- E. by apply list_elem_of_fmap_2. }
  destruct (wrote_split _ _ _ _ _ Hw) as (img1 & [Hrel (s & Hf & Hcrc & Hs)] & Hw2). rewrite <- Hseg in Hcrc.
  apply elem_of_app in Hc' as [Hc' | [-> | Hc']%elem_of_cons]; [| done |];
    apply list_elem_of_split in Hc' as (m1 & m2 & ->).
  - rewrite <- (assoc_L (++)) in Hw. cbn [app] in Hw.
    destruct (wrote_split _ _ _ _ _ Hw) as (img2 & [Hrel' (s' & _ & _ & Hs')] & _).
    assert (Hl2' : forall d, d ∈ l2 -> segment_of d <> segment_of c').
    { intros d Hd E. apply NoDup_app in Hnd as (_ & Hnd & _). apply (Hnd (segment_of c')).
      - apply list_elem_of_fmap_2, elem_of_app. right. by left.
      - rewrite <- E. right. by apply list_elem_of_fmap_2. }
    split; [exact Hrel |]. split; [exact Hrel' |]. exists s, s', (line (crc_text (crc32c s))).
    split; [exact Hs |]. split; [exact Hs' |].
    split; [| split; [| by right]]; (eapply wrote_spares; [exact Hw2 | | done]); intros d Hd; apply Hothers; auto;
      apply elem_of_app; right; by right.
  - destruct (wrote_split _ _ _ _ _ Hw2) as (img2 & [Hrel' (s' & Hf' & _ & Hs')] & Hw3).
    rewrite fmap_app, fmap_cons in Hnd2. apply NoDup_app in Hnd2 as (_ & Hdis & [Hnot' _]%NoDup_cons).
    split; [exact Hrel |]. split; [exact Hrel' |]. exists s, s', s'. split; [exact Hs |]. split; [exact Hs' |].
    split; [| split; [| by left]].
    + eapply wrote_spares; [exact Hw2 | | exact Hf]. intros d Hd. destruct (decide (segment_of d = segment_of c')) as [-> | Hne'];
        [exact Hself |]. apply Hothers; auto. apply elem_of_app; right; by right.
    + eapply wrote_spares; [exact Hw3 | | exact Hf']. intros d Hd. apply Hothers.
      * apply elem_of_app; right; right. apply elem_of_app; right; by right.
      * apply Hl2, elem_of_app. right. by right.
      * intros E. apply Hnot'. rewrite <- E. by apply list_elem_of_fmap_2.
Qed.
End stored.

(** ** The node *)

Section node_calls.
Context {App : Type}.
Context `{DiskEnv, Crc32c, Sha256, HexCodec, Zstd, ManifestCodec, NodeTexts, PeerRpc}.

Definition fs_of (w : NodeWorld (App := App)) : Fs := dk_fs (aw_disk (nw_app w)).

Lemma ensures_disk {A} (m : M Disk A) (Q : A -> Fs -> Prop) (w : NodeWorld (App := App)) :
  ensures m (fun a d' => Q a (dk_fs d')) (aw_disk (nw_app w)) -> ensures (disk m) (fun a w' => Q a (fs_of w')) w.
Proof.
  unfold ensures, disk, in_app, on_disk. destruct w as [[d a] n]. cbn. by destruct (m d) as [[x | e |] d'].
Qed.

Lemma ensures_node_set (f : NodeState -> NodeState) (Q : Fs -> Prop) (w : NodeWorld (App := App)) :
  Q (fs_of w) -> ensures (node_set f) (fun _ w' => Q (fs_of w')) w.
Proof. done. Qed.

(** What changes neither files nor providers. *)
Lemma ensures_disk_now (w : NodeWorld (App := App)) :
  ensures (disk disk_now_ms) (fun _ w' => fs_of w' = fs_of w) w.
Proof. by destruct w as [[d a] n]. Qed.

Lemma ensures_leaves {A} p (m : M (AppWorld App) A) (w : NodeWorld (App := App)) :
  leaves p m -> ensures (in_app m) (fun _ w' => same_below p (fs_of w) (fs_of w')) w.
Proof.
  intros Hm. destruct w as [a n]. specialize (Hm (dk_fs (aw_disk a)) a ltac:(by intros q)).
  unfold ensures, in_app. cbn. by destruct (m a) as [[x | e |] a'].
Qed.

(** The disk of a node is at rest with the files [fs]. *)
Definition asleep (fs : Fs) (w : NodeWorld (App := App)) : Prop := quiet_at fs (aw_disk (nw_app w)).

Definition returns_disk {A} fs (m : M Disk A) (a : A) : Prop :=
  returns (asleep fs) (disk m) a.

Lemma returns_disk_of {A} fs (m : M Disk A) (a : A) : returns (quiet_at fs) m a -> returns_disk fs m a.
Proof.
  intros Hm [[d app] n] Hd. destruct (Hm d Hd) as (d' & E & Hd'). cbn in *.
  exists (mkNodeWorld (mkAppWorld d' app) n). unfold disk, in_app, on_disk. cbn. by rewrite E.
Qed.

(** *** Capture *)

Lemma capture_component_adds ctx (pv : CaptureProvider App) (w : NodeWorld (App := App)) :
  let staging := cx_staging_dir ctx in
  respects staging pv ->
  ensures (capture_component ctx pv) (fun c w' => adds c (subtree staging (fs_of w)) (subtree staging (fs_of w'))) w.
Proof.
  intros staging Hp. unfold capture_component.
  eapply ensures_bind, ensures_conseq; [by apply (ensures_leaves staging), rs_capture |]. intros payload w1 H1'.
  eapply ensures_bind, ensures_conseq; [by apply (ensures_leaves staging), rs_verify |]. intros [] w2 H2'.
  pose proof (same_below_trans _ _ _ _ H1' H2') as Hb. apply (subtree_below _ []) in Hb. rewrite app_nil_r in Hb.
  rewrite <- Hb. eapply ensures_bind, ensures_conseq.
  { apply (ensures_disk _ (fun repr fs => adds (component_entry (pv_spec pv) repr (sha256_hex payload))
      (subtree staging (fs_of w2)) (subtree staging fs))). by apply write_component_adds. }
  intros repr w3 Ha. by apply ensures_ret.
Qed.

Lemma capture_components_wrote ctx (ps : list (CaptureProvider App)) (w : NodeWorld (App := App)) :
  let staging := cx_staging_dir ctx in
  Forall (respects staging) ps ->
  ensures (capture_components ctx ps) (fun cs w' => wrote cs (subtree staging (fs_of w)) (subtree staging (fs_of w'))) w.
Proof.
  intros staging Hps. revert w. induction Hps as [| pv ps Hp Hps IH]; intros w; cbn [capture_components].
  { apply ensures_ret, wrote_none. reflexivity. }
  eapply ensures_bind, ensures_conseq; [by apply capture_component_adds |]. intros c w1 Hc.
  eapply ensures_bind, ensures_conseq; [by apply IH |]. intros cs w2 Hcs.
  apply ensures_ret. exact (wrote_next _ _ _ _ _ Hc Hcs).
Qed.

Lemma keeps_hosted_disk {A} p (m : M Disk A) : keeps (fun w => hosted (App := App) p (nw_node w)) (disk m).
Proof. intros [[d a] n] Hn. unfold disk, in_app, on_disk. cbn. by destruct (m d). Qed.

Lemma keeps_hosted_fresh p staging : keeps (fun w => hosted (App := App) p (nw_node w)) (fresh_staging staging).
Proof.
  unfold fresh_staging, lease_staging.
  repeat first [apply keeps_hosted_disk | apply keeps_bind; intros | apply keeps_ret | by intros [? ?] ? |
                match goal with |- keeps _ (if ?b then _ else _) => destruct b end].
Qed.

Context (self : NodeRuntime).

Lemma do_capture_wrote req (w : NodeWorld (App := App)) :
  let staging := staging_dir (nr_storage self) (ncq_attempt_id req) in
  hosted staging (nw_node w) ->
  ensures (do_capture self req)
    (fun res w' => ncr_ok res = true -> exists img, wrote (ncr_components res) img (subtree staging (fs_of w'))) w.
Proof.
  intros staging Hh. unfold do_capture. fold staging.
  eapply ensures_bind, (ensures_keeps (fun w => hosted staging (nw_node w))); [apply keeps_hosted_fresh | done |].
  intros _ w1 Hh1. apply ensures_bind. unfold ensures at 1, node_get.
  pose proof (select_respects staging (ncq_workload_id req) (ncq_components req) (nw_node w1)) as Hsel.
  destruct (select_providers _ _ _) as [ps | e].
  all: apply ensures_bind, ensures_any; intros prepared w2; apply ensures_bind, ensures_attempt;
    [| intros e' w3; repeat (apply ensures_bind, ensures_any; intros ? ?); by apply ensures_ret].
  2: done.
  specialize (Hsel ps Hh1 eq_refl).
  apply ensures_bind, ensures_lift. intros ? [= <-]. apply ensures_bind, ensures_lift. intros [] _.
  apply ensures_bind, ensures_any. intros ack w3. set (ctx := mkCaptureContext _ _ _ _ _).
  eapply ensures_bind, ensures_conseq; [by apply (capture_components_wrote ctx ps) |].
  intros cs w4 Hst. apply ensures_ret. unfold ensures, node_set, mbind, M_bind. cbn. intros _. eexists. exact Hst.
Qed.

(** *** Promotion *)

(** A committed checkpoint that agrees with the bytes of its manifest. *)
Definition anchored (img : gmap path node) (bytes : list byte) : Prop :=
  img !! [] = Some Dir /\ img !! ["manifest"] = Some (File bytes) /\ img !! ["manifest.digest"] = Some (File (line (sha256_hex bytes))).

Lemma ensures_promote staging id (w : NodeWorld (App := App)) :
  apart staging (commit_dir (nr_storage self) id) -> apart staging (checkpoints_dir (nr_storage self)) ->
  ensures (disk (promote staging (commit_dir (nr_storage self) id)))
    (fun _ w' => promoted staging (commit_dir (nr_storage self) id) (fs_of w) (fs_of w')) w.
Proof.
  intros Ha Hc. apply (ensures_disk _ (fun _ => promoted staging _ (fs_of w))).
  pose proof (promote_spec _ staging id (aw_disk (nw_app w)) Ha Hc) as Hp.
  unfold ensures, run in *. by destruct (promote _ _ _) as [[u | e |] d'].
Qed.

Lemma ensures_disk_write p content (w : NodeWorld (App := App)) :
  ensures (disk (write p content)) (fun _ w' => fs_of w' = <[p := File content]> (fs_of w)) w.
Proof. apply (ensures_disk _ (fun _ fs => fs = <[p := File content]> (fs_of w))), ensures_write. Qed.

Lemma ensures_disk_append p content (w : NodeWorld (App := App)) :
  ensures (disk (append p content)) (fun _ w' => exists c, fs_of w' = <[p := File c]> (fs_of w)) w.
Proof. apply (ensures_disk _ (fun _ fs => exists c, fs = <[p := File c]> (fs_of w))), ensures_append. Qed.

Lemma ensures_disk_create p (w : NodeWorld (App := App)) :
  ensures (disk (create_dir_all p)) (fun _ w' => grown p (fs_of w) (fs_of w')) w.
Proof. apply (ensures_disk _ (fun _ => grown p (fs_of w))), ensures_create. Qed.

Lemma ensures_disk_reader {A} (m : M Disk A) (w : NodeWorld (App := App)) :
  reader m -> ensures (disk m) (fun _ w' => fs_of w' = fs_of w) w.
Proof. intros Hm. apply (ensures_disk _ (fun _ fs => fs = fs_of w)). by apply ensures_reader. Qed.

Lemma do_promote_installs req (w : NodeWorld (App := App)) :
  let staging := staging_dir (nr_storage self) (nmq_attempt_id req) in
  ensures (do_promote self req)
    (fun res w' => nmr_ok res = true ->
       let img := image (nr_storage self) (nmq_checkpoint_id req) (fs_of w') in
       anchored img (nmq_manifest_bytes req) /\
       carried (subtree staging (fs_of w)) img) w.
Proof.
  intros staging. unfold do_promote. fold staging.
  apply ensures_bind, ensures_lift. intros [] Hdigest%reject_if_Ok. bool_facts.
  apply ensures_bind, ensures_lift. intros m Hm. apply ensures_bind, ensures_lift. intros [] _.
  eapply ensures_bind, ensures_conseq; [apply ensures_disk_reader, reader_exists |]. intros b w0 E0.
  destruct b; [cbn [negb] | by apply ensures_ret].
  eapply ensures_bind, ensures_conseq; [apply ensures_disk_write |]. intros [] w1 E1.
  eapply ensures_bind, ensures_conseq; [apply ensures_disk_write |]. intros [] w2 E2.
  eapply ensures_bind, ensures_conseq; [apply ensures_disk_create |]. intros [] w3 G3.
  eapply ensures_bind, ensures_conseq; [apply ensures_disk_write |]. intros [] w4 E4.
  eapply ensures_bind, ensures_conseq; [apply ensures_disk_now |]. intros now w5 E5.
  eapply ensures_bind, ensures_conseq; [apply ensures_disk_append |]. intros [] w6 [c6 E6].
  eapply ensures_bind, ensures_attempt; [| intros e w'; by apply ensures_ret].
  eapply ensures_conseq; [apply ensures_promote; [apply staging_apart | apply staging_apart_checkpoints] |].
  intros [] w7 P7.
  eapply ensures_bind, ensures_conseq; [by apply (ensures_node_set _ (fun fs => fs = fs_of w7)) |].
  intros [] w8 E8. apply ensures_ret. intros _. unfold image. rewrite E8. destruct P7 as [_ Himg _ _ Hdir].
  assert (Hroot : subtree staging (fs_of w6) !! [] = Some Dir) by by rewrite <- Himg, lookup_subtree, app_nil_r.
  rewrite Himg. clear Himg. split; [split; [exact Hroot |] |]; clear Hroot.
  all: cbn beta in E5; rewrite E6, subtree_insert, E5, E4, subtree_insert; apply (subtree_grown staging) in G3;
    rewrite E2, subtree_insert, E1, subtree_insert, E0 in G3.
  - split; rewrite !lookup_insert_ne by done; eapply lookup_weaken; [| exact G3 | | exact G3].
    + by rewrite lookup_insert_ne, lookup_insert_eq.
    + by rewrite lookup_insert_eq, Hdigest.
  - do 2 (etrans; [| by apply carried_insert]). etrans; [| apply carried_mono, G3].
    by etrans; apply carried_insert.
Qed.

(** *** Replication *)

Lemma ensures_remote {A} (f : nat -> FabricResult A) (Q : A -> NodeWorld (App := App) -> Prop) w :
  (forall a t, f t = Ok a -> Q a w) -> ensures (remote f) Q w.
Proof. intros HQ. unfold remote. apply ensures_lift. intros a Ha. by eapply HQ. Qed.

Lemma ensures_append_to p old content (w : NodeWorld (App := App)) :
  fs_of w !! p = Some (File old) ->
  ensures (disk (append p content)) (fun _ w' => fs_of w' = <[p := File (old ++ content)]> (fs_of w)) w.
Proof.
  intros Hp. apply (ensures_disk _ (fun _ fs => fs = <[p := File (old ++ content)]> (fs_of w))).
  unfold fs_of in *. unfold ensures, append, change_file, fs_append, fs_write. rewrite Hp.
  destruct (disk_outcome _); cbn; [| done..]. by destruct (_ || _).
Qed.

(** The transfer ends within the fuel, and the file never exceeds the declared size. *)
Lemma fetch_chunks_bounded req addr c dest fuel offset content (w : NodeWorld (App := App)) :
  let size := sr_stored_size (ce_storage_representation c) in
  fs_of w !! dest = Some (File content) -> byte_len content = offset -> offset <= size < u64_max ->
  (Z.to_nat (size - offset) + 2 <= fuel)%nat ->
  ensures (fetch_chunks req addr c dest fuel offset)
    (fun out w' => out <> FetchOutOfFuel /\ exists content',
       fs_of w' = <[dest := File content']> (fs_of w) /\ byte_len content' <= size /\
       forall n, out = FetchDone n -> n = byte_len content') w.
Proof.
  intros size. revert offset content w. induction fuel as [| fuel IH]; intros offset content w Hf Ho Hs Hfuel; [lia |].
  cbn [fetch_chunks]. apply ensures_bind, ensures_remote. intros chunk t _.
  assert (Hid : <[dest := File content]> (fs_of w) = fs_of w) by by apply insert_id.
  unfold chunk_refused. fold size.
  destruct (fcr_ok chunk); cbn [negb].
  2: { apply ensures_ret. split; [done |]. exists content. rewrite Hid. split; [done |]. split; [lia | done]. }
  destruct (fcr_offset chunk =? offset); cbn [negb].
  2: { apply ensures_ret. split; [done |]. exists content. rewrite Hid. split; [done |]. split; [lia | done]. }
  destruct (_ || _) eqn:Ec.
  { apply ensures_ret. split; [done |]. exists content. rewrite Hid. split; [done |]. split; [lia | done]. }
  apply orb_false_iff in Ec as [Ep Ec%Z.ltb_ge].
  assert (Hlen : byte_len (content ++ fcr_bytes chunk) = saturating_add offset (byte_len (fcr_bytes chunk))).
  { unfold saturating_add, byte_len in *. rewrite length_app. lia. }
  eapply ensures_bind, ensures_conseq; [by apply ensures_append_to |]. intros [] w1 E1.
  destruct (fcr_last chunk) eqn:El.
  - apply ensures_ret. split; [done |]. exists (content ++ fcr_bytes chunk). split; [done |].
    split; [lia |]. intros n [= <-]. by rewrite Hlen.
  - assert (Hb : 0 < byte_len (fcr_bytes chunk)).
    { rewrite andb_true_r in Ep. unfold byte_len. destruct (fcr_bytes chunk); [done | cbn; lia]. }
    eapply ensures_conseq; [apply (IH _ (content ++ fcr_bytes chunk)) |].
    + by rewrite E1, lookup_insert_eq.
    + done.
    + lia.
    + unfold saturating_add in *. lia.
    + intros out w2 (Hout & content' & E2 & Hb2). split; [done |]. exists content'.
      by rewrite E2, E1, insert_insert_eq.
Qed.

Lemma fetch_component_intact req addr a c ids (w : NodeWorld (App := App)) :
  let staging := staging_dir (nr_storage self) a in
  distinct_names (ids ++ [segment_of c]) -> 0 <= sr_stored_size (ce_storage_representation c) < u64_max ->
  ensures (fetch_component req addr staging c)
    (fun out w' => out = None ->
       intact (subtree staging (fs_of w')) c /\ keeps_stored staging ids (fs_of w) (fs_of w')) w.
Proof.
  intros staging Hn Hsize. unfold fetch_component. destruct (negb _ || negb _) eqn:E.
  { apply ensures_bind, ensures_any. intros [] w'. by apply ensures_ret. }
  bool_facts. fold (segment_of c) in *. rename select (sr_relative_path _ = _) into Hrel. rewrite Hrel.
  change ("components/" +:+ ?s) with ("components" +:+ "/" +:+ s).
  rewrite safe_join_segment by (try apply sanitize_segment_safe; by vm_compute).
  apply ensures_bind, ensures_lift. intros dest [= <-].
  set (dest := staging ++ ["components"; segment_of c]).
  eapply ensures_bind, ensures_conseq; [apply ensures_disk_write |]. intros [] w1 E1.
  eapply ensures_bind, ensures_conseq.
  { apply (fetch_chunks_bounded req addr c dest (fetch_fuel c) 0 []); [by rewrite E1, lookup_insert_eq | done | done |].
    unfold fetch_fuel. lia. }
  intros [offset | error |] w2 (Hout & content & E2 & Hb & Hdone); [| | done].
  2: { apply ensures_bind, ensures_any. intros [] w'. by apply ensures_ret. }
  destruct (offset =? _) eqn:Eo; cbn [negb].
  2: { apply ensures_bind, ensures_any. intros [] w'. by apply ensures_ret. }
  apply ensures_bind. eapply (ensures_conseq _ _ (fun stored w' => stored = content /\ fs_of w' = fs_of w2)).
  { apply (ensures_disk _ (fun stored fs => stored = content /\ fs = fs_of w2)).
    unfold ensures, read, look. destruct (disk_outcome _); [| done..]. fold (fs_of w2).
    by rewrite E2, lookup_insert_eq. }
  intros ? w3 [-> E3]. destruct (bool_decide _) eqn:Eh; cbn [negb].
  2: { apply ensures_bind, ensures_any. intros [] w'. by apply ensures_ret. }
  do 3 (eapply ensures_bind, ensures_conseq; [apply ensures_disk_write |]; intros [] ? ?). apply ensures_ret. intros _.
  bool_facts. rewrite (Hdone offset eq_refl) in Eo.
  assert (Efs : fs_of w'1 = <[staging ++ ["integrity"; segment_of c +:+ ".sha256"] := File (line (ce_content_hash c))]>
    (<[staging ++ ["components"; segment_of c +:+ ".sha256"] := File (line (sha256_hex content))]>
    (<[staging ++ ["components"; segment_of c +:+ ".crc32c"] := File (line (crc_text (crc32c content)))]>
    (<[staging ++ ["components"; segment_of c] := File content]> (fs_of w))))).
  { subst dest. change (["components"; segment_of c]) with (["components"] ++ [segment_of c]) in *.
    rewrite (assoc_L (++)) in *. rewrite !sidecar_last in *. rewrite <- !(assoc_L (++)) in *. cbn [app] in *.
    repeat match goal with E : fs_of _ = _ |- _ => rewrite E; clear E end.
    rewrite insert_insert_eq. reflexivity. }
  rewrite Efs. destruct (component_placed staging c content (line (ce_content_hash c)) (line (sha256_hex content))
    (is_intact c) (fs_of w)) as (Hi & Hs & Hf); [done | by split |].
  split; [exact Hi | by apply spares_keeps with c].
Qed.

Definition sized (c : ComponentEntry) : Prop := 0 <= sr_stored_size (ce_storage_representation c) < u64_max.

Lemma fetch_components_intact req addr a cs ids (w : NodeWorld (App := App)) :
  let staging := staging_dir (nr_storage self) a in
  distinct_names (ids ++ (segment_of <$> cs)) -> Forall sized cs ->
  ensures (fetch_components req addr staging cs)
    (fun out w' => out = None ->
       Forall (intact (subtree staging (fs_of w'))) cs /\ keeps_stored staging ids (fs_of w) (fs_of w')) w.
Proof.
  intros staging Hn Hs. revert ids w Hn. induction Hs as [| c cs Hc Hs IH]; intros ids w Hn; cbn [fetch_components].
  { apply ensures_ret. intros _. split; [constructor | by apply keeps_stored_refl]. }
  rewrite fmap_cons in Hn. change (?x :: ?l) with ([x] ++ l) in Hn. rewrite (assoc_L (++)) in Hn.
  eapply ensures_bind, ensures_conseq; [apply (fetch_component_intact _ _ _ _ ids); [| exact Hc] |].
  { unfold distinct_names in *. rewrite fmap_app, concat_app in Hn. by apply NoDup_app in Hn as [Hn _]. }
  intros [r |] w1 H1'; [by apply ensures_ret |]. destruct (H1' eq_refl) as [Hi Hk].
  eapply ensures_conseq; [by apply IH |]. intros out w2 H2' Hout. destruct (H2' Hout) as [Hcs Hk2]. split.
  - constructor; [| done]. apply Hk2; [apply elem_of_app; right; by left | done].
  - by eapply keeps_stored_trans.
Qed.

Definition refuses (out : option NodeReplicateResult) : Prop := forall r, out = Some r -> npe_ok r = false.

Lemma drop_refuses staging req error (w : NodeWorld (App := App)) :
  ensures (drop_staging staging ;; mret (Some (replicate_refused req error))) (fun out _ => refuses out) w.
Proof. apply ensures_bind, ensures_any. intros [] w'. apply ensures_ret. by intros r [= <-]. Qed.

Lemma fetch_component_refuses req addr staging c (w : NodeWorld (App := App)) :
  ensures (fetch_component req addr staging c) (fun out _ => refuses out) w.
Proof.
  unfold fetch_component. destruct (negb _ || negb _); [apply drop_refuses |].
  apply ensures_bind, ensures_lift. intros dest _. apply ensures_bind, ensures_any. intros [] w1.
  apply ensures_bind, ensures_any. intros [offset | error |] w2; [| apply drop_refuses | done].
  destruct (negb _); [apply drop_refuses |]. apply ensures_bind, ensures_any. intros s w3.
  destruct (negb _); [apply drop_refuses |]. do 3 (apply ensures_bind, ensures_any; intros [] ?).
  by apply ensures_ret.
Qed.

Lemma fetch_components_refuse req addr staging cs (w : NodeWorld (App := App)) :
  ensures (fetch_components req addr staging cs) (fun out _ => refuses out) w.
Proof.
  revert w. induction cs as [| c cs IH]; intros w; cbn [fetch_components]; [by apply ensures_ret |].
  eapply ensures_bind, ensures_conseq; [apply fetch_component_refuses |]. intros [r |] w' Hr; [by apply ensures_ret | apply IH].
Qed.

Lemma do_replicate_installs req (w : NodeWorld (App := App)) :
  ensures (do_replicate self req)
    (fun res w' => npe_ok res = true ->
       exists bytes m, sha256_hex bytes = npl_expected_manifest_digest req /\ Manifest.parse bytes = Ok m /\
         mf_checkpoint_id m = npl_checkpoint_id req /\
         (distinct_names (segment_of <$> mf_components m) -> Forall sized (mf_components m) ->
          let img := image (nr_storage self) (npl_checkpoint_id req) (fs_of w') in
          anchored img bytes /\ Forall (intact img) (mf_components m))) w.
Proof.
  unfold do_replicate. set (staging := staging_dir _ _).
  apply ensures_bind, ensures_lift. intros addr _. apply ensures_bind, ensures_remote. intros [] t _.
  apply ensures_bind, ensures_remote. intros mresp t' _. destruct (fmr_ok mresp); [cbn [negb] | by apply ensures_ret].
  apply ensures_bind, ensures_lift. intros bytes _. destruct (bool_decide _) eqn:Ed; [cbn [negb] | by apply ensures_ret].
  apply ensures_bind, ensures_lift. intros m Hm. apply ensures_bind, ensures_lift. intros [] Hid%reject_if_Ok.
  bool_facts. apply ensures_bind, ensures_any. intros [] w0.
  eapply ensures_bind, ensures_conseq; [apply ensures_disk_write |]. intros [] w1 E1.
  eapply ensures_bind, ensures_conseq; [apply ensures_disk_write |]. intros [] w2 E2.
  eapply ensures_bind, ensures_conseq; [apply ensures_disk_write |]. intros [] w3 E3.
  destruct (bool_decide (fmr_components mresp = mf_components m)); cbn [negb].
  2: { apply ensures_bind, ensures_any. intros [] w'. by apply ensures_ret. }
  apply ensures_bind. eapply ensures_conseq.
  { apply ensures_and; [apply fetch_components_refuse |].
    instantiate (1 := fun out w' => distinct_names (segment_of <$> mf_components m) -> Forall sized (mf_components m) ->
    out = None -> Forall (intact (subtree staging (fs_of w'))) (mf_components m) /\ keeps_stored staging [] (fs_of w3) (fs_of w')).
    destruct (decide (distinct_names (segment_of <$> mf_components m))); [| by apply ensures_any].
    destruct (decide (Forall sized (mf_components m))); [| by apply ensures_any].
    eapply ensures_conseq; [by apply (fetch_components_intact _ _ _ _ []) | auto]. }
  intros [res |] w4 [Hrefuse H4']; [apply ensures_ret; by rewrite (Hrefuse res eq_refl) |].
  eapply ensures_bind, ensures_attempt; [| intros e w'; apply ensures_bind, ensures_any; intros [] w6; by apply ensures_ret].
  eapply ensures_conseq; [apply ensures_promote; [apply staging_apart | apply staging_apart_checkpoints] |].
  intros [] w5 [_ Himg _ _ Hdir].
  eapply ensures_bind, ensures_conseq; [by apply (ensures_node_set _ (fun fs => fs = fs_of w5)) |].
  intros [] w6 E6. apply ensures_ret. intros _. exists bytes, m. split; [done |]. split; [done |]. split; [done |].
  intros Hd Hs. destruct (H4' Hd Hs eq_refl) as [Hi [_ Hk]]. unfold image.
  assert (Hroot : subtree staging (fs_of w4) !! [] = Some Dir) by by rewrite <- Himg, lookup_subtree, app_nil_r.
  rewrite E6, Himg. split; [split; [exact Hroot |] | exact Hi]. rewrite E3, E2, E1, !subtree_insert in Hk. split; apply Hk; rewrite lookup_insert_ne by done.
  - by rewrite lookup_insert_ne, lookup_insert_eq.
  - by rewrite lookup_insert_eq.
Qed.

(** *** Verification *)

Lemma ends_look {A} (f : nat -> Fs -> option A) fs : ends (quiet_at fs) (look f) (fun _ => True).
Proof.
  intros [fs' t] [Hfs Hq]. cbn in *. subst fs'. unfold attempt, look. cbn. rewrite Hq by done.
  assert (Hnext : quiet_at fs (mkDisk fs (S t))) by (split; [done | cbn; intros; apply Hq; lia]).
  destruct (f t fs); by eexists _, _.
Qed.

Lemma ends_or_else {A} (m : M Disk A) fs a : ends (quiet_at fs) m (fun _ => True) -> ends (quiet_at fs) (or_else m a) (fun _ => True).
Proof.
  intros Hm. eapply ends_bind; [apply ends_attempt, Hm | intros r _ | done]. by apply (ends_lift _ (Ok _)).
Qed.

Lemma ends_map_err {A} (m : M Disk A) fs e : ends (quiet_at fs) m (fun _ => True) -> ends (quiet_at fs) (map_err m e) (fun _ => True).
Proof.
  intros Hm. eapply ends_bind; [apply ends_attempt, Hm | intros r _ | done]. by apply ends_lift.
Qed.

(** A call of the disk, of whatever result. *)
Ltac ends_call :=
  lazymatch goal with
  | |- ends _ (mret _) _ => by apply (ends_lift _ (Ok _))
  | |- ends _ (raise _) _ => by apply (ends_lift _ (Err _))
  | |- ends _ (lift _) _ => by apply ends_lift
  | |- ends _ (look _) _ => apply ends_look
  | |- ends _ (or_else _ _) _ => apply ends_or_else; ends_call
  | |- ends _ (map_err _ _) _ => apply ends_map_err; ends_call
  | |- ends _ (_ ≫= _) _ => apply ends_then; [ends_call | intros ?; ends_call | done]
  | |- ends _ (match ?b with _ => _ end) _ => destruct b; ends_call
  | |- ends _ _ _ => progress unfold verify_stored_file, read_to_string, crc32c_file, sha256_file, metadata_len, path_exists, read; ends_call
  end.

Lemma ends_verify_stored fs p hash size : ends (quiet_at fs) (verify_stored_file p hash size) (fun _ => True).
Proof. ends_call. Qed.

(** A text that passes for the checksum of [s]. *)
Definition passes_for (f s : list byte) : Prop := utf8_valid f = true /\ trim (text_of_bytes f) = crc_text (crc32c s).

(** A file is refused when what is next to it is no checksum of it, and when it has
    another hash. *)
Lemma refuses_checksum fs p s f hash size :
  fs !! p = Some (File s) -> fs !! sidecar p ".crc32c" = Some (File f) -> ~ passes_for f s ->
  ends (quiet_at fs) (verify_stored_file p hash size) is_refusal.
Proof.
  intros Hp Hf Hno. unfold verify_stored_file. apply ends_then; [ends_call | intros n | done].
  apply ends_then; [ends_call | intros [] | done].
  eapply ends_bind; [apply ends_returns, returns_exists; unfold sidecar_crc_path; by rewrite Hf | intros ? [= <-] | done].
  eapply (ends_bind _ _ _ is_refusal); [| by intros | done]. cbn [is_some].
  destruct (utf8_valid f) eqn:Hu.
  - eapply ends_bind; [apply ends_returns, returns_map_err | intros ? [= <-] | done].
    { eapply returns_bind; [by apply returns_read |]. cbn beta. rewrite Hu. apply returns_ret. }
    eapply ends_bind; [apply ends_returns | intros ? [= <-] | done].
    { eapply returns_bind; [by apply returns_read | apply returns_ret]. }
    apply ends_lift. rewrite bool_decide_eq_false_2; [done |]. intros E. by apply Hno.
  - eapply (ends_bind _ _ _ is_refusal); [| by intros | done]. unfold map_err.
    eapply ends_bind; [apply ends_attempt with (Q := is_refusal) | | done].
    + eapply ends_bind; [apply ends_returns; by apply returns_read | intros ? [= <-] | done]. rewrite Hu. by apply (ends_lift _ (Err _)).
    + intros r (r' & [= <-] & Hr). apply ends_lift. by destruct r.
Qed.

Lemma refuses_other fs p f hash size :
  fs !! p = Some (File f) -> sha256_hex f <> hash -> ends (quiet_at fs) (verify_stored_file p hash size) is_refusal.
Proof.
  intros Hp Hno. unfold verify_stored_file. apply ends_then; [ends_call | intros n | done].
  apply ends_then; [ends_call | intros [] | done]. apply ends_then; [ends_call | intros b | done].
  apply ends_then; [ends_call | intros [] | done].
  eapply ends_bind; [apply ends_returns | intros ? [= <-] | done].
  { eapply returns_bind; [by apply returns_read | apply returns_ret]. }
  apply ends_lift. by rewrite bool_decide_eq_false_2.
Qed.

Lemma lookup_image id fs r : image (nr_storage self) id fs !! r = fs !! (commit_dir (nr_storage self) id ++ r).
Proof. apply lookup_subtree. Qed.

Context (Hplain : forall l, plain (sha256_hex l)).

Lemma returns_verify_stored fs p s : fs !! p = Some (File s) ->
  fs !! sidecar p ".crc32c" = Some (File (line (crc_text (crc32c s)))) ->
  returns (quiet_at fs) (verify_stored_file p (sha256_hex s) (Some (byte_len s))) tt.
Proof.
  intros Hp Hc. unfold verify_stored_file.
  eapply returns_bind; [by apply returns_map_err, returns_len |]. cbn beta iota.
  rewrite Z.eqb_refl. eapply returns_bind; [apply returns_lift |].
  eapply returns_bind; [apply returns_exists; unfold sidecar_crc_path; by rewrite Hc |]. cbn beta iota.
  eapply returns_bind; [eapply returns_bind |].
  - apply returns_map_err, returns_line; [apply hex_of_plain | exact Hc].
  - eapply returns_bind; [eapply returns_bind; [by apply returns_read | apply returns_ret] |].
    cbn beta. rewrite trim_line, bool_decide_eq_true_2 by (done || apply hex_of_plain). apply returns_lift.
  - eapply returns_bind; [eapply returns_bind; [by apply returns_read | apply returns_ret] |].
    cbn beta. rewrite bool_decide_eq_true_2 by done. apply returns_lift.
Qed.

Lemma returns_failed_component id fs cs : Forall (intact (image (nr_storage self) id fs)) cs ->
  returns (asleep fs)
    (failed_component (commit_dir (nr_storage self) id) cs) None.
Proof.
  induction 1 as [| c cs Hc Hcs IH]; cbn [failed_component]; [apply returns_ret |].
  destruct Hc as [Hr (s & Hf & Hcrc & Hh & Hsz)]. rewrite Hr, Hh, Hsz.
  change ("components/" +:+ ?s) with ("components" +:+ "/" +:+ s).
  rewrite safe_join_segment by (try apply sanitize_segment_safe; by vm_compute).
  rewrite lookup_image in Hf, Hcrc.
  eapply returns_bind; [apply returns_attempt, returns_disk_of, returns_verify_stored; [exact Hf |] | exact IH].
  change (["components"; segment_of c]) with (["components"] ++ [segment_of c]).
  by rewrite (assoc_L (++)), sidecar_last, <- (assoc_L (++)).
Qed.

Lemma ends_disk {A} fs (m : M Disk A) Q : ends (quiet_at fs) m Q -> ends (asleep fs) (disk m) Q.
Proof.
  intros Hm [[d app] n] Hd. destruct (Hm d Hd) as (r & d' & E & HQ & Hd'). cbn in *.
  exists r, (mkNodeWorld (mkAppWorld d' app) n). split; [| by split]. revert E. unfold disk, in_app, on_disk, attempt.
  cbn. by destruct (m d) as [[x | e |] d1]; intros [= <- <-].
Qed.

(** The verification of [c] in [commit] refuses it. *)
Definition refused (commit : path) (fs : Fs) (c : ComponentEntry) : Prop :=
  forall p, safe_join commit (sr_relative_path (ce_storage_representation c)) = Ok p ->
    ends (quiet_at fs) (verify_stored_file p (sr_stored_hash (ce_storage_representation c))
      (Some (sr_stored_size (ce_storage_representation c)))) is_refusal.

(** One refused component is enough, whatever the others. *)
Lemma ends_failed_component commit fs cs :
  ends (asleep fs) (failed_component commit cs)
    (fun r => exists why, r = Ok why /\ forall c, c ∈ cs -> refused commit fs c -> why <> None).
Proof.
  induction cs as [| c cs IH]; cbn [failed_component].
  { apply (ends_lift _ (Ok None)). exists None. split; [done |]. by intros c ?%not_elem_of_nil. }
  destruct (safe_join _ _) as [p | e] eqn:Ep; [| apply (ends_lift _ (Ok (Some _))); by eexists].
  eapply ends_bind; [apply ends_attempt, ends_disk, ends_self, ends_verify_stored | | by intros e (? & ? & _)].
  intros r (r' & [= <-] & Hr). destruct r as [u | e]; [| apply (ends_lift _ (Ok (Some _))); by eexists].
  eapply ends_conseq; [exact IH |]. intros r (why & -> & Hwhy). exists why. split; [done |].
  intros c' [-> | Hin]%elem_of_cons Href; [| by eapply Hwhy]. by specialize (Hr _ (Href p Ep)).
Qed.

Lemma ends_verify req fs bytes m (Q : FabricResult (option string) -> Prop) :
  let img := image (nr_storage self) (nvq_checkpoint_id req) fs in
  anchored img bytes -> Manifest.parse bytes = Ok m -> nvq_expected_manifest_digest req = sha256_hex bytes ->
  (forall e, ~ Q (Err e)) ->
  ends (asleep fs) (failed_component (commit_dir (nr_storage self) (nvq_checkpoint_id req)) (mf_components m)) Q ->
  ends (asleep fs) (do_verify self req)
    (fun r => exists why, Q (Ok why) /\
       r = Ok (mkNodeVerifyResult (nvq_checkpoint_id req) (is_none why) why (Some (sha256_hex bytes)))).
Proof.
  intros img (_ & Hm & Hd) Hp He HQ Hcs. unfold do_verify. rewrite He. subst img. rewrite lookup_image in Hm, Hd.
  eapply ends_bind; [by apply ends_returns, returns_attempt, returns_disk_of, returns_read | intros ? [= <-] | done].
  cbn beta iota. rewrite Hp. eapply ends_bind; [by apply ends_returns, returns_lift | intros ? [= <-] | done].
  eapply ends_bind; [apply ends_returns | intros ? [= <-] | done].
  { eapply returns_bind; [by apply returns_attempt, returns_disk_of, returns_line | apply returns_ret]. }
  cbn beta iota. rewrite trim_line, !bool_decide_eq_true_2 by done. cbn [negb orb].
  eapply ends_bind; [exact Hcs | | by intros e ?%HQ]. intros why Hwhy. apply (ends_lift _ (Ok _)). by exists why.
Qed.

(** Where the names clash one of the two is refused, unless the second payload passes for
    the checksum of the first, or has the hash of that checksum. *)
Lemma clash_refused id fs c c' :
  clash c c' (image (nr_storage self) id fs) -> segment_of c' = segment_of c +:+ ".crc32c" ->
  exists s s', is_stored c s /\ is_stored c' s' /\
    (passes_for s' s \/ sha256_hex s' = sha256_hex (line (crc_text (crc32c s))) \/
     refused (commit_dir (nr_storage self) id) fs c \/ refused (commit_dir (nr_storage self) id) fs c').
Proof.
  intros (Hrel & Hrel' & s & s' & f & Hs & Hs' & Hc & Hc' & Hf) Hseg. exists s, s'. split; [exact Hs |]. split; [exact Hs' |].
  rewrite lookup_image in Hc, Hc'. unfold refused. rewrite Hrel, Hrel'.
  change ("components/" +:+ ?s) with ("components" +:+ "/" +:+ s).
  rewrite !safe_join_segment by (try apply sanitize_segment_safe; by vm_compute).
  destruct Hf as [-> | ->].
  - destruct (decide (utf8_valid s' = true /\ trim (text_of_bytes s') = crc_text (crc32c s))) as [Hp | Hp]; [by left |].
    right; right; left. intros p [= <-]. eapply refuses_checksum; [exact Hc | | exact Hp].
    change (["components"; segment_of c]) with (["components"] ++ [segment_of c]).
    by rewrite (assoc_L (++)), sidecar_last, <- (assoc_L (++)), <- Hseg.
  - destruct (decide (sha256_hex s' = sha256_hex (line (crc_text (crc32c s))))) as [Hh | Hh]; [by right; left |].
    right; right; right. intros p [= <-]. eapply refuses_other; [exact Hc' |].
    destruct Hs' as [[-> _] _]. congruence.
Qed.

(** *** Reading a component back *)

Lemma returns_payload id fs c max_bytes :
  ZstdLaws _ -> stored (image (nr_storage self) id fs) c -> is_u64 max_bytes ->
  sr_stored_size (ce_storage_representation c) <= max_bytes -> ce_logical_size c <= max_bytes ->
  exists payload, sha256_hex payload = ce_content_hash c /\ byte_len payload = ce_logical_size c /\
    returns (quiet_at fs) (read_component_payload (commit_dir (nr_storage self) id) (ce_storage_representation c)
      (ce_content_hash c) max_bytes) payload.
Proof.
  intros Hz [Hr (s & Hf & _ & [_ Hsz] & payload & spec & Hcomp & Hcodec & Ho & Hl & Hh)] Hm Hs Hp.
  exists payload. split; [by rewrite Hh |]. split; [by rewrite Hl |]. unfold read_component_payload. rewrite Hr.
  change ("components/" +:+ ?s) with ("components" +:+ "/" +:+ s).
  rewrite safe_join_segment by (try apply sanitize_segment_safe; by vm_compute).
  rewrite lookup_image in Hf. eapply returns_bind; [apply returns_lift |].
  eapply returns_bind; [by apply returns_read |]. cbn beta. rewrite Hsz in Hs.
  rewrite (proj2 (Z.ltb_ge _ _)) by done. eapply returns_bind; [apply returns_lift |].
  rewrite Hcodec. replace (from_str_strict _) with (Ok (cs_codec spec)) by by destruct (cs_codec spec).
  eapply returns_bind; [apply returns_lift |].
  change (decompress_bytes _ s max_bytes) with (decompress_bytes spec s max_bytes). rewrite Hl in Hp.
  rewrite (proj2 (decompress_compressed spec payload s max_bytes Hcomp Hm ltac:(unfold is_u64 in Hm; lia)) Hp).
  eapply returns_bind; [apply returns_lift |]. cbn beta. rewrite Ho, Hh, Z.eqb_refl, bool_decide_eq_true_2 by done.
  eapply returns_bind; [apply returns_lift |]. eapply returns_bind; [apply returns_lift |]. apply returns_ret.
Qed.
End node_calls.
