(* ===== verification/FsUndo.v ===== *)
(** The roll-back of a restore of files ([FsProvider]) from its journal: paths as text and as
    components, calls on a disk where each succeeds, and what [undo_restore] leaves. *)
From S2P Require Import Prelude Errors Ident Lifecycle Checkpoint Workload Compression Policy Compat.
From S2P Require Import Capture Json Restore Lineage Failpoints Tables Persist.
From S2P Require Import Manifest Messages Dispatch Frame Fs Integrity Storage Providers FsProvider.
From S2P Require Import Stored.
From Stdlib Require Import Strings.Ascii Strings.Byte.

(** ** Relative paths *)

Definition clean (c : string) : Prop := split_path c = [c] /\ c <> "" /\ c <> "." /\ c <> "..".

Lemma split_path_parts s c : c ∈ split_path s -> split_path c = [c].
Proof.
  revert c. induction s as [| a s IH]; cbn [split_path]; intros c.
  { intros [-> | []%not_elem_of_nil]%elem_of_cons. done. }
  case_bool_decide as Ea.
  - intros [-> | Hc]%elem_of_cons; [done | by apply IH].
  - destruct (split_path s) as [| p ps] eqn:Es.
    + intros [-> | []%not_elem_of_nil]%elem_of_cons. cbn [split_path]. by rewrite bool_decide_eq_false_2.
    + intros [-> | Hc]%elem_of_cons; [| by apply IH; right].
      cbn [split_path]. rewrite bool_decide_eq_false_2 by done. by rewrite (IH p) by by left.
Qed.

Lemma split_path_app a s : split_path a = [a] -> split_path (a +:+ "/" +:+ s) = a :: split_path s.
Proof.
  induction a as [| c a IH]; [done |]. cbn [split_path]. case_bool_decide as Ec; [by destruct a |].
  change (String c a +:+ "/" +:+ s) with (String c (a +:+ "/" +:+ s)). cbn [split_path].
  rewrite bool_decide_eq_false_2 by done. destruct (split_path a) as [| p ps] eqn:Ea.
  - destruct a as [| c' a]; cbn in Ea; [done |]. case_bool_decide; [done |]. by destruct (split_path a).
  - intros [= -> ->]. by rewrite IH.
Qed.

Lemma split_concat r : r <> [] -> Forall clean r -> split_path (relative_text r) = r.
Proof.
  unfold relative_text. intros Hr Hc. induction Hc as [| c r [Hs _] Hc IH]; [done |].
  destruct r as [| c' r]; [exact Hs |].
  change (String.concat "/" (c :: c' :: r)) with (c +:+ "/" +:+ String.concat "/" (c' :: r)).
  rewrite split_path_app by done. by rewrite IH.
Qed.

Lemma relative_components r : r <> [] -> Forall clean r -> path_components (relative_text r) = (false, r).
Proof.
  intros Hr Hc. unfold path_components. rewrite split_concat by done.
  assert (Hp : String.prefix "/" (relative_text r) = false).
  { destruct Hc as [| c r (Hs & Hc1 & _) Hc]; [done |]. destruct c as [| a c]; [done |].
    assert (Ha : a <> "/"%char) by (intros ->; discriminate Hs).
    assert (Htext : exists rest, relative_text (String a c :: r) = String a rest)
      by (destruct r; by eexists). destruct Htext as [rest ->].
    by destruct a as [[] [] [] [] [] [] [] []]. }
  rewrite Hp. f_equal.
  assert (Hf : List.filter (fun p => negb (bool_decide (p = "")) && negb (bool_decide (p = "."))) r = r).
  { clear Hr Hp. induction Hc as [| c r (_ & Hc1 & Hc2 & _) Hc IH]; [done |]. cbn [List.filter].
    by rewrite !bool_decide_eq_false_2, IH by done. }
  rewrite Hf. destruct Hc as [| c r (_ & Hc1 & Hc2 & _) Hc]; [done |].
  destruct c as [| a c]; [done |]. destruct a as [[] [] [] [] [] [] [] []]; try done. by destruct c.
Qed.

(** What a checked path is. *)
Record restorable (rel : string) (r : path) : Prop := {
  rp_components : (path_components rel).2 = r;
  rp_clean : Forall clean r;
  rp_head : head r <> Some RESTORE_JOURNAL_DIR
}.

Lemma checked_restorable rel r : checked_restore_relative rel = Ok r -> restorable rel r.
Proof.
  unfold checked_restore_relative. destruct (path_components rel) as [root cs] eqn:E.
  intros Hc. apply result_bind_Ok in Hc as ([] & Hc%reject_if_Ok & [= <-]).
  rewrite !orb_false_iff in Hc. destruct Hc as [[[_ _] Hdots] Hhead]. bool_facts. split; [by rewrite E | | done].
  rewrite existsb_false in Hdots. apply Forall_forall. intros c Hin. specialize (Hdots c Hin). bool_facts.
  unfold path_components in E. injection E as _ <-. apply elem_of_app in Hin as [Hin | Hin].
  - destruct (split_path rel) as [| p ps]; [by apply not_elem_of_nil in Hin |].
    destruct p as [| a p]; [by apply not_elem_of_nil in Hin |].
    assert (c = "."); [| naive_solver].
    destruct a as [[] [] [] [] [] [] [] []]; try by apply not_elem_of_nil in Hin. destruct p; [| by apply not_elem_of_nil in Hin].
    destruct (String.prefix "/" rel); [by apply not_elem_of_nil in Hin | by apply list_elem_of_singleton in Hin].
  - apply list_elem_of_In, List.filter_In in Hin as [Hin Hf]. apply list_elem_of_In in Hin. bool_facts.
    split; [by eapply split_path_parts |]. naive_solver.
Qed.

Lemma restorable_checked r : r <> [] -> Forall clean r -> head r <> Some RESTORE_JOURNAL_DIR ->
  checked_restore_relative (relative_text r) = Ok r.
Proof.
  intros Hr Hc Hh. unfold checked_restore_relative. rewrite relative_components by done.
  replace (bool_decide (relative_text r = "")) with false.
  2: { symmetry. apply bool_decide_eq_false. intros E. pose proof (split_concat r Hr Hc) as Hs. rewrite E in Hs.
       destruct Hc as [| c r (_ & Hc & _) _]; [done |]. cbn in Hs. congruence. }
  replace (existsb _ r) with false.
  2: { symmetry. apply existsb_false. intros c Hin. apply bool_decide_eq_false. rewrite Forall_forall in Hc.
       destruct (Hc c Hin) as (_ & _ & H1 & H2). by intros []. }
  rewrite bool_decide_eq_false_2 by done. done.
Qed.

Lemma checked_nonempty rel r : checked_restore_relative rel = Ok r -> r <> [].
Proof.
  unfold checked_restore_relative. destruct (path_components rel) as [root cs] eqn:E. intros Hc ->.
  apply result_bind_Ok in Hc as ([] & Hc%reject_if_Ok & [= ->]). rewrite !orb_false_iff in Hc.
  destruct Hc as [[[He ->] _] _]. bool_facts. unfold path_components in E. injection E as Hp Hcs.
  rewrite Hp in Hcs. apply app_eq_nil in Hcs as [Hlead Hf].
  destruct rel as [| a rel]; [done |]. cbn [split_path] in *.
  assert (Ha : a <> "/"%char) by (intros ->; by destruct rel). rewrite (bool_decide_eq_false_2 _ Ha) in *.
  assert (Hdot : forall ps, List.filter (fun p => negb (bool_decide (p = "")) && negb (bool_decide (p = "."))) ps = [] ->
            forall x, In x ps -> x = "" \/ x = ".").
  { intros ps Hps x Hx. destruct (decide (x = "")) as [| H1]; [by left |]. destruct (decide (x = ".")) as [| H2]; [by right |].
    exfalso. assert (Hin : In x []) by (rewrite <- Hps; apply List.filter_In; by rewrite !bool_decide_eq_false_2).
    done. }
  specialize (Hdot _ Hf). destruct (split_path rel) as [| p ps]; cbn in Hdot.
  - destruct (Hdot _ (or_introl eq_refl)) as [| [= ->]]; done.
  - destruct (Hdot _ (or_introl eq_refl)) as [| [= -> ->]]; done.
Qed.

(** ** File systems *)

(** What is there is in a directory. *)
Definition rooted (fs : Fs) : Prop :=
  fs !! [] = Some Dir /\ forall p x, is_Some (fs !! (p ++ [x])) -> fs !! p = Some Dir.

Lemma rooted_above fs p r : rooted fs -> r <> [] -> is_Some (fs !! (p ++ r)) -> fs !! p = Some Dir.
Proof.
  intros [_ Hw]. induction r as [| x r IH] using rev_ind; [done |]. intros _ Hs. rewrite (assoc_L (++)) in Hs.
  apply Hw in Hs. destruct r as [| y r]; [by rewrite app_nil_r in Hs |]. apply IH; [done | by eexists].
Qed.

Lemma create_dir_all_there p fs : (forall q, q ∈ ancestors p -> fs !! q = Some Dir) -> fs_create_dir_all p fs = Some fs.
Proof.
  unfold fs_create_dir_all, make_dirs. generalize (ancestors p). intros l Hl. induction l as [| q l IH]; [done |]. cbn.
  unfold make_dir at 2. rewrite Hl by by left. cbn. apply IH. intros x Hx. apply Hl. by right.
Qed.

(** ** Calls on a quiet disk *)

Section quiet.
Context `{DiskEnv}.
Implicit Types fs : Fs.

(** On a disk where every call succeeds, [m] returns [a] and makes [fs] [fs']. *)
Definition moves {A : Type} (fs : Fs) (m : M Disk A) (a : A) (fs' : Fs) : Prop :=
  forall d, quiet_at fs d -> exists d', m d = (Done a, d') /\ quiet_at fs' d'.

Lemma moves_bind {A B} fs fs1 fs2 (m : M Disk A) (k : A -> M Disk B) a b :
  moves fs m a fs1 -> moves fs1 (k a) b fs2 -> moves fs (m ≫= k) b fs2.
Proof.
  intros Hm Hk d Hd. destruct (Hm d Hd) as (d1 & E & Hd1). unfold mbind, M_bind. rewrite E. by apply Hk.
Qed.

Lemma moves_ret {A} fs (a : A) : moves fs (mret a) a fs.
Proof. apply returns_ret. Qed.

Lemma moves_lift {A} fs (r : FabricResult A) a : r = Ok a -> moves fs (lift r) a fs.
Proof. intros ->. apply returns_lift. Qed.

Lemma moves_attempt {A} fs (m : M Disk A) a fs' : moves fs m a fs' -> moves fs (attempt m) (Ok a) fs'.
Proof. intros Hm d Hd. destruct (Hm d Hd) as (d1 & E & Hd1). exists d1. unfold attempt. by rewrite E. Qed.

Lemma moves_map_err {A} fs (m : M Disk A) a e fs' : moves fs m a fs' -> moves fs (map_err m e) a fs'.
Proof. intros Hm. eapply moves_bind; [by apply moves_attempt | by apply moves_lift]. Qed.

Lemma moves_exists fs p : moves fs (path_exists p) (is_some (fs !! p)) fs.
Proof. by apply returns_exists. Qed.

Lemma moves_atomic fs (f : Fs -> option Fs) (fs' : Fs) : f fs = Some fs' -> moves fs (atomic f) tt fs'.
Proof.
  intros Hf [fs0 t] [<- Hq]. unfold atomic. cbn in *. rewrite Hq, Hf by done.
  eexists. split; [done |]. split; [done |]. cbn. intros. apply Hq. lia.
Qed.

Lemma moves_write fs p content :
  fs !! p <> Some Dir -> fs !! parent p = Some Dir -> moves fs (write p content) tt (<[p := File content]> fs).
Proof.
  intros Hp Hd [fs0 t] [<- Hq]. unfold write, change_file, fs_write, has_parent, is_dir. cbn in *.
  rewrite Hq, bool_decide_eq_false_2, bool_decide_eq_true_2 by done.
  eexists. split; [done |]. split; [done |]. cbn. intros. apply Hq. lia.
Qed.

Lemma moves_create fs p : (forall q, q ∈ ancestors p -> fs !! q = Some Dir) -> moves fs (create_dir_all p) tt fs.
Proof.
  intros Hp [fs0 t] [<- Hq]. unfold create_dir_all. cbn in *. rewrite Hq, create_dir_all_there by done.
  eexists. split; [done |]. split; [done |]. cbn. intros. apply Hq. lia.
Qed.

Lemma moves_when fs p (m : M Disk unit) fs' :
  (fs !! p = None -> fs' = fs) -> (is_Some (fs !! p) -> moves fs m tt fs') ->
  moves fs (exists_ ← path_exists p; if (exists_ : bool) then m else mret tt) tt fs'.
Proof.
  intros Hn Hs. eapply moves_bind; [apply moves_exists |]. destruct (fs !! p) as [n |] eqn:E; cbn.
  - apply Hs. by eexists.
  - rewrite Hn by done. apply moves_ret.
Qed.

Lemma moves_when_then {B} fs p (m : M Disk unit) (k : M Disk B) b fs' fs2 :
  (fs !! p = None -> fs' = fs) -> (is_Some (fs !! p) -> moves fs m tt fs') -> moves fs' k b fs2 ->
  moves fs (exists_ ← path_exists p; (if (exists_ : bool) then m else mret tt) ;; k) b fs2.
Proof.
  intros Hn Hs Hk. eapply moves_bind; [apply moves_exists |]. eapply moves_bind; [| exact Hk].
  destruct (fs !! p) as [n |] eqn:E; cbn; [apply Hs; by eexists | rewrite Hn by done; apply moves_ret].
Qed.

Lemma children_nil fs p : (forall x, fs !! (p ++ [x]) = None) -> children p fs = [].
Proof.
  intros Hc. unfold children. destruct (omap _ _) as [| x l] eqn:E; [done | exfalso].
  assert (Hx : x ∈ x :: l) by by left. rewrite <- E in Hx. apply list_elem_of_omap in Hx as ([q n] & Hin & Hx). cbn in Hx.
  destruct (strip p q) as [r |] eqn:Es; [| done]. apply strip_Some in Es as ->. destruct r as [| y [|]]; try done.
  injection Hx as ->. apply elem_of_map_to_list in Hin. by rewrite Hc in Hin.
Qed.

Context `{!DiskLaws _}.

Lemma moves_remove_if_empty fs p : is_file fs p = false ->
  exists fs', moves fs (remove_directory_if_empty p) tt fs' /\ (fs' = fs \/ fs' = delete p fs) /\
    ((forall x, fs !! (p ++ [x]) = None) -> fs' !! p = None).
Proof.
  intros Hp. set (listed := match fs !! p with Some Dir => Some (children p fs) | _ => None end).
  assert (Hlist : forall d, quiet_at fs d -> exists d' o, entries_of p d = (Done o, d') /\ quiet_at fs d' /\
    match o, listed with Some l, Some l' => l ≡ₚ l' | None, None => True | _, _ => False end).
  { intros [fs0 t] [<- Hq]. unfold entries_of, look, listed, is_file in *. cbn in *. rewrite Hq by done.
    destruct (fs0 !! p) as [[| b] |]; cbn; try done.
    all: do 2 eexists; split; [done |]; split; [split; [done |]; cbn; intros; apply Hq; lia |]; first [apply disk_order_perm | done]. }
  destruct (decide (listed = Some [])) as [E | E].
  - assert (Hd : fs !! p = Some Dir) by (unfold listed in E; by destruct (fs !! p) as [[| b] |]).
    exists (delete p fs). split; [| split; [by right | intros _; apply lookup_delete_eq]]. intros d Hq.
    destruct (Hlist d Hq) as (d1 & o & E1 & Hq1 & Ho). rewrite E in Ho. destruct o as [l |]; [| done].
    apply Permutation_nil_r in Ho as ->. unfold remove_directory_if_empty, mbind, M_bind. unfold attempt at 1. rewrite E1. cbn.
    assert (Hrm : moves fs (remove_dir p) tt (delete p fs)).
    { apply moves_atomic. unfold fs_remove_dir, is_dir. rewrite bool_decide_eq_true_2 by done. unfold listed in E. rewrite Hd in E.
      injection E as ->. done. }
    destruct (Hrm d1 Hq1) as (d2 & E2 & Hq2). exists d2. unfold attempt. by rewrite E2.
  - exists fs. split; [| split; [by left |]].
    + intros d Hq. destruct (Hlist d Hq) as (d1 & o & E1 & Hq1 & Ho). exists d1.
      unfold remove_directory_if_empty, mbind, M_bind. unfold attempt at 1. rewrite E1. cbn.
      destruct o as [[| x l] |]; try done. exfalso. destruct listed as [l' |]; [| done].
      apply Permutation_nil_l in Ho. congruence.
    + intros Hc. unfold listed, is_file in *. destruct (fs !! p) as [[| b] |]; try done. by rewrite children_nil in E.
Qed.
End quiet.

(** ** The roll-back of a journal *)

Section undo.
Context `{DiskEnv, !DiskLaws _, Sha256, HexCodec, FileCodec}.
Context (R : path) (attempt_id : string) (fs1 : Fs) (j : FilesystemRestoreJournal).
Implicit Types (fs : Fs) (F C : list path).

#[local] Abbreviation J := (journal_dir R).
#[local] Abbreviation jp := (journal_path R attempt_id).

Definition dest (rel : string) : path := R ++ (path_components rel).2.

(** The journal says what [fs1] has at the destinations. *)
Record recorded : Prop := {
  rc_rooted : rooted fs1;
  rc_file : forall rel prev, (rel, prev) ∈ fj_files j ->
    exists r, checked_restore_relative rel = Ok r /\ fs1 !! (R ++ r) = File <$> prev;
  rc_dir : forall rel, rel ∈ fj_created_dirs j ->
    exists r, checked_restore_relative rel = Ok r /\ fs1 !! (R ++ r) = None;
  rc_apart : forall rel prev rel', (rel, prev) ∈ fj_files j -> rel' ∈ fj_created_dirs j -> dest rel <> dest rel'
}.

(** Outside the journals, [fs] is [fs1] but for a file at [F] and a directory at [C]. *)
Definition between F C fs : Prop := forall q, ~ under J q ->
  (q ∈ F -> fs !! q = fs1 !! q \/ exists c, fs !! q = Some (File c)) /\
  (q ∈ C -> fs !! q = None \/ fs !! q = Some Dir) /\
  (q ∉ F -> q ∉ C -> fs !! q = fs1 !! q).

Definition dests (l : list (string * option (list byte))) : list path := (fun e => dest e.1) <$> l.
Definition all_files : list path := dests (fj_files j).
Definition all_dirs : list path := dest <$> fj_created_dirs j.

Definition same_journals fs fs' : Prop := forall q, under J q -> fs' !! q = fs !! q.

Lemma dest_checked rel r : checked_restore_relative rel = Ok r -> dest rel = R ++ r.
Proof. intros Hc%checked_restorable. unfold dest. by rewrite (rp_components _ _ Hc). Qed.

Lemma dest_journals rel r : checked_restore_relative rel = Ok r -> ~ under J (R ++ r).
Proof.
  intros Hc%checked_restorable. intros [s Hs]. unfold journal_dir in Hs. rewrite <- (assoc_L (++)) in Hs.
  apply app_inv_head in Hs as ->. by destruct (rp_head _ _ Hc).
Qed.

Lemma root_journals q : under q R -> ~ under J q.
Proof.
  intros [s ->] [s' Hs]. apply (f_equal length) in Hs. unfold journal_dir in Hs. rewrite !length_app in Hs. cbn in Hs. lia.
Qed.

Context (Hrec : recorded).

Lemma between_root fs q : fs1 !! R = Some Dir -> between all_files all_dirs fs -> q ∈ ancestors R -> fs !! q = Some Dir.
Proof.
  intros HR Hb [_ Hq]%elem_of_ancestors. destruct (Hb q (root_journals q Hq)) as (_ & _ & Hsame). rewrite Hsame.
  - destruct Hq as [s Hs]. destruct s as [| x s]; [rewrite app_nil_r in Hs; by subst |].
    apply (rooted_above _ _ (x :: s) (rc_rooted Hrec)); [done |]. rewrite <- Hs. by eexists.
  - intros ([rel prev] & -> & Hin)%list_elem_of_fmap. destruct (rc_file Hrec _ _ Hin) as (r & Hr & _). cbn in Hq.
    rewrite (dest_checked _ _ Hr) in Hq. apply checked_nonempty in Hr. destruct Hq as [s Hs]. rewrite <- (assoc_L (++)) in Hs.
    rewrite <- (app_nil_r R) in Hs at 1. apply app_inv_head in Hs. by destruct r.
  - intros (rel & -> & Hin)%list_elem_of_fmap. destruct (rc_dir Hrec _ Hin) as (r & Hr & _). cbn in Hq.
    rewrite (dest_checked _ _ Hr) in Hq. apply checked_nonempty in Hr. destruct Hq as [s Hs]. rewrite <- (assoc_L (++)) in Hs.
    rewrite <- (app_nil_r R) in Hs at 1. apply app_inv_head in Hs. by destruct r.
Qed.

(** What is a directory of [fs1] stays one. *)
Lemma between_dir fs F q : (forall f, f ∈ F -> f ∈ all_files) -> between F all_dirs fs -> ~ under J q ->
  fs1 !! q = Some Dir -> fs !! q = Some Dir.
Proof.
  intros HF Hb Hq Hd. destruct (Hb q Hq) as (_ & _ & Hsame). rewrite Hsame; [done | |].
  - intros ([rel prev] & -> & Hin)%HF%list_elem_of_fmap. destruct (rc_file Hrec _ _ Hin) as (r & Hr & Hf). cbn in Hd.
    rewrite (dest_checked _ _ Hr) in Hd. rewrite Hf in Hd. by destruct prev.
  - intros (rel & -> & Hin)%list_elem_of_fmap. destruct (rc_dir Hrec _ Hin) as (r & Hr & Hf).
    rewrite (dest_checked _ _ Hr) in Hd. congruence.
Qed.

Lemma between_file fs fs' F C p :
  between (p :: F) C fs -> p ∉ C -> fs' !! p = fs1 !! p -> (forall q, q <> p -> fs' !! q = fs !! q) -> between F C fs'.
Proof.
  intros Hb HC Hp Hne q Hq. destruct (decide (q = p)) as [-> | Hqp].
  - split; [by left | split; [done | done]].
  - destruct (Hb q Hq) as (Hf & Hd & Ho). rewrite Hne by done. split; [| split; [done |]].
    + intros Hin. apply Hf. by right.
    + intros Hn. apply Ho. by apply not_elem_of_cons.
Qed.

Lemma between_created fs fs' F C p :
  between F (p :: C) fs -> p ∉ F -> fs1 !! p = None -> fs' !! p = None -> (forall q, q <> p -> fs' !! q = fs !! q) ->
  between F C fs'.
Proof.
  intros Hb HF H1p Hp Hne q Hq. destruct (decide (q = p)) as [-> | Hqp].
  - split; [done |]. split; [by left | intros; congruence].
  - destruct (Hb q Hq) as (Hf & Hd & Ho). rewrite Hne by done. split; [done |]. split.
    + intros Hin. apply Hd. by right.
    + intros HqF Hn. apply Ho; [done |]. by apply not_elem_of_cons.
Qed.

Lemma dests_incl l : (forall e, e ∈ l -> e ∈ fj_files j) -> forall f, f ∈ dests l -> f ∈ all_files.
Proof. intros Hl f (e & -> & He)%list_elem_of_fmap. apply list_elem_of_fmap. exists e. auto. Qed.

(** What is above a destination that was there. *)
Lemma between_above fs F r x q : (forall f, f ∈ F -> f ∈ all_files) -> between F all_dirs fs ->
  ~ under J (R ++ r ++ [x]) -> is_Some (fs1 !! (R ++ r ++ [x])) -> under q (R ++ r) -> fs !! q = Some Dir.
Proof.
  intros HF Hb HJ Hs [t Ht]. apply (between_dir fs F); [done | done | |].
  - intros Hq. apply HJ. rewrite (assoc_L (++)), Ht. by do 2 (eapply under_trans; [| apply under_app]).
  - apply (rooted_above _ _ (t ++ [x]) (rc_rooted Hrec)); [by destruct t |].
    by rewrite (assoc_L (++)), <- Ht, <- (assoc_L (++)).
Qed.

Lemma undo_files_moves l : (forall e, e ∈ l -> e ∈ fj_files j) -> forall fs,
  between (dests l) all_dirs fs ->
  exists fs', moves fs (undo_files R l) tt fs' /\ between [] all_dirs fs' /\ same_journals fs fs'.
Proof.
  induction l as [| [rel prev] l IH]; intros Hl fs Hb.
  { exists fs. split; [apply moves_ret |]. by split. }
  assert (Hin : (rel, prev) ∈ fj_files j) by (apply Hl; by left).
  destruct (rc_file Hrec _ _ Hin) as (r & Hr & Hfile). pose proof (dest_checked _ _ Hr) as Hdest.
  pose proof (dest_journals _ _ Hr) as HJ. pose proof (dests_incl _ Hl) as HF.
  change (dests ((rel, prev) :: l)) with (dest rel :: dests l) in *. rewrite Hdest in Hb.
  assert (HC : R ++ r ∉ all_dirs).
  { rewrite <- Hdest. intros (rel' & E & Hin')%list_elem_of_fmap. by eapply (rc_apart Hrec). }
  set (fs2 := match prev with Some c => <[R ++ r := File c]> fs | None => delete (R ++ r) fs end).
  assert (H2p : fs2 !! (R ++ r) = fs1 !! (R ++ r)) by (unfold fs2; rewrite Hfile; destruct prev; by simplify_map_eq).
  assert (H2n : forall q, q <> R ++ r -> fs2 !! q = fs !! q) by (intros q Hq; unfold fs2; destruct prev; by simplify_map_eq).
  destruct (IH (fun e He => Hl e ltac:(by right)) fs2) as (fs' & Hm & Hb' & Hj); [by eapply between_file |].
  exists fs'. split; [| split; [exact Hb' |]].
  2: { intros q Hq. rewrite Hj, H2n by (try intros ->; done). done. }
  cbn [undo_files]. eapply moves_bind; [by apply moves_lift |]. eapply moves_bind; [| exact Hm].
  destruct (Hb (R ++ r) HJ) as (Hthere & _ & _). specialize (Hthere ltac:(by left)). rewrite Hfile in Hthere.
  unfold fs2. clear fs2 H2p H2n Hm Hj. destruct prev as [c |]; cbn in Hthere.
  - destruct (exists_last (checked_nonempty _ _ Hr)) as (r0 & x & ->).
    assert (Hup : forall q, under q (R ++ r0) -> fs !! q = Some Dir).
    { intros q. rewrite <- Hdest in Hb. eapply between_above; [exact HF | exact Hb | exact HJ |]. by rewrite Hfile. }
    assert (Hpar : parent (R ++ r0 ++ [x]) = R ++ r0) by (unfold parent; by rewrite (assoc_L (++)), removelast_last).
    eapply moves_bind; [apply moves_create | apply moves_write]; rewrite ?Hpar.
    + intros q [_ Hq]%elem_of_ancestors. by apply Hup.
    + destruct Hthere as [-> | [? ->]]; done.
    + by apply Hup.
  - apply moves_when.
    + intros Hn. by apply delete_id.
    + intros [n Hn]. apply moves_map_err, moves_atomic. unfold fs_remove_file, is_file.
      destruct Hthere as [E | [c E]]; rewrite E; congruence.
Qed.

Lemma below_journals rel r s : checked_restore_relative rel = Ok r -> ~ under J (R ++ r ++ s).
Proof.
  intros Hr Hu. pose proof (checked_nonempty _ _ Hr) as Hne. pose proof (checked_restorable _ _ Hr) as [_ _ Hhead].
  destruct Hu as [t Ht]. unfold journal_dir in Ht. rewrite <- (assoc_L (++)) in Ht. apply app_inv_head in Ht.
  destruct r as [| y r]; [done |]. injection Ht as -> _. done.
Qed.

(** A directory of the journal is empty when those below it are gone. *)
Lemma created_empty l c r fs : (forall e, e ∈ c :: l -> e ∈ fj_created_dirs j) -> Forall (deeper c) l ->
  checked_restore_relative c = Ok r -> between [] (dest <$> c :: l) fs -> forall x, fs !! ((R ++ r) ++ [x]) = None.
Proof.
  intros Hl Hd Hr Hb x. destruct (rc_dir Hrec c) as (r' & Hr' & Hnone); [apply Hl; by left |].
  rewrite Hr in Hr'. injection Hr' as <-. rewrite <- (assoc_L (++)).
  destruct (Hb (R ++ r ++ [x]) (below_journals _ _ _ Hr)) as (_ & _ & Ho). rewrite Ho; [| apply not_elem_of_nil |].
  2: { assert (Hlen : forall e, e ∈ c :: l -> (length (path_components e).2 <= length (path_components c).2)%nat).
    { intros e [-> | He]%elem_of_cons; [done |]. rewrite Forall_forall in Hd. exact (Hd e He). }
    intros (e & E & He)%list_elem_of_fmap. specialize (Hlen e He). unfold dest in E. apply app_inv_head in E.
    rewrite <- E, (rp_components _ _ (checked_restorable _ _ Hr)), length_app in Hlen. cbn in Hlen. lia. }
  rewrite (assoc_L (++)). destruct (fs1 !! ((R ++ r) ++ [x])) eqn:E; [| done].
  rewrite (proj2 (rc_rooted Hrec) (R ++ r) x) in Hnone by by eexists. done.
Qed.

Lemma undo_dirs_moves l : (forall c, c ∈ l -> c ∈ fj_created_dirs j) -> StronglySorted deeper l -> forall fs,
  between [] (dest <$> l) fs ->
  exists fs', moves fs (undo_dirs R l) tt fs' /\ between [] [] fs' /\ same_journals fs fs'.
Proof.
  induction l as [| c l IH]; intros Hl Hs fs Hb.
  { exists fs. split; [apply moves_ret |]. by split. }
  inversion Hs as [| ? ? Hs' Hd]. subst.
  destruct (rc_dir Hrec c) as (r & Hr & Hnone); [apply Hl; by left |].
  pose proof (created_empty l c r fs Hl Hd Hr Hb) as Hempty.
  pose proof (dest_checked _ _ Hr) as Hdest. pose proof (dest_journals _ _ Hr) as HJ.
  cbn [fmap list_fmap] in Hb. rewrite Hdest in Hb.
  destruct (Hb (R ++ r) HJ) as (_ & Hthere & _). specialize (Hthere ltac:(by left)).
  destruct (moves_remove_if_empty fs (R ++ r)) as (fs2 & Hm & Hor & Hgone).
  { unfold is_file. by destruct Hthere as [-> | ->]. }
  specialize (Hgone Hempty).
  assert (H2n : forall q, q <> R ++ r -> fs2 !! q = fs !! q).
  { intros q Hq. destruct Hor as [-> | ->]; [done |]. by rewrite lookup_delete_ne. }
  destruct (IH (fun e He => Hl e ltac:(by right)) Hs' fs2) as (fs' & Hm' & Hb' & Hj).
  { eapply between_created; [exact Hb | apply not_elem_of_nil | done | done | done]. }
  exists fs'. split; [| split; [exact Hb' |]].
  - cbn [undo_dirs]. eapply moves_bind; [by apply moves_lift |]. eapply moves_when_then; [| done | exact Hm'].
    intros Hn. destruct Hor as [-> | ->]; [done |]. by apply delete_id.
  - intros q Hq. rewrite Hj, H2n by (try intros ->; done). done.
Qed.

#[local] Instance deeper_total : Total deeper.
Proof. intros a b. unfold deeper. lia. Qed.
#[local] Instance deeper_trans : Transitive deeper.
Proof. intros a b c. unfold deeper. lia. Qed.

(** The journal of the attempt is on the disk. *)
Definition armed fs : Prop :=
  between all_files all_dirs fs /\ fs !! J = Some Dir /\ fs !! jp = Some (File (journal_to_vec j)).

(** Outside the journals, [fs'] is [fs1], but for a root the restore has made. *)
Definition undone fs' : Prop :=
  forall q, ~ under J q -> fs' !! q = fs1 !! q \/ (q = R /\ fj_root_created j = true /\ fs' !! q = None).

Lemma jp_journals : under J jp.
Proof. apply under_app. Qed.

Lemma remove_journal_moves fs : fs !! J = Some Dir -> (is_Some (fs !! jp) -> is_file fs jp = true) ->
  exists fs', moves fs (remove_restore_journal R attempt_id) tt fs' /\ (forall q, ~ under J q -> fs' !! q = fs !! q) /\
    fs' !! jp = None.
Proof.
  intros HJ Hjp. set (fs2 := delete jp fs).
  assert (HneJ : jp <> J) by (intros E; apply (f_equal length) in E; unfold journal_path in E; rewrite length_app in E; cbn in E; lia).
  assert (H2J : is_file fs2 J = false) by (unfold fs2, is_file; rewrite lookup_delete_ne by done; by rewrite HJ).
  destruct (moves_remove_if_empty fs2 J H2J) as (fs' & Hm & Hor & _). exists fs'. split; [| split].
  - unfold remove_restore_journal. eapply moves_when_then; [| | exact Hm].
    + intros Hn. by apply delete_id.
    + intros Hs. apply moves_atomic. unfold fs_remove_file. by rewrite Hjp.
  - intros q Hq. assert (q <> jp) by (intros ->; by destruct Hq; apply jp_journals).
    assert (q <> J) by (intros ->; by destruct Hq).
    destruct Hor as [-> | ->]; unfold fs2; by rewrite ?lookup_delete_ne by done.
  - destruct Hor as [-> | ->]; unfold fs2; [by rewrite lookup_delete_eq | by rewrite lookup_delete_ne, lookup_delete_eq by done].
Qed.

Lemma undo_restore_moves fs : is_file fs1 R = false -> armed fs ->
  exists fs', moves fs (undo_restore R attempt_id j) tt fs' /\ undone fs' /\ fs' !! jp = None.
Proof.
  intros HR (Hb & HJ & Hjp).
  destruct (undo_files_moves (reverse (fj_files j))) with (fs := fs) as (fs2 & Hm2 & Hb2 & Hj2).
  { intros e. by rewrite elem_of_reverse. }
  { intros q Hq. destruct (Hb q Hq) as (Hf & Hd & Ho). unfold dests. rewrite fmap_reverse. split; [| split; [done |]].
    - rewrite elem_of_reverse. auto.
    - rewrite elem_of_reverse. auto. }
  destruct (undo_dirs_moves (merge_sort deeper (fj_created_dirs j))) with (fs := fs2) as (fs3 & Hm3 & Hb3 & Hj3).
  { intros c. by rewrite merge_sort_Permutation. }
  { apply StronglySorted_merge_sort; apply _. }
  { intros q Hq. destruct (Hb2 q Hq) as (Hf & Hd & Ho). rewrite merge_sort_Permutation. by split. }
  destruct (remove_journal_moves fs3) as (fs4 & Hm4 & H4 & Hjp4).
  { by rewrite Hj3, Hj2. }
  { intros _. unfold is_file. by rewrite Hj3, Hj2, Hjp by apply jp_journals. }
  assert (Hsame : forall q, ~ under J q -> fs4 !! q = fs1 !! q).
  { intros q Hq. rewrite H4 by done. destruct (Hb3 q Hq) as (_ & _ & Ho). apply Ho; apply not_elem_of_nil. }
  assert (Hrest : exists fs5, moves fs4 (if fj_root_created j then
      exists_ ← path_exists R; if (exists_ : bool) then remove_directory_if_empty R else mret tt else mret tt) tt fs5 /\
      (fs5 = fs4 \/ (fj_root_created j = true /\ fs5 = delete R fs4))).
  { destruct (fj_root_created j); [| exists fs4; split; [apply moves_ret | by left]].
    assert (HR4 : is_file fs4 R = false) by (unfold is_file; by rewrite Hsame by by apply root_journals).
    destruct (moves_remove_if_empty fs4 R HR4) as (fs5 & Hm5 & Hor & _). exists fs5. split; [| naive_solver].
    apply moves_when; [| done]. intros Hn. destruct Hor as [-> | ->]; [done |]. by apply delete_id. }
  destruct Hrest as (fs5 & Hm5 & Hor). exists fs5. split; [| split].
  - repeat (eapply moves_bind; [eassumption |]). exact Hm5.
  - intros q Hq. destruct Hor as [-> | [Hc ->]]; [left; by apply Hsame |].
    destruct (decide (q = R)) as [-> | Hne]; [right; by rewrite lookup_delete_eq |].
    left. rewrite lookup_delete_ne by done. by apply Hsame.
  - destruct Hor as [-> | [Hc ->]]; [done |]. rewrite lookup_delete_ne; [done |]. intros E.
    apply (root_journals jp); [by rewrite <- E | apply jp_journals].
Qed.
End undo.
