(* ===== verification/FsRollback.v ===== *)
(** A restore of files that does not complete is undone ([FsProvider], [FsUndo]): when its
    plan was built without a failing call and no destination is below another, then
    whatever call fails after that, and wherever the process stops, the cleanup puts back
    every file and removes every directory the restore has made below its root. *)
From S2P Require Import Prelude Errors Ident Lifecycle Checkpoint Workload Compression Policy Compat.
From S2P Require Import Capture Json Restore Lineage Failpoints Tables Persist.
From S2P Require Import Manifest Messages Dispatch Frame Fs Integrity Storage Providers FsProvider.
From S2P Require Import NodeFacts Stored FsUndo.
From Stdlib Require Import Strings.Ascii Strings.Byte.

(** ** Directories *)

Lemma ancestors_snoc p x : ancestors (p ++ [x]) = ancestors p ++ [p ++ [x]].
Proof.
  unfold ancestors. rewrite length_app, Nat.add_1_r, seq_S, fmap_app. f_equal.
  - apply list_fmap_ext. intros i n Hn. apply lookup_seq in Hn as [-> Hn]. by rewrite take_app_le by lia.
  - cbn. by rewrite take_ge by (rewrite length_app; cbn; lia).
Qed.

Lemma make_dirs_None l : foldl (fun r q => r ≫= fun fs => make_dir fs q) None l = None.
Proof. by induction l. Qed.

Lemma make_dirs_ancestors p fs fs' : rooted fs -> make_dirs (ancestors p) fs = Some fs' ->
  rooted fs' /\ fs' !! p = Some Dir /\ grown p fs fs'.
Proof.
  revert fs'. induction p as [| x p IH] using rev_ind; intros fs' Hw.
  { intros [= <-]. split; [done |]. split; [apply Hw | apply grown_refl]. }
  rewrite ancestors_snoc. unfold make_dirs. rewrite foldl_app. cbn.
  change (foldl _ (Some fs) (ancestors p)) with (make_dirs (ancestors p) fs).
  destruct (make_dirs (ancestors p) fs) as [fs2 |] eqn:E; cbn; [| done].
  destruct (IH fs2 Hw eq_refl) as (Hw2 & Hp2 & Hg2). unfold make_dir.
  assert (Hg : grown (p ++ [x]) fs fs2).
  { intros q. destruct (Hg2 q) as [| (Ha & Hn & Hd)]; [by left | right]. rewrite ancestors_snoc. split; [| done].
    apply elem_of_app. by left. }
  destruct (fs2 !! (p ++ [x])) as [[| b] |] eqn:Ex; [intros [= <-]; by auto | done |]. intros [= <-].
  split; [| split; [apply lookup_insert_eq |]].
  - split.
    + rewrite lookup_insert_ne by by destruct p. apply Hw2.
    + intros p' y Hs. destruct (decide (p' = p ++ [x])) as [-> | Hne]; [by rewrite lookup_insert_eq |].
      rewrite lookup_insert_ne by done. destruct (decide (p ++ [x] = p' ++ [y])) as [Ep | Hne'].
      * by apply app_inj_tail in Ep as [<- <-].
      * rewrite lookup_insert_ne in Hs by done. by apply (proj2 Hw2 p' y).
  - apply grown_bears; [| done | done]. rewrite ancestors_snoc. apply elem_of_app. right. by left.
Qed.

(** ** Calls that are not refused

    [firm d d']: no call fails between [d] and [d'] (the process may stop).  A test of
    existence that fails says that there is nothing. *)

Section firm.
Context `{DiskEnv}.

Definition firm (d d' : Disk) : Prop := forall t, (dk_tick d <= t < dk_tick d')%nat -> disk_outcome t <> IoFailed.
Definition forward {A : Type} (m : M Disk A) : Prop := forall d, (dk_tick d <= dk_tick (m d).2)%nat.
Definition sure {A : Type} (m : M Disk A) (Q : A -> Disk -> Prop) (d : Disk) : Prop := firm d (m d).2 -> ensures m Q d.

Lemma forward_look {A} (f : nat -> Fs -> option A) : forward (look f).
Proof. intros d. unfold look. destruct (disk_outcome _); [destruct (f _ _) | |]; cbn; lia. Qed.
Lemma forward_create p : forward (create_dir_all p).
Proof. intros d. unfold create_dir_all. destruct (disk_outcome _); [destruct (fs_create_dir_all _ _) | |]; cbn; lia. Qed.
Lemma forward_ret {A} (a : A) : forward (mret a).
Proof. intros d. cbn. lia. Qed.
Lemma forward_lift {A} (r : FabricResult A) : forward (lift r).
Proof. intros d. destruct r; cbn; lia. Qed.
Lemma forward_attempt {A} (m : M Disk A) : forward m -> forward (attempt m).
Proof. intros Hm d. specialize (Hm d). unfold attempt. by destruct (m d) as [[a | e |] d']. Qed.
Lemma forward_bind {A B} (m : M Disk A) (k : A -> M Disk B) : forward m -> (forall a, forward (k a)) -> forward (m ≫= k).
Proof.
  intros Hm Hk d. specialize (Hm d). unfold mbind, M_bind. destruct (m d) as [[a | e |] d']; cbn in *; [| done..].
  specialize (Hk a d'). lia.
Qed.
Lemma forward_or_else {A} (m : M Disk A) a : forward m -> forward (or_else m a).
Proof. intros Hm. apply forward_bind; [by apply forward_attempt | intros; apply forward_ret]. Qed.
Lemma forward_exists p : forward (path_exists p).
Proof. apply forward_or_else, forward_look. Qed.

Lemma sure_bind {A B} (m : M Disk A) (k : A -> M Disk B) Q d :
  forward m -> (forall a, forward (k a)) -> sure m (fun a => sure (k a) Q) d -> sure (m ≫= k) Q d.
Proof.
  intros Hm Hk Hs Hf. apply ensures_bind. unfold sure, ensures, mbind, M_bind in *. specialize (Hm d).
  destruct (m d) as [[a | e |] d'] eqn:E; cbn in *; [| done..]. specialize (Hk a d'). apply Hs.
  - intros t Ht. apply Hf. lia.
  - intros t Ht. apply Hf. lia.
Qed.

Lemma sure_ensures {A} (m : M Disk A) Q d : ensures m Q d -> sure m Q d.
Proof. by intros Hm _. Qed.

Lemma sure_conseq {A} (m : M Disk A) Q Q' d : sure m Q' d -> (forall a d', Q' a d' -> Q a d') -> sure m Q d.
Proof. intros Hm HQ Hf. by eapply ensures_conseq; [exact (Hm Hf) | exact HQ]. Qed.

Lemma ensures_look {A} (f : nat -> Fs -> option A) d :
  ensures (look f) (fun a d' => f (dk_tick d) (dk_fs d) = Some a /\ dk_fs d' = dk_fs d) d.
Proof. unfold ensures, look. destruct (disk_outcome _); [| done..]. by destruct (f _ _) eqn:E. Qed.

Lemma sure_exists p d : sure (path_exists p) (fun b d' => b = is_some (dk_fs d !! p) /\ dk_fs d' = dk_fs d) d.
Proof.
  intros Hf. unfold ensures. unfold path_exists, or_else, look, mbind, M_bind, attempt in *.
  destruct (disk_outcome (dk_tick d)) eqn:E; cbn in *; [done | | done].
  destruct (Hf (dk_tick d)); [cbn; lia | done].
Qed.
End firm.

Ltac forward_tac :=
  repeat lazymatch goal with
  | |- forward (mbind _ _) => apply forward_bind; [| intros]
  | |- forward (look _) => apply forward_look
  | |- forward (read _) => apply forward_look
  | |- forward (metadata _) => apply forward_look
  | |- forward (path_exists _) => apply forward_exists
  | |- forward (create_dir_all _) => apply forward_create
  | |- forward (mret _) => apply forward_ret
  | |- forward (lift _) => apply forward_lift
  | |- forward (match ?x with _ => _ end) => destruct x
  end.

(** ** The plan of a restore *)

(** No destination is below another. *)
Definition prefix_free (entries : list FileEntry) : Prop := forall e e', e ∈ entries -> e' ∈ entries ->
  under (path_components e.1).2 (path_components e'.1).2 -> (path_components e.1).2 = (path_components e'.1).2.

Lemma elem_of_prefixes q r : q ∈ proper_prefixes r -> q <> [] /\ q <> r /\ exists s, r = q ++ s.
Proof.
  unfold proper_prefixes. intros (n & -> & Hn%elem_of_seq)%list_elem_of_fmap. split; [| split].
  - destruct r; [cbn in Hn; lia | done].
  - intros E. apply (f_equal length) in E. rewrite length_take in E. lia.
  - exists (drop (S n) r). by rewrite take_drop.
Qed.

Lemma prefix_elem_of q x s : q <> [] -> q ∈ proper_prefixes (q ++ x :: s).
Proof.
  intros Hq. unfold proper_prefixes. apply list_elem_of_fmap. exists (length q - 1)%nat.
  rewrite length_app, elem_of_seq. cbn. destruct q as [| y q]; [done |]. split; [| cbn; lia].
  cbn [length]. replace (S (S (length q) - 1)) with (length (y :: q)) by (cbn; lia). by rewrite take_app_length.
Qed.

Section plan.
Context `{DiskEnv}.
Context (R : path) (fs : Fs).

(** What the scan of directories has found. *)
Definition found (above : list path) (old new : list string) : Prop :=
  (forall c, c ∈ old -> c ∈ new) /\
  (forall c, c ∈ new -> c ∈ old \/ exists q, q ∈ above /\ c = relative_text q /\ fs !! (R ++ q) = None) /\
  (forall q, q ∈ above -> fs !! (R ++ q) = Some Dir \/ (fs !! (R ++ q) = None /\ relative_text q ∈ new)).

Lemma forward_scan_ancestors above created : forward (scan_ancestors R above created).
Proof.
  revert created. induction above as [| q above IH]; intros created; cbn [scan_ancestors]; unfold require_dir; forward_tac; apply IH.
Qed.

Lemma found_cons q above old mid new : found [q] old mid -> found above mid new -> found (q :: above) old new.
Proof.
  intros (Ha1 & Hb1 & Hc1) (Ha2 & Hb2 & Hc2). split; [by auto | split].
  - intros c [[| (q' & ->%list_elem_of_singleton & Hq)]%Hb1 | (q' & Hin & Hq)]%Hb2; [by left | right..].
    + exists q. split; [by left | done].
    + exists q'. split; [by right | done].
  - intros q' [-> | Hin]%elem_of_cons; [| by apply Hc2].
    destruct (Hc1 q) as [| [? ?]]; [by left | by left | right; by auto].
Qed.

Lemma sure_scan_ancestors above : forall created d, dk_fs d = fs ->
  sure (scan_ancestors R above created) (fun new d' => found above created new /\ dk_fs d' = fs) d.
Proof.
  induction above as [| q above IH]; intros created d Hd; cbn [scan_ancestors].
  { intros _. cbn. split; [| done]. split; [done |]. split; [by left | by intros q ?%not_elem_of_nil]. }
  assert (Hf : forall b, forward (A := list string) (if b : bool then
      require_dir (R ++ q) (RestoreFailure "filesystem restore ancestor {} is not a real directory") ;; mret created
      else mret (if bool_decide (relative_text q ∈ created) then created else created ++ [relative_text q])))
    by (intros b; unfold require_dir; forward_tac).
  apply sure_bind; [apply forward_exists | intros b; apply forward_bind; [apply Hf | intros; apply forward_scan_ancestors] |].
  eapply sure_conseq; [apply sure_exists |]. intros b d1 [-> Hd1]. rewrite Hd in *.
  apply sure_bind; [apply Hf | intros; apply forward_scan_ancestors |].
  apply sure_conseq with (Q' := fun mid d' => found [q] created mid /\ dk_fs d' = fs).
  2: { intros mid d2 [Hm Hd2]. eapply sure_conseq; [by apply IH |]. intros new d' [Hn Hd']. split; [| done].
       by eapply found_cons. }
  apply sure_ensures. destruct (fs !! (R ++ q)) as [n |] eqn:E; cbn [is_some].
  - apply ensures_bind, ensures_bind. eapply ensures_conseq; [apply ensures_look |]. intros n' d2 [Hn Hd2].
    rewrite Hd1, E in Hn. injection Hn as <-. apply ensures_lift. intros [] Hdir. apply ensures_ret.
    split; [| congruence]. split; [done |]. split; [by left |]. intros q' ->%list_elem_of_singleton. left. by destruct n.
  - apply ensures_ret. split; [| done]. case_bool_decide as Hin.
    + split; [done |]. split; [by left |]. intros q' ->%list_elem_of_singleton. by right.
    + split; [| split].
      * intros c Hc. apply elem_of_app. by left.
      * intros c [Hc | ->%list_elem_of_singleton]%elem_of_app; [by left | right]. exists q. split; [by left | done].
      * intros q' ->%list_elem_of_singleton. right. split; [done |]. apply elem_of_app. right. by left.
Qed.

(** What the scan of the files [past], of [all], has recorded. *)
Record scanned (all past : list FileEntry) (seen : list path) (j : FilesystemRestoreJournal) : Prop := {
  sc_names : (fj_files j).*1 = past.*1;
  sc_file : forall rel prev, (rel, prev) ∈ fj_files j ->
    exists r, checked_restore_relative rel = Ok r /\ fs !! (R ++ r) = File <$> prev;
  sc_above : forall rel r q, rel ∈ past.*1 -> checked_restore_relative rel = Ok r -> q ∈ proper_prefixes r ->
    fs !! (R ++ q) = Some Dir \/ (fs !! (R ++ q) = None /\ relative_text q ∈ fj_created_dirs j);
  sc_dir : forall c, c ∈ fj_created_dirs j -> exists q rel r, c = relative_text q /\ fs !! (R ++ q) = None /\
    rel ∈ all.*1 /\ checked_restore_relative rel = Ok r /\ q ∈ proper_prefixes r;
  sc_seen : forall rel r, rel ∈ past.*1 -> checked_restore_relative rel = Ok r -> r ∈ seen;
  sc_nodup : NoDup ((fun e : FileEntry => (path_components e.1).2) <$> past)
}.

Lemma scanned_nil all b : scanned all [] [] (mkFilesystemRestoreJournal [] [] b).
Proof.
  split; cbn; try done; try (by intros ? ? ?%not_elem_of_nil); [| | constructor].
  - by intros ? ? ? ?%not_elem_of_nil.
  - by intros ? ?%not_elem_of_nil.
Qed.

Lemma scanned_snoc all past seen j rel content r new prev :
  scanned all past seen j -> (rel, content) ∈ all -> checked_restore_relative rel = Ok r -> r ∉ seen ->
  found (proper_prefixes r) (fj_created_dirs j) new -> fs !! (R ++ r) = File <$> prev ->
  scanned all (past ++ [(rel, content)]) (r :: seen)
    (mkFilesystemRestoreJournal (fj_files j ++ [(rel, prev)]) new (fj_root_created j)).
Proof.
  intros Hs Hin Hr Hn (Ha & Hb & Hc) Hp. split; cbn [fj_files fj_created_dirs];
    rewrite ?fmap_app; cbn [fmap list_fmap fst].
  - by rewrite (sc_names _ _ _ _ Hs).
  - intros rel' prev' [Hin' | [= -> ->]%list_elem_of_singleton]%elem_of_app; [by eapply sc_file | by exists r].
  - intros rel' r' q [Hin' | ->%list_elem_of_singleton]%elem_of_app Hr' Hq.
    + destruct (sc_above _ _ _ _ Hs _ _ _ Hin' Hr' Hq) as [| [? ?]]; [by left | right; auto].
    + rewrite Hr in Hr'. injection Hr' as <-. by apply Hc.
  - intros c [Hc' | (q & Hq & -> & Hnone)]%Hb; [by eapply sc_dir |]. exists q, rel, r.
    split; [done |]. split; [done |]. split; [| done]. apply list_elem_of_fmap. by exists (rel, content).
  - intros rel' r' [Hin' | ->%list_elem_of_singleton]%elem_of_app Hr'; [right; by eapply sc_seen |].
    rewrite Hr in Hr'. injection Hr' as <-. by left.
  - apply NoDup_app. split; [apply Hs | split; [| apply NoDup_singleton]].
    intros x Hx ->%list_elem_of_singleton. apply Hn. apply list_elem_of_fmap in Hx as (e & He & Hin').
    assert (Hnames : e.1 ∈ (fj_files j).*1) by (rewrite (sc_names _ _ _ _ Hs); apply list_elem_of_fmap; eauto).
    apply list_elem_of_fmap in Hnames as ([rel' prev'] & E & Hf). cbn in E. destruct (sc_file _ _ _ _ Hs _ _ Hf) as (r' & Hr' & _).
    replace r with r'; [eapply sc_seen; [exact Hs | | exact Hr'] |].
    { rewrite <- E. apply list_elem_of_fmap. eauto. }
    pose proof (rp_components _ _ (checked_restorable _ _ Hr)). pose proof (rp_components _ _ (checked_restorable _ _ Hr')).
    assert (He' : (path_components rel).2 = (path_components e.1).2) by exact He. congruence.
Qed.

Lemma forward_previous p : forward (previous_content p).
Proof. unfold previous_content. forward_tac. Qed.

Lemma sure_previous p d : dk_fs d = fs ->
  sure (previous_content p) (fun prev d' => fs !! p = File <$> prev /\ dk_fs d' = fs) d.
Proof.
  intros Hd. unfold previous_content. apply sure_bind; [forward_tac | intros; forward_tac |].
  eapply sure_conseq; [apply sure_exists |]. intros b d1 [-> Hd1]. apply sure_ensures. rewrite Hd in *.
  destruct (fs !! p) as [n |] eqn:E; cbn [is_some]; [| by apply ensures_ret].
  apply ensures_bind. eapply ensures_conseq; [apply ensures_look |]. intros n' d2 [Hn Hd2].
  apply ensures_bind, ensures_lift. intros [] Hfile. apply ensures_bind.
  eapply ensures_conseq; [apply ensures_look |]. intros c d3 [Hc Hd3]. apply ensures_ret.
  rewrite Hd2, Hd1, E in Hc. split; [| congruence]. destruct n as [| b]; [done |]. by injection Hc as ->.
Qed.

Lemma forward_scan_files entries : forall seen j, forward (scan_files R entries seen j).
Proof.
  induction entries as [| [rel content] entries IH]; intros seen j; cbn [scan_files]; [apply forward_ret |].
  repeat (apply forward_bind; [first [apply forward_lift | apply forward_scan_ancestors | apply forward_previous] | intros]).
  apply IH.
Qed.

Lemma sure_scan_files all entries : (forall e, e ∈ entries -> e ∈ all) -> forall past seen j d,
  dk_fs d = fs -> scanned all past seen j ->
  sure (scan_files R entries seen j) (fun j' d' => (exists seen', scanned all (past ++ entries) seen' j') /\
    fj_root_created j' = fj_root_created j /\ dk_fs d' = fs) d.
Proof.
  induction entries as [| [rel content] entries IH]; intros Hall past seen j d Hd Hs; cbn [scan_files].
  { intros _. cbn. rewrite app_nil_r. by split; [eexists |]. }
  assert (Hk : forall r created, forward (previous ← previous_content (R ++ r);
    scan_files R entries (r :: seen)
      (mkFilesystemRestoreJournal (fj_files j ++ [(rel, previous)]) created (fj_root_created j)))).
  { intros. apply forward_bind; [apply forward_previous | intros; apply forward_scan_files]. }
  assert (Hk2 : forall r, forward (A := FilesystemRestoreJournal) (
    created ← scan_ancestors R (proper_prefixes r) (fj_created_dirs j);
    previous ← previous_content (R ++ r);
    scan_files R entries (r :: seen)
      (mkFilesystemRestoreJournal (fj_files j ++ [(rel, previous)]) created (fj_root_created j)))).
  { intros. apply forward_bind; [apply forward_scan_ancestors | intros; apply Hk]. }
  apply sure_bind; [apply forward_lift | intros; apply forward_bind; [apply forward_lift | intros; apply Hk2] |].
  apply sure_ensures, ensures_lift. intros r Hr.
  apply sure_bind; [apply forward_lift | intros; apply Hk2 |].
  apply sure_ensures, ensures_lift. intros [] Hn%reject_if_Ok. bool_facts.
  apply sure_bind; [apply forward_scan_ancestors | intros; apply Hk |].
  eapply sure_conseq; [by apply sure_scan_ancestors |]. intros new d1 [Hnew Hd1].
  apply sure_bind; [apply forward_previous | intros; apply forward_scan_files |].
  eapply sure_conseq; [by apply sure_previous |]. intros prev d2 [Hprev Hd2].
  change ((rel, content) :: entries) with ([(rel, content)] ++ entries). rewrite (assoc_L (++)).
  eapply sure_conseq; [apply (IH (fun e He => Hall e ltac:(by right)) (past ++ [(rel, content)])); [exact Hd2 |] | done].
  eapply scanned_snoc; [exact Hs | apply Hall; by left | done..].
Qed.
End plan.

(** ** Runs *)

Lemma run_assoc {W A B D} (m : M W A) (k : A -> M W B) (h : B -> M W D) Q C w :
  run ((m ≫= k) ≫= h) Q C w -> run (m ≫= fun a => k a ≫= h) Q C w.
Proof. unfold run, mbind, M_bind. by destruct (m w) as [[a | e |] w']. Qed.

Lemma run_ensures {W A} (m : M W A) Q Q' C w :
  run m Q C w -> ensures m Q' w -> run m (fun r w' => Q r w' /\ forall a, r = Ok a -> Q' a w') C w.
Proof. unfold run, ensures. destruct (m w) as [[a | e |] w']; [intros; split; [done | by intros ? [= <-]] | by split | done]. Qed.

(** Every directory above a file is there, or is one to be made. *)
Definition covered (R : path) (fs1 : Fs) (j : FilesystemRestoreJournal) : Prop :=
  forall rel r q, rel ∈ (fj_files j).*1 -> checked_restore_relative rel = Ok r -> q ∈ ancestors (parent (R ++ r)) ->
    fs1 !! q = Some Dir \/ q ∈ all_dirs R j.

Lemma under_parent q p : p <> [] -> under q (parent p) <-> q <> p /\ under q p.
Proof.
  intros Hp. destruct (exists_last Hp) as (p0 & x & ->). unfold parent. rewrite removelast_last. split.
  - intros Hq. split; [| eapply under_trans; [exact Hq | apply under_app]].
    intros ->. apply prefix_length in Hq. rewrite length_app in Hq. cbn in Hq. lia.
  - intros [Hne [s Hs]]. destruct s as [| y s _] using rev_ind; [by rewrite app_nil_r in Hs |].
    rewrite (assoc_L (++)) in Hs. apply app_inj_tail in Hs as [-> _]. apply under_app.
Qed.

Section recorded.
Context `{DiskEnv}.
Context (R : path) (fs1 : Fs) (entries : list FileEntry) (seen : list path) (j : FilesystemRestoreJournal).
Context (Hs : scanned R fs1 entries entries seen j) (Hfree : prefix_free entries) (Hw : rooted fs1).

Lemma created_dir c : c ∈ fj_created_dirs j ->
  exists q rel r, checked_restore_relative c = Ok q /\ fs1 !! (R ++ q) = None /\
    rel ∈ entries.*1 /\ checked_restore_relative rel = Ok r /\ q ∈ proper_prefixes r.
Proof.
  intros Hc. destruct (sc_dir _ _ _ _ _ _ Hs _ Hc) as (q & rel & r & -> & Hn & Hrel & Hr & Hq). exists q, rel, r.
  split; [| done]. apply elem_of_prefixes in Hq as (Hq & _ & s & ->).
  apply checked_restorable in Hr as [_ Hclean Hhead]. apply Forall_app in Hclean as [Hclean _].
  apply restorable_checked; [done | done |]. by destruct q.
Qed.

Lemma scanned_recorded : recorded R fs1 j.
Proof.
  split; [done | by eapply sc_file | |].
  - intros c Hc. destruct (created_dir c Hc) as (q & rel & r & Hq & Hn & _). by exists q.
  - intros rel prev c Hin Hc E. destruct (created_dir c Hc) as (q & rel' & r' & Hq & _ & Hrel' & Hr' & Hpre).
    destruct (sc_file _ _ _ _ _ _ Hs _ _ Hin) as (r & Hr & _). rewrite !(dest_checked _ _ _ Hr), !(dest_checked _ _ _ Hq) in E.
    apply app_inv_head in E as <-. apply elem_of_prefixes in Hpre as (_ & Hne & s & ->). apply Hne.
    assert (Hrel : rel ∈ entries.*1) by (rewrite <- (sc_names _ _ _ _ _ _ Hs); apply list_elem_of_fmap; by exists (rel, prev)).
    apply list_elem_of_fmap in Hrel as (e & -> & He). apply list_elem_of_fmap in Hrel' as (e' & -> & He').
    pose proof (rp_components _ _ (checked_restorable _ _ Hr)) as E1.
    pose proof (rp_components _ _ (checked_restorable _ _ Hr')) as E2.
    rewrite <- E1 at 1. rewrite <- E2. apply Hfree; [done | done |]. rewrite E1, E2. apply under_app.
Qed.

Lemma scanned_covered : fs1 !! R = Some Dir -> covered R fs1 j.
Proof.
  intros HR rel r q Hrel Hr [Hq0 Hq]%elem_of_ancestors. rewrite (sc_names _ _ _ _ _ _ Hs) in Hrel.
  apply under_parent in Hq as [Hne Hq]; [| pose proof (checked_nonempty _ _ Hr); by destruct R, r].
  destruct (prefix_weak_total q R (R ++ r) Hq (under_app R r)) as [[s Hs'] | [s ->]].
  - left. destruct s as [| x s]; [rewrite app_nil_r in Hs'; by subst |].
    apply (rooted_above _ _ (x :: s)); [done | done |]. rewrite <- Hs'. by eexists.
  - destruct Hq as [t Ht]. rewrite <- (assoc_L (++)) in Ht. apply app_inv_head in Ht as ->.
    destruct s as [| y s]; [left; by rewrite app_nil_r |]. destruct t as [| x t]; [by rewrite app_nil_r in Hne |].
    destruct (sc_above _ _ _ _ _ _ Hs _ _ (y :: s) Hrel Hr) as [Hd | [Hn Hc]]; [by apply prefix_elem_of | by left | right].
    apply list_elem_of_fmap. exists (relative_text (y :: s)). split; [| done].
    destruct (created_dir _ Hc) as (q & _ & _ & Hq' & _). rewrite (dest_checked _ _ _ Hq').
    apply checked_restorable in Hr as [_ Hclean Hhead]. apply Forall_app in Hclean as [Hclean _].
    rewrite restorable_checked in Hq' by done. by injection Hq' as <-.
Qed.
End recorded.

(** ** Where the files of the payload go *)

Section places.
Context `{DiskEnv, Crc32c, Sha256, Zstd, HexCodec}.

Lemma apply_places R l : NoDup ((fun e : FileEntry => (path_components e.1).2) <$> l) -> forall d,
  ensures (apply_files R l) (fun _ d' =>
    (forall rel content, (rel, content) ∈ l -> dk_fs d' !! dest R rel = Some (File content)) /\
    (forall q, (forall e, e ∈ l -> q <> dest R e.1) -> is_Some (dk_fs d !! q) -> dk_fs d' !! q = dk_fs d !! q)) d.
Proof.
  induction l as [| [rel content] l IH]; intros Hnd d; cbn [apply_files].
  { apply ensures_ret. split; [by intros ? ? ?%not_elem_of_nil | done]. }
  apply NoDup_cons in Hnd as [Hn Hnd]. change (R ++ (path_components rel).2) with (dest R rel).
  apply ensures_bind. eapply ensures_conseq; [apply ensures_create |]. intros [] d1 Hg.
  apply ensures_bind. eapply ensures_conseq; [apply ensures_write |]. intros [] d2 Hd2.
  eapply ensures_conseq; [apply IH, Hnd |]. intros [] d3 [Hin Hout].
  assert (Hhere : dk_fs d2 !! dest R rel = Some (File content)) by (by rewrite Hd2, lookup_insert_eq).
  split.
  - intros rel' content' [[= -> ->] | Hl]%elem_of_cons; [| by apply Hin].
    rewrite Hout; [done | | by rewrite Hhere; eexists]. intros e He Ee. apply Hn. unfold dest in Ee.
    apply app_inv_head in Ee. apply list_elem_of_fmap. exists e. split; [exact Ee | done].
  - intros q Hq [n Hs]. assert (Hqrel : q <> dest R rel) by (apply (Hq (rel, content)); by left).
    assert (Hq2 : dk_fs d2 !! q = dk_fs d !! q).
    { rewrite Hd2, lookup_insert_ne by done. destruct (Hg q) as [E | (_ & E & _)]; congruence. }
    rewrite Hout; [done | | by rewrite Hq2, Hs; eexists]. intros e He. apply Hq. by right.
Qed.
End places.

(** ** From the plan on, whatever happens *)

Section rest.
Context `{DiskEnv, !DiskLaws _, Sha256, HexCodec, FileCodec}.
Context (R : path) (attempt_id : string) (fs1 : Fs) (j : FilesystemRestoreJournal).
Context (Hrec : recorded R fs1 j) (Hroot : is_Some (fs1 !! R)) (Hfresh : fs1 !! journal_path R attempt_id = None).
Implicit Types (fs : Fs).

#[local] Abbreviation J := (journal_dir R).
#[local] Abbreviation jp := (journal_path R attempt_id).
#[local] Abbreviation armed := (armed R attempt_id fs1 j).

(** No journal is on the disk, and nothing has changed but the directory of journals. *)
Definition pending fs : Prop := same_outside J fs1 fs /\ fs !! jp = None.

Lemma jp_not_above : ~ under jp J.
Proof.
  intros Hu. apply prefix_length in Hu. unfold journal_path in Hu. rewrite length_app in Hu. cbn in Hu. lia.
Qed.

Lemma pending_grown fs : grown J fs1 fs -> pending fs.
Proof.
  intros Hg. split.
  - intros q Hq. destruct (Hg q) as [-> | ([_ Ha]%elem_of_ancestors & Hn & _)]; [done | exfalso].
    assert (HqR : under q R).
    { unfold journal_dir in Ha. destruct Ha as [s Hs]. destruct s as [| x s _] using rev_ind.
      - rewrite app_nil_r in Hs. by rewrite <- Hs in Hq.
      - rewrite (assoc_L (++)) in Hs. apply app_inj_tail in Hs as [-> _]. apply under_app. }
    destruct HqR as [s Hs]. destruct s as [| x s].
    + rewrite app_nil_r in Hs. subst q. rewrite Hn in Hroot. by destruct Hroot.
    + rewrite (rooted_above _ q (x :: s) (rc_rooted _ _ _ Hrec)) in Hn; [done | done | by rewrite <- Hs].
  - destruct (Hg jp) as [-> | ([_ Ha]%elem_of_ancestors & _)]; [done |]. by destruct jp_not_above.
Qed.

Lemma pending_journals fs fs' : pending fs -> same_outside J fs fs' -> fs' !! jp = None -> pending fs'.
Proof. intros [Hs _] Hs' Hj. split; [by eapply same_outside_trans | done]. Qed.

Lemma pending_between fs : same_outside J fs1 fs -> between R fs1 (all_files R j) (all_dirs R j) fs.
Proof.
  intros Hs q Hq. rewrite Hs by done. split; [by left | split; [| done]].
  intros (c & -> & Hc)%list_elem_of_fmap. left. destruct (rc_dir _ _ _ Hrec _ Hc) as (r & Hr & Hn).
  by rewrite (dest_checked _ _ _ Hr).
Qed.

Lemma ends_apart a b : a +:+ ".tmp" <> b +:+ ".json".
Proof.
  intros E. apply (f_equal (fun s => last (String.list_ascii_of_string s))) in E.
  assert (Hl : forall s t, String.list_ascii_of_string (s +:+ t) = String.list_ascii_of_string s ++ String.list_ascii_of_string t).
  { induction s as [| c s IH]; intros t; [done |]. apply (f_equal (cons c)), IH. }
  rewrite !Hl in E. cbn in E. rewrite (last_app _ _), (last_app (String.list_ascii_of_string b)) in E. done.
Qed.

(** A temporary file of the journals. *)
Definition temp_of (i : Id) : path := J ++ ["." +:+ to_hex i +:+ ".tmp"].

Lemma temp_not_jp i : temp_of i <> jp.
Proof.
  intros E. apply app_inv_head in E. injection E as E. revert E. change ("." +:+ to_hex i +:+ ".tmp") with (("." +:+ to_hex i) +:+ ".tmp").
  apply ends_apart.
Qed.

Lemma pending_temp i n fs : pending fs -> pending (<[temp_of i := n]> fs).
Proof.
  intros Hp. eapply pending_journals; [exact Hp | |].
  - apply same_outside_insert.
  - rewrite lookup_insert_ne; [apply Hp | apply temp_not_jp].
Qed.

Lemma run_create_new i content d :
  pending (dk_fs d) -> dk_fs d !! J = Some Dir ->
  run (create_new (temp_of i) content)
    (fun r d' => pending (dk_fs d') /\ match r with
                 | Ok _ => dk_fs d' !! J = Some Dir /\ dk_fs d' !! temp_of i = Some (File content)
                 | Err _ => True
                 end) (fun d' => pending (dk_fs d')) d.
Proof.
  destruct d as [fs t]. cbn. intros Hp HJ. unfold run, create_new. cbn [dk_fs dk_tick].
  destruct (is_some (fs !! temp_of i)) eqn:E; [by destruct (disk_outcome t) |].
  assert (Htorn : forall c fs', fs_write (temp_of i) c fs = Some fs' -> pending fs').
  { intros c fs'. unfold fs_write. destruct (_ || _); [done |]. intros [= <-]. by apply pending_temp. }
  assert (Hleft : pending (torn_file (temp_of i) t fs)).
  { unfold torn_file. destruct (disk_torn t) as [c |]; [| done]. destruct (fs_write _ _ _) eqn:Ew; [by eapply Htorn | done]. }
  unfold change_file. cbn [dk_fs dk_tick]. destruct (disk_outcome t); cbn; [| by split | done].
  unfold fs_create_new. rewrite E. destruct (fs_write (temp_of i) content fs) as [fs' |] eqn:Ew; cbn; [| done].
  split; [by eapply Htorn |]. unfold fs_write in Ew. destruct (_ || _); [done |]. injection Ew as <-.
  split; [| by rewrite lookup_insert_eq]. rewrite lookup_insert_ne; [done |]. intros Et.
  apply (f_equal length) in Et. unfold temp_of in Et. rewrite length_app in Et. cbn in Et. lia.
Qed.

Lemma run_persist_rename i d :
  pending (dk_fs d) -> dk_fs d !! J = Some Dir -> dk_fs d !! temp_of i = Some (File (journal_to_vec j)) ->
  run (rename_file (temp_of i) jp)
    (fun r d' => match r with Ok _ => armed (dk_fs d') | Err _ => pending (dk_fs d') end)
    (fun d' => pending (dk_fs d') \/ armed (dk_fs d')) d.
Proof.
  destruct d as [fs t]. cbn. intros [Hs Hn] HJ Ht. unfold run, rename_file, atomic. cbn [dk_fs dk_tick].
  assert (Harmed : forall fs', fs_rename_file (temp_of i) jp fs = Some fs' -> armed fs').
  { unfold fs_rename_file. rewrite Ht. destruct (_ || _); [done |]. intros fs' [= <-].
    assert (HtJ : temp_of i <> J).
    { intros E. apply (f_equal length) in E. unfold temp_of in E. rewrite length_app in E. cbn in E. lia. }
    assert (HpJ : jp <> J) by (intros E; apply jp_not_above; by rewrite E).
    split; [| split; [by rewrite lookup_insert_ne, lookup_delete_ne | apply lookup_insert_eq]].
    apply pending_between. intros q Hq.
    assert (q <> jp) by (intros ->; by destruct Hq; apply jp_journals).
    assert (q <> temp_of i) by (intros ->; by destruct Hq; apply under_app).
    rewrite lookup_insert_ne, lookup_delete_ne by done. by apply Hs. }
  destruct (disk_outcome t); destruct (fs_rename_file _ _ _) as [fs' |] eqn:E; cbn; auto; try by split.
  - destruct (disk_renamed t); [right; by apply Harmed | left; by split].
  - left. by split.
Qed.

Lemma run_journal_dir d : dk_fs d = fs1 ->
  run (dir_exists ← path_exists J;
       if (dir_exists : bool)
       then require_dir J (RestoreFailure "restore journal directory {} is not a real directory")
       else create_dir_all J)
    (fun r d' => pending (dk_fs d') /\ match r with
                 | Ok _ => dk_fs d' !! J = Some Dir /\ fs1 !! R = Some Dir
                 | Err _ => True
                 end) (fun d' => pending (dk_fs d')) d.
Proof.
  intros Hd. assert (Hp1 : pending fs1) by (by split).
  apply run_bind. apply run_keeps with (I := on_fs (fun fs => fs = fs1));
    [apply reader_exists | done | | intros d' ->; done]. intros [b | e] d1 Hd1; unfold on_fs in Hd1; [| by rewrite Hd1].
  destruct b.
  - assert (Hr : ensures (require_dir J (RestoreFailure "restore journal directory {} is not a real directory"))
      (fun _ d' => fs1 !! J = Some Dir) d1).
    { apply ensures_bind. eapply ensures_conseq; [apply ensures_look |]. intros n d2 [Hn _]. apply ensures_lift.
      intros [] Hdir. rewrite Hd1 in Hn. by destruct n. }
    assert (Hk : keeps (on_fs (fun fs => fs = fs1))
      (require_dir J (RestoreFailure "restore journal directory {} is not a real directory"))).
    { unfold require_dir. apply keeps_bind; [apply keeps_look | intros; apply keeps_lift]. }
    specialize (Hk d1 Hd1). unfold run, ensures in *. destruct (require_dir _ _ d1) as [[[] | e |] d2]; cbn in Hk; unfold on_fs in Hk; rewrite Hk; auto.
    split; [done |]. split; [done |]. apply (rooted_above _ _ [RESTORE_JOURNAL_DIR] (rc_rooted _ _ _ Hrec)); [done |]. by eexists.
  - assert (Hk : keeps (on_fs (grown J fs1)) (create_dir_all J)) by apply keeps_create, grown_bears.
    specialize (Hk d1). unfold on_fs in Hk. rewrite Hd1 in Hk. specialize (Hk (grown_refl _ _)).
    unfold run. destruct (create_dir_all J d1) as [[[] | e |] d2] eqn:E; cbn in Hk; try (by apply pending_grown).
    2: { split; [by apply pending_grown | done]. }
    split; [by apply pending_grown |]. unfold create_dir_all in E. rewrite Hd1 in E.
    destruct (disk_outcome _); [| done..]. destruct (fs_create_dir_all J fs1) as [fs' |] eqn:Ec; [| done].
    injection E as <-. cbn in *. destruct (make_dirs_ancestors _ _ _ (rc_rooted _ _ _ Hrec) Ec) as (Hw & HJ & _).
    split; [done |]. assert (HR : fs' !! R = Some Dir) by (apply (rooted_above _ _ [RESTORE_JOURNAL_DIR] Hw); [done | by eexists]).
    destruct (Hk R) as [Es | (_ & Hn & _)]; [congruence |]. rewrite Hn in Hroot. by destruct Hroot.
Qed.

Lemma run_persist d : dk_fs d = fs1 ->
  run (persist_restore_journal R attempt_id j)
    (fun r d' => match r with Ok _ => armed (dk_fs d') /\ fs1 !! R = Some Dir | Err _ => pending (dk_fs d') end)
    (fun d' => pending (dk_fs d') \/ (armed (dk_fs d') /\ fs1 !! R = Some Dir)) d.
Proof.
  intros Hd. unfold persist_restore_journal. apply run_assoc, run_bind.
  eapply run_conseq; [by apply run_journal_dir | | by left]. intros [[] | e] d1 [Hp1 Hd1]; [| done]. destruct Hd1 as [HJ1 HR].
  set (S1 := fun fs => pending fs /\ fs !! J = Some Dir).
  apply run_bind, run_keeps with (I := on_fs S1); [apply reader_exists | by split | | by intros d' [? _]; left].
  intros [b | e] d2 [Hp2 HJ2]; [| done].
  apply run_bind, run_lift. destruct (reject_if _ _) as [[] | e]; [| done].
  apply run_bind. unfold run at 1. unfold random_id. set (i := disk_random (dk_tick d2)).
  apply run_bind. eapply run_conseq; [apply (run_create_new i); done | | by left].
  intros [[] | e] d3 [Hp3 H3]; [| done]. destruct H3 as [HJ3 Ht3].
  eapply run_conseq; [by apply run_persist_rename | | intros d4 [Hp4 | Ha4]; auto]. by intros [[] | e] d4 H4.
Qed.

(** ** The files of the payload *)

Section apply.
Context (Hcov : covered R fs1 j).

Lemma armed_create rel r q fs : rel ∈ (fj_files j).*1 -> checked_restore_relative rel = Ok r ->
  q ∈ ancestors (parent (R ++ r)) -> fs !! q = None -> armed fs -> armed (<[q := Dir]> fs).
Proof.
  intros Hrel Hr Hq Hn (Hb & HJ & Hj).
  assert (HqJ : ~ under J q).
  { intros Hu. apply elem_of_ancestors in Hq as [_ Hq]. apply under_parent in Hq as [_ Hq].
    - apply (dest_journals R _ _ Hr). by eapply under_trans.
    - pose proof (checked_nonempty _ _ Hr). by destruct R, r. }
  assert (HqC : q ∈ all_dirs R j).
  { destruct (Hcov _ _ _ Hrel Hr Hq) as [Hd | Hc]; [exfalso | done].
    rewrite (between_dir _ _ _ Hrec fs (all_files R j) q) in Hn; done. }
  assert (HqF : q ∉ all_files R j).
  { intros (e & -> & He)%list_elem_of_fmap. apply list_elem_of_fmap in HqC as (c & E & Hc). destruct e as [rel' prev'].
    by eapply (rc_apart _ _ _ Hrec). }
  split; [| split].
  - intros q' Hq'. destruct (decide (q' = q)) as [-> | Hne].
    + rewrite lookup_insert_eq. split; [done | split; [by right | done]].
    + rewrite lookup_insert_ne by done. by apply Hb.
  - rewrite lookup_insert_ne; [done |]. intros E. by rewrite E in HqJ.
  - rewrite lookup_insert_ne; [done |]. intros E. rewrite E in HqJ. destruct HqJ. apply jp_journals.
Qed.

Lemma armed_write rel r content fs : rel ∈ (fj_files j).*1 -> checked_restore_relative rel = Ok r ->
  armed fs -> armed (<[R ++ r := File content]> fs).
Proof.
  intros Hrel Hr (Hb & HJ & Hj). pose proof (dest_journals R _ _ Hr) as HqJ.
  assert (HqF : R ++ r ∈ all_files R j).
  { apply list_elem_of_fmap in Hrel as (e & -> & He). apply list_elem_of_fmap. exists e. by rewrite (dest_checked _ _ _ Hr). }
  assert (HqC : R ++ r ∉ all_dirs R j).
  { intros (c & E & Hc)%list_elem_of_fmap. apply list_elem_of_fmap in Hrel as ([rel' prev'] & -> & He).
    eapply (rc_apart _ _ _ Hrec); [exact He | exact Hc |]. rewrite <- E. cbn in Hr. by rewrite (dest_checked _ _ _ Hr). }
  split; [| split].
  - intros q' Hq'. destruct (decide (q' = R ++ r)) as [-> | Hne].
    + rewrite lookup_insert_eq. split; [right; by eexists | done].
    + rewrite lookup_insert_ne by done. by apply Hb.
  - rewrite lookup_insert_ne; [done |]. intros E. by rewrite E in HqJ.
  - rewrite lookup_insert_ne; [done |]. intros E. rewrite E in HqJ. destruct HqJ. apply jp_journals.
Qed.

Lemma keeps_write_file (I : Fs -> Prop) p content :
  (forall c fs, I fs -> I (<[p := File c]> fs)) -> keeps (on_fs I) (write p content).
Proof.
  intros HI [fs t] Hw. unfold write, change_file, on_fs in *. cbn in *.
  assert (Hany : forall c fs', fs_write p c fs = Some fs' -> I fs').
  { intros c fs'. unfold fs_write. destruct (_ || _); [done |]. intros [= <-]. by apply HI. }
  assert (Htorn : I (torn_file p t fs)).
  { unfold torn_file. destruct (disk_torn t) as [c |]; [| done]. destruct (fs_write _ _ _) eqn:E; [by eapply Hany | done]. }
  destruct (disk_outcome t); cbn; [| done..]. destruct (fs_write p content fs) eqn:E; cbn; [by eapply Hany | done].
Qed.

Lemma keeps_apply_files entries :
  (forall e, e ∈ entries -> e.1 ∈ (fj_files j).*1) -> keeps (on_fs armed) (apply_files R entries).
Proof.
  induction entries as [| [rel content] entries IH]; intros Hin; cbn [apply_files]; [apply keeps_ret |].
  assert (Hrel : rel ∈ (fj_files j).*1) by (apply (Hin (rel, content)); by left).
  assert (Hr : exists r, checked_restore_relative rel = Ok r).
  { apply list_elem_of_fmap in Hrel as ([rel' prev] & -> & He). destruct (rc_file _ _ _ Hrec _ _ He) as (r & Hr & _). by exists r. }
  destruct Hr as [r Hr]. rewrite (rp_components _ _ (checked_restorable _ _ Hr)).
  apply keeps_bind; [apply keeps_create; intros q fs; by eapply armed_create | intros []].
  apply keeps_bind; [apply keeps_write_file; intros c fs; by apply (armed_write rel) | intros _].
  apply IH. intros e He. apply Hin. by right.
Qed.
End apply.
End rest.

(** ** The theorem *)

Section rollback.
Context `{DiskEnv, !DiskLaws _, Sha256, HexCodec, FileCodec, !FileCodecLaws _}.
Context (self : FilesystemProvider) (R : path) (fs0 : Fs).
Context (HR : head (fp_restore_roots self) = Some R) (Hw0 : rooted fs0).

Lemma restore_root_R : restore_root self = Ok R.
Proof. unfold restore_root. by rewrite HR. Qed.

Lemma keeps_prepare_root : keeps (on_fs (grown R fs0)) (prepare_root R).
Proof.
  unfold prepare_root. apply keeps_bind; [apply reader_exists | intros b1].
  apply keeps_bind; [destruct b1; [apply keeps_bind; [apply keeps_look | intros; apply keeps_ret] | apply keeps_ret] | intros _].
  apply keeps_bind; [apply reader_exists | intros b2]. destruct b2; cbn; [apply keeps_ret |].
  apply keeps_bind; [apply keeps_create, grown_bears | intros; apply keeps_ret].
Qed.

Lemma reader_scan_ancestors above : forall created, reader (scan_ancestors R above created).
Proof.
  induction above as [| r above IH]; intros created; cbn [scan_ancestors]; unfold require_dir;
    [reader_tac |]. apply reader_bind; [apply reader_exists | intros b].
  apply reader_bind; [destruct b; unfold metadata; reader_tac | intros; apply IH].
Qed.

Lemma reader_previous p : reader (previous_content p).
Proof.
  unfold previous_content. apply reader_bind; [apply reader_exists | intros b]. unfold metadata, read. reader_tac.
Qed.

Lemma reader_scan_files entries : forall seen j, reader (scan_files R entries seen j).
Proof.
  induction entries as [| [rel c] entries IH]; intros seen j; cbn [scan_files]; [reader_tac |].
  repeat (apply reader_bind; [first [apply reader_lift | apply reader_scan_ancestors | apply reader_previous] | intros]).
  apply IH.
Qed.

Lemma keeps_plan payload : keeps (on_fs (grown R fs0)) (plan_restore self payload).
Proof.
  unfold plan_restore. apply keeps_bind; [apply keeps_lift | intros entries]. rewrite restore_root_R.
  apply (keeps_ret_bind _ R). apply keeps_bind; [apply keeps_prepare_root | intros b].
  apply keeps_bind; [apply reader_scan_files | intros; apply keeps_ret].
Qed.

Lemma forward_prepare_root : forward (prepare_root R).
Proof. unfold prepare_root. forward_tac. Qed.

Lemma sure_prepare_root d : dk_fs d = fs0 ->
  sure (prepare_root R) (fun b d' => rooted (dk_fs d') /\ is_Some (dk_fs d' !! R) /\ grown R fs0 (dk_fs d') /\
    (b = true -> fs0 !! R = None)) d.
Proof.
  intros Hd. unfold prepare_root. apply sure_bind; [forward_tac | intros; forward_tac |].
  eapply sure_conseq; [apply sure_exists |]. intros b1 d1 [_ Hd1]. rewrite Hd in Hd1.
  apply sure_bind; [forward_tac | intros; forward_tac |].
  apply sure_conseq with (Q' := fun _ d' => dk_fs d' = fs0).
  2: { intros _ d2 Hd2. apply sure_bind; [forward_tac | intros; forward_tac |].
       eapply sure_conseq; [apply sure_exists |]. intros b2 d3 [-> Hd3]. rewrite Hd2 in *. apply sure_ensures.
       destruct (fs0 !! R) as [n |] eqn:E; cbn [is_some negb].
       - apply ensures_ret. rewrite Hd3. split; [done |]. split; [by eexists |]. split; [apply grown_refl | done].
       - apply ensures_bind. unfold ensures at 1, create_dir_all. rewrite Hd3.
         destruct (disk_outcome _); [| done..]. destruct (fs_create_dir_all R fs0) as [fs' |] eqn:Ec; [| done]. cbn.
         destruct (make_dirs_ancestors _ _ _ Hw0 Ec) as (Hw & Hdir & Hg). split; [done |]. split; [by eexists | done]. }
  apply sure_ensures. destruct b1.
  - apply ensures_bind. eapply ensures_conseq; [apply ensures_look |]. intros n d2 [_ Hd2]. apply ensures_ret. congruence.
  - by apply ensures_ret.
Qed.

(** What a plan has found. *)
Definition planned (entries : list FileEntry) (fs1 : Fs) (j : FilesystemRestoreJournal) : Prop :=
  rooted fs1 /\ is_Some (fs1 !! R) /\ grown R fs0 fs1 /\ (fj_root_created j = true -> fs0 !! R = None) /\
  exists seen, scanned R fs1 entries entries seen j.

Lemma sure_plan payload d : dk_fs d = fs0 ->
  sure (plan_restore self payload) (fun p d' => exists entries j, p = (R, entries, j) /\
    files_from_slice payload = Some entries /\ planned entries (dk_fs d') j) d.
Proof.
  intros Hd. unfold plan_restore. rewrite restore_root_R.
  assert (Hf : forall entries b, forward (journal ← scan_files R entries [] (mkFilesystemRestoreJournal [] [] b);
    mret (R, entries, journal))).
  { intros. apply forward_bind; [apply forward_scan_files | intros; apply forward_ret]. }
  apply sure_bind; [apply forward_lift | intros; apply forward_bind; [apply forward_lift | intros r; apply forward_bind]|].
  { unfold prepare_root. forward_tac. }
  { intros b. apply forward_bind; [apply forward_scan_files | intros; apply forward_ret]. }
  apply sure_ensures, ensures_lift. intros entries He%ok_or_Ok.
  apply sure_bind; [apply forward_lift | intros r; apply forward_bind; [unfold prepare_root; forward_tac | intros b] |].
  { apply forward_bind; [apply forward_scan_files | intros; apply forward_ret]. }
  apply sure_ensures, ensures_lift. intros r [= <-].
  apply sure_bind; [apply forward_prepare_root | intros; apply Hf |].
  eapply sure_conseq; [by apply sure_prepare_root |]. intros b d1 (Hw1 & HR1 & Hg1 & Hb).
  apply sure_bind; [apply forward_scan_files | intros; apply forward_ret |].
  eapply sure_conseq.
  { apply (sure_scan_files R (dk_fs d1) entries entries (fun e H => H) [] [] _ d1 eq_refl). apply scanned_nil. }
  intros j d2 (Hs & Hc & Hd2). apply sure_ensures, ensures_ret. exists entries, j. split; [done |]. split; [done |].
  rewrite Hd2. split; [done |]. split; [done |]. split; [done |]. split; [| exact Hs]. rewrite Hc. exact Hb.
Qed.

Section app.
Context {App : Type} (journals : App -> Journals) (set_journals : Journals -> App -> App).
Context (Hlens : forall a js, journals (set_journals js a) = js).
Context (ctx : RestoreContext).

#[local] Abbreviation J := (journal_dir R).
#[local] Abbreviation jp := (journal_path R (rx_attempt_id ctx)).

(** What a restore can leave: nothing but the way to the root and temporary files, or a
    part of the files, with the journal. *)
Inductive left_behind (fs : Fs) (a : App) : Prop :=
| left_pending fs1 : grown R fs0 fs1 -> same_outside J fs1 fs -> fs !! jp = None ->
    journals a !! rx_attempt_id ctx = None -> left_behind fs a
| left_armed fs1 j : grown R fs0 fs1 -> recorded R fs1 j -> (fj_root_created j = true -> fs0 !! R = None) ->
    fs1 !! R = Some Dir -> armed R (rx_attempt_id ctx) fs1 j fs ->
    (journals a !! rx_attempt_id ctx = None \/ journals a !! rx_attempt_id ctx = Some j) -> left_behind fs a.

(** What a roll-back leaves. *)
Definition rolled_back (fs : Fs) : Prop :=
  fs !! jp = None /\
  forall q, ~ under J q -> fs !! q = fs0 !! q \/ (q ∈ ancestors R /\ fs0 !! q = None /\ fs !! q = Some Dir).

Lemma left_cleaned w : quiet_at (dk_fs (aw_disk w)) (aw_disk w) -> left_behind (dk_fs (aw_disk w)) (aw_app w) ->
  exists w', fs_cleanup_restore self journals set_journals ctx w = (Done tt, w') /\ rolled_back (dk_fs (aw_disk w')) /\
    journals (aw_app w') !! rx_attempt_id ctx = None.
Proof.
  destruct w as [d a]. cbn [aw_disk aw_app]. intros Hq Hleft. set (a' := set_journals (delete (rx_attempt_id ctx) (journals a)) a).
  assert (Hgone : journals a' !! rx_attempt_id ctx = None) by (unfold a'; rewrite Hlens; apply (lookup_delete_eq (M := gmap string))).
  unfold fs_cleanup_restore, get_journal, put_journals, on_app, mbind, M_bind. cbn. rewrite restore_root_R. cbn.
  fold a'. unfold on_disk at 1. cbn [aw_disk aw_app].
  assert (Hload : forall o, moves (dk_fs d) (load_restore_journal R (rx_attempt_id ctx)) o (dk_fs d) ->
    exists d', load_restore_journal R (rx_attempt_id ctx) d = (Done o, d') /\ quiet_at (dk_fs d) d') by (intros o Ho; by apply Ho).
  destruct Hleft as [fs1 Hg Hs Hjp Hmem | fs1 j Hg Hrec Hrc HR1 Ha Hmem].
  - destruct (Hload None) as (d' & -> & [Hd' _]).
    { eapply moves_bind; [apply moves_exists |]. rewrite Hjp. apply moves_ret. }
    rewrite Hmem. eexists. split; [done |]. cbn. rewrite Hd'. split; [| done]. split; [done |]. intros q HqJ. rewrite Hs by done. apply Hg.
  - destruct (Hload (Some j)) as (d1 & -> & Hq1).
    { eapply moves_bind; [apply moves_exists |]. destruct Ha as (_ & _ & Hj). rewrite Hj. cbn.
      eapply moves_bind; [by apply returns_read |]. rewrite journal_round_trip. cbn. apply moves_ret. }
    destruct (undo_restore_moves R (rx_attempt_id ctx) fs1 j Hrec (dk_fs d)) as (fs2 & Hm & Hu & Hj2).
    { unfold is_file. by rewrite HR1. }
    { done. }
    destruct (Hm d1 Hq1) as (d2 & E2 & [Hd2 _]).
    exists (mkAppWorld d2 a'). split; [| split; [| done]].
    + destruct Hmem as [-> | ->]; unfold on_disk; cbn [aw_disk aw_app]; by rewrite E2.
    + cbn. rewrite Hd2. split; [done |]. intros q HqJ. destruct (Hu q HqJ) as [-> | (-> & Hc & ->)]; [apply Hg |].
      left. symmetry. by apply Hrc.
Qed.

Lemma run_on_disk {A} (m : M Disk A) (Q : FabricResult A -> AppWorld App -> Prop) C d a :
  run m (fun r d' => Q r (mkAppWorld d' a)) (fun d' => C (mkAppWorld d' a)) d -> run (on_disk m) Q C (mkAppWorld d a).
Proof. unfold run, on_disk. cbn. by destruct (m d) as [[x | e |] d']. Qed.

Lemma run_on_app {A} (f : App -> FabricResult A * App) (Q : FabricResult A -> AppWorld App -> Prop) C d a :
  Q (f a).1 (mkAppWorld d (f a).2) -> run (on_app f) Q C (mkAppWorld d a).
Proof. unfold run, on_app. cbn. by destruct (f a) as [[x | e] a']. Qed.

(** The files of the payload are there; elsewhere only directories are new. *)
Definition placed (payload : list byte) (fs : Fs) : Prop :=
  exists entries, files_from_slice payload = Some entries /\
    (forall rel content, (rel, content) ∈ entries -> fs !! dest R rel = Some (File content)) /\
    (forall q, ~ under J q -> (forall rel content, (rel, content) ∈ entries -> q <> dest R rel) ->
      fs !! q = fs0 !! q \/ (fs0 !! q = None /\ fs !! q = Some Dir)).

Lemma restore_leaves payload d a :
  dk_fs d = fs0 -> fs0 !! jp = None -> journals a !! rx_attempt_id ctx = None ->
  firm d (plan_restore self payload d).2 ->
  (forall entries, files_from_slice payload = Some entries -> prefix_free entries) ->
  run (fs_restore self journals set_journals ctx payload)
    (fun r w => left_behind (dk_fs (aw_disk w)) (aw_app w) /\ forall u, r = Ok u -> placed payload (dk_fs (aw_disk w)))
    (fun w => left_behind (dk_fs (aw_disk w)) (aw_app w)) (mkAppWorld d a).
Proof.
  intros Hd Hjp Hmem Hfirm Hfree. unfold fs_restore. apply run_bind, run_on_disk.
  pose proof (sure_plan payload d Hd Hfirm) as Hplan.
  pose proof (keeps_plan payload d) as Hk. unfold on_fs in Hk. rewrite Hd in Hk. specialize (Hk (grown_refl _ _)).
  assert (Hjp' : forall fs, grown R fs0 fs -> fs !! jp = None).
  { intros fs Hg. destruct (Hg jp) as [-> | ([_ Hu]%elem_of_ancestors & _)]; [done |]. exfalso.
    apply (root_journals R jp Hu), jp_journals. }
  unfold run at 1. unfold ensures in Hplan. destruct (plan_restore self payload d) as [[p | e |] d1]; cbn in Hk;
    [clear Hk | split; [by eapply left_pending; eauto; intros ? | done] | by eapply left_pending; eauto; intros ?].
  destruct Hplan as (entries & j & -> & Hent & Hw1 & HR1 & Hg1 & Hrc & seen & Hsc).
  pose proof (scanned_recorded R (dk_fs d1) entries seen j Hsc (Hfree _ Hent) Hw1) as Hrec.
  apply run_bind, run_on_app. cbn [fst snd]. rewrite Hmem. apply run_bind, run_lift. cbn [is_some reject_if].
  assert (Hpending : forall fs, pending R (rx_attempt_id ctx) (dk_fs d1) fs -> left_behind fs a).
  { intros fs [Hs Hn]. by eapply left_pending. }
  apply run_bind, run_on_disk. eapply run_conseq; [apply (run_persist R _ _ j Hrec HR1 (Hjp' _ Hg1)); done | |].
  2: { intros d2 [Hp | [Ha Hdir]]; [by apply Hpending |]. cbn. eapply left_armed; eauto. }
  intros [[] | e] d2 Hd2; [destruct Hd2 as [Ha HRd] | split; [by apply Hpending | done]].
  apply run_bind, run_on_app. cbn [fst snd]. apply run_on_disk.
  assert (Harmed : forall d', on_fs (armed R (rx_attempt_id ctx) (dk_fs d1) j) d' ->
    left_behind (dk_fs d') (set_journals (<[rx_attempt_id ctx := j]> (journals a)) a)).
  { intros d' Ha'. eapply left_armed; eauto. right. rewrite Hlens. apply (lookup_insert_eq (M := gmap string)). }
  eapply run_conseq; [apply run_ensures; [| apply (apply_places R entries (sc_nodup _ _ _ _ _ _ Hsc))] | |].
  { apply run_keeps with (I := on_fs (armed R (rx_attempt_id ctx) (dk_fs d1) j)) (Q := fun _ => on_fs (armed R (rx_attempt_id ctx) (dk_fs d1) j))
      (C := on_fs (armed R (rx_attempt_id ctx) (dk_fs d1) j)); [| exact Ha | auto..].
    apply (keeps_apply_files R _ _ j Hrec HR1 (Hjp' _ Hg1) (scanned_covered R (dk_fs d1) entries seen j Hsc Hw1 HRd)).
    intros e He. rewrite (sc_names _ _ _ _ _ _ Hsc). by apply list_elem_of_fmap_2. }
  2: { intros d3 Hd3. by apply Harmed. }
  intros r d3 [Ha3 Hp]. split; [by apply Harmed |]. intros u ->. destruct (Hp u eq_refl) as [Hin _]. clear Hp.
  exists entries. split; [done |]. split; [done |]. intros q HqJ Hq. destruct Ha3 as (Hb & _ & _). cbn [aw_disk].
  destruct (Hb q HqJ) as (_ & Hdirs & Hsame). destruct (decide (q ∈ all_dirs R j)) as [HqC | HqC].
  - assert (Hnone : dk_fs d1 !! q = None).
    { apply list_elem_of_fmap in HqC as (c & -> & Hc). destruct (rc_dir _ _ _ Hrec _ Hc) as (r & Hr & Hn).
      by rewrite (dest_checked _ _ _ Hr). }
    destruct (Hg1 q) as [E | (_ & _ & E)]; [| congruence]. rewrite <- E, Hnone. destruct (Hdirs HqC); auto.
  - rewrite Hsame; [| | done].
    + destruct (Hg1 q) as [E | (_ & E1 & E2)]; auto.
    + intros (e & -> & He)%list_elem_of_fmap. assert (Hrel : e.1 ∈ entries.*1).
      { rewrite <- (sc_names _ _ _ _ _ _ Hsc). by apply list_elem_of_fmap_2. }
      apply list_elem_of_fmap in Hrel as ([rel content] & E & Hrel). apply (Hq rel content Hrel). cbn in E. by rewrite E.
Qed.

(** C15 (safety). A restore of files is complete or is undone.  Under two conditions: no
    call of the disk fails while the plan is built ([firm]; the process may stop there,
    and once the plan stands any call may fail; a failing [exists()] would make the plan
    record a file as new that is there), and no destination of the payload is below
    another one ([prefix_free], as in what is captured from one source).  The restore is
    that of an attempt without a journal, in memory or on the disk, in a file system
    where what holds an entry is a directory.  Then:
    - when it returns, every file of the payload is in place and, the directory of the
      journals apart, nothing else has changed but for new directories;
    - wherever it fails or stops, or when it has returned, a cleanup from a disk that
      answers, in the same process or in one started anew, succeeds; it leaves no journal
      and, the directory of the journals apart, every file and directory as it was before
      the restore, but for directories on the way to the root of the restore and this root.
    Of JSON this uses that files and journals are read back as they were written. *)
Theorem fs_restore_spec payload d a :
  dk_fs d = fs0 -> fs0 !! jp = None -> journals a !! rx_attempt_id ctx = None ->
  firm d (plan_restore self payload d).2 ->
  (forall entries, files_from_slice payload = Some entries -> prefix_free entries) ->
  let '(o, w) := fs_restore self journals set_journals ctx payload (mkAppWorld d a) in
  (o = Done tt -> placed payload (dk_fs (aw_disk w))) /\
  forall a2, a2 = aw_app w \/ journals a2 !! rx_attempt_id ctx = None ->
    quiet_at (dk_fs (aw_disk w)) (aw_disk w) ->
    exists w', fs_cleanup_restore self journals set_journals ctx (mkAppWorld (aw_disk w) a2) = (Done tt, w') /\
      rolled_back (dk_fs (aw_disk w')) /\ journals (aw_app w') !! rx_attempt_id ctx = None.
Proof.
  intros Hd Hjp Hmem Hfirm Hfree. pose proof (restore_leaves payload d a Hd Hjp Hmem Hfirm Hfree) as Hrun.
  unfold run in Hrun. destruct (fs_restore self journals set_journals ctx payload (mkAppWorld d a)) as [o w].
  assert (Hboth : left_behind (dk_fs (aw_disk w)) (aw_app w) /\ (o = Done tt -> placed payload (dk_fs (aw_disk w)))).
  { destruct o as [[] | e |]; [destruct Hrun as [H1' H2']; split; [done |]; intros _; by eapply H2' | by split; [apply Hrun |] | by split]. }
  destruct Hboth as [Hleft Hplaced]. split; [done |]. intros a2 Ha2 Hq. apply left_cleaned; [done |]. cbn.
  destruct Ha2 as [-> | Ha2]; [done |]. destruct Hleft; [by eapply left_pending | eapply left_armed; eauto].
Qed.
End app.
End rollback.

(** ** A restore that fails *)

(** A codec: a payload is the code of its files, a bit in each byte. *)
Fixpoint bits (p : positive) : list byte :=
  match p with xH => [] | xO p => Byte.x00 :: bits p | xI p => Byte.x01 :: bits p end.
Fixpoint of_bits (l : list byte) : positive :=
  match l with [] => xH | Byte.x00 :: l => xO (of_bits l) | _ :: l => xI (of_bits l) end.

Lemma of_bits_bits p : of_bits (bits p) = p.
Proof. induction p; cbn; congruence. Qed.

Definition journal_tuple (j : FilesystemRestoreJournal) := (fj_files j, fj_created_dirs j, fj_root_created j).
Definition tuple_journal (t : list (string * option (list byte)) * list string * bool) : FilesystemRestoreJournal :=
  mkFilesystemRestoreJournal t.1.1 t.1.2 t.2.

Definition bit_codec : FileCodec :=
  {| files_to_vec := fun l => bits (countable.encode l); files_from_slice := fun b => countable.decode (of_bits b);
     journal_to_vec := fun j => bits (countable.encode (journal_tuple j));
     journal_from_slice := fun b => tuple_journal <$> countable.decode (of_bits b) |}.

Lemma bit_codec_laws : FileCodecLaws bit_codec.
Proof.
  split; intros x; cbn; rewrite of_bits_bits, countable.decode_encode; [done |]. by destruct x.
Qed.

(** A disk on which one call fails. *)
Definition faulty_disk (k : nat) : DiskEnv :=
  {| disk_outcome := fun t => if Nat.eqb t k then IoFailed else IoDone; disk_left := fun _ fs => fs;
     disk_torn := fun _ => Some [Byte.x3f]; disk_made := fun _ => 1%nat;
     disk_dir_len := fun _ => 4096; disk_age := fun _ _ => Some 0; disk_order := fun _ l => l;
     disk_renamed := fun _ => true; disk_now := fun t => Z.of_nat t; disk_random := fun _ => id_splat Byte.x77 |}.

Lemma faulty_disk_laws k : DiskLaws (faulty_disk k).
Proof. by split. Qed.

Definition a_files_provider : FilesystemProvider :=
  {| fp_spec := {| ps_component_id := "files"; ps_component_type := FilesystemState; ps_required := true; ps_schema_version := 1;
       ps_restore_handler := "files"; ps_compatibility := "{}"; ps_dependencies := [] |};
     fp_source_paths := []; fp_restore_roots := [["data"]] |}.

Definition a_restore : RestoreContext := mkRestoreContext (id_splat Byte.x01) (id_splat Byte.x02) "a1" [] [].
Definition constant_sha256 : Sha256 := {| sha256_hex := fun _ => "d1" |}.
Definition old_files : Fs := {[ [] := Dir; ["data"] := Dir; ["data"; "a"] := File [Byte.x61] ]}.
Definition new_files : list FileEntry := [("a", [Byte.x62]); ("d/b", [Byte.x63])].

(** The last call of the restore fails, and leaves a torn file. *)
Definition torn_restore : outcome unit * AppWorld Journals :=
  @fs_restore (faulty_disk 17) constant_sha256 hex_codec bit_codec a_files_provider Journals id (fun j _ => j) a_restore
    (files_to_vec (FileCodec := bit_codec) new_files) (mkAppWorld (mkDisk old_files 0) ∅).

Lemma old_files_rooted : rooted old_files.
Proof.
  split; [done |]. intros p x [n Hn]. unfold old_files in Hn.
  apply lookup_insert_Some in Hn as [[E _] | [_ Hn]]; [by destruct p |].
  apply lookup_insert_Some in Hn as [[E _] | [_ Hn]]; [by destruct p as [| ? []]; [| discriminate E..] |].
  apply lookup_singleton_Some in Hn as [E _]. destruct p as [| y [| z p]]; [discriminate E | | by destruct p]. by injection E as <- _.
Qed.

Example fs_restore_spec_witness :
  let '(o, w) := torn_restore in
  o = Raise io_error /\ dk_fs (aw_disk w) !! ["data"; "d"; "b"] = Some (File [Byte.x3f]) /\
  exists w', @fs_cleanup_restore (faulty_disk 17) constant_sha256 bit_codec a_files_provider Journals id
      (fun j _ => j) a_restore (mkAppWorld (aw_disk w) ∅) = (Done tt, w') /\
    dk_fs (aw_disk w') !! ["data"; "a"] = Some (File [Byte.x61]) /\ dk_fs (aw_disk w') !! ["data"; "d"; "b"] = None.
Proof.
  pose proof (@fs_restore_spec (faulty_disk 17) (faulty_disk_laws 17) constant_sha256 hex_codec bit_codec bit_codec_laws
    a_files_provider ["data"] old_files eq_refl old_files_rooted Journals id (fun j _ => j) (fun _ _ => eq_refl) a_restore
    (files_to_vec (FileCodec := bit_codec) new_files) (mkDisk old_files 0) ∅ eq_refl eq_refl eq_refl) as Hspec.
  change (@fs_restore (faulty_disk 17) constant_sha256 hex_codec bit_codec a_files_provider Journals id (fun j _ => j) a_restore
    (files_to_vec (FileCodec := bit_codec) new_files) (mkAppWorld (mkDisk old_files 0) ∅)) with torn_restore in Hspec.
  assert (Ho : torn_restore.1 = Raise io_error) by by vm_compute.
  assert (Ht : dk_tick (aw_disk torn_restore.2) = 18%nat) by by vm_compute.
  assert (Hf : dk_fs (aw_disk torn_restore.2) !! ["data"; "d"; "b"] = Some (File [Byte.x3f])) by by vm_compute.
  assert (Hp : dk_tick (@plan_restore (faulty_disk 17) bit_codec a_files_provider
    (files_to_vec (FileCodec := bit_codec) new_files) (mkDisk old_files 0)).2 = 8%nat) by by vm_compute.
  destruct torn_restore as [o w]. cbn in Ho, Ht, Hf. split; [exact Ho |]. split; [exact Hf |].
  destruct Hspec as [_ Hspec].
  - intros t Htick. rewrite Hp in Htick. cbn. destruct (Nat.eqb_spec t 17); [lia | done].
  - intros entries Hent. rewrite (@files_round_trip bit_codec bit_codec_laws new_files) in Hent.
    injection Hent as <-. intros e e' He He'. apply elem_of_cons in He as [-> | ->%list_elem_of_singleton];
      apply elem_of_cons in He' as [-> | ->%list_elem_of_singleton]; vm_compute; intros [s E]; congruence.
  - destruct (Hspec ∅) as (w' & E & [_ Hback] & _); [by right | |].
    + split; [done |]. intros t Htick. rewrite Ht in Htick. cbn. destruct (Nat.eqb_spec t 17); [lia | done].
    + exists w'. split; [exact E |]. split.
      * destruct (Hback ["data"; "a"]) as [-> | (_ & Hn & _)]; [| by vm_compute | by vm_compute in Hn]. by intros [s Es].
      * destruct (Hback ["data"; "d"; "b"]) as [-> | (Ha & _ & _)]; [by intros [s Es] | by vm_compute |].
        exfalso. apply elem_of_ancestors in Ha as [_ Ha]. apply prefix_length in Ha. cbn in Ha. lia.
Defined.
