(* ===== verification/FsCapture.v ===== *)
(** The capture of files ([FsProvider]): the walk visits every directory once and ends
    within its fuel, and what is captured restores the same files elsewhere. *)
From S2P Require Import Prelude Errors Ident Lifecycle Checkpoint Workload Compression Policy Compat.
From S2P Require Import Capture Json Restore Lineage Failpoints Tables Persist.
From S2P Require Import Manifest Messages Dispatch Frame Fs Integrity Storage Providers FsProvider.
From S2P Require Import NodeFacts Stored FsUndo FsRollback.
From Stdlib Require Import Strings.Ascii Strings.Byte.

(** ** One directory *)

Definition entry_dirs (fs : Fs) (d : path) (names : list string) : list path :=
  omap (fun n => match fs !! (d ++ [n]) with Some Dir => Some (d ++ [n]) | _ => None end) names.
Definition entry_files (fs : Fs) (base d : path) (names : list string) : list FileEntry :=
  omap (fun n => match fs !! (d ++ [n]) with
                 | Some (File c) => (fun rel => (slashes (relative_text rel), c)) <$> strip base (d ++ [n])
                 | _ => None
                 end) names.

Lemma walk_bind_ext {W A B} (m : M W A) (k k' : A -> M W B) (Q : A -> W -> Prop) w :
  ensures m Q w -> (forall a w', Q a w' -> k a w' = k' a w') -> (m ≫= k) w = (m ≫= k') w.
Proof. unfold ensures, mbind, M_bind. destruct (m w) as [[a | e |] w']; auto. Qed.

Section one.
Context `{DiskEnv}.
Context (base : path) (fs : Fs).

Lemma ensures_read_dir p d : dk_fs d = fs -> forall `{!DiskLaws _},
  ensures (read_dir p) (fun names d' => fs !! p = Some Dir /\ names ≡ₚ children p fs /\ dk_fs d' = fs) d.
Proof.
  intros Hd HL. eapply ensures_conseq; [apply ensures_look |]. cbn. intros names d' [Hn Hd']. rewrite Hd in *.
  unfold is_dir in Hn. case_bool_decide; [| done]. injection Hn as <-. split; [done |]. split; [apply disk_order_perm | done].
Qed.

Lemma ensures_walk_entries p names : forall d, dk_fs d = fs ->
  ensures (walk_entries base p names)
    (fun r d' => r = (entry_dirs fs p names, entry_files fs base p names) /\ dk_fs d' = fs) d.
Proof.
  induction names as [| n names IH]; intros d Hd; cbn [walk_entries]; [by apply ensures_ret |].
  apply ensures_bind. eapply ensures_conseq; [apply ensures_look |]. intros nd d1 [Hn Hd1]. rewrite Hd in *.
  cbn [entry_dirs entry_files omap list_omap]. rewrite Hn.
  apply ensures_bind. destruct nd as [| c].
  - apply ensures_ret. apply ensures_bind. eapply ensures_conseq; [by apply IH |]. intros rest d2 [-> Hd2]. by apply ensures_ret.
  - apply ensures_bind, ensures_lift. intros rel Hrel%ok_or_Ok. rewrite Hrel. cbn.
    apply ensures_bind. eapply ensures_conseq; [apply ensures_look |]. cbn. intros c' d2 [Hc Hd2].
    rewrite Hd1, Hn in Hc. injection Hc as <-. apply ensures_ret. apply ensures_bind.
    eapply ensures_conseq; [apply IH; congruence |]. intros rest d3 [-> Hd3]. by apply ensures_ret.
Qed.

Lemma children_NoDup p : NoDup (children p fs).
Proof.
  unfold children. assert (Hnd : NoDup (map_to_list fs).*1) by apply NoDup_fst_map_to_list.
  induction (map_to_list fs) as [| [q n] l IH]; [constructor |]. apply NoDup_cons in Hnd as [Hq Hnd]. cbn.
  destruct (strip p q) as [r |] eqn:Es; cbn; [| by apply IH]. apply strip_Some in Es as ->.
  destruct r as [| y [|]]; cbn; try by apply IH. constructor; [| by apply IH].
  intros Hin. apply Hq. apply list_elem_of_omap in Hin as ([q2 n2] & Hin & Hx). cbn in Hx.
  destruct (strip p q2) as [r2 |] eqn:E2; [| done]. apply strip_Some in E2 as ->.
  destruct r2 as [| y2 [|]]; try done. injection Hx as ->. apply list_elem_of_fmap. by exists (p ++ [y], n2).
Qed.

Lemma elem_of_entry_dirs p names c :
  c ∈ entry_dirs fs p names <-> exists n, n ∈ names /\ c = p ++ [n] /\ fs !! c = Some Dir.
Proof.
  unfold entry_dirs. rewrite list_elem_of_omap. split.
  - intros (n & Hn & E). destruct (fs !! (p ++ [n])) as [[|] |] eqn:En; try done. injection E as <-. by exists n.
  - intros (n & Hn & -> & Hd). exists n. by rewrite Hd.
Qed.

Lemma entry_dirs_NoDup p names : NoDup names -> NoDup (entry_dirs fs p names).
Proof.
  induction names as [| n names IH]; intros Hnd; [constructor |]. apply NoDup_cons in Hnd as [Hn Hnd].
  cbn. destruct (fs !! (p ++ [n])) as [[|] |]; [| by apply IH..]. constructor; [| by apply IH].
  intros (n' & Hn' & E & _)%elem_of_entry_dirs. apply app_inv_head in E. by injection E as <-.
Qed.
End one.

(** ** The walk *)

Section walk.
Context `{DiskEnv, !DiskLaws _}.
Context (base : path) (fs : Fs).

(** The directories visited and the directories on the stack. *)
Record walking (V stack : list path) : Prop := {
  wk_nodup : NoDup (V ++ stack);
  wk_dir : forall c, c ∈ V ++ stack -> fs !! c = Some Dir /\ under base c;
  wk_base : base ∈ V ++ stack;
  wk_down : forall d n, d ∈ V -> fs !! (d ++ [n]) = Some Dir -> d ++ [n] ∈ V ++ stack;
  wk_up : forall d n, d ++ [n] ∈ V ++ stack -> under base d -> d ∈ V
}.

Lemma walking_start : fs !! base = Some Dir -> walking [] [base].
Proof.
  intros Hb. split; cbn.
  - apply NoDup_singleton.
  - by intros c ->%list_elem_of_singleton.
  - by left.
  - by intros d n ?%not_elem_of_nil.
  - intros d n E%list_elem_of_singleton Hu. exfalso. rewrite <- E in Hu. apply prefix_length in Hu.
    rewrite length_app in Hu. cbn in Hu. lia.
Qed.

Lemma walking_step V d stack names : walking V (d :: stack) -> names ≡ₚ children d fs ->
  walking (d :: V) (reverse (entry_dirs fs d names) ++ stack).
Proof.
  intros Hw Hn. set (new := entry_dirs fs d names).
  assert (Hnew : forall c, c ∈ new <-> exists n, c = d ++ [n] /\ fs !! c = Some Dir).
  { intros c. unfold new. rewrite elem_of_entry_dirs. setoid_rewrite Hn. split.
    - intros (n & _ & Hc). by exists n.
    - intros (n & -> & Hc). exists n. split; [| done]. apply elem_of_children. by rewrite Hc; eexists. }
  assert (Hdb : under base d) by (apply (wk_dir _ _ Hw); apply elem_of_app; right; by left).
  assert (HdV : d ∉ V).
  { intros Hin. pose proof (wk_nodup _ _ Hw) as Hnd. apply NoDup_app in Hnd as (_ & Hnd & _). apply (Hnd d Hin). by left. }
  assert (Hfresh : forall c, c ∈ new -> c ∉ V ++ d :: stack).
  { intros c (n & -> & _)%Hnew Hin. by apply HdV, (wk_up _ _ Hw d n). }
  assert (Hperm : (d :: V) ++ reverse new ++ stack ≡ₚ new ++ V ++ d :: stack).
  { rewrite reverse_Permutation, <- Permutation_middle. cbn. rewrite (Permutation_app_swap_app V). by rewrite <- Permutation_middle. }
  assert (Hmem : forall c, c ∈ (d :: V) ++ reverse new ++ stack <-> c ∈ new \/ c ∈ V ++ d :: stack).
  { intros c. by rewrite Hperm, elem_of_app. }
  split.
  - rewrite Hperm. apply NoDup_app. split; [| split; [exact Hfresh | apply Hw]].
    apply entry_dirs_NoDup. rewrite Hn. apply children_NoDup.
  - intros c [Hc | Hc]%Hmem; [| by apply (wk_dir _ _ Hw)]. apply Hnew in Hc as (n & -> & Hd).
    split; [done |]. eapply under_trans; [exact Hdb | apply under_app].
  - apply Hmem. right. apply (wk_base _ _ Hw).
  - intros d' n [-> | Hd']%elem_of_cons Hdir; apply Hmem.
    + left. apply Hnew. by exists n.
    + right. by apply (wk_down _ _ Hw).
  - intros d' n [Hc | Hc]%Hmem Hu.
    + apply Hnew in Hc as (n' & E & _). apply app_inj_tail in E as [-> _]. by left.
    + right. by apply (wk_up _ _ Hw d' n).
Qed.

Lemma walking_size V stack : walking V stack -> (length V + length stack <= size fs)%nat.
Proof.
  intros Hw. rewrite <- length_app, <- (size_list_to_set (C := gset path)) by apply Hw.
  rewrite <- (size_dom (D := gset path)). apply subseteq_size. intros c Hc%elem_of_list_to_set.
  apply elem_of_dom. destruct (wk_dir _ _ Hw c Hc) as [-> _]. by eexists.
Qed.

(** More fuel makes no difference. *)
Lemma walk_fuel_enough fuel : forall k V stack d, walking V stack -> dk_fs d = fs -> (size fs <= fuel + length V)%nat ->
  walk fuel base stack d = walk (fuel + k) base stack d.
Proof.
  induction fuel as [| fuel IH]; intros k V stack d Hw Hd Hf; destruct stack as [| p stack]; try (by destruct k).
  { pose proof (walking_size _ _ Hw) as Hs. cbn in Hs. lia. }
  cbn [walk Nat.add]. eapply walk_bind_ext; [by apply ensures_read_dir |]. intros names d1 (_ & Hn & Hd1).
  eapply walk_bind_ext; [by apply ensures_walk_entries |]. intros found d2 [-> Hd2]. cbn [fst snd].
  unfold mbind, M_bind. rewrite (IH k (p :: V) _ d2); [done | by apply walking_step | done | cbn; lia].
Qed.

(** ** On a quiet disk *)

Definition quietly {A : Type} (m : M Disk A) (Q : A -> Prop) : Prop :=
  forall d, quiet_at fs d -> exists a d', m d = (Done a, d') /\ quiet_at fs d' /\ Q a.

Lemma quietly_bind {A B} (m : M Disk A) (k : A -> M Disk B) (P : A -> Prop) Q :
  quietly m P -> (forall a, P a -> quietly (k a) Q) -> quietly (m ≫= k) Q.
Proof.
  intros Hm Hk d Hd. destruct (Hm d Hd) as (a & d1 & E & Hd1 & Ha). unfold mbind, M_bind. rewrite E. by apply Hk.
Qed.

Lemma quietly_returns {A} (m : M Disk A) a Q : returns (quiet_at fs) m a -> Q a -> quietly m Q.
Proof. intros Hm HQ d Hd. destruct (Hm d Hd) as (d' & E & Hd'). by exists a, d'. Qed.

Lemma quietly_ret {A} (a : A) Q : Q a -> quietly (mret a) Q.
Proof. apply quietly_returns, returns_ret. Qed.

Lemma quietly_ensures {A} (m : M Disk A) (P Q : A -> Prop) :
  quietly m P -> (forall d, dk_fs d = fs -> ensures m (fun a _ => Q a) d) -> quietly m Q.
Proof.
  intros Hm He d Hd. destruct (Hm d Hd) as (a & d' & E & Hd' & _). exists a, d'. split; [done |]. split; [done |].
  specialize (He d (proj1 Hd)). unfold ensures in He. by rewrite E in He.
Qed.

Lemma quietly_look {A} (f : nat -> Fs -> option A) (Q : A -> Prop) :
  (forall t, exists a, f t fs = Some a /\ Q a) -> quietly (look f) Q.
Proof.
  intros Hf [fs' t] [Hfs Hq]. cbn in *. subst fs'. destruct (Hf t) as (a & E & Ha). unfold look. cbn. rewrite Hq, E by done.
  exists a. eexists. split; [done |]. split; [| done]. split; [done |]. cbn. intros. apply Hq. lia.
Qed.

Lemma quietly_read_dir p : fs !! p = Some Dir -> quietly (read_dir p) (fun names => names ≡ₚ children p fs).
Proof.
  intros Hp. apply quietly_look. intros t. unfold is_dir. rewrite bool_decide_eq_true_2 by done.
  eexists. split; [done | apply disk_order_perm].
Qed.

Lemma quietly_walk_entries p names : under base p -> (forall n, n ∈ names -> is_Some (fs !! (p ++ [n]))) ->
  quietly (walk_entries base p names) (fun r => r = (entry_dirs fs p names, entry_files fs base p names)).
Proof.
  intros Hp Hn. eapply quietly_ensures with (P := fun _ => True).
  2: { intros d Hd. eapply ensures_conseq; [by apply (ensures_walk_entries base fs) | by intros a d' [-> _]]. }
  induction names as [| n names IH]; cbn [walk_entries]; [by apply quietly_ret |].
  destruct (Hn n ltac:(by left)) as [nd Hnd].
  eapply quietly_bind with (P := fun nd' => nd' = nd).
  { apply quietly_look. intros _. by exists nd. }
  intros _ ->. apply quietly_bind with (P := fun _ => True).
  - destruct nd as [| c]; [by apply quietly_ret |]. destruct Hp as [s ->].
    rewrite <- (assoc_L (++)), (proj2 (strip_Some base (base ++ s ++ [n]) (s ++ [n])) eq_refl).
    apply quietly_bind with (P := fun _ => True); [eapply quietly_returns; [apply returns_lift | done] | intros rel _].
    apply quietly_bind with (P := fun _ => True); [| intros; by apply quietly_ret].
    eapply quietly_returns; [apply returns_read; by rewrite (assoc_L (++)) | done].
  - intros [] _. apply quietly_bind with (P := fun _ => True); [| intros; by apply quietly_ret].
    apply IH. intros n' Hn'. apply Hn. by right.
Qed.

(** The files of the directories visited. *)
Definition entry_paths (d : path) (names : list string) : list (path * list byte) :=
  omap (fun n => match fs !! (d ++ [n]) with
                 | Some (File c) => (fun rel => (rel, c)) <$> strip base (d ++ [n])
                 | _ => None
                 end) names.
Definition visited (visits : list (path * list string)) : list (path * list byte) :=
  concat ((fun v => entry_paths v.1 v.2) <$> visits).
Definition as_entry (e : path * list byte) : FileEntry := (slashes (relative_text e.1), e.2).

Lemma entry_files_paths d names : entry_files fs base d names = as_entry <$> entry_paths d names.
Proof.
  unfold entry_files, entry_paths. induction names as [| n names IH]; [done |]. cbn.
  destruct (fs !! (d ++ [n])) as [[| c] |]; [done | | done]. destruct (strip base (d ++ [n])); cbn; [| done].
  f_equal. exact IH.
Qed.

Lemma elem_of_entry_paths d names r c : under base d ->
  (r, c) ∈ entry_paths d names <-> exists n, n ∈ names /\ base ++ r = d ++ [n] /\ fs !! (base ++ r) = Some (File c).
Proof.
  intros Hd. unfold entry_paths. rewrite list_elem_of_omap. split.
  - intros (n & Hn & E). destruct (fs !! (d ++ [n])) as [[| c'] |] eqn:En; try done.
    destruct (strip base (d ++ [n])) as [r' |] eqn:Es; [| done]. injection E as <- <-. apply strip_Some in Es.
    exists n. rewrite <- Es. by split.
  - intros (n & Hn & E & Hf). exists n. split; [done |]. rewrite <- E, Hf, (proj2 (strip_Some base (base ++ r) r) eq_refl). done.
Qed.

Lemma walk_visits fuel : forall V stack, walking V stack -> (size fs <= fuel + length V)%nat ->
  quietly (walk fuel base stack) (fun es => exists visits, es = as_entry <$> visited visits /\
    walking (reverse visits.*1 ++ V) [] /\ forall v, v ∈ visits -> v.2 ≡ₚ children v.1 fs).
Proof.
  assert (Hnil : forall V, walking V [] -> exists visits, [] = as_entry <$> visited visits /\
    walking (reverse visits.*1 ++ V) [] /\ forall v, v ∈ visits -> v.2 ≡ₚ children v.1 fs).
  { intros V Hw. exists []. split; [done |]. split; [done |]. by intros v ?%not_elem_of_nil. }
  induction fuel as [| fuel IH]; intros V stack Hw Hf; destruct stack as [| p stack].
  { cbn. by apply quietly_ret, Hnil. }
  { pose proof (walking_size _ _ Hw) as Hs. cbn in Hs. lia. }
  { cbn. by apply quietly_ret, Hnil. }
  cbn [walk]. destruct (wk_dir _ _ Hw p) as [Hp Hpb]; [apply elem_of_app; right; by left |].
  eapply quietly_bind; [by apply quietly_read_dir |]. intros names Hn.
  eapply quietly_bind; [apply quietly_walk_entries; [done |] |].
  { intros n Hin. rewrite Hn in Hin. by apply elem_of_children. }
  intros found ->. cbn [fst snd]. eapply quietly_bind; [apply (IH (p :: V)); [by apply walking_step | cbn; lia] |].
  intros es (visits & -> & Hw' & Hv). apply quietly_ret. exists ((p, names) :: visits). split; [| split].
  - unfold visited. cbn. by rewrite entry_files_paths, <- fmap_app.
  - cbn [fmap list_fmap fst]. rewrite reverse_cons, <- (assoc_L (++)). exact Hw'.
  - intros v [-> | Hin]%elem_of_cons; [done | by apply Hv].
Qed.
End walk.

(** ** The files captured *)

(** Names a payload can carry to another root. *)
Definition portable (base : path) (fs : Fs) : Prop := forall r n, fs !! (base ++ r) = Some n ->
  Forall (fun c => clean c /\ slashes c = c) r /\ head r <> Some RESTORE_JOURNAL_DIR.

Lemma slashes_app a b : slashes (a +:+ b) = slashes a +:+ slashes b.
Proof. induction a as [| c a IH]; [done |]. apply (f_equal (String _)), IH. Qed.

Lemma slashes_text r : Forall (fun c => slashes c = c) r -> slashes (relative_text r) = relative_text r.
Proof.
  unfold relative_text. intros Hr. induction Hr as [| c r Hc Hr IH]; [done |]. destruct r as [| c' r]; [exact Hc |].
  change (String.concat "/" (c :: c' :: r)) with (c +:+ "/" +:+ String.concat "/" (c' :: r)).
  by rewrite !slashes_app, Hc, IH.
Qed.

(** The listing of the files below [base]. *)
Record listing (base : path) (fs : Fs) (l : list (path * list byte)) : Prop := {
  ls_nodup : NoDup l.*1;
  ls_files : forall r c, (r, c) ∈ l <-> fs !! (base ++ r) = Some (File c)
}.

Section captured.
Context `{DiskEnv, !DiskLaws _}.
Context (base : path) (fs : Fs) (Hw : rooted fs) (Hb : fs !! base = Some Dir).

Lemma elem_of_visited visits e : e ∈ visited base fs visits <-> exists v, v ∈ visits /\ e ∈ entry_paths base fs v.1 v.2.
Proof.
  unfold visited. induction visits as [| v visits IH]; cbn.
  - split; [by intros ?%not_elem_of_nil | by intros (v & ?%not_elem_of_nil & _)].
  - rewrite elem_of_app, IH. split.
    + intros [He | (v' & Hv' & He)]; [exists v; split; [by left | done] | exists v'; split; [by right | done]].
    + intros (v' & [-> | Hv']%elem_of_cons & He); [by left | right; by exists v'].
Qed.

Context (visits : list (path * list string)).
Context (Hwalk : walking base fs (reverse visits.*1 ++ []) []) (Hv : forall v, v ∈ visits -> v.2 ≡ₚ children v.1 fs).

Lemma visited_dirs d : d ∈ visits.*1 <-> d ∈ (reverse visits.*1 ++ []) ++ [].
Proof. by rewrite !app_nil_r, elem_of_reverse. Qed.

Lemma all_visited s : fs !! (base ++ s) = Some Dir -> base ++ s ∈ visits.*1.
Proof.
  induction s as [| x s IH] using rev_ind; intros Hs.
  - rewrite app_nil_r. apply visited_dirs. apply (wk_base _ _ _ _ Hwalk).
  - rewrite (assoc_L (++)) in *. apply visited_dirs. apply (wk_down _ _ _ _ Hwalk); [| done].
    rewrite app_nil_r, elem_of_reverse. apply IH, (proj2 Hw) with x. by rewrite Hs; eexists.
Qed.

Lemma visit_dir v : v ∈ visits -> fs !! v.1 = Some Dir /\ under base v.1.
Proof. intros Hin. apply (wk_dir _ _ _ _ Hwalk), visited_dirs. by apply list_elem_of_fmap_2. Qed.

Lemma visited_elem r c : (r, c) ∈ visited base fs visits <-> fs !! (base ++ r) = Some (File c).
Proof.
  rewrite elem_of_visited. split.
  - intros (v & Hin & He). apply elem_of_entry_paths in He as (n & _ & _ & Hf); [done | by apply visit_dir].
  - intros Hf. assert (Hr : r <> []) by (intros ->; rewrite app_nil_r in Hf; congruence).
    destruct (exists_last Hr) as (r0 & x & ->). rewrite (assoc_L (++)) in Hf.
    assert (Hd : base ++ r0 ∈ visits.*1) by (apply all_visited, (proj2 Hw) with x; rewrite Hf; by eexists).
    apply list_elem_of_fmap in Hd as (v & E & Hin). exists v. split; [done |].
    apply elem_of_entry_paths; [by apply visit_dir |]. exists x. rewrite (assoc_L (++)), <- E.
    split; [| by split]. rewrite (Hv v Hin), <- E. apply elem_of_children. rewrite Hf. by eexists.
Qed.

Lemma entry_paths_NoDup d names : NoDup names -> NoDup (entry_paths base fs d names).*1.
Proof.
  unfold entry_paths. induction names as [| n names IH]; intros Hnd; [constructor |]. apply NoDup_cons in Hnd as [Hn Hnd].
  cbn. destruct (fs !! (d ++ [n])) as [[| c] |]; [by apply IH | | by apply IH].
  destruct (strip base (d ++ [n])) as [r |] eqn:Es; cbn; [| by apply IH]. constructor; [| by apply IH].
  intros ([r' c'] & -> & Hin)%list_elem_of_fmap. apply list_elem_of_omap in Hin as (n' & Hn' & E).
  destruct (fs !! (d ++ [n'])) as [[| c2] |]; try done. destruct (strip base (d ++ [n'])) as [r2 |] eqn:E2; [| done].
  injection E as -> _. apply strip_Some in Es, E2. cbn in Es. rewrite <- E2 in Es. apply app_inv_head in Es. by injection Es as <-.
Qed.

Lemma visited_NoDup : NoDup (visited base fs visits).*1.
Proof.
  assert (Hnd : NoDup visits.*1).
  { pose proof (wk_nodup _ _ _ _ Hwalk) as Hnd. rewrite !app_nil_r, reverse_Permutation in Hnd. exact Hnd. }
  assert (Hdirs : forall v, v ∈ visits -> under base v.1) by (intros v Hin; by apply visit_dir).
  clear Hwalk. unfold visited. revert Hnd Hdirs Hv. induction visits as [| v l IH]; intros Hnd Hdirs Hv; [constructor |].
  apply NoDup_cons in Hnd as [Hn Hnd]. cbn. rewrite fmap_app. apply NoDup_app. split; [| split].
  - apply entry_paths_NoDup. rewrite (Hv v) by by left. apply children_NoDup.
  - intros r ([r1 c1] & -> & H1')%list_elem_of_fmap ([r2 c2] & E & H2')%list_elem_of_fmap. cbn in E. subst r2.
    apply elem_of_entry_paths in H1' as (n1 & _ & E1 & _); [| apply Hdirs; by left].
    change (concat ((λ v0, entry_paths base fs v0.1 v0.2) <$> l)) with (visited base fs l) in H2'.
    apply elem_of_visited in H2' as (v' & Hin & He).
    apply elem_of_entry_paths in He as (n2 & _ & E2 & _); [| apply Hdirs; by right].
    rewrite E1 in E2. apply app_inj_tail in E2 as [E2 _]. apply Hn. rewrite E2. by apply list_elem_of_fmap_2.
  - apply IH; [done | |]; intros; [apply Hdirs | apply Hv]; by right.
Qed.

Lemma visited_listing : listing base fs (visited base fs visits).
Proof. split; [apply visited_NoDup | apply visited_elem]. Qed.
End captured.

(** The payload of a listing. *)
Definition entries_of_listing (l : list (path * list byte)) : list FileEntry := merge_sort file_le (as_entry <$> l).

Section capture.
Context `{DiskEnv, !DiskLaws _, FileCodec}.
Context (self : FilesystemProvider) (base : path) (fs : Fs).
Context (Hsrc : fp_source_paths self = [base]) (Hw : rooted fs) (Hb : fs !! base = Some Dir).

Lemma quietly_walk_all : quietly fs (walk_all base) (fun es => exists l, es = as_entry <$> l /\ listing base fs l).
Proof.
  intros d Hd. unfold walk_all. rewrite (proj1 Hd).
  destruct (walk_visits base fs (size fs) [] [base] (walking_start base fs Hb) ltac:(lia) d Hd)
    as (es & d' & E & Hd' & visits & -> & Hwalk & Hv).
  eexists _, d'. split; [exact E |]. split; [done |]. exists (visited base fs visits). split; [done |].
  by apply visited_listing.
Qed.

Lemma quietly_capture : quietly fs (fs_capture self)
  (fun payload => exists l, payload = files_to_vec (entries_of_listing l) /\ listing base fs l).
Proof.
  unfold fs_capture. rewrite Hsrc. cbn [capture_sources].
  eapply quietly_bind with (P := fun es => exists l, es = as_entry <$> l /\ listing base fs l).
  - eapply quietly_bind with (P := fun b => b = true).
    { eapply quietly_returns; [apply returns_or_else, returns_look; intros; done |]. unfold is_dir.
      by rewrite bool_decide_eq_true_2. }
    intros _ ->. eapply quietly_bind; [apply quietly_walk_all |]. intros es (l & -> & Hl).
    eapply quietly_bind with (P := fun r => r = []); [by apply quietly_ret |]. intros _ ->.
    apply quietly_ret. rewrite app_nil_r. by exists l.
  - intros es (l & -> & Hl). apply quietly_ret. by exists l.
Qed.

Context (Hport : portable base fs) (l : list (path * list byte)) (Hl : listing base fs l).

Lemma listing_clean r c : (r, c) ∈ l -> r <> [] /\ Forall clean r /\ head r <> Some RESTORE_JOURNAL_DIR /\
  as_entry (r, c) = (relative_text r, c).
Proof.
  intros Hin%(ls_files _ _ _ Hl). destruct (Hport _ _ Hin) as [Hc Hh].
  split; [by intros ->; rewrite app_nil_r in Hin; congruence |]. split; [| split; [done |]].
  - eapply Forall_impl; [exact Hc | by intros x []].
  - unfold as_entry. cbn. rewrite slashes_text; [done |]. eapply Forall_impl; [exact Hc | by intros x []].
Qed.

Lemma listed_entry e : e ∈ entries_of_listing l <-> exists r, (r, e.2) ∈ l /\ e.1 = relative_text r.
Proof.
  unfold entries_of_listing. rewrite merge_sort_Permutation, list_elem_of_fmap. split.
  - intros ([r c] & -> & Hin). destruct (listing_clean r c Hin) as (_ & _ & _ & ->). by exists r.
  - intros (r & Hin & E). destruct e as [rel c]. cbn in *. subst rel. exists (r, c). split; [| done].
    destruct (listing_clean r c Hin) as (_ & _ & _ & ->). done.
Qed.

Lemma listed_components e r : (r, e.2) ∈ l -> e.1 = relative_text r -> (path_components e.1).2 = r /\ checked_restore_relative e.1 = Ok r.
Proof.
  intros Hin ->. destruct (listing_clean _ _ Hin) as (Hne & Hc & Hh & _). split; [by rewrite relative_components |].
  by apply restorable_checked.
Qed.

Lemma listed_prefix_free : prefix_free (entries_of_listing l).
Proof.
  intros e e' (r & Hin & Er)%listed_entry (r' & Hin' & Er')%listed_entry.
  destruct (listed_components e r Hin Er) as [-> _]. destruct (listed_components e' r' Hin' Er') as [-> _].
  intros [s ->]. destruct s as [| x s]; [by rewrite app_nil_r |]. exfalso.
  apply (ls_files _ _ _ Hl) in Hin, Hin'. rewrite (assoc_L (++)) in Hin'.
  rewrite (rooted_above fs (base ++ r) (x :: s) Hw) in Hin; [done | done | by rewrite Hin'; eexists].
Qed.

Lemma listed_NoDup : NoDup ((fun e : FileEntry => (path_components e.1).2) <$> entries_of_listing l).
Proof.
  unfold entries_of_listing. rewrite merge_sort_Permutation, <- list_fmap_compose.
  assert (E : (fun e : FileEntry => (path_components e.1).2) ∘ as_entry <$> l = l.*1).
  { apply list_fmap_ext. intros i [r c] Hi%list_elem_of_lookup_2. 
    destruct (listing_clean r c Hi) as (Hne & Hc & _ & Ee).
    change ((path_components (as_entry (r, c)).1).2 = r). rewrite Ee. cbn [fst]. by rewrite relative_components. }
  rewrite E. apply Hl.
Qed.
End capture.

(** ** A restore into an empty directory *)

Section does.
Context `{DiskEnv, !DiskLaws _, Sha256, HexCodec, FileCodec}.
Implicit Types (fs : Fs).

(** On a disk where every call succeeds, from [fs], [m] returns. *)
Definition does {A : Type} fs (m : M Disk A) (Q : A -> Fs -> Prop) : Prop :=
  forall d, quiet_at fs d -> exists a d' fs', m d = (Done a, d') /\ quiet_at fs' d' /\ Q a fs'.

Lemma does_bind {A B} fs (m : M Disk A) (k : A -> M Disk B) P Q :
  does fs m P -> (forall a fs', P a fs' -> does fs' (k a) Q) -> does fs (m ≫= k) Q.
Proof.
  intros Hm Hk d Hd. destruct (Hm d Hd) as (a & d1 & fs1 & E & Hd1 & Ha). unfold mbind, M_bind. rewrite E. by apply (Hk a fs1).
Qed.

Lemma does_moves {A} fs (m : M Disk A) (a : A) fs' (Q : A -> Fs -> Prop) : moves fs m a fs' -> Q a fs' -> does fs m Q.
Proof. intros Hm HQ d Hd. destruct (Hm d Hd) as (d' & E & Hd'). by exists a, d', fs'. Qed.

Lemma does_ret {A} fs (a : A) (Q : A -> Fs -> Prop) : Q a fs -> does fs (mret a) Q.
Proof. apply does_moves, moves_ret. Qed.

Lemma does_exists fs (p : path) (Q : bool -> Fs -> Prop) : Q (is_some (fs !! p)) fs -> does fs (path_exists p) Q.
Proof. apply does_moves, moves_exists. Qed.

Lemma does_create fs (p : path) fs' (Q : unit -> Fs -> Prop) : fs_create_dir_all p fs = Some fs' -> Q tt fs' -> does fs (create_dir_all p) Q.
Proof.
  intros Hc HQ [fs0 t] [<- Hq]. unfold create_dir_all. cbn in *. rewrite Hq, Hc by done.
  eexists _, _, fs'. split; [done |]. split; [| done]. split; [done |]. cbn. intros. apply Hq. lia.
Qed.

(** What is made of directories where no file is in the way. *)
Lemma make_dirs_free l fs : (forall q c, q ∈ l -> fs !! q <> Some (File c)) ->
  exists fs', make_dirs l fs = Some fs' /\ (forall q, q ∈ l -> fs' !! q = Some Dir) /\ (forall q, q ∉ l -> fs' !! q = fs !! q).
Proof.
  unfold make_dirs. revert fs. induction l as [| x l IH]; intros fs Hl.
  { exists fs. split; [done |]. split; [by intros q ?%not_elem_of_nil | done]. }
  assert (Hx : exists fs1, make_dir fs x = Some fs1 /\ fs1 !! x = Some Dir /\ forall q, q <> x -> fs1 !! q = fs !! q).
  { unfold make_dir. destruct (fs !! x) as [[| c] |] eqn:E.
    - by exists fs.
    - exfalso. apply (Hl x c); [by left | done].
    - eexists. split; [done |]. split; [apply lookup_insert_eq | intros q Hq; by apply lookup_insert_ne]. }
  destruct Hx as (fs1 & E & Hs1x & Hs1). cbn. rewrite E.
  destruct (IH fs1) as (fs' & E' & Hin & Hout).
  { intros q c Hq. destruct (decide (q = x)) as [-> | Hne]; [by rewrite Hs1x | rewrite Hs1 by done; apply Hl; by right]. }
  exists fs'. split; [exact E' |]. split.
  - intros q [-> | Hq]%elem_of_cons; [| by apply Hin]. destruct (decide (x ∈ l)); [by apply Hin | by rewrite Hout].
  - intros q [Hne Hq]%not_elem_of_cons. rewrite Hout, Hs1 by done. done.
Qed.

Context (R : path) (fs0 : Fs).
Context (Hw0 : rooted fs0) (HR : fs0 !! R = Some Dir) (Hempty : forall x s, fs0 !! (R ++ x :: s) = None).

Lemma does_prepare_root (Q : bool -> Fs -> Prop) : Q false fs0 -> does fs0 (prepare_root R) Q.
Proof.
  intros HQ. unfold prepare_root. eapply does_bind; [by apply does_exists with (Q := fun b fs => b = true /\ fs = fs0); rewrite HR |].
  intros _ _ [-> ->]. eapply does_bind with (P := fun _ fs => fs = fs0).
  - eapply does_bind; [eapply does_moves with (Q := fun _ fs => fs = fs0); [apply returns_look; intros; exact HR | done] |].
    intros n _ ->. by apply does_ret.
  - intros [] _ ->. eapply does_bind; [by apply does_exists with (Q := fun b fs => b = true /\ fs = fs0); rewrite HR |].
    intros _ _ [-> ->]. by apply does_ret.
Qed.

Lemma does_scan_ancestors above : (forall q, q ∈ above -> q <> []) -> forall created,
  does fs0 (scan_ancestors R above created) (fun _ fs => fs = fs0).
Proof.
  induction above as [| q above IH]; intros Hq created; cbn [scan_ancestors]; [by apply does_ret |].
  assert (Hn : fs0 !! (R ++ q) = None) by (destruct q as [| x s]; [by destruct (Hq []); [left |] | apply Hempty]).
  eapply does_bind; [apply does_exists with (Q := fun b fs => b = false /\ fs = fs0); by rewrite Hn |]. intros _ _ [-> ->].
  eapply does_bind with (P := fun _ fs => fs = fs0); [by apply does_ret |]. intros created' _ ->. apply IH. intros q' Hq'. apply Hq. by right.
Qed.

Lemma does_scan_files entries : forall seen j,
  (forall e, e ∈ entries -> exists r, checked_restore_relative e.1 = Ok r) ->
  NoDup ((fun e : FileEntry => (path_components e.1).2) <$> entries) ->
  (forall e, e ∈ entries -> (path_components e.1).2 ∉ seen) ->
  does fs0 (scan_files R entries seen j) (fun _ fs => fs = fs0).
Proof.
  induction entries as [| [rel c] entries IH]; intros seen j Hok Hnd Hseen; cbn [scan_files]; [by apply does_ret |].
  destruct (Hok (rel, c)) as [r Hr]; [by left |]. cbn in Hr. pose proof (rp_components _ _ (checked_restorable _ _ Hr)) as Hcomp.
  pose proof (Hseen (rel, c) ltac:(by left)) as Hs. cbn -[path_components] in Hs. rewrite Hcomp in Hs.
  apply NoDup_cons in Hnd as [Hn Hnd]. cbn -[path_components] in Hn. rewrite Hcomp in Hn.
  eapply does_bind; [eapply does_moves with (Q := fun r' fs => r' = r /\ fs = fs0); [by apply moves_lift | done] |]. intros _ _ [-> ->].
  eapply does_bind; [eapply does_moves with (Q := fun _ fs => fs = fs0); [apply moves_lift; rewrite bool_decide_eq_false_2 by done; done | done] |].
  intros _ _ ->. eapply does_bind; [apply does_scan_ancestors; by intros q [? _]%elem_of_prefixes |]. intros created _ ->.
  eapply does_bind with (P := fun _ fs => fs = fs0).
  - unfold previous_content. assert (Hnone : fs0 !! (R ++ r) = None).
    { pose proof (checked_nonempty _ _ Hr). destruct r; [done | apply Hempty]. }
    eapply does_bind; [apply does_exists with (Q := fun b fs => b = false /\ fs = fs0); by rewrite Hnone |]. intros _ _ [-> ->]. by apply does_ret.
  - intros prev _ ->. apply IH; [| done |].
    + intros e He. apply Hok. by right.
    + intros e He. apply not_elem_of_cons. split; [| apply Hseen; by right].
      intros <-. apply Hn. apply list_elem_of_fmap. by exists e.
Qed.

#[local] Abbreviation J := (journal_dir R).

(** A file written under another name of a directory and moved into place. *)
Lemma moves_into_place dir temp name c fs :
  temp <> name -> fs !! dir = Some Dir -> dir <> dir ++ [temp] -> fs !! (dir ++ [temp]) = None -> fs !! (dir ++ [name]) = None ->
  moves fs (create_new (dir ++ [temp]) c ;; rename_file (dir ++ [temp]) (dir ++ [name])) tt
    (<[dir ++ [name] := File c]> (delete (dir ++ [temp]) (<[dir ++ [temp] := File c]> fs))).
Proof.
  intros Hne Hdir Hlong Htemp Hname.
  assert (Hne' : dir ++ [temp] <> dir ++ [name]) by (intros [= E]%app_inv_head; done).
  eapply moves_bind with (fs1 := <[dir ++ [temp] := File c]> fs).
  - intros [fs' t] [Hfs' Hq']. cbn in *. subst fs'. unfold create_new. cbn [dk_fs dk_tick]. rewrite Htemp. cbn [is_some].
    unfold change_file, fs_create_new, fs_write, has_parent, is_dir. cbn [dk_fs dk_tick]. rewrite Hq', Htemp by done. cbn [is_some].
    unfold parent. rewrite removelast_last.
    rewrite (bool_decide_eq_false_2 (None = Some Dir)), (bool_decide_eq_true_2 (fs !! dir = Some Dir)) by done. cbn.
    eexists. split; [done |]. split; [done |]. cbn. intros. apply Hq'. lia.
  - apply moves_atomic. unfold fs_rename_file. rewrite lookup_insert_eq. unfold is_dir, has_parent, is_dir, parent.
    rewrite removelast_last, !lookup_insert_ne by done.
    rewrite bool_decide_eq_false_2, bool_decide_eq_true_2 by congruence. done.
Qed.

Lemma does_persist attempt_id j : does fs0 (persist_restore_journal R attempt_id j)
  (fun _ fs => forall q, ~ under J q -> fs !! q = fs0 !! q).
Proof.
  set (jp := journal_path R attempt_id). set (fs1 := <[J := Dir]> fs0).
  assert (HJ : fs0 !! J = None) by apply Hempty.
  assert (Hjp : fs1 !! jp = None).
  { unfold fs1. rewrite lookup_insert_ne; [| intros E; apply (jp_not_above R attempt_id); by rewrite E].
    unfold jp, journal_path, journal_dir. rewrite <- (assoc_L (++)). apply Hempty. }
  unfold persist_restore_journal. fold jp.
  eapply does_bind; [apply does_exists with (Q := fun b fs => b = false /\ fs = fs0); by rewrite HJ |]. intros _ _ [-> ->].
  eapply does_bind with (P := fun _ fs => fs = fs1).
  { apply does_create with fs1; [| done]. unfold fs_create_dir_all, journal_dir. rewrite ancestors_snoc.
    unfold make_dirs. rewrite foldl_app. change (foldl _ (Some fs0) (ancestors R)) with (fs_create_dir_all R fs0).
    rewrite create_dir_all_there. { cbn. unfold make_dir. change (R ++ [RESTORE_JOURNAL_DIR]) with J. by rewrite HJ. }
    intros q [_ [s ->]]%elem_of_ancestors. destruct s as [| x s]; [by rewrite app_nil_r in HR |].
    apply (rooted_above _ _ (x :: s) Hw0); [done | rewrite HR; by eexists]. }
  intros [] _ ->.
  eapply does_bind; [apply does_exists with (Q := fun b fs => b = false /\ fs = fs1); by rewrite Hjp |]. intros _ _ [-> ->].
  eapply does_bind with (P := fun _ fs => fs = fs1); [by eapply does_moves; [by apply moves_lift |] |]. intros [] _ ->.
  intros d Hd. unfold mbind at 1, M_bind, random_id. set (i := disk_random (dk_tick d)).
  destruct Hd as [Hd Hq].
  set (temp := J ++ ["." +:+ to_hex i +:+ ".tmp"]).
  assert (Htemp : fs1 !! temp = None).
  { unfold fs1. rewrite lookup_insert_ne; [| intros E; apply (f_equal length) in E; unfold temp in E; rewrite length_app in E; cbn in E; lia].
    unfold temp, journal_dir. rewrite <- (assoc_L (++)). apply Hempty. }
  assert (HtJ : temp <> J) by (intros E; apply (f_equal length) in E; unfold temp in E; rewrite length_app in E; cbn in E; lia).
  assert (Htjp : temp <> jp) by apply temp_not_jp.
  assert (Hlast : moves fs1 (create_new temp (journal_to_vec j);; rename_file temp jp) tt
    (<[jp := File (journal_to_vec j)]> (delete temp (<[temp := File (journal_to_vec j)]> fs1)))).
  { apply moves_into_place; try done; [| apply lookup_insert_eq]. intros E. apply Htjp. unfold temp, jp, journal_path. by rewrite E. }
  destruct (Hlast (mkDisk (dk_fs d) (S (dk_tick d)))) as (d' & E & Hd').
  { split; [cbn; congruence |]. cbn. intros t Ht. apply Hq. lia. }
  eexists tt, d', _. split; [exact E |]. split; [exact Hd' |]. intros q HqJ.
  assert (q <> jp) by (intros ->; by destruct HqJ; apply jp_journals).
  assert (q <> temp) by (intros ->; by destruct HqJ; apply under_app).
  assert (q <> J) by (intros ->; by destruct HqJ).
  unfold fs1. by rewrite lookup_insert_ne, lookup_delete_ne, !lookup_insert_ne by done.
Qed.

(** What the files written so far leave: directories above destinations, files at them. *)
Definition filling (all : list FileEntry) (fs : Fs) : Prop :=
  (forall q, under q R -> fs !! q = Some Dir) /\
  (forall e s x, e ∈ all -> dest R e.1 = R ++ s ++ [x] -> forall q c, under q (R ++ s) -> fs !! q <> Some (File c)) /\
  (forall e, e ∈ all -> fs !! dest R e.1 <> Some Dir).

Lemma filling_start all fs : (forall e, e ∈ all -> exists r, checked_restore_relative e.1 = Ok r) ->
  (forall q, ~ under J q -> fs !! q = fs0 !! q) -> filling all fs.
Proof.
  intros Hok Hs.
  assert (Hup : forall q, under q R -> fs !! q = Some Dir).
  { intros q Hq. rewrite Hs by by apply root_journals. destruct Hq as [s ->].
    destruct s as [| x s]; [by rewrite app_nil_r in HR |].
    apply (rooted_above _ _ (x :: s) Hw0); [done | rewrite HR; by eexists]. }
  assert (Hnone : forall rel r s, checked_restore_relative rel = Ok r -> r <> [] -> s `prefix_of` r -> s <> [] -> fs !! (R ++ s) = None).
  { intros rel r s Hr Hne [t ->] Hs0. rewrite Hs.
    - destruct s; [done | apply Hempty].
    - intros Hu. apply (below_journals R _ _ [] Hr). rewrite app_nil_r. rewrite (assoc_L (++)).
      eapply under_trans; [exact Hu | apply under_app]. }
  split; [exact Hup |]. split.
  - intros e s x He Hd q c Hq. destruct (Hok e He) as [r Hr]. rewrite (dest_checked _ _ _ Hr) in Hd. apply app_inv_head in Hd.
    destruct (prefix_weak_total q R (R ++ s) Hq (under_app R s)) as [HqR | [t ->]]; [by rewrite Hup |].
    destruct t as [| y t]; [rewrite app_nil_r; by rewrite Hup by by apply under_refl |].
    rewrite (Hnone _ _ (y :: t) Hr); [done | by eapply checked_nonempty | | done].
    destruct Hq as [u Hu]. rewrite <- (assoc_L (++)) in Hu. apply app_inv_head in Hu. exists (u ++ [x]). by rewrite (assoc_L (++)), <- Hu.
  - intros e He. destruct (Hok e He) as [r Hr]. rewrite (dest_checked _ _ _ Hr).
    pose proof (checked_nonempty _ _ Hr) as Hne. rewrite (Hnone _ _ r Hr); [done | done | by exists []; rewrite app_nil_r | done].
Qed.

(** No destination is above the directory of another. *)
Lemma dest_not_above all rel c s x :
  prefix_free all -> (forall e, e ∈ all -> exists r, checked_restore_relative e.1 = Ok r) -> (rel, c) ∈ all ->
  checked_restore_relative rel = Ok (s ++ [x]) -> forall e, e ∈ all -> ~ under (dest R e.1) (R ++ s).
Proof.
  intros Hfree Hok He Hr e' He' Hu. destruct (Hok e' He') as [r' Hr']. rewrite (dest_checked _ _ _ Hr') in Hu.
  pose proof (rp_components _ _ (checked_restorable _ _ Hr')) as Hc'. pose proof (rp_components _ _ (checked_restorable _ _ Hr)) as Hc.
  assert (Heq : (path_components e'.1).2 = (path_components rel).2).
  { apply (Hfree e' (rel, c)); [done | done |]. cbn [fst]. rewrite Hc, Hc'. destruct Hu as [u Hu].
    rewrite <- (assoc_L (++)) in Hu. apply app_inv_head in Hu as ->. rewrite <- (assoc_L (++)). apply under_app. }
  rewrite Hc, Hc' in Heq. rewrite Heq in Hu. apply prefix_length in Hu. rewrite !length_app in Hu. cbn in Hu. lia.
Qed.

Lemma does_apply all entries : prefix_free all -> (forall e, e ∈ all -> exists r, checked_restore_relative e.1 = Ok r) ->
  (forall e, e ∈ entries -> e ∈ all) -> forall fs, filling all fs -> does fs (apply_files R entries) (fun _ _ => True).
Proof.
  intros Hfree Hok. induction entries as [| [rel c] entries IH]; intros Hall fs (Hup & Hdirs & Hfiles); cbn [apply_files]; [by apply does_ret |].
  assert (He : (rel, c) ∈ all) by (apply Hall; by left). destruct (Hok _ He) as [r Hr]. cbn in Hr.
  pose proof (checked_nonempty _ _ Hr) as Hne. destruct (exists_last Hne) as (s & x & ->).
  pose proof (dest_checked R _ _ Hr) as Hdest. unfold dest in Hdest. rewrite Hdest.
  assert (Hpar : parent (R ++ s ++ [x]) = R ++ s) by (unfold parent; by rewrite (assoc_L (++)), removelast_last).
  rewrite Hpar. destruct (make_dirs_free (ancestors (R ++ s)) fs) as (fs1 & E & Hin & Hout).
  { intros q c' [_ Hq]%elem_of_ancestors. by apply (Hdirs (rel, c) s x). }
  eapply does_bind with (P := fun _ fs' => fs' = fs1); [by eapply does_create |]. intros [] _ ->.
  assert (Hparent : fs1 !! (R ++ s) = Some Dir).
  { destruct (decide (R ++ s = [])) as [E0 | E0]; [| apply Hin, elem_of_ancestors; by split].
    rewrite E0, Hout; [apply Hup; destruct R; [done | discriminate E0] |]. by intros [? _]%elem_of_ancestors. }
  pose proof (dest_not_above all rel c s x Hfree Hok He Hr) as Hnotdest.
  assert (Hthere : fs1 !! (R ++ s ++ [x]) <> Some Dir).
  { rewrite Hout; [pose proof (Hfiles _ He) as Hf; cbn [fst] in Hf; unfold dest in Hf; by rewrite Hdest in Hf |].
    intros [_ Hu]%elem_of_ancestors. apply (Hnotdest _ He). cbn [fst]. unfold dest. by rewrite Hdest. }
  eapply does_bind; [eapply does_moves with (Q := fun _ fs' => fs' = <[R ++ s ++ [x] := File c]> fs1);
    [apply moves_write; [exact Hthere | by rewrite Hpar] | done] |].
  intros [] _ ->. apply IH; [intros e' He'; apply Hall; by right |].
  assert (Hlook : forall q, q <> R ++ s ++ [x] -> fs1 !! q = Some Dir \/ fs1 !! q = fs !! q).
  { intros q _. destruct (decide (q ∈ ancestors (R ++ s))); [left; by apply Hin | right; by apply Hout]. }
  split; [| split].
  - intros q Hq. assert (Hqne : q <> R ++ s ++ [x]).
    { intros ->. apply prefix_length in Hq. rewrite !length_app in Hq. cbn in Hq. lia. }
    rewrite lookup_insert_ne by done. destruct (Hlook q Hqne) as [-> | ->]; [done | by apply Hup].
  - intros e' s' x' He' Hd' q c' Hq. destruct (decide (q = R ++ s ++ [x])) as [-> | Hqne].
    + exfalso. assert (Hu : under (path_components rel).2 (path_components e'.1).2).
      { apply app_inv_head in Hdest. rewrite Hdest. destruct (Hok e' He') as [r' Hr']. rewrite (dest_checked _ _ _ Hr') in Hd'.
        apply app_inv_head in Hd'. rewrite (rp_components _ _ (checked_restorable _ _ Hr')), Hd'.
        destruct Hq as [u Hu]. rewrite <- (assoc_L (++)) in Hu. apply app_inv_head in Hu as ->. rewrite <- (assoc_L (++)). apply under_app. }
      apply (Hfree (rel, c) e') in Hu; [| done | done]. cbn [fst] in Hu. unfold dest in Hd'. rewrite <- Hu, Hdest in Hd'.
      rewrite Hd' in Hq. apply prefix_length in Hq. rewrite !length_app in Hq. cbn in Hq. lia.
    + rewrite lookup_insert_ne by done. destruct (Hlook q Hqne) as [-> | ->]; [done | by apply (Hdirs e' s' x')].
  - intros e' He'. destruct (decide (dest R e'.1 = R ++ s ++ [x])) as [-> | Hqne]; [by rewrite lookup_insert_eq |].
    rewrite lookup_insert_ne by done. rewrite Hout; [by apply Hfiles |]. intros [_ Hu]%elem_of_ancestors. by apply (Hnotdest e' He').
Qed.
End does.

(** ** Capture, then restore *)

Section round_trip.
Context `{DiskEnv, !DiskLaws _, Sha256, HexCodec, FileCodec, !FileCodecLaws _}.
Context (source target : FilesystemProvider) (base R : path) (fs fs0 : Fs).
Context (Hsrc : fp_source_paths source = [base]) (Hw : rooted fs) (Hb : fs !! base = Some Dir) (Hport : portable base fs).
Context (Htgt : head (fp_restore_roots target) = Some R) (Hw0 : rooted fs0) (HR : fs0 !! R = Some Dir).
Context (Hempty : forall x s, fs0 !! (R ++ x :: s) = None).
Context {App : Type} (journals : App -> Journals) (set_journals : Journals -> App -> App).
Context (Hlens : forall a js, journals (set_journals js a) = js) (ctx : RestoreContext).

Lemma does_plan l : listing base fs l ->
  does fs0 (plan_restore target (files_to_vec (entries_of_listing l)))
    (fun p fs' => fs' = fs0 /\ exists j, p = (R, entries_of_listing l, j)).
Proof.
  intros Hl. unfold plan_restore. rewrite files_round_trip, (restore_root_R target R Htgt). cbn [ok_or].
  eapply does_bind; [eapply does_moves with (Q := fun es fs' => es = entries_of_listing l /\ fs' = fs0); [by apply moves_lift | done] |].
  intros _ _ [-> ->].
  eapply does_bind; [eapply does_moves with (Q := fun r fs' => r = R /\ fs' = fs0); [by apply moves_lift | done] |].
  intros _ _ [-> ->]. eapply does_bind; [by apply does_prepare_root with (Q := fun _ fs' => fs' = fs0) |]. intros b _ ->.
  eapply does_bind; [apply does_scan_files; [done | | |] |].
  - intros e (r & Hin & E)%(listed_entry base fs Hb Hport l Hl). exists r. apply (listed_components base fs Hb Hport l Hl e r Hin E).
  - exact (listed_NoDup base fs Hb Hport l Hl).
  - intros e _. apply not_elem_of_nil.
  - intros j _ ->. apply does_ret. split; [done |]. by exists j.
Qed.

Lemma restore_returns l d a : listing base fs l -> quiet_at fs0 d -> journals a !! rx_attempt_id ctx = None ->
  exists w, fs_restore target journals set_journals ctx (files_to_vec (entries_of_listing l)) (mkAppWorld d a) = (Done tt, w).
Proof.
  intros Hl Hq Hmem. destruct (does_plan l Hl d Hq) as (p & d1 & fs1 & E1 & Hq1 & -> & j & ->).
  assert (Hok : forall e, e ∈ entries_of_listing l -> exists r, checked_restore_relative e.1 = Ok r).
  { intros e (r & Hin & E)%(listed_entry base fs Hb Hport l Hl). exists r. apply (listed_components base fs Hb Hport l Hl e r Hin E). }
  destruct (does_persist R fs0 Hw0 HR Hempty (rx_attempt_id ctx) j d1 Hq1) as ([] & d2 & fs2 & E2 & Hq2 & Hsame).
  pose proof (listed_prefix_free base fs Hw Hb Hport l Hl) as Hfree.
  destruct (does_apply R fs0 HR Hempty (entries_of_listing l) (entries_of_listing l) Hfree Hok (fun e He => He) fs2) with (d := d2)
    as ([] & d3 & fs3 & E3 & _); [by eapply filling_start | done |].
  unfold fs_restore, get_journal, put_journals, on_app, on_disk, mbind, M_bind. cbn. rewrite E1. cbn.
  rewrite Hmem. cbn. rewrite E2. cbn. rewrite E3. by eexists.
Qed.

Lemma quiet_firm d d' : quiet_at fs0 d -> firm d d'.
Proof. intros [_ Hq] t Ht. rewrite Hq by lia. done. Qed.

(** C16 (roundtrip). A directory that is captured is restored.  The provider has one
    source, a directory; every name below it is one that a payload carries (a component of
    a path without a backslash) and none directly below it is that of the directory of the
    restore journals ([portable]); the target is an empty directory, for an attempt
    without a journal in memory; in both file systems what holds an entry is a directory;
    and every call of the disk answers ([quiet_at]).  Then the capture returns a payload
    and changes nothing, the restore of this payload returns, and a relative path, the
    directory of the journals apart, has a file with some content below the target exactly
    when it has this file below the source.  With two sources, or with other names, this
    does not hold: their entries can get the same destination.  Of JSON this uses that
    files and journals are read back as they were written. *)
Theorem captured_files_restore d0 d a :
  quiet_at fs d0 -> quiet_at fs0 d -> journals a !! rx_attempt_id ctx = None ->
  exists payload d1 w, fs_capture source d0 = (Done payload, d1) /\ dk_fs d1 = fs /\
    fs_restore target journals set_journals ctx payload (mkAppWorld d a) = (Done tt, w) /\
    forall r c, head r <> Some RESTORE_JOURNAL_DIR ->
      dk_fs (aw_disk w) !! (R ++ r) = Some (File c) <-> fs !! (base ++ r) = Some (File c).
Proof.
  intros Hq0 Hq Hmem. destruct (quietly_capture source base fs Hsrc Hw Hb d0 Hq0) as (payload & d1 & E & [Hd1 _] & l & -> & Hl).
  destruct (restore_returns l d a Hl Hq Hmem) as (w & Ew). exists (files_to_vec (entries_of_listing l)), d1, w.
  split; [exact E |]. split; [exact Hd1 |]. split; [exact Ew |]. intros r c Hr.
  assert (Hrun := restore_leaves target R fs0 Htgt Hw0 journals set_journals Hlens ctx (files_to_vec (entries_of_listing l)) d a).
  unfold run in Hrun. rewrite Ew in Hrun. destruct Hrun as [_ Hplaced].
  - apply Hq.
  - unfold journal_path, journal_dir. rewrite <- (assoc_L (++)). apply Hempty.
  - done.
  - by apply quiet_firm.
  - intros entries Hent. rewrite files_round_trip in Hent. injection Hent as <-. exact (listed_prefix_free base fs Hw Hb Hport l Hl).
  - destruct (Hplaced tt eq_refl) as (entries & Hent & Hin & Hout). rewrite files_round_trip in Hent. injection Hent as <-.
    rewrite <- (ls_files _ _ _ Hl). split.
    + intros Hf. destruct (decide (Exists (fun e => R ++ r = dest R e.1) (entries_of_listing l))) as [Hex | Hno].
      * apply Exists_exists in Hex as ([rel c'] & He & Er). cbn [fst] in Er. rewrite Er, (Hin rel c' He) in Hf. injection Hf as ->.
        destruct (proj1 (listed_entry base fs Hb Hport l Hl (rel, c)) He) as (r' & Hr' & E').
        destruct (listed_components base fs Hb Hport l Hl (rel, c) r' Hr' E') as [Hcomp _].
        unfold dest in Er. cbn [fst] in Er, Hcomp. rewrite Hcomp in Er. by apply app_inv_head in Er as ->.
      * exfalso. destruct (Hout (R ++ r)) as [Es | [_ Es]]; [| | | congruence].
        -- intros [s Hs]. unfold journal_dir in Hs. rewrite <- (assoc_L (++)) in Hs. apply app_inv_head in Hs as ->. by destruct Hr.
        -- intros rel c' He Er. apply Hno, Exists_exists. by exists (rel, c').
        -- rewrite Hf in Es. destruct r as [| x s]; [rewrite app_nil_r in Es; congruence | by rewrite Hempty in Es].
    + intros Hr'. destruct (listing_clean base fs Hb Hport l Hl r c Hr') as (_ & _ & _ & Ee).
      assert (He : (relative_text r, c) ∈ entries_of_listing l) by (apply (listed_entry base fs Hb Hport l Hl); by exists r).
      rewrite <- (Hin _ _ He). f_equal. unfold dest.
      destruct (listed_components base fs Hb Hport l Hl (relative_text r, c) r Hr' eq_refl) as [Hcomp _].
      cbn [fst] in Hcomp. by rewrite Hcomp.
Qed.
End round_trip.

(** ** A capture *)

#[local] Existing Instances constant_sha256 hex_codec bit_codec bit_codec_laws.

Definition source_provider : FilesystemProvider :=
  {| fp_spec := fp_spec a_files_provider; fp_source_paths := [["src"]]; fp_restore_roots := [] |}.
Definition source_files : Fs :=
  {[ [] := Dir; ["src"] := Dir; ["src"; "a"] := File [Byte.x61]; ["src"; "d"] := Dir; ["src"; "d"; "b"] := File [Byte.x62] ]}.
Definition empty_root : Fs := {[ [] := Dir; ["data"] := Dir ]}.

Ltac cases_of_lookup fs H :=
  apply elem_of_map_to_list in H;
  let l := eval vm_compute in (map_to_list fs) in
  assert (map_to_list fs = l) as Efs by (by vm_compute); rewrite Efs in H; clear Efs;
  repeat (apply elem_of_cons in H as [H | H]; [| try by apply not_elem_of_nil in H]); try by apply not_elem_of_nil in H.

Lemma source_files_rooted : rooted source_files.
Proof.
  split; [done |]. intros p x [n H]. cases_of_lookup source_files H; injection H as Hp Hn;
    destruct p as [| ? [| ? [| ? [| ? p]]]]; try discriminate Hp; injection Hp; intros; subst; by vm_compute.
Qed.

Lemma source_files_portable : portable ["src"] source_files.
Proof.
  intros r n H. cases_of_lookup source_files H; injection H as Hr Hn; cbn in Hr; try discriminate Hr; try injection Hr as Hr; subst r; (split; [repeat constructor; discriminate | discriminate]).
Qed.

Lemma empty_root_rooted : rooted empty_root.
Proof.
  split; [done |]. intros p x [n H]. cases_of_lookup empty_root H; injection H as Hp Hn;
    destruct p as [| ? [| ? p]]; try discriminate Hp; injection Hp; intros; subst; by vm_compute.
Qed.

Example captured_files_restore_witness :
  exists payload d1 w,
    @fs_capture (faulty_disk 0) bit_codec source_provider (mkDisk source_files 1) = (Done payload, d1) /\
    @fs_restore (faulty_disk 0) constant_sha256 hex_codec bit_codec a_files_provider Journals id (fun j _ => j) a_restore payload
      (mkAppWorld (mkDisk empty_root 1) ∅) = (Done tt, w) /\
    dk_fs (aw_disk w) !! ["data"; "d"; "b"] = Some (File [Byte.x62]) /\
    dk_fs (aw_disk w) !! ["data"; "c"] <> Some (File []).
Proof.
  destruct (@captured_files_restore (faulty_disk 0) (faulty_disk_laws 0) constant_sha256 hex_codec bit_codec bit_codec_laws
    source_provider a_files_provider ["src"] ["data"] source_files empty_root eq_refl source_files_rooted eq_refl
    source_files_portable eq_refl empty_root_rooted eq_refl) with (journals := @id Journals) (set_journals := fun (j _ : Journals) => j)
    (ctx := a_restore) (d0 := mkDisk source_files 1) (d := mkDisk empty_root 1) (a := (∅ : Journals))
    as (payload & d1 & w & E1 & _ & E2 & Hiff).
  - intros x s. destruct (empty_root !! (["data"] ++ x :: s)) as [n |] eqn:H; [| done]. exfalso. by cases_of_lookup empty_root H.
  - done.
  - split; [done |]. intros t Ht. cbn in *. destruct (Nat.eqb_spec t 0); [lia | done].
  - split; [done |]. intros t Ht. cbn in *. destruct (Nat.eqb_spec t 0); [lia | done].
  - done.
  - exists payload, d1, w. split; [exact E1 |]. split; [exact E2 |]. split.
    + by apply (Hiff ["d"; "b"] [Byte.x62]).
    + intros Hc. apply (Hiff ["c"] []) in Hc; [by vm_compute in Hc | done].
Defined.
