(* ===== verification/Transport.v ===== *)
(** Framed connections ([src/src/transport.rs]).

    A [Connection] keeps what the socket will answer: [cn_reads] are the results of the
    coming calls of [read], [cn_writes] those of [write_all], and [cn_sent] are the bytes
    that went out.  When [cn_reads] is used up, the thread waits in [read]; this is the
    outcome [Crash].  A handler gets the connection in the source, but none uses it; here
    it works on a state of its own.  [Server::serve] is a step relation: its accept loop,
    the workers and [shutdown] are concurrent. *)
From S2P Require Import Prelude Errors Ident.
From S2P Require Import Capture Json Restore Tables.
From S2P Require Import Manifest Messages Dispatch Frame.
From Stdlib Require Import Strings.Byte.

(** * Definitions *)

(** ** Sockets *)

Inductive ErrorKind : Type :=
| WouldBlock | TimedOut | UnexpectedEof | ConnectionReset | ConnectionAborted | OtherKind.

(** One [read] into a chunk of 64 KiB: the bytes that came, none at the end of the stream,
    or an error. *)
Inductive IoRead : Type := Got (chunk : list byte) | ReadErr (k : ErrorKind).

(** One [write_all] and [flush]: everything went out, or the first [n] bytes. *)
Inductive IoWrite : Type := Written | WriteErr (n : nat).

Definition CHUNK : Z := 64 * 1024.
Definition MAX_BUFFER : Z := MAX_FRAME_PAYLOAD + Z.of_nat HEADER_LEN + 1.

Record Connection := mkConnection {
  cn_reads : list IoRead;
  cn_writes : list IoWrite;
  cn_sent : list byte;
  cn_read_buf : list byte;
  cn_next_request_id : Z
}.
#[export] Instance eta_Connection : Settable Connection :=
  fun c => mkConnection (cn_reads c) (cn_writes c) (cn_sent c) (cn_read_buf c) (cn_next_request_id c).

(** What [Connection::connect] makes of a fresh socket. *)
Definition connected (reads : list IoRead) (writes : list IoWrite) : Connection :=
  mkConnection reads writes [] [] 1.

(** [serde_json] on [Envelope]. *)
Class EnvelopeCodec := {
  envelope_to_vec : Envelope -> list byte;
  envelope_from_slice : list byte -> option Envelope
}.

Definition read_error (k : ErrorKind) : FabricError :=
  match k with
  | WouldBlock | TimedOut => Timeout "transport idle timeout"
  | UnexpectedEof | ConnectionReset | ConnectionAborted => TransportError "peer closed connection: {e}"
  | OtherKind => TransportError "read: {e}"
  end.
Definition eof_error : FabricError := TransportError "peer closed connection (eof)".

(** The same of [read_frame_from_stream]. *)
Definition stream_read_error (k : ErrorKind) : FabricError :=
  match k with
  | WouldBlock | TimedOut => Timeout "transport idle timeout"
  | _ => TransportError "read: {e}"
  end.
Definition stream_eof_error : FabricError := TransportError "eof".

Section transport.
Context `{Crc32c, EnvelopeCodec}.

(** ** Connections *)

(** The loop of [read_frame] and [read_frame_from_stream]: the outcome, the buffer and the
    reads that are left. *)
Fixpoint read_loop (err : ErrorKind -> FabricError) (eof : FabricError) (buf : list byte) (reads : list IoRead)
    : outcome Frame * (list byte * list IoRead) :=
  match decode buf with
  | Err e => (Raise e, (buf, reads))
  | Ok (Some (frame, consumed)) => (Done frame, (drop consumed buf, reads))
  | Ok None =>
      if MAX_BUFFER <? len buf then
        (Raise (ProtocolError "receive buffer exceeded maximum frame size"), (buf, reads))
      else match reads with
           | [] => (Crash, (buf, []))
           | Got [] :: reads' => (Raise eof, (buf, reads'))
           | Got chunk :: reads' => read_loop err eof (buf ++ chunk) reads'
           | ReadErr k :: reads' => (Raise (err k), (buf, reads'))
           end
  end.

Definition read_frame : M Connection Frame := fun c =>
  let '(o, (buf, reads)) := read_loop read_error eof_error (cn_read_buf c) (cn_reads c) in
  (o, c <| cn_read_buf := buf |> <| cn_reads := reads |>).

Definition read_frame_from_stream : M Connection Frame := fun c =>
  let '(o, (buf, reads)) := read_loop stream_read_error stream_eof_error (cn_read_buf c) (cn_reads c) in
  (o, c <| cn_read_buf := buf |> <| cn_reads := reads |>).

(** [write_all] and [flush]. *)
Definition write_all (wire : list byte) : M Connection unit := fun c =>
  match cn_writes c with
  | WriteErr n :: ws =>
      (Raise (error_from_io "{e}"), c <| cn_writes := ws |> <| cn_sent := cn_sent c ++ take n wire |>)
  | Written :: ws => (Done tt, c <| cn_writes := ws |> <| cn_sent := cn_sent c ++ wire |>)
  | [] => (Done tt, c <| cn_sent := cn_sent c ++ wire |>)
  end.

Definition write_frame (frame : Frame) : M Connection unit :=
  wire ← lift (encode frame); write_all wire.

(** [Connection::call]. *)
Definition call (op : Op.Op) (payload : list byte) : M Connection (list byte) := fun c =>
  let request_id := cn_next_request_id c in
  (write_frame (mkFrame op 0 request_id payload) ;;
   answer ← read_frame;
   lift (reject_if (negb (fr_request_id answer =? request_id))
           (ProtocolError "mismatched request id: expected {request_id}, got {}")) ;;
   lift (reject_if (negb (is_response answer))
           (ProtocolError "peer sent a request frame in response to a request")) ;;
   mret (fr_payload answer)) (c <| cn_next_request_id := wrapping_add request_id 1 |>).

(** ** Clients *)

(** A client, and the outcomes of its coming attempts to connect. *)
Record RpcClient := mkRpcClient { rc_conn : Connection; rc_connects : list (option Connection) }.

Definition connect_again (cl : RpcClient) : RpcClient :=
  match rc_connects cl with
  | Some conn :: rest => mkRpcClient conn rest
  | None :: rest => mkRpcClient (rc_conn cl) rest
  | [] => cl
  end.

(** [RpcClient::call]: a failed call is not repeated. *)
Definition client_call (op : Op.Op) (payload : list byte) : M RpcClient (list byte) := fun cl =>
  let '(o, conn) := call op payload (rc_conn cl) in
  let cl' := mkRpcClient conn (rc_connects cl) in
  match o with
  | Done v => (Done v, cl')
  | Raise original => (Raise original, connect_again cl')
  | Crash => (Crash, cl')
  end.

(** [RpcClient::call_json], for a request that is serialized to [bytes]. *)
Definition call_json {R} (from_slice : list byte -> option R) (op : Op.Op) (bytes : list byte) : M RpcClient R :=
  answer ← client_call op bytes;
  lift (ok_or (from_slice answer) (ProtocolError "bad response payload: {e}")).

Definition decode_error (payload : list byte) : option string := envelope_from_slice payload ≫= en_error.

(** ** The serving side of a connection *)

Section serving.
Context {S : Type} (handler : Op.Op -> Z -> list byte -> M S (list byte)).

Definition on_conn {A} (m : M Connection A) : M (Connection * S) A := fun p =>
  let '(o, c) := m (fst p) in (o, (c, snd p)).

(** The handler, its error a value; when it stops (the process stops, or it panics), the
    thread ends. *)
Definition run_handler (f : Frame) : M (Connection * S) (FabricResult (list byte)) := fun p =>
  let '(o, s) := attempt (handler (fr_op f) (fr_request_id f) (fr_payload f)) (snd p) in (o, (fst p, s)).

(** The payload of the answer. *)
Definition answer_payload (r : FabricResult (list byte)) : list byte :=
  match r with Ok payload => payload | Err e => envelope_to_vec (envelope_err (display e)) end.

(** One round of the loop of [serve_connection]; [false] ends it. *)
Definition serve_frame : M (Connection * S) bool :=
  frame ← on_conn read_frame;
  if is_close frame then mret false else
  lift (reject_if (is_response frame) (ProtocolError "server received unexpected response frame")) ;;
  r ← run_handler frame;
  on_conn (write_frame (response (fr_op frame) (fr_request_id frame) (answer_payload r))) ;;
  mret true.

(** [serve_connection]; [running n] is the stop flag before the [n]-th round.  [None]:
    out of fuel. *)
Fixpoint serve_connection (running : nat -> bool) (fuel n : nat) (p : Connection * S)
    : option (outcome unit * (Connection * S)) :=
  match fuel with
  | O => None
  | Datatypes.S fuel' =>
      if negb (running n) then Some (Done tt, p) else
      match serve_frame p with
      | (Done true, p') => serve_connection running fuel' (Datatypes.S n) p'
      | (Done false, p') => Some (Done tt, p')
      | (Raise e, p') => Some (Raise e, p')
      | (Crash, p') => Some (Crash, p')
      end
  end.
End serving.
End transport.

(** ** The accept loop *)

(** [Server::serve] and its workers: the stop flag, the permits of [CountSemaphore], the
    accept loop (which holds a permit from [try_acquire] to the worker it spawns), and the
    workers that run or died in their handler. *)
Inductive AcceptLoop : Type := Looping | Accepting | Returned.

Record ServerState := mkServerState {
  sv_running : bool;
  sv_available : nat;
  sv_loop : AcceptLoop;
  sv_workers : nat;
  sv_panicked : nat
}.

(** [CountSemaphore::try_acquire] and [release]. *)
Definition try_acquire (available : nat) : option nat :=
  match available with O => None | S n => Some n end.
Definition release (available : nat) : nat := S available.

(** [with_max_connections] and the start of [serve]. *)
Definition serving_from (max_connections : nat) : ServerState :=
  mkServerState true (Nat.max max_connections 1) Looping 0 0.

Inductive server_step : ServerState -> ServerState -> Prop :=
| step_stopped a w p :
    server_step (mkServerState false a Looping w p) (mkServerState false a Returned w p)
| step_acquire a a' w p : try_acquire a = Some a' ->
    server_step (mkServerState true a Looping w p) (mkServerState true a' Accepting w p)
| step_at_capacity a w p : try_acquire a = None ->
    server_step (mkServerState true a Looping w p) (mkServerState true a Looping w p)
| step_accept_failed r a w p :
    server_step (mkServerState r a Accepting w p) (mkServerState r (release a) Looping w p)
| step_accepted_stopped a w p :
    server_step (mkServerState false a Accepting w p) (mkServerState false (release a) Returned w p)
| step_spawn a w p :
    server_step (mkServerState true a Accepting w p) (mkServerState true a Looping (S w) p)
| step_worker_done r a l w p :
    server_step (mkServerState r a l (S w) p) (mkServerState r (release a) l w p)
| step_worker_panicked r a l w p :
    server_step (mkServerState r a l (S w) p) (mkServerState r a l w (S p))
| step_shutdown r a l w p :
    server_step (mkServerState r a l w p) (mkServerState false a l w p).

(** * Lemmas *)

(** Reads that bring no more bytes: the stream ends, fails, or waits. *)
Definition ending (reads : list IoRead) : Prop :=
  match reads with [] | Got [] :: _ | ReadErr _ :: _ => True | _ => False end.

Definition ended (err : ErrorKind -> FabricError) (eof : FabricError) (reads : list IoRead) : outcome Frame :=
  match reads with [] => Crash | ReadErr k :: _ => Raise (err k) | _ => Raise eof end.

(** Pieces of a byte stream, as the socket cuts them. *)
Definition pieces (chunks : list (list byte)) (rest : list IoRead) : list IoRead := map Got chunks ++ rest.

Definition nonempty (chunks : list (list byte)) : Prop := Forall (fun c => c <> []) chunks.

Section facts.
Context `{Crc32c}.

Lemma pending_within_buffer buf : decode buf = Ok None -> (MAX_BUFFER <? len buf) = false.
Proof. intros Hd%decode_None_short. unfold MAX_BUFFER. lia. Qed.

(** The next frame depends on the bytes only, not on the pieces they come in. *)
Lemma read_loop_pieces err eof chunks rest buf :
  nonempty chunks -> ending rest ->
  let o := fst (read_loop err eof buf (pieces chunks rest)) in
  match decode (buf ++ concat chunks) with
  | Ok (Some (f, n)) => o = Done f /\ exists buf' chunks', nonempty chunks' /\
      snd (read_loop err eof buf (pieces chunks rest)) = (buf', pieces chunks' rest) /\
      buf' ++ concat chunks' = drop n (buf ++ concat chunks)
  | Err e => o = Raise e
  | Ok None => o = ended err eof rest
  end.
Proof.
  intros Hne Hrest. revert buf. induction chunks as [| c chunks IH]; intros buf; cbn [concat pieces map app].
  - rewrite app_nil_r. destruct rest as [| [[| b chunk] | k] rest]; try done; cbn;
      (destruct (decode buf) as [[[f n] |] | e] eqn:Ed; [| rewrite pending_within_buffer by done; done | done]);
      (split; [done |]); exists (drop n buf), []; cbn; by rewrite app_nil_r.
  - apply Forall_cons in Hne as [Hc Hne]. specialize (IH Hne). destruct c as [| b c]; [done |].
    destruct (decode_waits buf) as [Ed | Hd].
    + cbn [read_loop]. rewrite Ed, pending_within_buffer by done.
      specialize (IH (buf ++ b :: c)). by rewrite <- (assoc_L (++)) in IH.
    + rewrite (decode_app buf _ Hd). cbn [read_loop]. destruct (decode buf) as [[[f n] |] | e] eqn:Ed; [| done | done].
      split; [done |]. exists (drop n buf), ((b :: c) :: chunks). split; [by constructor |]. split; [done |].
      apply decode_Some in Ed as (_ & _ & Hn & r & tail & ->). rewrite <- !(assoc_L (++)).
      rewrite Hn, <- (length_wire_with r f), !drop_app_length. done.
Qed.

(** ** One frame of a connection *)

(** The bytes [bytes] are on their way to [c], in whatever pieces, and then [rest]. *)
Definition receives (c : Connection) (bytes : list byte) (rest : list IoRead) : Prop :=
  ending rest /\ exists chunks, nonempty chunks /\ cn_reads c = pieces chunks rest /\
    cn_read_buf c ++ concat chunks = bytes.

(** Reading leaves the sending side alone. *)
Definition same_out (c c' : Connection) : Prop :=
  cn_sent c' = cn_sent c /\ cn_writes c' = cn_writes c /\ cn_next_request_id c' = cn_next_request_id c.

Lemma read_frame_receives c bytes rest :
  receives c bytes rest ->
  exists c', same_out c c' /\
  match decode bytes with
  | Ok (Some (f, n)) => read_frame c = (Done f, c') /\ receives c' (drop n bytes) rest
  | Err e => read_frame c = (Raise e, c')
  | Ok None => read_frame c = (ended read_error eof_error rest, c')
  end.
Proof.
  intros (Hrest & chunks & Hne & Hr & <-). unfold read_frame. rewrite Hr.
  pose proof (read_loop_pieces read_error eof_error chunks rest (cn_read_buf c) Hne Hrest) as Hl. cbv zeta in Hl.
  destruct (read_loop _ _ _ _) as [o [buf reads]]. cbn [fst snd] in Hl.
  exists (c <| cn_read_buf := buf |> <| cn_reads := reads |>). split; [done |].
  destruct (decode _) as [[[f n] |] | e]; [| by rewrite Hl..].
  destruct Hl as (-> & buf' & chunks' & Hne' & [= -> ->] & Hb). split; [done |].
  split; [done |]. by exists chunks'.
Qed.

Lemma receives_frame c f tail rest :
  Crc32cLaws _ -> typed_frame f -> fits f -> receives c (wire_with Byte.x00 f ++ tail) rest ->
  exists c', same_out c c' /\ read_frame c = (Done f, c') /\ receives c' tail rest.
Proof.
  intros Hlaws Ht Hf Hr. destruct (read_frame_receives c _ rest Hr) as (c' & Hs & Hd).
  rewrite decode_wire in Hd by done. destruct Hd as [Hd Hr']. rewrite drop_app_length in Hr'.
  by exists c'.
Qed.

(** The bytes on their way, and those buffered. *)
Definition read_length (r : IoRead) : nat := match r with Got c => length c | ReadErr _ => 0 end.
Definition pending (c : Connection) : nat := (length (cn_read_buf c) + sum_list_with read_length (cn_reads c))%nat.

Lemma read_loop_pending err eof buf reads f buf' reads' :
  read_loop err eof buf reads = (Done f, (buf', reads')) ->
  (length buf' + sum_list_with read_length reads' < length buf + sum_list_with read_length reads)%nat.
Proof.
  revert buf. induction reads as [| r reads IH]; intros buf; cbn [read_loop];
    (destruct (decode buf) as [[[g n] |] | e] eqn:Ed; [| destruct (MAX_BUFFER <? len buf); [done |] | done]).
  - intros [= <- <- <-]. apply decode_Some in Ed as (_ & _ & -> & x & tail & ->).
    rewrite length_drop, length_app, length_wire_with. unfold HEADER_LEN. cbn. lia.
  - done.
  - intros [= <- <- <-]. apply decode_Some in Ed as (_ & _ & -> & x & tail & ->).
    rewrite length_drop, length_app, length_wire_with. unfold HEADER_LEN. lia.
  - destruct r as [[| b chunk] | k]; try done. intros Hl%IH.
    rewrite length_app in Hl. cbn [sum_list_with read_length]. lia.
Qed.
End facts.

(** ** Serving *)

(** A frame the server answers. *)
Definition request (f : Frame) : Prop :=
  typed_frame f /\ fits f /\ is_close f = false /\ is_response f = false.

Section serving_facts.
Context `{Crc32c, EnvelopeCodec}.
Context {S : Type} (handler : Op.Op -> Z -> list byte -> M S (list byte)).

(** The answer to a request, and the state after it. *)
Definition answer (s : S) (f : Frame) : outcome Frame * S :=
  (r ← attempt (handler (fr_op f) (fr_request_id f) (fr_payload f));
   mret (response (fr_op f) (fr_request_id f) (answer_payload r))) s.

(** The answers to a sequence of requests, up to one whose handler stops: the frames,
    whether all were answered, and the state after them. *)
Fixpoint answers (s : S) (fs : list Frame) : list Frame * (bool * S) :=
  match fs with
  | [] => ([], (true, s))
  | f :: fs' =>
      match answer s f with
      | (Done a, s1) => let '(rest, e) := answers s1 fs' in (a :: rest, e)
      | (_, s1) => ([], (false, s1))
      end
  end.

(** What a handler that does not stop answers. *)
Definition result_of (o : outcome (list byte)) : option (FabricResult (list byte)) :=
  match o with Done l => Some (Ok l) | Raise e => Some (Err e) | Crash => None end.

Lemma answer_result s f :
  answer s f =
    let '(o, s') := handler (fr_op f) (fr_request_id f) (fr_payload f) s in
    (match result_of o with
     | Some r => Done (response (fr_op f) (fr_request_id f) (answer_payload r))
     | None => Crash
     end, s').
Proof. unfold answer, mbind, M_bind, attempt. by destruct (handler _ _ _ s) as [[l | e |] s']. Qed.

Definition wires (fs : list Frame) : list byte := concat (map (wire_with Byte.x00) fs).

Lemma typed_response f r : typed_frame f -> typed_frame (response (fr_op f) (fr_request_id f) r).
Proof. intros [_ Hid]. by split. Qed.

(** The writing side works. *)
Definition writable (c : Connection) : Prop := cn_writes c = [].

Lemma write_frame_sends c f :
  writable c -> fits f ->
  write_frame f c = (Done tt, c <| cn_sent := cn_sent c ++ wire_with Byte.x00 f |>).
Proof.
  intros Hw Hf. unfold write_frame, mbind, M_bind, lift.
  rewrite (proj2 (encode_Ok f _) (conj Hf eq_refl)). unfold write_all. by rewrite Hw.
Qed.

(** What the writing side makes of a frame: a part of its bytes goes out, all of them when
    the socket takes them. *)
Lemma write_frame_part c f :
  exists o c' part rest, write_frame f c = (o, c') /\ (o = Done tt \/ exists e, o = Raise e) /\
    cn_reads c' = cn_reads c /\ cn_read_buf c' = cn_read_buf c /\ cn_sent c' = cn_sent c ++ part /\
    part ++ rest = wire_with Byte.x00 f /\ (fits f \/ part = []).
Proof.
  unfold write_frame, mbind, M_bind, lift. destruct (encode f) as [wire | e] eqn:Ee.
  - apply encode_Ok in Ee as [Hf ->]. unfold write_all. destruct (cn_writes c) as [| [| n] ws].
    + exists (Done tt), (c <| cn_sent := cn_sent c ++ wire_with Byte.x00 f |>), (wire_with Byte.x00 f), [].
      rewrite app_nil_r. split_and!; auto.
    + eexists (Done tt), _, (wire_with Byte.x00 f), []. rewrite app_nil_r. split_and!; auto.
    + eexists (Raise _), _, (take n (wire_with Byte.x00 f)), (drop n (wire_with Byte.x00 f)). rewrite take_drop.
      split_and!; auto. right. by eexists.
  - exists (Raise e), c, [], (wire_with Byte.x00 f). rewrite app_nil_r. split_and!; eauto.
Qed.

(** One round, when a request has arrived, runs the handler once; then the answer is
    written as far as the socket takes it. *)
Lemma serve_frame_request c s f tail rest :
  Crc32cLaws _ -> request f -> receives c (wire_with Byte.x00 f ++ tail) rest ->
  exists c1, same_out c c1 /\ receives c1 tail rest /\
    serve_frame handler (c, s) =
      match answer s f with
      | (Done a, s') =>
          let '(o, c') := write_frame a c1 in
          (match o with Done _ => Done true | Raise e => Raise e | Crash => Crash end, (c', s'))
      | (_, s') => (Crash, (c1, s'))
      end.
Proof.
  intros Hlaws (Ht & Hf & Hcl & Hre) Hr.
  destruct (receives_frame c f tail rest Hlaws Ht Hf Hr) as (c1 & Hs & E & Hr1).
  exists c1. split; [exact Hs |]. split; [exact Hr1 |].
  unfold serve_frame, mbind, M_bind, on_conn, run_handler, answer in *. cbn [fst snd]. rewrite E, Hcl. cbn [fst snd lift].
  rewrite Hre. cbn. unfold mbind, M_bind.
  destruct (attempt (handler _ _ _) s) as [[r | e |] s'] eqn:Eh; cbn; [| | done].
  - by destruct (write_frame _ c1) as [[[] | e |] c'].
  - unfold attempt in Eh. by destruct (handler _ _ _ s) as [[] ?].
Qed.

(** One round answers one request. *)
Lemma serve_frame_answers c s f a s' tail rest :
  Crc32cLaws _ -> request f -> answer s f = (Done a, s') -> fits a -> writable c ->
  receives c (wire_with Byte.x00 f ++ tail) rest ->
  exists c', serve_frame handler (c, s) = (Done true, (c', s')) /\ receives c' tail rest /\
    writable c' /\ cn_sent c' = cn_sent c ++ wire_with Byte.x00 a.
Proof.
  intros Hlaws Hreq Ha Hfit Hw Hr.
  destruct (serve_frame_request c s f tail rest Hlaws Hreq Hr) as (c1 & (Es & Ew & En) & Hr1 & E).
  rewrite E, Ha, write_frame_sends; [| unfold writable in *; congruence | done].
  eexists. split; [done |]. split; [exact Hr1 |]. split; [unfold writable in *; cbn; congruence |]. cbn. by rewrite Es.
Qed.

(** Every round but the last takes bytes. *)
Lemma serve_frame_progress p p' :
  serve_frame handler p = (Done true, p') -> (pending (fst p') < pending (fst p))%nat.
Proof.
  destruct p as [c s]. unfold serve_frame, mbind, M_bind, on_conn, run_handler, read_frame. cbn [fst snd].
  destruct (read_loop _ _ _ _) as [[f | e |] [buf reads]] eqn:El; try done.
  apply read_loop_pending in El. destruct (is_close f); [done |].
  unfold lift. destruct (reject_if _ _); [| done]. cbn.
  destruct (attempt (handler _ _ _) _) as [[r | e |] s']; [| done..]. cbn. unfold write_frame, mbind, M_bind, lift.
  destruct (encode _) as [wire | e]; [| done]. cbn. unfold write_all. cbn.
  destruct (cn_writes c) as [| [| n] ws]; intros [= <-]; exact El.
Qed.

Lemma serve_connection_ends running fuel n p :
  (pending (fst p) < fuel)%nat -> is_Some (serve_connection handler running fuel n p).
Proof.
  revert n p. induction fuel as [| fuel IH]; intros n p Hlt; [lia |]. cbn [serve_connection].
  destruct (negb (running n)); [by eexists |].
  destruct (serve_frame handler p) as [[[|] | e |] p'] eqn:E; try by eexists.
  apply IH. apply serve_frame_progress in E. lia.
Qed.

(** How a connection ends on bytes that are no request any more: a frame that closes it
    or that is out of place, a malformed one, or an unfinished one. *)
Definition no_request (tail : list byte) : Prop :=
  forall f n, decode tail = Ok (Some (f, n)) -> is_close f = true \/ is_response f = true.

Definition last_outcome (tail : list byte) (rest : list IoRead) : outcome unit :=
  match decode tail with
  | Ok (Some (f, _)) =>
      if is_close f then Done tt else Raise (ProtocolError "server received unexpected response frame")
  | Err e => Raise e
  | Ok None => match ended read_error eof_error rest with Raise e => Raise e | _ => Crash end
  end.

Lemma serve_frame_last c s tail rest :
  no_request tail -> receives c tail rest ->
  exists c', cn_sent c' = cn_sent c /\
    serve_frame handler (c, s) =
      (match last_outcome tail rest with Done _ => Done false | Raise e => Raise e | Crash => Crash end, (c', s)).
Proof.
  intros Hno Hr. destruct (read_frame_receives c tail rest Hr) as (c' & (Es & _) & Hd).
  exists c'. split; [done |]. unfold serve_frame, last_outcome, mbind, M_bind, on_conn. cbn [fst snd].
  destruct (decode tail) as [[[f n] |] | e] eqn:Ed.
  - destruct Hd as [-> _]. cbn. destruct (is_close f) eqn:Ec; [done |].
    destruct (Hno f n Ed) as [Hx | ->]; [congruence | done].
  - rewrite Hd. by destruct rest as [| [[| b l] | k] rest].
  - by rewrite Hd.
Qed.

(** The end of a connection after the requests [fs]: the first handler that stops, or what
    follows the requests. *)
Definition final_outcome (s : S) (fs : list Frame) (tail : list byte) (rest : list IoRead) : outcome unit :=
  if fst (snd (answers s fs)) then last_outcome tail rest else Crash.

Lemma serve_connection_requests fs tail rest fuel n c s :
  Crc32cLaws _ -> Forall request fs -> Forall fits (fst (answers s fs)) -> no_request tail ->
  writable c -> receives c (wires fs ++ tail) rest -> (length fs < fuel)%nat ->
  exists c', serve_connection handler (fun _ => true) fuel n (c, s) =
    Some (final_outcome s fs tail rest, (c', snd (snd (answers s fs)))) /\
    cn_sent c' = cn_sent c ++ wires (fst (answers s fs)).
Proof.
  intros Hlaws Hreq Hfits Hno. unfold final_outcome. revert fuel n c s Hfits.
  induction Hreq as [| f fs Hf Hreq IH]; intros fuel n c s Hfits Hw Hr Hfuel;
    (destruct fuel as [| fuel]; [cbn in Hfuel; lia |]); cbn [serve_connection negb].
  - destruct (serve_frame_last c s tail rest Hno Hr) as (c' & Es & E). exists c'. rewrite E.
    split; [by destruct (last_outcome tail rest) as [[] | |] | by rewrite Es, app_nil_r].
  - unfold wires in Hr. cbn [map concat] in Hr. rewrite <- (assoc_L (++)) in Hr. cbn [answers] in *.
    destruct (answer s f) as [o s1] eqn:Ea. destruct o as [a | e |].
    2-3: destruct (serve_frame_request c s f _ rest Hlaws Hf Hr) as (c1 & (Es & _) & _ & E); rewrite E, Ea; cbn;
         exists c1; by rewrite Es, app_nil_r.
    destruct (answers s1 fs) as [rest_as [all s2]] eqn:Eas. cbn [fst snd] in *.
    apply Forall_cons in Hfits as [Hfa Hfits].
    destruct (serve_frame_answers c s f a s1 _ rest Hlaws Hf Ea Hfa Hw Hr) as (c1 & E & Hr1 & Hw1 & Es1).
    rewrite E.
    destruct (IH fuel (Datatypes.S n) c1 s1 ltac:(by rewrite Eas) Hw1 Hr1 ltac:(cbn in Hfuel; lia)) as (c' & E' & Es').
    exists c'. rewrite E', Eas. split; [done |]. rewrite Es', Eas, Es1. cbn [fst wires map concat].
    by rewrite <- (assoc_L (++)).
Qed.
End serving_facts.

(** ** A call *)

Section call_facts.
Context `{Crc32c, EnvelopeCodec}.

(** The frame of a call. *)
Definition call_frame (c : Connection) (op : Op.Op) (payload : list byte) : Frame :=
  mkFrame op 0 (cn_next_request_id c) payload.

Lemma call_frame_request c op payload :
  is_u64 (cn_next_request_id c) -> len payload <= MAX_FRAME_PAYLOAD -> request (call_frame c op payload).
Proof. intros Hid Hf. split; [by split |]. by split. Qed.

(** A call whose answer comes back. *)
Lemma call_answered c op payload out tail rest :
  Crc32cLaws _ -> is_u64 (cn_next_request_id c) -> len payload <= MAX_FRAME_PAYLOAD ->
  let a := response op (cn_next_request_id c) out in
  fits a -> writable c -> receives c (wire_with Byte.x00 a ++ tail) rest ->
  exists c', call op payload c = (Done out, c') /\
    cn_sent c' = cn_sent c ++ wire_with Byte.x00 (call_frame c op payload) /\
    cn_next_request_id c' = wrapping_add (cn_next_request_id c) 1 /\ receives c' tail rest.
Proof.
  intros Hlaws Hid Hf a Hfa Hw Hr. unfold call. set (c0 := c <| cn_next_request_id := _ |>).
  unfold mbind at 1, M_bind at 1. rewrite (write_frame_sends c0 (call_frame c op payload)) by done.
  set (c1 := c0 <| cn_sent := _ |>).
  assert (Hr1 : receives c1 (wire_with Byte.x00 a ++ tail) rest) by exact Hr.
  destruct (receives_frame c1 a tail rest Hlaws) as (c' & (Es & Ew & En) & E & Hr'); [by split | done | done |].
  exists c'. unfold mbind, M_bind. rewrite E. cbn [fr_request_id a response fr_flags fr_payload]. rewrite Z.eqb_refl.
  cbn. split; [done |]. split; [by rewrite Es |]. split; [by rewrite En | done].
Qed.

Lemma read_frame_sent c : cn_sent (snd (read_frame c)) = cn_sent c.
Proof. unfold read_frame. by destruct (read_loop _ _ _ _) as [o [buf reads]]. Qed.

(** After its request a call only reads. *)
Lemma call_sent c op payload :
  cn_sent (snd (call op payload c)) =
  cn_sent (snd (write_frame (call_frame c op payload) (c <| cn_next_request_id := wrapping_add (cn_next_request_id c) 1 |>))).
Proof.
  unfold call, call_frame. set (c0 := c <| cn_next_request_id := _ |>).
  unfold mbind at 1, M_bind at 1. destruct (write_frame _ c0) as [[[] | e |] c1]; [| done..]. cbn [snd].
  rewrite <- (read_frame_sent c1). unfold mbind, M_bind, lift.
  destruct (read_frame c1) as [[f | e |] c2]; [| done..]. by repeat (destruct (reject_if _ _); cbn).
Qed.

(** Whatever happens, a call sends at most its request, and once. *)
Lemma call_sends c op payload :
  exists part rest, cn_sent (snd (call op payload c)) = cn_sent c ++ part /\
    part ++ rest = wire_with Byte.x00 (call_frame c op payload) /\ (fits (call_frame c op payload) \/ part = []).
Proof.
  rewrite call_sent. set (c0 := c <| cn_next_request_id := _ |>).
  destruct (write_frame_part c0 (call_frame c op payload)) as (o & c' & part & rest & -> & _ & _ & _ & Es & Hp & Hf).
  by exists part, rest.
Qed.

(** A call that returns has read the answer, whose payload it returns. *)
Lemma call_returns c op payload v :
  fst (call op payload c) = Done v ->
  exists c1 f, cn_reads c1 = cn_reads c /\ cn_read_buf c1 = cn_read_buf c /\
    fst (read_frame c1) = Done f /\ fr_payload f = v.
Proof.
  unfold call. set (c0 := c <| cn_next_request_id := _ |>). unfold mbind at 1, M_bind at 1.
  destruct (write_frame_part c0 (mkFrame op 0 (cn_next_request_id c) payload))
    as (o & c1 & part & rest & -> & [-> | (e & ->)] & Er & Eb & _); [| done].
  unfold mbind, M_bind. destruct (read_frame c1) as [[f | e |] c2] eqn:E; [| done..]. unfold lift.
  do 2 (destruct (reject_if _ _); [cbn | done]). cbn. intros Hv. exists c1, f. rewrite E. by injection Hv as <-.
Qed.
End call_facts.

(** ** Permits *)

(** Permits held: by the accept loop while it waits, by the workers, and lost. *)
Definition permits (s : ServerState) : nat :=
  (sv_available s + (if sv_loop s is Accepting then 1 else 0) + sv_workers s + sv_panicked s)%nat.

Lemma server_step_permits s s' : server_step s s' -> permits s' = permits s.
Proof.
  destruct 1; unfold permits, release in *; cbn in *; try lia.
  destruct a; simplify_eq/=; lia.
Qed.

(** * Properties *)

(** C26 (refinement). A connection served over TCP refines the server that answers one
    request after another.  However the bytes of the requests [fs] are cut into reads, and
    whatever follows them, every request is handed to the handler once and in order, up to
    one in which the handler stops; the answers go out in that order and nothing else does;
    and what follows (a close frame, a malformed or misplaced frame, the end of the stream
    or a timeout in the middle of a frame) ends the connection without reaching the
    handler.  And for any socket and any handler the loop ends within as many rounds as
    there are bytes. *)
Theorem serve_connection_refines `{HC : Crc32c, !Crc32cLaws HC, EnvelopeCodec} {S : Type}
    (handler : Op.Op -> Z -> list byte -> M S (list byte)) (c : Connection) (s : S) :
  (forall fs tail rest fuel, Forall request fs -> Forall fits (fst (answers handler s fs)) -> no_request tail ->
     writable c -> receives c (wires fs ++ tail) rest -> (length fs < fuel)%nat ->
     exists c', serve_connection handler (fun _ => true) fuel 0 (c, s) =
         Some (final_outcome handler s fs tail rest, (c', snd (snd (answers handler s fs)))) /\
       cn_sent c' = cn_sent c ++ wires (fst (answers handler s fs))) /\
  (forall running fuel, (pending c < fuel)%nat -> is_Some (serve_connection handler running fuel 0 (c, s))).
Proof.
  split.
  - intros fs tail rest fuel Hreq Hfits Hno Hw Hr Hfuel. by apply serve_connection_requests.
  - intros running fuel Hlt. by apply serve_connection_ends.
Qed.

(** A remote call is a call of the handler.  When the request reaches
    the server, the handler does not stop and the answer comes back, in whatever pieces,
    the handler runs once, on the payload, and [call] returns its result, or the error
    envelope of its error; and the connection is ready for the next call. *)
Theorem call_is_handler `{HC : Crc32c, !Crc32cLaws HC, EnvelopeCodec} {S : Type}
    (handler : Op.Op -> Z -> list byte -> M S (list byte)) (c sc : Connection) (s s' : S)
    (op : Op.Op) (payload : list byte) (o : outcome (list byte)) (r : FabricResult (list byte))
    (tail tail' : list byte) (rest rest' : list IoRead) :
  let f := call_frame c op payload in
  let a := response op (cn_next_request_id c) (answer_payload r) in
  handler op (cn_next_request_id c) payload s = (o, s') -> result_of o = Some r ->
  is_u64 (cn_next_request_id c) -> fits f -> fits a -> writable c -> writable sc ->
  exists sent reply, encode f = Ok sent /\ encode a = Ok reply /\
    (receives sc (sent ++ tail) rest -> receives c (reply ++ tail') rest' ->
     exists sc' c',
       serve_frame handler (sc, s) = (Done true, (sc', s')) /\ cn_sent sc' = cn_sent sc ++ reply /\
       call op payload c = (Done (answer_payload r), c') /\ cn_sent c' = cn_sent c ++ sent /\
       receives sc' tail rest /\ receives c' tail' rest' /\ writable sc' /\
       cn_next_request_id c' = wrapping_add (cn_next_request_id c) 1).
Proof.
  intros f a Hh Ho Hid Hf Hfa Hw Hsw. exists (wire_with Byte.x00 f), (wire_with Byte.x00 a).
  split; [by apply encode_Ok |]. split; [by apply encode_Ok |]. intros Hsr Hcr.
  assert (Ha : answer handler s f = (Done a, s')) by (rewrite answer_result; cbn; by rewrite Hh, Ho).
  destruct (serve_frame_answers handler sc s f a s' tail rest _ (call_frame_request c op payload Hid Hf) Ha Hfa Hsw Hsr)
    as (sc' & E & Hsr' & Hsw' & Es).
  destruct (call_answered c op payload (answer_payload r) tail' rest' _ Hid Hf Hfa Hw Hcr) as (c' & Ec & Esc & En & Hcr').
  exists sc', c'. by split_and!.
Qed.

(** A request is never sent twice.  Whatever the socket, the peer and the
    attempts to connect again do, a call of the client puts at most the bytes of its one
    request on its connection, and changes the connection only after it failed. *)
Theorem client_call_never_replays `{Crc32c} (cl : RpcClient) (op : Op.Op) (payload : list byte) :
  exists conn part rest,
    cn_sent conn = cn_sent (rc_conn cl) ++ part /\
    part ++ rest = wire_with Byte.x00 (call_frame (rc_conn cl) op payload) /\
    match client_call op payload cl with
    | (Raise _, cl') => rc_conn cl' = conn \/ head (rc_connects cl) = Some (Some (rc_conn cl'))
    | (_, cl') => rc_conn cl' = conn /\ rc_connects cl' = rc_connects cl
    end.
Proof.
  destruct (call_sends (rc_conn cl) op payload) as (part & rest & Es & Ep & _). unfold client_call.
  destruct (call op payload (rc_conn cl)) as [o conn]. exists conn, part, rest. split; [exact Es |]. split; [exact Ep |].
  destruct o as [v | e |]; [done | | done]. unfold connect_again.
  destruct (rc_connects cl) as [| [again |] more]; cbn; auto.
Qed.

(** C31 (invariant). The bound on connections holds in every run of the server, in every
    interleaving of its threads: permits are neither made nor lost, except by a worker
    whose handler panics, so at most [max_connections] workers run at a time. *)
Theorem server_permits (max_connections : nat) (s : ServerState) :
  rtc server_step (serving_from max_connections) s ->
  permits s = Nat.max max_connections 1 /\ (sv_workers s <= Nat.max max_connections 1)%nat.
Proof.
  intros Hs. assert (permits s = Nat.max max_connections 1) as Hp.
  { revert Hs. apply (rtc_ind_r (fun s => permits s = Nat.max max_connections 1)); [unfold permits; cbn; lia |].
    intros y z _ Hyz <-. by apply server_step_permits. }
  split; [exact Hp |]. unfold permits in Hp. lia.
Qed.

(** ** Witnesses *)

(** A codec for the error envelope. *)
Definition text_envelopes : EnvelopeCodec :=
  {| envelope_to_vec := fun e => String.list_byte_of_string (default "" (en_error e));
     envelope_from_slice := fun l => Some (mkEnvelope 1 (Some (String.string_of_list_byte l))) |}.

(** A handler that answers the payload and counts. *)
Definition echo (op : Op.Op) (request_id : Z) (payload : list byte) : M nat (list byte) := fun n => (Done payload, S n).

Definition ping : Frame := mkFrame Op.Ping 0 1 [Byte.x61; Byte.x62].
Definition ping_wire : list byte := wire_with (H := castagnoli) Byte.x00 ping.
Definition pong_wire : list byte := wire_with (H := castagnoli) Byte.x00 (response Op.Ping 1 [Byte.x61; Byte.x62]).

Lemma ping_request : request ping.
Proof. split; [split; [cbn; lia | unfold is_u64, u64_max; cbn; lia] |]. split; [unfold fits, len, MAX_FRAME_PAYLOAD; cbn; lia | done]. Qed.

Lemma pong_fits : fits (response Op.Ping 1 [Byte.x61; Byte.x62]).
Proof. unfold fits, len, MAX_FRAME_PAYLOAD. cbn. lia. Qed.

(** The request in three pieces, and the end of the stream. *)
Definition pinged : Connection :=
  connected [Got (take 3 ping_wire); Got (take 20 (drop 3 ping_wire)); Got (drop 23 ping_wire); Got []] [].

Lemma pinged_receives : receives pinged (wires (H := castagnoli) [ping] ++ []) [Got []].
Proof.
  split; [done |]. exists [take 3 ping_wire; take 20 (drop 3 ping_wire); drop 23 ping_wire].
  split; [by repeat constructor | by vm_compute].
Qed.

Example serve_connection_refines_witness :
  exists c', serve_connection (H := castagnoli) (H0 := text_envelopes) echo (fun _ => true) 2 0 (pinged, 0%nat) =
    Some (Raise eof_error, (c', 1%nat)) /\ cn_sent c' = pong_wire.
Proof.
  destruct (proj1 (@serve_connection_refines castagnoli castagnoli_laws text_envelopes nat echo pinged 0%nat)
              [ping] [] [Got []] 2%nat) as (c' & E & Es).
  - repeat constructor; apply ping_request.
  - constructor; [exact pong_fits | constructor].
  - intros f n Hd. discriminate Hd.
  - reflexivity.
  - exact pinged_receives.
  - cbn. lia.
  - exists c'. split; [exact E | vm_compute in Es; vm_compute; exact Es].
Defined.

Example call_is_handler_witness :
  exists sent reply, encode (H := castagnoli) ping = Ok sent /\
    encode (H := castagnoli) (response Op.Ping 1 [Byte.x61; Byte.x62]) = Ok reply /\
    (receives pinged (sent ++ []) [Got []] ->
     receives (connected [Got pong_wire] []) (reply ++ []) [] ->
     exists sc' c',
       serve_frame (H := castagnoli) (H0 := text_envelopes) echo (pinged, 0%nat) = (Done true, (sc', 1%nat)) /\
       cn_sent sc' = cn_sent pinged ++ reply /\
       call (H := castagnoli) Op.Ping [Byte.x61; Byte.x62] (connected [Got pong_wire] []) =
         (Done [Byte.x61; Byte.x62], c') /\
       cn_sent c' = sent /\ receives sc' [] [Got []] /\ receives c' [] [] /\ writable sc' /\
       cn_next_request_id c' = wrapping_add 1 1).
Proof.
  apply (@call_is_handler castagnoli castagnoli_laws text_envelopes nat echo (connected [Got pong_wire] []) pinged
           0%nat 1%nat Op.Ping [Byte.x61; Byte.x62] (Done [Byte.x61; Byte.x62]) (Ok [Byte.x61; Byte.x62]) [] [] [Got []] []).
  - reflexivity.
  - reflexivity.
  - unfold is_u64, u64_max. cbn. lia.
  - apply ping_request.
  - exact pong_fits.
  - reflexivity.
  - reflexivity.
Defined.

Example server_permits_witness :
  let s := mkServerState true 1 Looping 1 0 in
  rtc server_step (serving_from 2) s /\ permits s = 2%nat /\ (sv_workers s <= 2)%nat.
Proof.
  assert (Hs : rtc server_step (serving_from 2) (mkServerState true 1 Looping 1 0)).
  { eapply rtc_l; [by apply step_acquire | eapply rtc_l; [by apply step_spawn | apply rtc_refl]]. }
  split; [exact Hs | exact (server_permits 2 _ Hs)].
Defined.
