(* ===== verification/Network.v ===== *)
(** One request over TCP ([src/src/transport.rs]): a client that connects, sends a request
    and waits for its answer, the serving loop on the other side, and the network.

    The network is the interface [Network].  It may refuse a connection, take any part of
    what a side writes, bring any part of the bytes to the other side in any pieces, and
    then end the stream or report any error; a side that hears nothing more times out
    ([set_read_timeout]).  What arrives is a prefix of what was sent ([Tcp]). *)
From S2P Require Import Prelude Errors Ident.
From S2P Require Import Capture Json Restore Tables.
From S2P Require Import Manifest Messages Dispatch Frame Transport.
From Stdlib Require Import Strings.Byte.

(** * Definitions *)

(** By the moment of the connection: whether it is accepted, the writes of the two sides,
    what becomes of the bytes sent, and the stop flag before each round of the server. *)
Class Network := {
  nt_connects : nat -> string -> bool;
  nt_client_writes : nat -> list IoWrite;
  nt_server_writes : nat -> list IoWrite;
  nt_to_server : nat -> list byte -> list IoRead;
  nt_to_client : nat -> list byte -> list IoRead;
  nt_running : nat -> nat -> bool
}.

(** A prefix of the bytes arrives, in pieces, and then no more. *)
Definition delivers (sent : list byte) (reads : list IoRead) : Prop :=
  exists chunks rest, reads = pieces chunks rest /\ nonempty chunks /\ ending rest /\ concat chunks `prefix_of` sent.

Class Tcp (N : Network) := {
  tcp_to_server : forall t sent, delivers sent (nt_to_server t sent);
  tcp_to_client : forall t sent, delivers sent (nt_to_client t sent)
}.

(** A network that loses nothing, to a server that runs. *)
Class Reliable (N : Network) := {
  reliable_connects : forall t addr, nt_connects t addr = true;
  reliable_client_writes : forall t, nt_client_writes t = [];
  reliable_server_writes : forall t, nt_server_writes t = [];
  reliable_running : forall t n, nt_running t n = true;
  reliable_to_server : forall t sent, exists chunks rest,
    nt_to_server t sent = pieces chunks rest /\ nonempty chunks /\ ending rest /\ concat chunks = sent;
  reliable_to_client : forall t sent, exists chunks rest,
    nt_to_client t sent = pieces chunks rest /\ nonempty chunks /\ ending rest /\ concat chunks = sent
}.

(** After the last bytes the wait for more times out. *)
Definition until_timeout (reads : list IoRead) : list IoRead := reads ++ [ReadErr TimedOut].

Section exchange.
Context `{Crc32c, EnvelopeCodec, Network}.
Context {S : Type} (handler : Op.Op -> Z -> list byte -> M S (list byte)).

(** The client of a fresh connection, on which [reads] will come. *)
Definition fresh_client (t : nat) (reads : list IoRead) : RpcClient :=
  mkRpcClient (connected (until_timeout reads) (nt_client_writes t)) [].

Definition client_result (o : outcome (list byte)) : FabricResult (list byte) :=
  match o with Done l => Ok l | Raise e => Err e | Crash => Err (read_error TimedOut) end.

(** One request on a connection of its own.  The client writes before it reads, so what it
    sends does not depend on what will come. *)
Definition exchange (t : nat) (op : Op.Op) (payload : list byte) (s : S) : FabricResult (list byte) * S :=
  let sent := cn_sent (rc_conn (snd (client_call op payload (fresh_client t [])))) in
  let server := connected (until_timeout (nt_to_server t sent)) (nt_server_writes t) in
  match serve_connection handler (nt_running t) (Datatypes.S (pending server)) 0 (server, s) with
  | Some (_, (server', s')) =>
      (client_result (fst (client_call op payload (fresh_client t (nt_to_client t (cn_sent server'))))), s')
  | None => (Err (read_error TimedOut), s)
  end.
End exchange.

(** * Lemmas *)

Lemma delivered_receives bytes reads writes :
  delivers bytes reads -> exists got lost rest, got ++ lost = bytes /\ rest <> [] /\ receives (connected (until_timeout reads) writes) got rest.
Proof.
  intros (chunks & rest & -> & Hne & Hend & lost & Hp).
  exists (concat chunks), lost, (rest ++ [ReadErr TimedOut]). split; [done |]. split; [by destruct rest |].
  split; [by destruct rest as [| [[| b l] | k] rest] |]. exists chunks. split; [exact Hne |].
  unfold until_timeout, connected, pieces. cbn. by rewrite <- (assoc_L (++)).
Qed.

Section exchange_facts.
Context `{HC : Crc32c, !Crc32cLaws HC, EnvelopeCodec}.
Context {S : Type} (handler : Op.Op -> Z -> list byte -> M S (list byte)).

(** Bytes that are no request reach no handler, and nothing is answered. *)
Lemma serve_connection_idle running fuel n c s tail rest :
  no_request tail -> receives c tail rest ->
  forall x, serve_connection handler running fuel n (c, s) = Some x -> cn_sent (fst (snd x)) = cn_sent c /\ snd (snd x) = s.
Proof.
  intros Hno Hr x. destruct fuel as [| fuel]; [done |]. cbn [serve_connection]. destruct (running n); cbn [negb].
  - destruct (serve_frame_last handler c s tail rest Hno Hr) as (c' & Es & ->).
    by destruct (last_outcome tail rest); intros [= <-].
  - by intros [= <-].
Qed.

Lemma no_request_waiting tail : decode tail = Ok None -> no_request tail.
Proof. intros Hd f n Hf. congruence. Qed.

(** What a server that was sent a part of the request [f], and nothing else, has done: it
    has run the handler once, or not at all. *)
Lemma serve_connection_once running fuel n c s f got lost rest x :
  typed_frame f -> is_close f = false -> is_response f = false ->
  got ++ lost = wire_with Byte.x00 f -> (fits f \/ got = []) -> receives c got rest ->
  serve_connection handler running fuel n (c, s) = Some x ->
  (snd (snd x) = s /\ cn_sent (fst (snd x)) = cn_sent c) \/
  exists o part rest', handler (fr_op f) (fr_request_id f) (fr_payload f) s = (o, snd (snd x)) /\
    cn_sent (fst (snd x)) = cn_sent c ++ part /\
    (part = [] \/ exists r, let a := response (fr_op f) (fr_request_id f) (answer_payload r) in
       result_of o = Some r /\ fits a /\ part ++ rest' = wire_with Byte.x00 a).
Proof.
  intros Ht Hcl Hre Hw Hfit Hr. destruct (decide (fits f /\ lost = [])) as [[Hf ->] | Hno].
  2: { intros Hx. left. destruct (serve_connection_idle running fuel n c s got rest) with (x := x) as [? ?]; [| done.. | done].
       apply no_request_waiting. destruct Hfit as [Hf | ->]; [| done].
       apply (decode_part Byte.x00 f got lost Ht Hf Hw). naive_solver. }
  rewrite app_nil_r in Hw. subst got. destruct fuel as [| fuel]; [done |]. cbn [serve_connection].
  destruct (running n); cbn [negb]; [| by intros [= <-]; left].
  destruct (serve_frame_request handler c s f [] rest _ ltac:(done)) as (c1 & (Es & _) & Hr1 & ->); [by rewrite app_nil_r |].
  rewrite answer_result. destruct (handler _ _ _ s) as [o s'] eqn:Eh. destruct (result_of o) as [r |] eqn:Ho.
  2: { intros [= <-]. right. exists o, [], []. cbn. rewrite Es, app_nil_r. auto. }
  set (a := response _ _ _).
  destruct (write_frame_part c1 a) as (ow & c2 & part & left_ & -> & How & Er & Eb & Es2 & Hp & Hfa).
  assert (Hend : forall x, Some x = (match ow with Done _ => serve_connection handler running fuel (Datatypes.S n) (c2, s')
     | Raise e => Some (Raise e, (c2, s')) | Crash => Some (Crash, (c2, s')) end) -> cn_sent (fst (snd x)) = cn_sent c ++ part /\ snd (snd x) = s').
  { intros y. destruct ow as [u | e |]; [| intros [= ->]; cbn; by rewrite Es2, Es..].
    intros Hy. symmetry in Hy. destruct (serve_connection_idle running fuel (Datatypes.S n) c2 s' [] rest) with (x := y) as [E1 E2];
      [by intros ? ? ? | | done | by rewrite E1, Es2, Es].
    destruct Hr1 as (Hend & chunks & Hne & Hr1 & Hb). split; [exact Hend |]. exists chunks. by rewrite Er, Eb. }
  intros Hx. right. destruct (Hend x) as [E1 E2]; [destruct ow; exact (eq_sym Hx) |].
  exists o, part, left_. rewrite E2. split; [done |]. split; [done |].
  destruct Hfa as [Hfa | ->]; [right | by left]. exists r. by split_and!.
Qed.

(** A call that returns has got the whole answer. *)
Lemma call_got c op payload v a got lost rest :
  typed_frame a -> fits a -> receives c got rest -> got ++ lost = wire_with Byte.x00 a ->
  fst (call op payload c) = Done v -> fr_payload a = v.
Proof.
  intros Ht Hf Hr Hw Hv. destruct (call_returns c op payload v Hv) as (c1 & f & Er & Eb & E & <-).
  assert (Hr1 : receives c1 got rest).
  { destruct Hr as (Hend & chunks & Hne & Hr & Hb). split; [done |]. exists chunks. by rewrite Er, Eb. }
  destruct (read_frame_receives c1 got rest Hr1) as (c2 & _ & Hd). destruct (decide (lost = [])) as [-> | Hlost].
  - rewrite app_nil_r in Hw. subst got. rewrite <- (app_nil_r (wire_with _ _)), decode_wire in Hd by done.
    destruct Hd as [Hd _]. rewrite Hd in E. by injection E as ->.
  - rewrite (decode_part Byte.x00 a got lost) in Hd by done. rewrite Hd in E. by destruct rest as [| [[| b l] | k] rest].
Qed.

(** Nor does one return that has got nothing. *)
Lemma call_got_nothing c op payload v rest : receives c [] rest -> fst (call op payload c) <> Done v.
Proof.
  intros Hr Hv. destruct (call_returns c op payload v Hv) as (c1 & f & Er & Eb & E & _).
  assert (Hr1 : receives c1 [] rest).
  { destruct Hr as (Hend & chunks & Hne & Hr & Hb). split; [done |]. exists chunks. by rewrite Er, Eb. }
  destruct (read_frame_receives c1 [] rest Hr1) as (c2 & _ & Hd). cbn in Hd. rewrite Hd in E.
  by destruct rest as [| [[| b l] | k] rest].
Qed.

Lemma client_call_result op payload c :
  fst (client_call op payload (mkRpcClient c [])) = fst (call op payload c).
Proof. unfold client_call. cbn. by destruct (call op payload c) as [[v | e |] c']. Qed.

Lemma client_call_sent op payload c :
  cn_sent (rc_conn (snd (client_call op payload (mkRpcClient c [])))) = cn_sent (snd (call op payload c)).
Proof. unfold client_call. cbn. by destruct (call op payload c) as [[v | e |] c']. Qed.

(** What a call sends does not depend on what it will read. *)
Lemma call_sends_first op payload reads reads' writes :
  cn_sent (snd (call op payload (connected reads writes))) = cn_sent (snd (call op payload (connected reads' writes))).
Proof.
  rewrite !call_sent. unfold write_frame, mbind, M_bind, lift, connected, call_frame. cbn [cn_next_request_id].
  destruct (encode _) as [wire | e]; [| done]. unfold write_all. cbn. by destruct writes as [| [] ws].
Qed.

(** The frame of the request of a fresh connection. *)
Definition first_frame (op : Op.Op) (payload : list byte) : Frame := mkFrame op 0 1 payload.

Lemma first_frame_typed op payload : typed_frame (first_frame op payload).
Proof. split; cbn; unfold is_u64, u64_max; lia. Qed.

Lemma first_response_typed op r : typed_frame (response op 1 (answer_payload r)).
Proof. split; cbn; unfold is_u64, u64_max, FLAG_RESPONSE; lia. Qed.

(** What an exchange does: nothing, or one run of the handler. *)
Lemma exchange_once `{N : Network, !Tcp N} t op payload s :
  let '(r, s') := exchange handler t op payload s in
  (s' = s /\ exists e, r = Err e) \/
  exists o, handler op 1 payload s = (o, s') /\
    forall bytes, r = Ok bytes -> exists x, result_of o = Some x /\ bytes = answer_payload x.
Proof.
  unfold exchange, fresh_client. set (f := first_frame op payload). rewrite client_call_sent.
  set (sent := cn_sent _).
  assert (Hsent : exists rest, sent ++ rest = wire_with Byte.x00 f /\ (fits f \/ sent = [])).
  { destruct (call_sends (connected (until_timeout []) (nt_client_writes t)) op payload) as (part & rest & Es & Hp & Hf).
    unfold sent. rewrite Es. by exists rest. }
  destruct Hsent as (rest & Hw & Hf).
  destruct (delivered_receives _ _ (nt_server_writes t) (tcp_to_server t sent)) as (got & lost & end_ & Hgot & _ & Hr).
  set (server := connected (until_timeout (nt_to_server t sent)) _) in *.
  destruct (serve_connection _ _ _ _ _) as [[o [server' s']] |] eqn:Es; [| by left; eauto].
  rewrite client_call_result.
  destruct (delivered_receives _ _ (nt_client_writes t) (tcp_to_client t (cn_sent server')))
    as (got' & lost' & end' & Hgot' & _ & Hr').
  set (client := connected (until_timeout (nt_to_client t (cn_sent server'))) _) in *.
  assert (Hnothing : cn_sent server' = [] -> exists e, client_result (fst (call op payload client)) = Err e).
  { intros E. rewrite E in Hgot'. apply app_nil in Hgot' as [-> _].
    pose proof (call_got_nothing client op payload) as Hno.
    destruct (fst (call op payload client)) as [v | e |]; cbn; [| by eexists..]. by destruct (Hno v end' Hr'). }
  apply (serve_connection_once _ _ _ _ _ f got (lost ++ rest)) with (rest := end_) in Es;
    [| apply first_frame_typed | done | done | by rewrite (assoc_L (++)), Hgot | | done].
  2: { destruct Hf as [Hf | Hf]; [by left | right]. rewrite Hf in Hgot. by apply app_nil in Hgot as [-> _]. }
  cbn [fst snd] in Es. destruct Es as [[-> E] | (x & part & rest' & Eh & E & Hpart)].
  - left. by split; [| apply Hnothing].
  - right. exists x. split; [exact Eh |]. intros bytes Hb.
    destruct Hpart as [-> | (r & Ho & Hfa & Hp)].
    { destruct (Hnothing E) as (e & He). congruence. }
    exists r. split; [exact Ho |]. change (cn_sent server) with (@nil byte) in E. cbn [app] in E.
    destruct (fst (call op payload client)) as [v | e |] eqn:Hv; [| done..]. cbn in Hb. injection Hb as <-.
    symmetry. apply (call_got client op payload v (response op 1 (answer_payload r)) got' (lost' ++ rest') end');
      [apply first_response_typed | done | done | by rewrite (assoc_L (++)), Hgot', E | done].
Qed.

Lemma reliable_receives bytes reads writes :
  (exists chunks rest, reads = pieces chunks rest /\ nonempty chunks /\ ending rest /\ concat chunks = bytes) ->
  exists rest, receives (connected (until_timeout reads) writes) (bytes ++ []) rest.
Proof.
  intros (chunks & rest & -> & Hne & Hend & <-). exists (rest ++ [ReadErr TimedOut]). rewrite app_nil_r.
  split; [by destruct rest as [| [[| b l] | k] rest] |]. exists chunks. split; [exact Hne |].
  unfold until_timeout, connected, pieces. cbn. by rewrite <- (assoc_L (++)).
Qed.

(** On a network that loses nothing, an exchange is a run of the handler. *)
Lemma exchange_reliable `{N : Network, !Reliable N} t op payload s :
  fits (first_frame op payload) ->
  let '(o, s1) := handler op 1 payload s in
  (forall r, result_of o = Some r -> fits (response op 1 (answer_payload r))) ->
  match result_of o with
  | Some r => exchange handler t op payload s = (Ok (answer_payload r), s1)
  | None => exists e, exchange handler t op payload s = (Err e, s1)
  end.
Proof.
  intros Hf. destruct (handler op 1 payload s) as [o s1] eqn:Eh. intros Hfa.
  unfold exchange, fresh_client. rewrite client_call_sent, call_sent, (reliable_client_writes t).
  rewrite (write_frame_sends _ (call_frame _ op payload)) by done. cbn [snd].
  change (call_frame _ op payload) with (first_frame op payload). set (w := wire_with _ _).
  match goal with |- context [nt_to_server t ?x] => change x with w end.
  rewrite (reliable_server_writes t).
  destruct (reliable_receives w _ [] (reliable_to_server t w)) as (end_ & Hr).
  set (server := connected (until_timeout (nt_to_server t w)) []) in *.
  assert (Hreq : request (first_frame op payload)) by (split; [apply first_frame_typed |]; by split).
  assert (Hpend : exists n, pending server = Datatypes.S n).
  { destruct (pending server) as [| n] eqn:Ep; [| by exists n]. exfalso.
    destruct Hr as (_ & chunks & _ & Hr & Hb). unfold pending in Ep. rewrite Hr in Ep. cbn in Ep.
    assert (Hl : length (concat chunks) = 0%nat).
    { clear -Ep. unfold pieces in Ep. induction chunks as [| c chunks IH]; [done |]. cbn in *. rewrite length_app. lia. }
    change (cn_read_buf server) with (@nil byte) in Hb. cbn [app] in Hb. rewrite Hb, app_nil_r in Hl.
    unfold w in Hl. rewrite length_wire_with in Hl. unfold HEADER_LEN in Hl. lia. }
  destruct Hpend as (n & ->). cbn [serve_connection]. rewrite reliable_running. cbn [negb].
  destruct (serve_frame_request handler server s (first_frame op payload) [] end_ _ Hreq Hr) as (c1 & (Es & Ew & _) & Hr1 & ->).
  rewrite answer_result. cbn [fr_op fr_request_id fr_payload first_frame]. rewrite Eh.
  destruct (result_of o) as [r |] eqn:Ho.
  - specialize (Hfa r eq_refl). rewrite write_frame_sends by (unfold writable; rewrite ?Ew; done).
    rewrite reliable_running. cbn [negb].
    set (c2 := c1 <| cn_sent := _ |>).
    destruct (serve_frame_last handler c2 s1 [] end_) as (c3 & Es3 & ->); [by intros ? ? ? | done |].
    assert (Hsent : cn_sent c3 = wire_with Byte.x00 (response op 1 (answer_payload r))) by (by rewrite Es3; unfold c2; cbn; rewrite Es).
    set (back := nt_to_client t (wire_with Byte.x00 (response op 1 (answer_payload r)))).
    assert (Hcall : fst (client_call op payload (mkRpcClient (connected (until_timeout back) []) [])) = Done (answer_payload r)).
    { rewrite client_call_result. destruct (reliable_receives _ back [] (reliable_to_client t _)) as (end' & Hr').
      destruct (call_answered (connected (until_timeout back) []) op payload (answer_payload r) [] end' _
                  ltac:(cbn; unfold is_u64, u64_max; lia) Hf Hfa eq_refl Hr') as (c' & -> & _). done. }
    by destruct (last_outcome [] end_); rewrite Hsent; fold back; rewrite Hcall.
  - rewrite client_call_result, Es. cbn [cn_sent server connected].
    destruct (reliable_receives [] _ [] (reliable_to_client t [])) as (end' & Hr').
    set (client := connected (until_timeout (nt_to_client t [])) []) in *.
    pose proof (call_got_nothing client op payload) as Hno.
    destruct (fst (call op payload client)) as [v | e |]; cbn; [| by eexists..]. by destruct (Hno v end' Hr').
Qed.
End exchange_facts.

(** * Properties *)

(** C30 (safety). A request over the network is executed at most once.  Whatever the
    network loses, delays or cuts into pieces on either side, and whenever the server
    stops: either the handler has not run, the state of the server is as it was and the
    client gets an error; or it has run exactly once, on the payload sent, and when the
    client gets an answer it is the result of that run.  When nothing is lost and the
    request and the answer fit a frame, the client gets the result. *)
Theorem exchange_at_most_once `{HC : Crc32c, !Crc32cLaws HC, EnvelopeCodec, N : Network, !Tcp N} {S : Type}
    (handler : Op.Op -> Z -> list byte -> M S (list byte)) (t : nat) (op : Op.Op) (payload : list byte) (s : S) :
  let '(r, s') := exchange handler t op payload s in
  ((s' = s /\ exists e, r = Err e) \/
   exists o, handler op 1 payload s = (o, s') /\
     forall bytes, r = Ok bytes -> exists x, result_of o = Some x /\ bytes = answer_payload x) /\
  (Reliable N -> len payload <= MAX_FRAME_PAYLOAD ->
   forall x, result_of (fst (handler op 1 payload s)) = Some x -> len (answer_payload x) <= MAX_FRAME_PAYLOAD ->
     r = Ok (answer_payload x) /\ s' = snd (handler op 1 payload s)).
Proof.
  pose proof (exchange_once handler t op payload s) as Honce.
  destruct (exchange handler t op payload s) as [r s'] eqn:E. split; [exact Honce |].
  intros Hrel Hf x Hx Hfa. pose proof (exchange_reliable handler t op payload s Hf) as Hr.
  destruct (handler op 1 payload s) as [o s1]. cbn [fst snd] in *. rewrite Hx in Hr.
  specialize (Hr ltac:(intros y [= <-]; exact Hfa)). rewrite E in Hr. by injection Hr as -> ->.
Qed.

(** ** Networks, for the witnesses *)

(** What is sent arrives at once. *)
Definition at_once (sent : list byte) : list IoRead := match sent with [] => [] | _ => [Got sent] end.

Lemma at_once_arrives (sent : list byte) :
  exists chunks rest, at_once sent = pieces chunks rest /\ nonempty chunks /\ ending rest /\ concat chunks = sent.
Proof.
  destruct sent as [| b l]; [exists [], []; by repeat constructor |].
  exists [b :: l], []. split; [done |]. split; [by repeat constructor |]. split; [done |]. cbn. by rewrite app_nil_r.
Qed.

Definition perfect_network : Network :=
  {| nt_connects := fun _ _ => true; nt_client_writes := fun _ => []; nt_server_writes := fun _ => [];
     nt_to_server := fun _ => at_once; nt_to_client := fun _ => at_once; nt_running := fun _ _ => true |}.

#[export] Instance perfect_reliable : Reliable perfect_network.
Proof. split; try done; intros t; apply at_once_arrives. Qed.

Lemma at_once_delivers sent : delivers sent (at_once sent).
Proof. destruct (at_once_arrives sent) as (chunks & rest & Ha & Hc & He & Hs). exists chunks, rest. by rewrite Hs. Qed.

#[export] Instance perfect_tcp : Tcp perfect_network.
Proof. split; intros t; apply at_once_delivers. Qed.

(** The answer is lost. *)
Definition answer_lost : Network :=
  {| nt_connects := fun _ _ => true; nt_client_writes := fun _ => []; nt_server_writes := fun _ => [];
     nt_to_server := fun _ => at_once; nt_to_client := fun _ _ => [ReadErr ConnectionReset]; nt_running := fun _ _ => true |}.

#[export] Instance answer_lost_tcp : Tcp answer_lost.
Proof.
  split; intros t sent; [apply at_once_delivers |]. exists [], [ReadErr ConnectionReset].
  split; [done |]. split; [constructor |]. split; [done |]. apply prefix_nil.
Qed.

Example exchange_at_most_once_witness :
  exchange (H := castagnoli) (H0 := text_envelopes) (H1 := perfect_network) echo 0 Op.Ping [Byte.x61] 0%nat = (Ok [Byte.x61], 1%nat) /\
  exists e, exchange (H := castagnoli) (H0 := text_envelopes) (H1 := answer_lost) echo 0 Op.Ping [Byte.x61] 0%nat = (Err e, 1%nat).
Proof.
  split.
  - pose proof (@exchange_at_most_once castagnoli castagnoli_laws text_envelopes perfect_network perfect_tcp nat echo 0 Op.Ping [Byte.x61] 0%nat) as Hx.
    destruct (exchange _ _ _ _ _) as [r s'] eqn:E. destruct Hx as [_ Hx].
    destruct (Hx perfect_reliable ltac:(vm_compute; discriminate) (Ok [Byte.x61]) eq_refl ltac:(vm_compute; discriminate)) as [-> ->].
    reflexivity.
  - eexists. vm_compute. reflexivity.
Defined.
