(* ===== verification/Payload.v ===== *)
(** The payloads of requests and replies ([src/src/protocol.rs], the records, and their use
    by the dispatchers of [coordinator.rs] and [node.rs]).

    A payload is the JSON text of a record.  [serde_json] is the class [Serde], one instance
    per type; its law is that a value of the Rust type is read back.  [decode_request] is
    the first step of every arm of [Coordinator::dispatch], [encode_reply] its last;
    [decode_node_request] and [encode_node_reply] are those of [NodeRuntime::dispatch]. *)
From S2P Require Import Prelude Errors Ident Lifecycle Checkpoint Workload Compression Policy Compat.
From S2P Require Import Capture Json Restore Lineage Failpoints Tables Persist World Manifest Messages Recovery.
From S2P Require Import Coordinator Maintenance Dispatch Frame Fs Storage Providers Node Transport.
From Stdlib Require Import Strings.Byte.

(** * Definitions *)

(** ** Requests of clients *)

Record HelloRequest := mkHelloRequest { heq_name : string; heq_protocol_version : Z }.
Record WorkloadCreateRequest := mkWorkloadCreateRequest {
  wcq_spec : WorkloadSpec;
  wcq_authority : Authority;
  wcq_node : option string
}.
Record WorkloadCreateResponse := mkWorkloadCreateResponse { wcr_workload : Workload }.
Record WorkloadIdRequest := mkWorkloadIdRequest { wiq_workload_id : Id; wiq_authority : Authority }.
Record CaptureRequest := mkCaptureRequest {
  caq_workload_id : Id;
  caq_options : CaptureOptions;
  caq_authority : Authority
}.
Record AttemptStatusRequest := mkAttemptStatusRequest { asq_attempt_id : string }.
Record AttemptStatusResponse := mkAttemptStatusResponse {
  asr_attempt : AttemptRecord;
  asr_checkpoint_id : option Id;
  asr_state : string
}.
Record CheckpointIdRequest := mkCheckpointIdRequest { ciq_checkpoint_id : Id; ciq_authority : Authority }.
Record CheckpointListRequest := mkCheckpointListRequest { clq_workload_id : option Id }.
Record RestoreRequest := mkRestoreRequest {
  req_checkpoint_id : Id;
  req_node : string;
  req_options : RestoreOptions;
  req_authority : Authority
}.
Record ForkRequest := mkForkRequest {
  foq_checkpoint_id : Id;
  foq_spec : WorkloadSpec;
  foq_authority : Authority
}.
Record ForkResponse := mkForkResponse { for_workload : Workload }.
Record MigrateRequest := mkMigrateRequest {
  miq_checkpoint_id : Id;
  miq_target_node : string;
  miq_authority : Authority
}.
Record CompatibilityRequest := mkCompatibilityRequest {
  coq_checkpoint_id : Id;
  coq_target : RuntimeCompatibilityDescriptor;
  coq_authority : Authority
}.
Record AuditRequest := mkAuditRequest { auq_since_ms : option Z; auq_limit : Z; auq_authority : Authority }.
Record RecoveryRequest := mkRecoveryRequest { rcq_dry_run : bool; rcq_authority : Authority }.
Record WorkloadDetachRequest := mkWorkloadDetachRequest { wdq_workload_id : Id; wdq_node : string }.

(** ** JSON *)

(** [serde_json::to_vec] and [from_slice] on a type; [of_type] says which values of the
    model are values of the Rust type (integers within their width, texts in UTF-8). *)
Class Serde (A : Type) := {
  to_vec : A -> list byte;
  from_slice : list byte -> option A;
  of_type : A -> Prop
}.
Class SerdeLaws {A} (C : Serde A) := { from_to : forall a, of_type a -> from_slice (to_vec a) = Some a }.

Class RequestSerde := {
  serde_hello :: Serde HelloRequest;
  serde_create :: Serde WorkloadCreateRequest;
  serde_workload_id :: Serde WorkloadIdRequest;
  serde_attach :: Serde WorkloadAttachRequest;
  serde_detach :: Serde WorkloadDetachRequest;
  serde_capture :: Serde CaptureRequest;
  serde_attempt_status :: Serde AttemptStatusRequest;
  serde_checkpoint_id :: Serde CheckpointIdRequest;
  serde_checkpoint_list :: Serde CheckpointListRequest;
  serde_restore :: Serde RestoreRequest;
  serde_fork :: Serde ForkRequest;
  serde_migrate :: Serde MigrateRequest;
  serde_compatibility :: Serde CompatibilityRequest;
  serde_audit :: Serde AuditRequest;
  serde_recovery :: Serde RecoveryRequest;
  serde_register :: Serde NodeRegisterRequest;
  serde_heartbeat :: Serde NodeHeartbeatRequest
}.
Class RequestSerdeLaws (C : RequestSerde) := {
  laws_create :: SerdeLaws serde_create;
  laws_workload_id :: SerdeLaws serde_workload_id;
  laws_capture :: SerdeLaws serde_capture;
  laws_attempt_status :: SerdeLaws serde_attempt_status;
  laws_checkpoint_id :: SerdeLaws serde_checkpoint_id;
  laws_checkpoint_list :: SerdeLaws serde_checkpoint_list;
  laws_restore :: SerdeLaws serde_restore;
  laws_fork :: SerdeLaws serde_fork;
  laws_migrate :: SerdeLaws serde_migrate;
  laws_compatibility :: SerdeLaws serde_compatibility;
  laws_audit :: SerdeLaws serde_audit;
  laws_recovery :: SerdeLaws serde_recovery
}.

Class ReplySerde := {
  serde_workload :: Serde Workload;
  serde_workloads :: Serde (list Workload);
  serde_created :: Serde WorkloadCreateResponse;
  serde_forked :: Serde ForkResponse;
  serde_lineage :: Serde (list LineageRecord);
  serde_attached :: Serde WorkloadAttachResponse;
  serde_outcome :: Serde OperationOutcome;
  serde_attempt :: Serde AttemptStatusResponse;
  serde_checkpoint :: Serde CheckpointObject;
  serde_checkpoints :: Serde (list CheckpointObject);
  serde_verified :: Serde NodeVerifyResult;
  serde_compatible :: Serde CompatibilityResult;
  serde_audited :: Serde (list AuditRecord);
  serde_recovered :: Serde RecoveryOutcome;
  serde_stats :: Serde Stats;
  serde_nodes :: Serde (list NodeRecord);
  serde_registered :: Serde NodeRegisterResponse;
  serde_heard :: Serde NodeHeartbeatResponse;
  value_from_slice : list byte -> option Json
}.

(** An envelope is read back... *)
Class EnvelopeLaws (E : EnvelopeCodec) := {
  envelope_from_to : forall e, 0 <= en_status e < 2 ^ 16 -> envelope_from_slice (envelope_to_vec e) = Some e
}.
(** ... and not taken for the creation of a workload, which has a member [workload]. *)
Class ReplySerdeLaws (E : EnvelopeCodec) (C : ReplySerde) := {
  created_no_envelope : forall e, from_slice (A := WorkloadCreateResponse) (envelope_to_vec e) = None;
  forked_no_envelope : forall e, from_slice (A := ForkResponse) (envelope_to_vec e) = None
}.

Definition parse_payload {A} `{Serde A} (payload : list byte) : FabricResult A :=
  ok_or (from_slice payload) (error_from_json "{e}").

(** ** The coordinator *)

Section coordinator.
Context `{RequestSerde}.

(** [parse(payload)?] and then [k]. *)
Definition parsed {A} `{Serde A} (payload : list byte) (k : A -> Request) : FabricResult Request :=
  req ← parse_payload payload; mret (k req).

(** The request of an operation code and its payload. *)
Definition decode_request (op : Op.Op) (payload : list byte) : FabricResult Request :=
  match op with
  | Op.Ping => Ok QPing
  | Op.Hello => parsed payload (fun r => QHello (heq_name r) (heq_protocol_version r))
  | Op.CoordinatorShutdown => Ok QCoordinatorShutdown
  | Op.WorkloadCreate => parsed payload (fun r => QWorkloadCreate (wcq_spec r) (wcq_authority r) (wcq_node r))
  | Op.WorkloadInspect => parsed payload (fun r => QWorkloadInspect (wiq_workload_id r))
  | Op.WorkloadList => Ok QWorkloadList
  | Op.WorkloadFence => parsed payload (fun r => QWorkloadFence (wiq_workload_id r) (wiq_authority r))
  | Op.WorkloadLineage => parsed payload (fun r => QWorkloadLineage (wiq_workload_id r))
  | Op.WorkloadAttach => parsed payload (fun r =>
      QWorkloadAttach (waq_workload_id r) (waq_node r) (waq_node_boot_id r) (waq_providers r) (waq_fence_epoch r))
  | Op.WorkloadDetach => parsed payload (fun r => QWorkloadDetach (wdq_workload_id r) (wdq_node r))
  | Op.Capture => parsed payload (fun r => QCapture (caq_workload_id r) (caq_options r) (caq_authority r))
  | Op.CaptureStatus => parsed payload (fun r => QCaptureStatus (asq_attempt_id r))
  | Op.CheckpointInspect => parsed payload (fun r => QCheckpointInspect (ciq_checkpoint_id r))
  | Op.CheckpointList => parsed payload (fun r => QCheckpointList (clq_workload_id r))
  | Op.CheckpointVerify => parsed payload (fun r => QCheckpointVerify (ciq_checkpoint_id r) (ciq_authority r))
  | Op.CheckpointProtect => parsed payload (fun r => QCheckpointProtect (ciq_checkpoint_id r) (ciq_authority r))
  | Op.CheckpointUnprotect => parsed payload (fun r => QCheckpointUnprotect (ciq_checkpoint_id r) (ciq_authority r))
  | Op.CheckpointRetire => parsed payload (fun r => QCheckpointRetire (ciq_checkpoint_id r) (ciq_authority r))
  | Op.CheckpointLineage => parsed payload (fun r => QCheckpointLineage (ciq_checkpoint_id r))
  | Op.Restore => parsed payload (fun r => QRestore (req_checkpoint_id r) (req_node r) (req_options r) (req_authority r))
  | Op.Rollback => parsed payload (fun r => QRollback (req_checkpoint_id r) (req_node r) (req_options r) (req_authority r))
  | Op.Fork => parsed payload (fun r => QFork (foq_checkpoint_id r) (foq_spec r) (foq_authority r))
  | Op.Migrate => parsed payload (fun r => QMigrate (miq_checkpoint_id r) (miq_target_node r) (miq_authority r))
  | Op.Compatibility => parsed payload (fun r => QCompatibility (coq_checkpoint_id r) (coq_target r) (coq_authority r))
  | Op.Audit => parsed payload (fun r => QAudit (auq_since_ms r) (auq_limit r) (auq_authority r))
  | Op.Recovery => parsed payload (fun r => QRecovery (rcq_dry_run r) (rcq_authority r))
  | Op.Stats => Ok QStats
  | Op.NodeList => Ok QNodeList
  | Op.NodeRegister => parsed payload QNodeRegister
  | Op.NodeHeartbeat => parsed payload QNodeHeartbeat
  | _ => Ok (QOther "{op:?}")
  end.
End coordinator.

Definition pong : list byte := String.list_byte_of_string "pong".

(** The bytes of a reply to the operation [op]. *)
Definition encode_reply `{EnvelopeCodec, ReplySerde} (op : Op.Op) (reply : Reply) : list byte :=
  match reply with
  | RPong => pong
  | REnvelope e | RShutdown e => envelope_to_vec e
  | RWorkload w =>
      match op with
      | Op.WorkloadCreate => to_vec (mkWorkloadCreateResponse w)
      | Op.Fork => to_vec (mkForkResponse w)
      | _ => to_vec w
      end
  | RWorkloads l => to_vec l
  | RLineage l => to_vec l
  | RAttach accepted token error => to_vec (mkWorkloadAttachResponse accepted token error)
  | ROutcome o => to_vec o
  | RAttempt a c s => to_vec (mkAttemptStatusResponse a c s)
  | RCheckpoint c => to_vec c
  | RCheckpoints l => to_vec l
  | RVerify r => to_vec r
  | RCompatibility r => to_vec r
  | RAudit l => to_vec l
  | RRecovery o => to_vec o
  | RStats s => to_vec s
  | RNodes l => to_vec l
  | RNodeRegister r => to_vec r
  | RNodeHeartbeat r => to_vec r
  end.

(** ** Nodes *)

Class NodeSerde := {
  serde_node_capture :: Serde NodeCaptureRequest;
  serde_node_captured :: Serde NodeCaptureResult;
  serde_node_promote :: Serde NodePromoteRequest;
  serde_node_promoted :: Serde NodePromoteResult;
  serde_node_resume :: Serde NodeResumeRequest;
  serde_node_resumed :: Serde NodeResumeResult;
  serde_node_restore :: Serde NodeRestoreRequest;
  serde_node_restored :: Serde NodeRestoreResult;
  serde_node_verify :: Serde NodeVerifyRequest;
  serde_node_verified :: Serde NodeVerifyResult;
  serde_node_probe :: Serde NodeProbeRequest;
  serde_node_probed :: Serde NodeProbeResult;
  serde_node_cleanup :: Serde NodeCleanupRequest;
  serde_node_cleaned :: Serde NodeCleanupResult;
  serde_node_replicate :: Serde NodeReplicateRequest;
  serde_node_replicated :: Serde NodeReplicateResult;
  serde_node_allow_fetch :: Serde NodeAllowFetchRequest;
  serde_node_detach :: Serde WorkloadDetachRequest;
  serde_fetch_manifest :: Serde FetchManifestRequest;
  serde_fetched_manifest :: Serde FetchManifestResponse;
  serde_fetch_component :: Serde FetchComponentRequest;
  serde_fetched_chunk :: Serde FetchChunkResponse
}.

Section node.
Context `{NodeSerde, EnvelopeCodec}.

Definition node_parsed {A} `{Serde A} (payload : list byte) (k : A -> NodeRequest) : FabricResult NodeRequest :=
  req ← parse_payload payload; mret (k req).

Definition decode_node_request (op : Op.Op) (payload : list byte) : FabricResult NodeRequest :=
  match op with
  | Op.Ping => Ok NPing
  | Op.Hello => Ok NHello
  | Op.NodeCaptureRequest => node_parsed payload NCapture
  | Op.NodePromoteRequest => node_parsed payload NPromote
  | Op.NodeResumeRequest => node_parsed payload NResume
  | Op.NodeRestoreRequest => node_parsed payload NRestore
  | Op.NodeVerifyRequest => node_parsed payload NVerify
  | Op.NodeProbeRequest => node_parsed payload NProbe
  | Op.NodeCleanupRequest => node_parsed payload NCleanup
  | Op.NodeReplicateRequest => node_parsed payload NReplicate
  | Op.NodeAllowFetch => node_parsed payload NAllowFetch
  | Op.NodeDetachRequest => node_parsed payload (fun r => NDetach (wdq_workload_id r))
  | Op.FetchManifest => node_parsed payload NFetchManifest
  | Op.FetchComponent => node_parsed payload NFetchComponent
  | _ => Ok (NOther "{op:?}")
  end.

Definition encode_node_reply (reply : NodeReply) : list byte :=
  match reply with
  | NRPong => pong
  | NREnvelope e => envelope_to_vec e
  | NRCapture r => to_vec r
  | NRPromote r => to_vec r
  | NRResume r => to_vec r
  | NRRestore r => to_vec r
  | NRVerify r => to_vec r
  | NRProbe r => to_vec r
  | NRCleanup r => to_vec r
  | NRReplicate r => to_vec r
  | NRManifest r => to_vec r
  | NRChunk r => to_vec r
  end.
End node.

(** * Concrete codecs, for the witnesses *)

(** A type none of whose values is written. *)
Definition no_serde {A} : Serde A := {| to_vec := fun _ => []; from_slice := fun _ => None; of_type := fun _ => False |}.
Lemma no_serde_laws {A} : SerdeLaws (@no_serde A).
Proof. by split. Qed.

(** The values of a type that an identity determines. *)
Definition id_serde {A} (mk : Id -> A) (get : A -> Id) : Serde A :=
  {| to_vec := fun a => as_bytes (get a); from_slice := fun l => mk <$> from_bytes l; of_type := fun a => mk (get a) = a |}.
Lemma id_serde_laws {A} (mk : Id -> A) (get : A -> Id) : SerdeLaws (id_serde mk get).
Proof. split. intros a Ha. cbn in *. rewrite from_bytes_as_bytes. cbn. by rewrite Ha. Qed.

(** Requests of the command line that an identity determines. *)
Definition id_requests : RequestSerde := {|
  serde_hello := no_serde; serde_create := no_serde;
  serde_workload_id := id_serde (fun i => mkWorkloadIdRequest i (authority_operator "cli")) wiq_workload_id;
  serde_attach := no_serde; serde_detach := no_serde;
  serde_capture := id_serde (fun i => mkCaptureRequest i
    (mkCaptureOptions (Some CrashConsistent) Forced None None [] "{}") (authority_owner "cli")) caq_workload_id;
  serde_attempt_status := no_serde;
  serde_checkpoint_id := id_serde (fun i => mkCheckpointIdRequest i (authority_operator "cli")) ciq_checkpoint_id;
  serde_checkpoint_list := no_serde; serde_restore := no_serde; serde_fork := no_serde; serde_migrate := no_serde;
  serde_compatibility := no_serde; serde_audit := no_serde; serde_recovery := no_serde; serde_register := no_serde;
  serde_heartbeat := no_serde |}.

#[export] Instance id_requests_laws : RequestSerdeLaws id_requests.
Proof. split; first [apply no_serde_laws | apply id_serde_laws]. Qed.

(** Replies of which only the envelopes are told apart. *)
Definition terse_replies : ReplySerde := {|
  serde_workload := no_serde; serde_workloads := no_serde; serde_created := no_serde; serde_forked := no_serde;
  serde_lineage := no_serde; serde_attached := no_serde; serde_outcome := no_serde; serde_attempt := no_serde;
  serde_checkpoint := no_serde; serde_checkpoints := no_serde; serde_verified := no_serde; serde_compatible := no_serde;
  serde_audited := no_serde; serde_recovered := no_serde; serde_stats := no_serde; serde_nodes := no_serde;
  serde_registered := no_serde; serde_heard := no_serde; value_from_slice := fun _ => Some JNull |}.

Definition short_envelopes : EnvelopeCodec := {|
  envelope_to_vec := fun e =>
    to_be 2 (en_status e) ++ match en_error e with None => [] | Some s => Byte.x01 :: String.list_byte_of_string s end;
  envelope_from_slice := fun l =>
    match l with
    | h :: b :: rest => Some (mkEnvelope (from_be [h; b])
        match rest with [] => None | _ :: s => Some (String.string_of_list_byte s) end)
    | _ => None
    end |}.

#[export] Instance short_envelopes_laws : EnvelopeLaws short_envelopes.
Proof.
  split. intros [status error] Hs. cbn [en_status] in Hs. cbn -[from_be byte_of].
  change [byte_of (status / 256 ^ Z.of_nat 1); byte_of (status / 256 ^ Z.of_nat 0)] with (to_be 2 status).
  rewrite from_be_to_be, Z.mod_small by exact Hs. f_equal. f_equal.
  destruct error as [s |]; [| done]. by rewrite String.string_of_list_byte_of_string.
Qed.

#[export] Instance terse_replies_laws : ReplySerdeLaws short_envelopes terse_replies.
Proof. by split. Qed.
