(* ===== verification/Scenario.v ===== *)
(** A small concrete cluster, for the witnesses: one workload, two active nodes that
    do what they are asked, and an environment in which nothing else happens. *)
From S2P Require Import Prelude Errors Ident Lifecycle Checkpoint Workload Compression Policy Compat.
From S2P Require Import Capture Json Restore Lineage Failpoints Tables Persist Schema StoreFacts Fencing Commit.
From S2P Require Import World Manifest Messages Recovery RecoveryFacts Attempts Coordinator Maintenance Dispatch.
From Stdlib Require Import Strings.Byte.

#[local] Existing Instances still_env hex_codec plain_sha256 attempt_codec.

Definition scenario_texts : NodeTexts :=
  {| texts_json :=
       {| json_parse := fun _ => Some (resources_object (JString "/data") (JObject ∅) (JObject ∅) JNull);
          json_print := fun _ => "{}";
          json_to_runtime := fun _ => Some (local_default "linux" "x86_64" "1");
          json_of_runtime := fun _ => JObject ∅;
          json_of_hardware := fun _ => JObject ∅ |};
     parse_socket_addr := fun a => Some a |}.

Definition obedient_nodes : NodeRpc :=
  {| node_capture := fun _ _ q => Ok (mkNodeCaptureResult (ncq_attempt_id q) true None [] 10 5 5 true None);
     node_promote := fun _ _ q => Ok (mkNodePromoteResult (nmq_attempt_id q) true None (Some "/data/c"));
     node_resume := fun _ _ q => Ok (mkNodeResumeResult (nsq_attempt_id q) true None);
     node_restore := fun _ _ q => Ok (mkNodeRestoreResult (nrq_attempt_id q) true None []);
     node_probe := fun _ _ q => Ok (mkNodeProbeResult (npq_checkpoint_id q) true);
     node_verify := fun _ _ q => Ok (mkNodeVerifyResult (nvq_checkpoint_id q) true None
                                       (Some (nvq_expected_manifest_digest q)));
     node_cleanup := fun _ _ _ => Ok (mkNodeCleanupResult [] [] None);
     node_replicate := fun _ _ q => Ok (mkNodeReplicateResult (npl_attempt_id q) true None (Some "/data/c"));
     node_allow_fetch := fun _ _ _ => Ok (mkEnvelope 0 None) |}.

#[local] Existing Instances scenario_texts obedient_nodes.

Definition scenario_coordinator : CoordinatorInner := mkCoordinatorInner 1 PolicySet_default 6000.

Definition everyone : OperationContext := mkOperationContext "op" ["operator"; "owner"] 6000.

Definition two_nodes (s : Store) : Store :=
  after (node_register (fun _ => 1) "n2" "10.0.0.2:70" "b2" "{}")
    (after (node_register (fun _ => 1) "n1" "10.0.0.1:70" "b1" "{}") s).

(** A workload claimed by [n1]. *)
Definition scenario_store : Store :=
  after (workload_claim (id_splat Byte.x09) "n1" "t1" 0) (two_nodes one_workload).

(** The same with an available checkpoint on [n1]. *)
Definition captured_store : Store :=
  two_nodes (after (checkpoint_insert ((staged_checkpoint Byte.x01 1 Available)
    <| ck_integrity_state := Valid |> <| ck_components := [] |>)) one_workload).

Definition scenario_world (s : Store) : World := mkWorld s 0 ∅.

(** An environment whose process stops at the thirtieth event. *)
Definition stopping_env : Env :=
  {| env_now := fun _ _ => 9; env_random := fun t => id_splat (Byte.x50);
     env_others := fun _ s => s; env_failpoints := fun _ m => m; env_crash := fun t => Nat.eqb t 30 |}.

Definition wid : Id := id_splat Byte.x09.

Definition scenario_capture : M World OperationOutcome :=
  request_capture scenario_coordinator wid CaptureOptions_default everyone.

Definition scenario_restore : M World OperationOutcome :=
  request_restore scenario_coordinator (id_splat Byte.x01) "n2" RestoreOptions_default everyone.

(** The operations run: a capture and a restore of the cluster succeed. *)
Definition reported_state {W} (r : outcome OperationOutcome * W) : string :=
  match fst r with Done o => oo_state o | Raise e => display e | Crash => "stopped" end.

Example scenario_capture_runs :
  reported_state (scenario_capture (scenario_world scenario_store)) = "AVAILABLE".
Proof. vm_compute. reflexivity. Qed.

Example scenario_restore_runs :
  reported_state (scenario_restore (scenario_world captured_store)) = "RESTORED".
Proof. vm_compute. reflexivity. Qed.

(** The same through the dispatcher. *)
Definition scenario_request (request : Request) : M World Reply :=
  dispatch scenario_coordinator 2 request.

Definition reply_text {W} (r : outcome Reply * W) : string :=
  match fst r with
  | Done (ROutcome o) => oo_state o
  | Done (REnvelope e) => default "ok" (en_error e)
  | Done _ => "done"
  | Raise e => display e
  | Crash => "stopped"
  end.

Example scenario_request_capture :
  reply_text (scenario_request (QCapture wid CaptureOptions_default (authority_operator "op"))
                (scenario_world scenario_store)) = "AVAILABLE".
Proof. vm_compute. reflexivity. Qed.

Example scenario_request_unauthorized :
  reply_text (scenario_request (QCheckpointVerify (id_splat Byte.x01) (mkAuthority "x" []))
                (scenario_world captured_store)) <> "done".
Proof. vm_compute. discriminate. Qed.

(** ** The stores are good *)

Lemma after_schema {A} (op : Tx A) (s : Store) :
  @statement hex_codec fixed_policy_codec A op -> schema_ok s -> schema_ok (after op s).
Proof. intros Hop. apply after_keeps. by apply (@statement_keeps_schema hex_codec fixed_policy_codec). Qed.

Lemma good_without_attempts (s : Store) :
  schema_ok s -> st_attempts s = ∅ -> st_journal s = [] -> good s.
Proof.
  intros Hs Ha Hj. split; [split; [exact Hs |] | |].
  - intros k a Hk. rewrite Ha in Hk. by rewrite lookup_empty in Hk.
  - intros k [a Hk]. rewrite Ha in Hk. by rewrite lookup_empty in Hk.
  - intros j Hin. rewrite Hj in Hin. by apply not_elem_of_nil in Hin.
Qed.

Lemma scenario_good : good scenario_store.
Proof.
  apply good_without_attempts; [| vm_compute; reflexivity..].
  unfold scenario_store, two_nodes. repeat (apply after_schema; [constructor |]). apply schema_empty.
Qed.

Lemma captured_good : good captured_store.
Proof.
  apply good_without_attempts; [| vm_compute; reflexivity..].
  unfold captured_store, two_nodes. repeat (apply after_schema; [constructor |]). apply schema_empty.
Qed.
