(* ===== verification/NodeSafety.v ===== *)
(** The promises of a node: committed checkpoints are immutable, what was captured or
    replicated verifies and is read back, transfers are bounded, and the heartbeat; and a
    concrete node, for the witnesses here and in [EndToEnd]. *)
From S2P Require Import Prelude Errors Ident Lifecycle Checkpoint Workload Compression Policy Compat.
From S2P Require Import Capture Json Restore Lineage Failpoints Tables Persist World.
From S2P Require Import Manifest Messages Coordinator Maintenance Dispatch Frame Fs Integrity Storage Providers Node.
From S2P Require Import NodeFacts Stored Scenario.
From Stdlib Require Import Strings.Byte.

(** * A concrete node *)

(** A disk on which every call succeeds. *)
Definition calm_disk : DiskEnv :=
  {| disk_outcome := fun _ => IoDone; disk_left := fun _ fs => fs; disk_torn := fun _ => None; disk_made := fun _ => O;
     disk_dir_len := fun _ => 4096; disk_age := fun _ _ => Some 0; disk_order := fun _ l => l;
     disk_renamed := fun _ => true; disk_now := fun t => Z.of_nat t;
     disk_random := fun _ => id_splat Byte.x77 |}.

(** A hash that is the checksum, in hexadecimal. *)
Definition checksum_sha256 : Sha256 := {| sha256_hex := fun l => crc_text (crc32c (Crc32c := castagnoli) l) |}.

Definition silent_peer : PeerRpc :=
  {| peer_connect := fun _ _ => Ok tt;
     peer_fetch_manifest := fun _ _ _ => Err (Internal "no peer");
     peer_fetch_component := fun _ _ _ => Err (Internal "no peer");
     coordinator_attach := fun _ _ => Err (Internal "no coordinator");
     coordinator_connect := fun _ => Err (Internal "no coordinator");
     coordinator_register := fun _ _ => Err (Internal "no coordinator");
     coordinator_heartbeat := fun _ _ => Err (Internal "no coordinator") |}.

#[local] Existing Instances calm_disk castagnoli checksum_sha256 hex_codec identity_zstd scenario_texts silent_peer.

Definition a_node : NodeRuntime :=
  {| nr_node_id := "n1"; nr_boot_id := "b1"; nr_listen_addr := Some "10.0.0.1:70"; nr_data_dir := "/data";
     nr_runtime := local_default "linux" "x86_64" "1"; nr_hardware := HardwareCompatibilityDescriptor_default; nr_resources := JNull;
     nr_staging_ttl_ms := 1000; nr_storage := mkLocalStorage ["data"] |}.

(** The application is its state, as bytes. *)
Definition a_provider (component_id : string) : CaptureProvider (list byte) :=
  application_state_provider
    {| ps_component_id := component_id; ps_component_type := ApplicationState; ps_required := true;
       ps_schema_version := 1; ps_restore_handler := "app"; ps_compatibility := "{}"; ps_dependencies := [] |}
    (fun app => (Ok app, app)) (fun payload _ => (Ok tt, payload)) None None None.

Definition a_node_state (component_ids : list string) : NodeState :=
  {| ns_providers := foldl (fun reg i => register wid (a_provider i) reg) ∅ component_ids;
     ns_attached := ∅; ns_coordinator_epoch := 1; ns_coordinator := true; ns_fetch_tokens := ∅;
     ns_staging_leases := ∅; ns_quiesced_captures := ∅; ns_pending_restores := ∅; ns_failpoints := ∅;
     ns_stop := false |}.

Definition a_world (component_ids : list string) : NodeWorld :=
  mkNodeWorld (mkAppWorld (mkDisk {[ [] := Dir; ["data"] := Dir ]} 0) [Byte.x61; Byte.x62]) (a_node_state component_ids).

Definition capture_of (component_ids : list string) : NodeCaptureRequest :=
  {| ncq_attempt_id := "a1"; ncq_checkpoint_id := id_splat Byte.x01; ncq_workload_id := wid;
     ncq_checkpoint_generation := 1; ncq_consistency := CrashConsistent; ncq_quiescence := Forced;
     ncq_components := (fun i => mkCaptureComponentRequest i ApplicationState true 1 "app") <$> component_ids;
     ncq_compression := CompressionSpec_none; ncq_coordinator_epoch := 1 |}.

(** A manifest of the components, and a codec that knows no other. *)
Definition codec_of (m : option Manifest) : ManifestCodec :=
  {| manifest_to_vec := fun _ => []; manifest_from_slice := fun _ => m |}.

Definition manifest_of (components : list ComponentEntry) : Manifest :=
  let c := plain_checkpoint <| ck_capture_attempt := "a1" |> <| ck_components := components |> in
  set_root (@manifest_integrity_root checksum_sha256 (codec_of None) (scaffold c)) (scaffold c).

Definition a_capture (codec : ManifestCodec) (component_ids : list string) : outcome NodeReply * NodeWorld :=
  node_handler (H4 := codec) a_node (NCapture (capture_of component_ids)) (a_world component_ids).

Definition captured (component_ids : list string) : NodeCaptureResult :=
  match (a_capture (codec_of None) component_ids).1 with
  | Done (NRCapture res) => res
  | _ => mkNodeCaptureResult "" false None [] 0 0 0 false None
  end.

Definition a_manifest (component_ids : list string) : Manifest := manifest_of (ncr_components (captured component_ids)).
Definition a_codec (component_ids : list string) : ManifestCodec := codec_of (Some (a_manifest component_ids)).

Definition some_bytes : list byte := [Byte.x7b; Byte.x7d].

Definition promote_of (component_ids : list string) : NodePromoteRequest :=
  {| nmq_attempt_id := "a1"; nmq_checkpoint_id := id_splat Byte.x01; nmq_manifest_bytes := some_bytes;
     nmq_digest := sha256_hex some_bytes; nmq_integrity_root := ii_root (mf_integrity (a_manifest component_ids));
     nmq_coordinator_epoch := 1 |}.

Definition node_request (component_ids : list string) (request : NodeRequest)
    : M (NodeWorld (App := list byte)) NodeReply :=
  node_handler (H4 := a_codec component_ids) a_node request.

Definition verify_of : NodeVerifyRequest :=
  mkNodeVerifyRequest (id_splat Byte.x01) (sha256_hex some_bytes) 1.

Definition captured_world (component_ids : list string) : NodeWorld :=
  (a_capture (a_codec component_ids) component_ids).2.
Definition a_promotion (component_ids : list string) : outcome NodeReply * NodeWorld :=
  node_request component_ids (NPromote (promote_of component_ids)) (captured_world component_ids).
Definition promoted_world (component_ids : list string) : NodeWorld := (a_promotion component_ids).2.

Example a_capture_verifies :
  (ncr_ok (captured ["x"; "y"]), (a_promotion ["x"; "y"]).1,
   (node_request ["x"; "y"] (NVerify verify_of) (promoted_world ["x"; "y"])).1) =
  (true, Done (NRPromote (mkNodePromoteResult "a1" true None (Some ("/data/checkpoints/" +:+ to_hex (id_splat Byte.x01))))),
   Done (NRVerify (mkNodeVerifyResult (id_splat Byte.x01) true None (Some (sha256_hex some_bytes))))).
Proof. vm_compute. reflexivity. Qed.

(** * Properties *)

Section safety.
Context {App : Type}.
Context `{DiskEnv, Crc32c, Sha256, HexCodec, Zstd, ManifestCodec, NodeTexts, PeerRpc}.
Context (self : NodeRuntime).
Let storage := nr_storage self.

(** A request that claims no epoch, or the one the node knows. *)
Definition current (request : NodeRequest) (w : NodeWorld (App := App)) : Prop :=
  forall epoch, claimed_epoch request = Some epoch -> epoch = ns_coordinator_epoch (nw_node w).

(** C10 (safety). Committed checkpoints are immutable.  Whatever the request, the peers,
    the failures of the disk and the moment the process stops, a request leaves every
    committed checkpoint of the node as it was, file by file, except in two cases: it
    claims the current epoch of the coordinator and puts this checkpoint in place
    (promotion, replication) where there was nothing, or it is a cleanup that lists it.
    The providers of the node stay such that the next request keeps the checkpoints too,
    and a request of another epoch changes nothing at all. *)
Theorem node_requests_keep_images request id (w : NodeWorld) :
  HexLaws _ -> hosted (checkpoints_dir storage) (nw_node w) ->
  let w' := snd (node_handler self request w) in
  hosted (checkpoints_dir storage) (nw_node w') /\
  (image storage id (fs_of w') = image storage id (fs_of w) \/
   current request w /\
   (publishes request id /\ vacant (image storage id (fs_of w)) \/ id ∈ removes request)) /\
  (~ current request w -> w' = w).
Proof.
  intros Hex Hh w'.
  pose (free := publishes request id /\ vacant (image storage id (fs_of w)) \/ id ∈ removes request).
  assert (Hstale : forall epoch, claimed_epoch request = Some epoch -> epoch <> ns_coordinator_epoch (nw_node w) -> w' = w).
  { intros epoch Hc Hne. subst w'. by rewrite (handler_stale self request epoch). }
  destruct (keeps_handler self request id free (image storage id (fs_of w)) Hex ltac:(unfold free; auto)
    ltac:(unfold free; auto) w) as [Hk Hh']; [split; [by left | done] |].
  split; [exact Hh' |]. split.
  - destruct (claimed_epoch request) as [epoch |] eqn:Ec.
    + destruct (decide (epoch = ns_coordinator_epoch (nw_node w))) as [-> | Hne].
      * destruct Hk as [Hk | Hk]; [by left | right]. split; [| exact Hk]. intros e He. congruence.
      * left. by rewrite (Hstale epoch).
    + destruct Hk as [Hk | Hk]; [by left | right]. split; [| exact Hk]. intros e He. congruence.
  - intros Hn. destruct (claimed_epoch request) as [epoch |] eqn:Ec; [| destruct Hn; intros e He; congruence].
    destruct (decide (epoch = ns_coordinator_epoch (nw_node w))) as [-> | Hne]; [| by eapply Hstale].
    destruct Hn. intros e He. congruence.
Qed.
End safety.

Lemma a_node_hosted p component_ids : hosted p (a_node_state component_ids).
Proof.
  unfold hosted, a_node_state. cbn. intros key pv.
  assert (Hall : forall reg, (forall key pv, reg !! key = Some pv -> respects p pv) ->
    foldl (fun reg i => register wid (a_provider i) reg) reg component_ids !! key = Some pv -> respects p pv).
  { induction component_ids as [| i l IH]; cbn; intros reg Hreg; [apply Hreg |]. apply IH. intros k q Hk.
    unfold register in Hk. apply (lookup_insert_Some (M := gmap (Id * string))) in Hk as [[_ <-] | [_ Hk]]; [| by eapply Hreg].
    apply application_provider_respects. }
  apply Hall. intros k q Hk. discriminate Hk.
Qed.

(** The requests of the scenario keep the providers. *)
Lemma served_hosted request codec w :
  hosted (checkpoints_dir (nr_storage a_node)) (nw_node w) ->
  hosted (checkpoints_dir (nr_storage a_node)) (nw_node (snd (node_handler (App := list byte) (H4 := codec) a_node request w))).
Proof.
  intros Hh. eapply (keeps_handler (H4 := codec) a_node request (id_splat Byte.x01) True ∅ hex_codec_laws); [done | done |].
  split; [by right | done].
Qed.

Lemma promoted_hosted : hosted (checkpoints_dir (nr_storage a_node)) (nw_node (promoted_world ["x"])).
Proof.
  apply served_hosted, served_hosted, a_node_hosted.
Qed.

(** A cleanup that tries to leave the staging area. *)
Definition escape : NodeRequest :=
  NCleanup (mkNodeCleanupRequest [] ["/data/staging/../checkpoints"; "/data/checkpoints"] [] [] 1).

Example node_requests_keep_images_witness :
  image (nr_storage a_node) (id_splat Byte.x01) (fs_of (snd (node_request ["x"] escape (promoted_world ["x"])))) =
  image (nr_storage a_node) (id_splat Byte.x01) (fs_of (promoted_world ["x"])).
Proof.
  destruct (node_requests_keep_images (H4 := a_codec ["x"]) a_node escape (id_splat Byte.x01)
    (promoted_world ["x"]) hex_codec_laws promoted_hosted) as (_ & [E | (_ & [[[] _] | Hr])] & _).
  - exact E.
  - exact (False_ind _ (not_elem_of_nil _ Hr)).
Defined.

(** ** The vault: what the storage of a node promises *)

Record Vault := { vt_committed : Id -> gmap path node; vt_staged : string -> gmap path node }.

Definition vault_of `{HexCodec} (st : LocalStorage) (fs : Fs) : Vault :=
  {| vt_committed := fun id => image st id fs; vt_staged := fun a => subtree (staging_dir st a) fs |}.

(** The staged area of [a] becomes the checkpoint [id]. *)
Definition published (a : string) (id : Id) (v v' : Vault) : Prop :=
  vacant (vt_committed v id) /\ vt_committed v' id = vt_staged v a /\
  (forall id', id' <> id -> vt_committed v' id' = vt_committed v id') /\
  (forall a', sanitize_segment a' = sanitize_segment a -> vt_staged v' a' = ∅) /\
  (forall a', sanitize_segment a' <> sanitize_segment a -> vt_staged v' a' = vt_staged v a').

Definition same_vault (v v' : Vault) : Prop :=
  (forall id, vt_committed v' id = vt_committed v id) /\ (forall a, vt_staged v' a = vt_staged v a).

Section vault.
Context `{HexCodec, DiskEnv}.
Context (st : LocalStorage).

Lemma grown_vault fs fs' : grown (checkpoints_dir st) fs fs' -> same_vault (vault_of st fs) (vault_of st fs').
Proof.
  intros Hg. split; intros x; cbn; unfold image; eapply grown_same; try exact Hg.
  - apply commit_longer.
  - apply staging_apart_checkpoints.
Qed.

Lemma promoted_vault a id fs fs' :
  HexLaws _ -> promoted (staging_dir st a) (commit_dir st id) fs fs' ->
  published a id (vault_of st fs) (vault_of st fs').
Proof.
  intros Hex Hp. pose proof Hp as [Hfresh Himg Hmoved _ _]. unfold published. cbn. split; [| split; [exact Himg | split; [| split]]].
  - unfold vacant, image. setoid_rewrite lookup_subtree. rewrite app_nil_r.
    destruct Hfresh as [E | [E Hc]]; [by left | right]. split; [done | by apply children_empty].
  - intros id' Hne. eapply promoted_elsewhere; [exact Hp | apply staging_apart | by apply commit_apart | apply commit_longer].
  - intros a' Ha'. unfold staging_dir in *. rewrite Ha'. apply map_empty. intros r. rewrite lookup_subtree.
    apply Hmoved, under_app.
  - intros a' Ha'. eapply promoted_elsewhere; [exact Hp | by apply staging_fork | | apply staging_apart_checkpoints].
    apply apart_sym, staging_apart.
Qed.

(** C11 (refinement). Promotion refines an atomic publication.  Seen as a vault of
    committed checkpoints and staged areas, [promote] of the area of an attempt either
    publishes it - the checkpoint had nothing, now has exactly what was staged, the area
    is gone, every other checkpoint and area is the same - or changes nothing.  It
    publishes when it succeeds, changes nothing when it fails, and when the process stops
    inside, at whatever call, it has done one of the two. *)
Theorem promote_refines_publication a id d :
  HexLaws _ ->
  run (promote (staging_dir st a) (commit_dir st id))
    (fun r d' => let v := vault_of st (dk_fs d) in let v' := vault_of st (dk_fs d') in
       match r with Ok _ => published a id v v' | Err _ => same_vault v v' end)
    (fun d' => let v := vault_of st (dk_fs d) in let v' := vault_of st (dk_fs d') in
       published a id v v' \/ same_vault v v') d.
Proof.
  intros Hex. eapply run_conseq; [apply promote_spec; [apply staging_apart | apply staging_apart_checkpoints] | |].
  - intros [u | e] d' Hr; [by apply promoted_vault | by apply grown_vault].
  - intros d' [Hr | Hr]; [left; by apply promoted_vault | right; by apply grown_vault].
Qed.
End vault.

Definition a_staged_disk : Disk :=
  mkDisk {[ ["data"; "staging"; "a1"] := Dir; ["data"; "staging"; "a1"; "manifest"] := File some_bytes;
            ["data"; "checkpoints"] := Dir ]} 0.

Example promote_refines_publication_witness :
  run (promote (staging_dir (nr_storage a_node) "a1") (commit_dir (nr_storage a_node) wid))
    (fun r d' => let v := vault_of (nr_storage a_node) (dk_fs a_staged_disk) in
                 let v' := vault_of (nr_storage a_node) (dk_fs d') in
       match r with Ok _ => published "a1" wid v v' | Err _ => same_vault v v' end)
    (fun d' => let v := vault_of (nr_storage a_node) (dk_fs a_staged_disk) in
               let v' := vault_of (nr_storage a_node) (dk_fs d') in
       published "a1" wid v v' \/ same_vault v v') a_staged_disk.
Proof. exact (promote_refines_publication (nr_storage a_node) "a1" wid a_staged_disk hex_codec_laws). Defined.

(** ** The heartbeat *)

Section heartbeat.
Context {App : Type}.
Context `{DiskEnv, Crc32c, Sha256, HexCodec, Zstd, ManifestCodec, NodeTexts, PeerRpc}.
Context (self : NodeRuntime).
Let storage := nr_storage self.

Definition disconnected (w : NodeWorld (App := App)) : Prop := ns_coordinator (nw_node w) = false.

Lemma keeps_disconnected_disk {A} (m : M Disk A) : keeps disconnected (disk m).
Proof. intros [[d a] n] Hn. unfold disk, in_app, on_disk. cbn. by destruct (m d). Qed.

Lemma tick_disconnected w : disconnected w -> heartbeat_tick self w = (Done false, w).
Proof. intros Hd. unfold heartbeat_tick, node_get, mbind, M_bind. cbn. by rewrite Hd. Qed.

Lemma failed_tick_disconnects w : ensures (heartbeat_tick self) (fun ok w' => ok = false -> disconnected w') w.
Proof.
  unfold heartbeat_tick. apply ensures_bind. unfold ensures at 1, node_get.
  destruct (ns_coordinator (nw_node w)) eqn:Ec; cbn [negb]; [| by apply ensures_ret].
  do 5 (apply ensures_bind, ensures_any; intros ? ?).
  match goal with |- ensures (match ?answer with _ => _ end) _ _ => destruct answer as [resp | e] end; [| done].
  destruct (negb (hbr_ok resp)); [done |]. by apply ensures_bind, ensures_any.
Qed.

(** *** Losing the coordinator *)

(** The sweep of a round keeps the connection lost, and the stop flag. *)
Lemma round_disconnected failures tick w :
  disconnected w ->
  run (heartbeat_round self failures tick)
    (fun r w' => match r with
                 | Ok (failures', tick') => disconnected w' /\ failures' = failures + 1 /\
                                             ns_stop (nw_node w') = (ns_stop (nw_node w) || (10 <=? failures + 1))
                 | Err _ => False
                 end) (fun _ => True) w.
Proof.
  intros Hd. unfold heartbeat_round. apply run_bind. unfold run at 1. rewrite tick_disconnected by done.
  cbn [negb andb]. destruct (10 <=? failures + 1) eqn:Ef.
  - unfold run, node_set, mbind, M_bind. cbn. split; [done |]. split; [done |]. by rewrite orb_true_r.
  - rewrite orb_false_r. destruct ((tick + 1) mod 10 =? 0); [| done]. apply run_bind, run_bind.
    unfold run at 1, node_get. apply run_ignore. destruct w as [[d a] n]. unfold run, disk, in_app, on_disk. cbn.
    by destruct (recover_partial_older_than _ _ _ d) as [[l | e |] d'].
Qed.

(** C17 (liveness). A lost heartbeat is final.  After a heartbeat that the coordinator
    refused or did not answer, the node has dropped its connection; without it a
    heartbeat fails without calling anybody, and nothing in the thread connects again, so
    within ten rounds from the loss the thread stops the node, whatever the coordinator
    would answer by then. *)
Theorem heartbeat_loss_is_final (w : NodeWorld (App := App)) :
  ensures (heartbeat_tick self) (fun ok w' => ok = false ->
    heartbeat_tick self w' = (Done false, w') /\
    forall rounds failures tick, 0 <= failures -> 10 <= Z.of_nat rounds + failures -> (0 < rounds)%nat ->
      run (heartbeat_thread self rounds failures tick)
        (fun r w'' => r = Ok tt /\ ns_stop (nw_node w'') = true) (fun _ => True) w') w.
Proof.
  eapply ensures_conseq; [apply failed_tick_disconnects |]. intros ok w' Hd Hok. specialize (Hd Hok).
  split; [by apply tick_disconnected |]. clear ok Hok w. intros rounds. revert w' Hd.
  induction rounds as [| rounds IH]; intros w Hd failures tick Hf Hr Hpos; [lia |]. cbn [heartbeat_thread].
  apply run_bind. unfold run at 1, node_get. destruct (ns_stop (nw_node w)) eqn:Es; [done |].
  apply run_bind. eapply run_conseq; [by apply round_disconnected | | done].
  intros [[failures' tick'] | e] w1; [| by intros []]. intros (Hd1 & -> & Hs). rewrite Es in Hs. cbn in Hs. cbn [fst snd].
  destruct (10 <=? failures + 1) eqn:Ef.
  - destruct rounds as [| rounds]; [done |]. cbn [heartbeat_thread]. apply run_bind. unfold run at 1, node_get.
    by rewrite Hs.
  - apply IH; [done | lia | lia | lia].
Qed.

(** *** The sweep *)

(** The staging area [name] is leased, or younger than the limit at any moment. *)
Definition young (name : string) : Prop :=
  nr_staging_ttl_ms self <> 0 /\
  forall t age, disk_age t (staging_root storage ++ [name]) = Some age -> age < nr_staging_ttl_ms self.
Definition spared (keep : gset path) (q : path) : Prop :=
  forall name, under (staging_root storage ++ [name]) q -> staging_root storage ++ [name] ∈ keep \/ young name.

Lemma old_enough_spec p ttl d :
  ensures (if ttl =? 0 then mret true else
             age ← modified_age p; mret (match age with Some a => ttl <=? a | None => false end))
    (fun old d' => dk_fs d' = dk_fs d /\
       (old = true -> ttl = 0 \/ exists t a, disk_age t p = Some a /\ ttl <= a)) d.
Proof.
  destruct (Z.eqb_spec ttl 0) as [-> | Hne]; [by apply ensures_ret; auto |].
  apply ensures_bind. unfold modified_age, or_else. apply ensures_bind. unfold ensures, attempt, look.
  destruct (disk_outcome _); [| by split; [| discriminate] | done]. split; [done |]. intros Hold. right.
  destruct (disk_age (dk_tick d) p) as [a |] eqn:Ea; [| discriminate Hold].
  exists (dk_tick d), a. split; [done | lia].
Qed.

Lemma keeps_remove_abandoned keep q x names :
  spared keep q ->
  keeps (on_fs (fun fs => fs !! q = x)) (remove_abandoned storage keep (nr_staging_ttl_ms self) names).
Proof.
  intros Hq. set (I := on_fs _). induction names as [| name names IH]; cbn [remove_abandoned]; [apply keeps_ret |].
  apply keeps_bind; [apply reader_is_dir |]. intros dir. destruct (negb dir || _) eqn:Ek; [exact IH |].
  apply orb_false_iff in Ek as [_ Ek]. bool_facts.
  eapply (keeps_bind_such _ (fun old => old = true -> nr_staging_ttl_ms self = 0 \/
    exists t a, disk_age t (staging_root storage ++ [name]) = Some a /\ nr_staging_ttl_ms self <= a)).
  - destruct (nr_staging_ttl_ms self =? 0); [apply keeps_ret |]. apply keeps_bind; [| intros; apply keeps_ret].
    apply keeps_or_else, keeps_look.
  - intros d old d' E. pose proof (old_enough_spec (staging_root storage ++ [name]) (nr_staging_ttl_ms self) d) as Hs.
    unfold ensures in Hs. rewrite E in Hs. apply Hs.
  - intros [] Hold; [| exact IH]. specialize (Hold eq_refl).
    assert (Hn : ~ under (staging_root storage ++ [name]) q).
    { intros Hu. destruct (Hq name Hu) as [Hin | [Hne Hy]]; [done |].
      destruct Hold as [Hz | (t & a & Ha & Hle)]; [done |]. specialize (Hy t a Ha). lia. }
    apply keeps_bind; [| intros; apply keeps_bind; [exact IH | intros; apply keeps_ret]].
    apply keeps_remove. intros fs fs' Hs Hx. by rewrite Hs.
Qed.

Lemma keeps_staging_sweep keep q x :
  spared keep q ->
  keeps (on_fs (fun fs => fs !! q = x)) (recover_partial_older_than storage keep (nr_staging_ttl_ms self)).
Proof.
  intros Hq. apply keeps_bind; [apply keeps_attempt, keeps_look |]. intros [names | e]; [| apply keeps_ret].
  by apply keeps_remove_abandoned.
Qed.

(** The invariant of the thread: the leases and the path. *)
Definition leased (leases : gmap path Z) (q : path) (x : option node) (w : NodeWorld (App := App)) : Prop :=
  ns_staging_leases (nw_node w) = leases /\ fs_of w !! q = x.

Lemma keeps_leased_disk {A} leases q x (m : M Disk A) :
  keeps (on_fs (fun fs => fs !! q = x)) m -> keeps (leased leases q x) (disk m).
Proof.
  intros Hm [[d a] n] [Hl Hx]. specialize (Hm d Hx). unfold disk, in_app, on_disk. cbn. by destruct (m d).
Qed.

Lemma keeps_leased_set leases q x (f : NodeState -> NodeState) :
  (forall n, ns_staging_leases (f n) = ns_staging_leases n) -> keeps (leased leases q x) (node_set f).
Proof. intros Hf w [Hl Hx]. split; [| exact Hx]. cbn. by rewrite Hf. Qed.

Lemma keeps_leased_get {A} leases q x (f : NodeState -> A) : keeps (leased leases q x) (node_get f).
Proof. by intros w Hw. Qed.

Lemma keeps_leased_remote {A} leases q x (f : nat -> FabricResult A) : keeps (leased leases q x) (remote f).
Proof. intros w Hw. unfold remote, lift. by destruct (f _). Qed.

Lemma reader_committed_of names : reader (committed_of storage names).
Proof.
  induction names as [| name names IH]; cbn [committed_of]; [apply reader_ret |].
  apply reader_bind; [apply reader_is_dir | intros dir]. apply reader_bind; [| intros ids; apply reader_bind; [exact IH | intros; apply reader_ret]].
  destruct (from_hex name); [| apply reader_ret]. destruct dir; [| apply reader_ret].
  apply reader_bind; [| intros; apply reader_ret]. unfold is_committed_dir, both, path_is_dir, path_is_file. reader_tac.
Qed.

Lemma keeps_leased_tick leases q x : keeps (leased leases q x) (heartbeat_tick self).
Proof.
  unfold heartbeat_tick.
  repeat first [apply keeps_bind; [| intros] | apply keeps_ret | apply keeps_attempt | by apply keeps_leased_set
    | apply keeps_leased_get | apply keeps_leased_remote
    | match goal with |- keeps _ (if ?b then _ else _) => destruct b | |- keeps _ (match ?r with Ok _ => _ | Err _ => _ end) => destruct r end].
  apply keeps_leased_disk, keeps_bind; [apply keeps_look | intros names].
  apply keeps_bind; [apply reader_committed_of | intros; apply keeps_ret].
Qed.

Lemma keeps_leased_round leases q x failures tick :
  spared (dom leases) q -> keeps (leased leases q x) (heartbeat_round self failures tick).
Proof.
  intros Hq. apply keeps_bind; [apply keeps_leased_tick | intros ok]. cbv zeta.
  destruct (negb ok && (10 <=? if ok then 0 else failures + 1)).
  { apply keeps_bind; [by apply keeps_leased_set | intros; apply keeps_ret]. }
  apply keeps_bind; [| intros; apply keeps_ret]. destruct ((tick + 1) mod 10 =? 0); [| apply keeps_ret].
  intros w [Hl Hx]. unfold mbind, M_bind, node_get. cbn beta iota. rewrite Hl.
  by apply (keeps_ignore (leased leases q x)); [apply keeps_leased_disk, keeps_staging_sweep |].
Qed.

(** C14 (invariant). The heartbeat thread removes only abandoned staging.  Over any
    number of rounds, with any answers of the coordinator, any outcome of each call and
    any stop, it changes no file except below a direct child of the staging area that
    the node does not lease and that has reached the configured age: the areas of
    captures and replications in progress, young areas and all committed checkpoints
    keep every file, and no lease is added or dropped. *)
Theorem heartbeat_spares rounds failures tick q (w : NodeWorld (App := App)) :
  spared (dom (ns_staging_leases (nw_node w))) q ->
  let w' := snd (heartbeat_thread self rounds failures tick w) in
  fs_of w' !! q = fs_of w !! q /\ ns_staging_leases (nw_node w') = ns_staging_leases (nw_node w).
Proof.
  intros Hq. set (leases := ns_staging_leases (nw_node w)) in *.
  assert (Hk : keeps (leased leases q (fs_of w !! q)) (heartbeat_thread self rounds failures tick)).
  { revert failures tick. induction rounds as [| rounds IH]; intros failures tick; cbn [heartbeat_thread]; [apply keeps_ret |].
    apply keeps_bind; [apply keeps_leased_get | intros []]; [apply keeps_ret |].
    apply keeps_bind; [by apply keeps_leased_round | intros; apply IH]. }
  destruct (Hk w) as [Hl Hx]; [by split |]. by split.
Qed.
End heartbeat.

(** A capture in progress, and the sweep of the tenth round. *)
Example heartbeat_spares_witness :
  let w := captured_world ["x"; "y"] in
  let w' := snd (heartbeat_thread a_node 20 0 0 w) in
  fs_of w' !! ["data"; "staging"; "a1"; "components"; "x"] = fs_of w !! ["data"; "staging"; "a1"; "components"; "x"] /\
  ns_staging_leases (nw_node w') = ns_staging_leases (nw_node w).
Proof.
  apply (heartbeat_spares a_node 20 0 0 ["data"; "staging"; "a1"; "components"; "x"]
    (captured_world ["x"; "y"])).
  intros name [r Hr]. cbn in Hr. injection Hr as <- _. left.
  apply elem_of_dom. exists 0. vm_compute. reflexivity.
Defined.

(** Requests served one after another. *)
Section history.
Context {App : Type}.
Context `{DiskEnv, Crc32c, Sha256, HexCodec, Zstd, ManifestCodec, NodeTexts, PeerRpc}.
Context (self : NodeRuntime).
Let storage := nr_storage self.

Fixpoint serve_all (requests : list NodeRequest) : M (NodeWorld (App := App)) unit :=
  match requests with [] => mret tt | request :: rest => node_handler self request ;; serve_all rest end.

(** A committed checkpoint that is there stays as it is until a cleanup lists it. *)
Lemma keeps_history requests id img :
  HexLaws _ -> ~ vacant img -> Forall (fun request => id ∉ removes request) requests ->
  keeps (guarded (checkpoints_dir storage) (fun fs => image storage id fs = img)) (serve_all requests).
Proof.
  intros Hex Hv. induction 1 as [| request requests Hr Hrs IH]; cbn [serve_all]; [apply keeps_ret |].
  apply keeps_bind; [| by intros]. intros w [Hi Hh].
  destruct (keeps_handler self request id False img Hex ltac:(by intros ? []%Hv) ltac:(by intros []%Hr) w) as [Hk Hh'].
  - split; [by left | done].
  - split; [| done]. by destruct Hk as [Hk | []].
Qed.

Lemma anchored_not_vacant img bytes : anchored img bytes -> ~ vacant img.
Proof. intros (Hd & Hm & _) [Hv | [_ Hv]]; [congruence |]. specialize (Hv "manifest"). congruence. Qed.

(** What [check_epoch] and [do_verify] give from a disk that answers. *)
Lemma verify_request_ends req fs bytes m (Q : FabricResult (option string) -> Prop) (w : NodeWorld (App := App)) :
  (forall l, plain (sha256_hex l)) -> quiet_at fs (aw_disk (nw_app w)) ->
  nvq_coordinator_epoch req = ns_coordinator_epoch (nw_node w) ->
  anchored (image storage (nvq_checkpoint_id req) fs) bytes -> Manifest.parse bytes = Ok m ->
  nvq_expected_manifest_digest req = sha256_hex bytes -> (forall e, ~ Q (Err e)) ->
  ends (asleep (App := App) fs) (failed_component (commit_dir storage (nvq_checkpoint_id req)) (mf_components m)) Q ->
  exists why w', Q (Ok why) /\ node_handler self (NVerify req) w =
    (Done (NRVerify (mkNodeVerifyResult (nvq_checkpoint_id req) (is_none why) why (Some (sha256_hex bytes)))), w').
Proof.
  intros Hplain Hq He Ha Hp Hd HQ Hcs.
  destruct (ends_verify self Hplain req fs bytes m Q Ha Hp Hd HQ Hcs w Hq) as (r & w' & E & (why & Hwhy & ->) & _).
  exists why, w'. split; [exact Hwhy |]. unfold node_handler, mbind, M_bind, attempt in *. cbn [node_dispatch].
  destruct (do_verify self req w) as [[x | e |] w1] eqn:Ev; [| discriminate E..].
  injection E as -> ->. by erewrite fenced_current by done.
Qed.

Lemma verify_request req fs bytes m (w : NodeWorld (App := App)) :
  (forall l, plain (sha256_hex l)) -> quiet_at fs (aw_disk (nw_app w)) ->
  nvq_coordinator_epoch req = ns_coordinator_epoch (nw_node w) ->
  let img := image storage (nvq_checkpoint_id req) fs in
  anchored img bytes -> Manifest.parse bytes = Ok m -> Forall (intact img) (mf_components m) ->
  nvq_expected_manifest_digest req = sha256_hex bytes ->
  exists w', node_handler self (NVerify req) w =
    (Done (NRVerify (mkNodeVerifyResult (nvq_checkpoint_id req) true None (Some (sha256_hex bytes)))), w').
Proof.
  intros Hplain Hq He img Ha Hp Hi Hd.
  destruct (verify_request_ends req fs bytes m (eq (Ok None)) w Hplain Hq He Ha Hp Hd) as (? & w' & [= <-] & E); [done | |].
  - by apply ends_returns, returns_failed_component.
  - by exists w'.
Qed.

(** Providers stay such that they respect a part of the disk, whatever is asked. *)
Lemma keeps_hosted request p : keeps (guarded (App := App) p (fun _ => True)) (node_handler self request).
Proof.
  apply handler_keeps with (area := fun _ => True); try done; [by apply Forall_true |].
  apply Forall_forall. by intros i _ d _.
Qed.

Lemma hosted_next p request (w w' : NodeWorld (App := App)) o :
  node_handler self request w = (o, w') -> hosted p (nw_node w) -> hosted p (nw_node w').
Proof.
  intros E Hh. pose proof (keeps_hosted request p w (conj I Hh)) as [_ Hh']. by rewrite E in Hh'.
Qed.

(** Requests that do not name it leave a staging area as it is. *)
Lemma keeps_area requests a img :
  HexLaws _ -> Forall (fun request => sanitize_segment a ∉ staging_names self request) requests ->
  keeps (guarded (staging_dir storage a) (fun fs => subtree (staging_dir storage a) fs = img)) (serve_all requests).
Proof.
  intros Hex. induction 1 as [| request requests Hr Hrs IH]; cbn [serve_all]; [apply keeps_ret |].
  apply keeps_bind; [by apply keeps_handler_staging | by intros].
Qed.

Lemma hosted_all p requests (w w' : NodeWorld (App := App)) o :
  serve_all requests w = (o, w') -> hosted p (nw_node w) -> hosted p (nw_node w').
Proof.
  intros E Hh. assert (Hk : keeps (guarded (App := App) p (fun _ => True)) (serve_all requests)).
  { clear. induction requests as [| request requests IH]; cbn [serve_all]; [apply keeps_ret |].
    apply keeps_bind; [apply keeps_hosted | by intros]. }
  pose proof (Hk w (conj I Hh)) as [_ Hh']. by rewrite E in Hh'.
Qed.

(** The checkpoint that a capture and a promotion, both reported as done, leave: it is
    anchored to the bytes of its manifest, and its components are as the capture wrote
    them, after any requests of which none removes it. *)
Lemma captured_image creq cres between preq pres later (w w1 wm w2 w3 : NodeWorld (App := App)) :
  HexLaws _ ->
  hosted (staging_dir storage (ncq_attempt_id creq)) (nw_node w) ->
  hosted (checkpoints_dir storage) (nw_node w) ->
  node_handler self (NCapture creq) w = (Done (NRCapture cres), w1) -> ncr_ok cres = true ->
  Forall (fun request => sanitize_segment (ncq_attempt_id creq) ∉ staging_names self request) between ->
  serve_all between w1 = (Done tt, wm) ->
  node_handler self (NPromote preq) wm = (Done (NRPromote pres), w2) -> nmr_ok pres = true ->
  nmq_attempt_id preq = ncq_attempt_id creq ->
  Forall (fun request => nmq_checkpoint_id preq ∉ removes request) later ->
  serve_all later w2 = (Done tt, w3) ->
  let img := image storage (nmq_checkpoint_id preq) (fs_of w3) in
  anchored img (nmq_manifest_bytes preq) /\ exists img0, wrote (ncr_components cres) img0 img.
Proof.
  intros Hex Hh Hh0 Hc Hcok Hbetween Hb Hp Hpok Hatt Hlater Hserve.
  pose proof (hosted_next _ _ _ _ _ Hc Hh0) as Hh1. pose proof (hosted_all _ _ _ _ _ Hb Hh1) as Hhm.
  pose proof (hosted_next _ _ _ _ _ Hp Hhm) as Hh2.
  pose proof (keeps_area between _ _ Hex Hbetween w1 (conj eq_refl (hosted_next _ _ _ _ _ Hc Hh))) as [Harea _].
  rewrite Hb in Harea. cbn [snd] in Harea.
  apply handler_done in Hc as [Hc | [e [=]]]. apply fenced_done in Hc as (? & Hc & [= <-]).
  apply handler_done in Hp as [Hp | [e [=]]]. apply fenced_done in Hp as (? & Hp & [= <-]).
  pose proof (do_capture_wrote self creq w Hh) as Hst. unfold ensures in Hst. rewrite Hc in Hst.
  destruct (Hst Hcok) as [img0 Hw]. fold storage in Hw. change (dk_fs (aw_disk (nw_app w1))) with (fs_of w1) in Harea.
  rewrite <- Harea, <- Hatt in Hw.
  pose proof (do_promote_installs self preq wm) as Hin. unfold ensures in Hin. rewrite Hp in Hin.
  destruct (Hin Hpok) as [Ha Hcarried]. set (img := image storage (nmq_checkpoint_id preq) (fs_of w2)) in *.
  destruct (keeps_history later _ img Hex (anchored_not_vacant _ _ Ha) Hlater w2) as [Himg _]; [by split |].
  rewrite Hserve in Himg. cbn in Himg. fold storage in Himg. change (dk_fs _) with (fs_of w3) in Himg.
  cbv zeta. rewrite Himg. split; [exact Ha |]. exists img0. by eapply wrote_carried.
Qed.

(** What a node captures and promotes it can verify and read back.
    A capture that the node reports as done, with components whose files have distinct
    names, followed, after any requests that do not name its staging area, by a promotion
    that it reports as done, of a manifest that lists these components, makes a checkpoint
    that stays verifiable: after any further requests of which none removes it, as soon as the disk answers, a verification
    against the digest of the manifest succeeds, and every component is read back, with
    the length and the hash the manifest gives.  Neither the peers, nor the providers
    (which may do anything outside the staging area and the checkpoints), nor disk calls
    that fail along the way matter. *)
Lemma captured_verifies creq cres between preq pres bytes m later vreq max_bytes
    (w w1 wm w2 w3 : NodeWorld (App := App)) :
  HexLaws _ -> ZstdLaws _ -> (forall l, plain (sha256_hex l)) ->
  hosted (staging_dir storage (ncq_attempt_id creq)) (nw_node w) ->
  hosted (checkpoints_dir storage) (nw_node w) ->
  node_handler self (NCapture creq) w = (Done (NRCapture cres), w1) -> ncr_ok cres = true ->
  distinct_names (segment_of <$> ncr_components cres) ->
  Forall (fun request => sanitize_segment (ncq_attempt_id creq) ∉ staging_names self request) between ->
  serve_all between w1 = (Done tt, wm) ->
  node_handler self (NPromote preq) wm = (Done (NRPromote pres), w2) -> nmr_ok pres = true ->
  nmq_attempt_id preq = ncq_attempt_id creq -> nmq_manifest_bytes preq = bytes ->
  Manifest.parse bytes = Ok m -> mf_components m = ncr_components cres ->
  Forall (fun request => nmq_checkpoint_id preq ∉ removes request) later ->
  serve_all later w2 = (Done tt, w3) ->
  (forall t, (dk_tick (aw_disk (nw_app w3)) <= t)%nat -> disk_outcome t = IoDone) ->
  vreq = mkNodeVerifyRequest (nmq_checkpoint_id preq) (sha256_hex bytes) (ns_coordinator_epoch (nw_node w3)) ->
  (exists w4, node_handler self (NVerify vreq) w3 =
     (Done (NRVerify (mkNodeVerifyResult (nmq_checkpoint_id preq) true None (Some (sha256_hex bytes)))), w4)) /\
  (is_u64 max_bytes -> forall c, c ∈ ncr_components cres ->
     sr_stored_size (ce_storage_representation c) <= max_bytes -> ce_logical_size c <= max_bytes ->
     exists payload d4, sha256_hex payload = ce_content_hash c /\ byte_len payload = ce_logical_size c /\
       read_component_payload (commit_dir storage (nmq_checkpoint_id preq)) (ce_storage_representation c)
         (ce_content_hash c) max_bytes (aw_disk (nw_app w3)) = (Done payload, d4)).
Proof.
  intros Hex Hz Hplain Hh Hh0 Hc Hcok Hnames Hbetween Hb Hp Hpok Hatt Hbytes Hparse Hcomps Hlater Hserve Hquiet ->.
  destruct (captured_image creq cres between preq pres later w w1 wm w2 w3) as [Ha [img0 Hw]]; try done.
  rewrite Hbytes in Ha. assert (Hq : quiet_at (fs_of w3) (aw_disk (nw_app w3))) by by split.
  pose proof (wrote_stored _ _ _ Hw Hnames) as Hfin. split.
  - eapply (verify_request (mkNodeVerifyRequest _ _ _)); try done; cbn [nvq_checkpoint_id].
    rewrite Hcomps. eapply Forall_impl; [exact Hfin |]. intros c. apply stored_intact.
  - intros Hm c Hin' Hs1 Hs2. rewrite Forall_forall in Hfin. specialize (Hfin c Hin').
    destruct (returns_payload self (nmq_checkpoint_id preq) (fs_of w3) c max_bytes Hz Hfin Hm Hs1 Hs2)
      as (payload & H1' & H2' & Hr).
    destruct (Hr _ Hq) as (d4 & E & _). by exists payload, d4.
Qed.

(** The identity of the checksum of a component is the identity of a component. *)
Lemma sidecar_id_valid q q' :
  check_component_id q = Ok tt -> cq_component_id q' = cq_component_id q +:+ ".crc32c" ->
  str_len (cq_component_id q') <= 256 ->
  for_each check_component_id [q; q'] = Ok tt /\ check_unique_ids [q; q'] = Ok tt.
Proof.
  intros Hq Hid Hlen. split.
  - apply for_each_Ok. intros c [-> | ->%list_elem_of_singleton]%elem_of_cons; [exact Hq |].
    apply check_component_id_Ok. split; [exact Hlen |]. apply check_component_id_Ok in Hq as [_ (Hchars & Hne & _)].
    rewrite Hid. split; [| by destruct (cq_component_id q) as [| ? [| ? [| ]]]].
    clear Hid Hne Hlen. revert Hchars. induction (cq_component_id q) as [| b x IH]; [done |].
    change (segment_char b && all_chars segment_char x = true ->
      segment_char b && all_chars segment_char (x +:+ ".crc32c") = true).
    by intros [-> Hx]%andb_true_iff; apply IH.
  - apply check_unique_ids_Ok. cbn. rewrite Hid, !NoDup_cons, !elem_of_cons, !elem_of_nil.
    split_and!; [| tauto | apply NoDup_nil_2]. intros [E | []]. by apply longer_name in E.
Qed.

(** C39 (error). The condition on the names is needed.  The name of a component with
    [.crc32c] appended is a valid component identity too, and a checkpoint with both
    components is not sound.  On a node in any state, with any peers, providers that stay
    out of the staging area and the committed checkpoints, and whatever disk calls fail on
    the way: a capture that it reports as done of components with different file names,
    two of which are so related and clash with no other, in either order, and a promotion
    that it reports as done, with any requests between that do not name the staging area
    and after that do not remove the checkpoint, are followed, once the disk answers, by
    a verification against the right digest that is refused; unless the second payload,
    as stored, happens to be a text of the checksum of the first, or to have its SHA-256. *)
Theorem sidecar_names_collide :
  (forall q q', check_component_id q = Ok tt -> cq_component_id q' = cq_component_id q +:+ ".crc32c" ->
     str_len (cq_component_id q') <= 256 ->
     for_each check_component_id [q; q'] = Ok tt /\ check_unique_ids [q; q'] = Ok tt) /\
  (forall creq cres between preq pres m later vreq c c' (w w1 wm w2 w3 : NodeWorld (App := App)),
     HexLaws _ -> (forall l, plain (sha256_hex l)) ->
     hosted (staging_dir storage (ncq_attempt_id creq)) (nw_node w) -> hosted (checkpoints_dir storage) (nw_node w) ->
     node_handler self (NCapture creq) w = (Done (NRCapture cres), w1) -> ncr_ok cres = true ->
     NoDup (segment_of <$> ncr_components cres) -> c ∈ ncr_components cres -> c' ∈ ncr_components cres ->
     segment_of c' = segment_of c +:+ ".crc32c" ->
     (forall d, d ∈ ncr_components cres -> segment_of d <> segment_of c -> segment_of d <> segment_of c' ->
        (segment_of c ∉ component_names (segment_of d)) /\ (segment_of c' ∉ component_names (segment_of d))) ->
     Forall (fun request => sanitize_segment (ncq_attempt_id creq) ∉ staging_names self request) between ->
     serve_all between w1 = (Done tt, wm) ->
     node_handler self (NPromote preq) wm = (Done (NRPromote pres), w2) -> nmr_ok pres = true ->
     nmq_attempt_id preq = ncq_attempt_id creq ->
     Manifest.parse (nmq_manifest_bytes preq) = Ok m -> mf_components m = ncr_components cres ->
     Forall (fun request => nmq_checkpoint_id preq ∉ removes request) later ->
     serve_all later w2 = (Done tt, w3) ->
     (forall t, (dk_tick (aw_disk (nw_app w3)) <= t)%nat -> disk_outcome t = IoDone) ->
     let digest := sha256_hex (nmq_manifest_bytes preq) in
     vreq = mkNodeVerifyRequest (nmq_checkpoint_id preq) digest (ns_coordinator_epoch (nw_node w3)) ->
     exists s s' why w4, is_stored c s /\ is_stored c' s' /\
       node_handler self (NVerify vreq) w3 =
         (Done (NRVerify (mkNodeVerifyResult (nmq_checkpoint_id preq) (is_none why) why (Some digest))), w4) /\
       (is_none why = false \/ passes_for s' s \/ sha256_hex s' = sha256_hex (line (crc_text (crc32c s))))).
Proof.
  split; [exact sidecar_id_valid |].
  intros creq cres between preq pres m later vreq c c' w w1 wm w2 w3 Hex Hplain Hh Hh0 Hc Hcok Hnd Hin Hin' Hseg Hothers
    Hbetween Hb Hp Hpok Hatt Hparse Hcomps Hlater Hserve Hquiet digest ->.
  destruct (captured_image creq cres between preq pres later w w1 wm w2 w3) as [Ha [img0 Hw]]; try done.
  pose proof (wrote_clash _ _ _ c c' Hw Hin Hin' Hseg Hnd Hothers) as Hclash.
  destruct (clash_refused self (nmq_checkpoint_id preq) (fs_of w3) c c' Hclash Hseg) as (s & s' & Hs & Hs' & Hor).
  pose proof (ends_failed_component (App := App) (commit_dir storage (nmq_checkpoint_id preq)) (fs_of w3) (mf_components m)) as Hends.
  eapply (verify_request_ends (mkNodeVerifyRequest _ _ _)) in Hends as (why & w4 & (? & [= <-] & Hwhy) & E);
    [| exact Hplain | by split | done | exact Ha | exact Hparse | done | by intros e (? & ? & _)].
  exists s, s', why, w4. split; [exact Hs |]. split; [exact Hs' |]. split; [exact E |]. rewrite Hcomps in Hwhy.
  destruct Hor as [Hp' | [Hd | [Hr | Hr]]]; auto; left; (destruct why; [done | by eapply Hwhy in Hr]).
Qed.

(** C12 (functional). A replica is the anchored checkpoint.  When a node reports a
    replication as done, whatever its peer sent and in whatever chunks, the manifest in
    place hashes to the digest the coordinator gave and is the manifest of this
    checkpoint; and when its components have distinct file names and sizes below the
    limit of [u64], the replica verifies against that digest as soon as the disk answers,
    after any further requests of which none removes it. *)
Theorem replicated_checkpoint_verifies req res (w w1 : NodeWorld (App := App)) :
  HexLaws _ -> (forall l, plain (sha256_hex l)) -> hosted (checkpoints_dir storage) (nw_node w) ->
  node_handler self (NReplicate req) w = (Done (NRReplicate res), w1) -> npe_ok res = true ->
  exists bytes m, sha256_hex bytes = npl_expected_manifest_digest req /\ Manifest.parse bytes = Ok m /\
    mf_checkpoint_id m = npl_checkpoint_id req /\
    (distinct_names (segment_of <$> mf_components m) -> Forall sized (mf_components m) ->
     forall later (w2 : NodeWorld (App := App)) vreq,
       Forall (fun request => npl_checkpoint_id req ∉ removes request) later -> serve_all later w1 = (Done tt, w2) ->
       (forall t, (dk_tick (aw_disk (nw_app w2)) <= t)%nat -> disk_outcome t = IoDone) ->
       vreq = mkNodeVerifyRequest (npl_checkpoint_id req) (npl_expected_manifest_digest req)
                (ns_coordinator_epoch (nw_node w2)) ->
       exists w3, node_handler self (NVerify vreq) w2 =
         (Done (NRVerify (mkNodeVerifyResult (npl_checkpoint_id req) true None
                            (Some (npl_expected_manifest_digest req)))), w3)).
Proof.
  intros Hex Hplain Hh Hr Hok. pose proof (hosted_next _ _ _ _ _ Hr Hh) as Hh1.
  apply handler_done in Hr as [Hr | [e [=]]]. apply fenced_done in Hr as (? & Hr & [= <-]).
  pose proof (do_replicate_installs self req w) as Hin. unfold ensures in Hin. rewrite Hr in Hin.
  destruct (Hin Hok) as (bytes & m & Hd & Hp & Hid & Hall). exists bytes, m. do 3 (split; [done |]).
  intros Hnames Hsizes later w2 vreq Hlater Hserve Hquiet ->. destruct (Hall Hnames Hsizes) as [Ha Hi].
  set (img := image storage (npl_checkpoint_id req) (fs_of w1)) in *.
  destruct (keeps_history later _ img Hex (anchored_not_vacant _ _ Ha) Hlater w1) as [Himg _]; [by split |].
  rewrite Hserve in Himg. cbn in Himg. fold storage in Himg. change (dk_fs _) with (fs_of w2) in Himg.
  rewrite <- Hd. eapply (verify_request (mkNodeVerifyRequest _ _ _) (fs_of w2)); try done;
    cbn [nvq_checkpoint_id]; by rewrite Himg.
Qed.

(** C13 (bounds). The transfer of a component always ends, and never exceeds its size.
    Whatever chunks a peer serves, of any length, at any offset and without end, and
    whatever the disk does: the loop of [do_replicate] stops within the declared size
    plus two calls; when it returns, the file holds what was taken, at most the declared
    size, and it says it is done at the length of what it has written. *)
Theorem transfer_bounded req addr c dest (w : NodeWorld (App := App)) :
  sized c ->
  let size := sr_stored_size (ce_storage_representation c) in
  fetch_fuel c = S (S (Z.to_nat size)) /\
  ensures (disk (write dest []) ;; fetch_chunks req addr c dest (fetch_fuel c) 0)
    (fun out w' => out <> FetchOutOfFuel /\ exists content,
       fs_of w' = <[dest := File content]> (fs_of w) /\ byte_len content <= size /\
       forall n, out = FetchDone n -> n = byte_len content) w.
Proof.
  intros Hs size. split; [done |]. eapply ensures_bind, ensures_conseq; [apply ensures_disk_write |]. intros [] w1 E1.
  eapply ensures_conseq; [apply (fetch_chunks_bounded req addr c dest (fetch_fuel c) 0 [])|].
  - by rewrite E1, lookup_insert_eq.
  - done.
  - exact Hs.
  - unfold fetch_fuel. lia.
  - intros out w2 (Hout & content & E2 & Hb). split; [done |]. exists content. by rewrite E2, E1, insert_insert_eq.
Qed.
End history.

Lemma checksum_plain l : plain (sha256_hex l).
Proof. apply hex_of_plain. Qed.

Lemma pair_of {A B} (p : A * B) (a : A) : p.1 = a -> p = (a, p.2).
Proof. intros <-. apply surjective_pairing. Qed.

Lemma captured_runs : a_capture (a_codec ["x"; "y"]) ["x"; "y"] =
  (Done (NRCapture (captured ["x"; "y"])), captured_world ["x"; "y"]).
Proof. unfold captured_world. rewrite <- (pair_of (a_capture (a_codec ["x"; "y"]) ["x"; "y"]) (Done (NRCapture (captured ["x"; "y"])))); [done |]. vm_compute. reflexivity. Qed.

Lemma promoted_runs : a_promotion ["x"; "y"] =
  (Done (NRPromote (mkNodePromoteResult "a1" true None (Some ("/data/checkpoints/" +:+ to_hex (id_splat Byte.x01))))),
   promoted_world ["x"; "y"]).
Proof. unfold promoted_world. rewrite <- (pair_of (a_promotion ["x"; "y"])); [done |]. vm_compute. reflexivity. Qed.

Definition later_world : NodeWorld := (serve_all (H4 := a_codec ["x"; "y"]) a_node [escape] (promoted_world ["x"; "y"])).2.

Lemma later_runs : serve_all (H4 := a_codec ["x"; "y"]) a_node [escape] (promoted_world ["x"; "y"]) = (Done tt, later_world).
Proof. unfold later_world. rewrite <- (pair_of (serve_all a_node [escape] (promoted_world ["x"; "y"]))); [done |]. vm_compute. reflexivity. Qed.

Example captured_verifies_runs :
  exists w4, node_request ["x"; "y"] (NVerify verify_of) later_world =
    (Done (NRVerify (mkNodeVerifyResult (id_splat Byte.x01) true None (Some (sha256_hex some_bytes)))), w4).
Proof.
  refine (proj1 (captured_verifies (H4 := a_codec ["x"; "y"]) a_node (capture_of ["x"; "y"]) (captured ["x"; "y"]) []
    (promote_of ["x"; "y"]) (mkNodePromoteResult "a1" true None (Some ("/data/checkpoints/" +:+ to_hex (id_splat Byte.x01))))
    some_bytes (a_manifest ["x"; "y"]) [escape] verify_of 100
    (a_world ["x"; "y"]) (captured_world ["x"; "y"]) (captured_world ["x"; "y"]) (promoted_world ["x"; "y"]) later_world
    hex_codec_laws identity_zstd_laws checksum_plain (a_node_hosted _ _) (a_node_hosted _ _) _ _ _ _ _ _ _ _ _ _ _ _ _ _ _)).
  - exact captured_runs.
  - vm_compute. reflexivity.
  - apply (bool_decide_unpack _). vm_compute. exact I.
  - constructor.
  - reflexivity.
  - exact promoted_runs.
  - reflexivity.
  - reflexivity.
  - reflexivity.
  - vm_compute. reflexivity.
  - vm_compute. reflexivity.
  - constructor; [apply not_elem_of_nil | constructor].
  - exact later_runs.
  - reflexivity.
  - vm_compute. reflexivity.
Defined.

(** A peer that serves the captured components, a byte at a time. *)
Definition serving_peer (component_ids : list string) : PeerRpc :=
  {| peer_connect := fun _ _ => Ok tt;
     peer_fetch_manifest := fun _ _ _ =>
       Ok (mkFetchManifestResponse true None (Some some_bytes) (ncr_components (captured component_ids)));
     peer_fetch_component := fun _ _ q =>
       Ok (mkFetchChunkResponse true None (fcq_offset q) (take 1 (drop (Z.to_nat (fcq_offset q)) [Byte.x61; Byte.x62]))
             (1 <=? fcq_offset q));
     coordinator_attach := fun _ _ => Err (Internal "no coordinator");
     coordinator_connect := fun _ => Err (Internal "no coordinator");
     coordinator_register := fun _ _ => Err (Internal "no coordinator");
     coordinator_heartbeat := fun _ _ => Err (Internal "no coordinator") |}.

Definition replicate_of : NodeReplicateRequest :=
  mkNodeReplicateRequest "r1" (id_splat Byte.x01) (sha256_hex some_bytes) "10.0.0.9:70" "t" 1.

Definition a_replication : outcome NodeReply * NodeWorld (App := list byte) :=
  node_handler (H4 := a_codec ["x"; "y"]) (H6 := serving_peer ["x"; "y"]) a_node (NReplicate replicate_of) (a_world []).

Definition replicated_world : NodeWorld := a_replication.2.

Definition replicated_result : NodeReplicateResult :=
  mkNodeReplicateResult "r1" true None (Some ("/data/checkpoints/" +:+ to_hex (id_splat Byte.x01))).

Lemma replicated_runs : a_replication = (Done (NRReplicate replicated_result), replicated_world).
Proof. unfold replicated_world. rewrite <- (pair_of a_replication (Done (NRReplicate replicated_result))); [done |]. vm_compute. reflexivity. Qed.

Example replicated_checkpoint_verifies_witness :
  exists bytes m, sha256_hex bytes = sha256_hex some_bytes /\
    Manifest.parse (H0 := a_codec ["x"; "y"]) bytes = Ok m /\ mf_checkpoint_id m = id_splat Byte.x01 /\
    (distinct_names (segment_of <$> mf_components m) -> Forall sized (mf_components m) ->
     exists w3, node_handler (H4 := a_codec ["x"; "y"]) (H6 := serving_peer ["x"; "y"]) a_node (NVerify verify_of) replicated_world =
       (Done (NRVerify (mkNodeVerifyResult (id_splat Byte.x01) true None (Some (sha256_hex some_bytes)))), w3)).
Proof.
  destruct (replicated_checkpoint_verifies (H4 := a_codec ["x"; "y"]) (H6 := serving_peer ["x"; "y"]) a_node replicate_of
    replicated_result (a_world []) replicated_world hex_codec_laws checksum_plain (a_node_hosted _ _) replicated_runs eq_refl)
    as (bytes & m & Hd & Hp & Hid & Hall).
  exists bytes, m. split; [exact Hd |]. split; [exact Hp |]. split; [exact Hid |]. intros Hn Hs.
  apply (Hall Hn Hs []); [constructor | reflexivity | reflexivity |]. vm_compute. reflexivity.
Defined.

Definition a_component : ComponentEntry :=
  component_entry (pv_spec (a_provider "x")) {| sr_codec := "none"; sr_original_size := 2; sr_stored_size := 2;
    sr_stored_hash := ""; sr_relative_path := "components/x" |} "".

Example transfer_bounded_witness :
  ensures (disk (write ["data"; "x"] []) ;;
           fetch_chunks (H6 := serving_peer ["x"]) replicate_of "10.0.0.9:70" a_component ["data"; "x"] (fetch_fuel a_component) 0)
    (fun out w' => out <> FetchOutOfFuel /\ exists content,
       fs_of w' = <[["data"; "x"] := File content]> (fs_of (a_world [])) /\ byte_len content <= 2 /\
       forall n, out = FetchDone n -> n = byte_len content) (a_world []).
Proof.
  apply (transfer_bounded (H6 := serving_peer ["x"]) replicate_of "10.0.0.9:70" a_component ["data"; "x"] (a_world [])).
  split; done.
Defined.

(** A component and its checksum. *)
Definition clashing : list string := ["x"; "x.crc32c"].
Definition component_of (i : nat) : ComponentEntry := nth i (ncr_components (captured clashing)) a_component.

Lemma clashing_captured : a_capture (a_codec clashing) clashing = (Done (NRCapture (captured clashing)), captured_world clashing).
Proof. unfold captured_world. rewrite <- (pair_of (a_capture (a_codec clashing) clashing) (Done (NRCapture (captured clashing)))); [done |]. vm_compute. reflexivity. Qed.

Lemma clashing_promoted : a_promotion clashing =
  (Done (NRPromote (mkNodePromoteResult "a1" true None (Some ("/data/checkpoints/" +:+ to_hex (id_splat Byte.x01))))),
   promoted_world clashing).
Proof. unfold promoted_world. rewrite <- (pair_of (a_promotion clashing)); [done |]. vm_compute. reflexivity. Qed.

Lemma clashing_names : segment_of <$> ncr_components (captured clashing) = clashing.
Proof. vm_compute. reflexivity. Qed.

(** The requests are valid, and the verification of their checkpoint is refused. *)
Example sidecar_names_collide_witness :
  for_each check_component_id (ncq_components (capture_of clashing)) = Ok tt /\
  exists s s' why w4, is_stored (component_of 0) s /\ is_stored (component_of 1) s' /\
    node_request clashing (NVerify verify_of) (promoted_world clashing) =
      (Done (NRVerify (mkNodeVerifyResult (id_splat Byte.x01) (is_none why) why (Some (sha256_hex some_bytes)))), w4) /\
    (is_none why = false \/ passes_for s' s \/ sha256_hex s' = sha256_hex (line (crc_text (crc32c s)))) /\
    is_none why = false.
Proof.
  destruct (sidecar_names_collide (App := list byte) (H4 := a_codec clashing) a_node) as [Hvalid Hall]. split.
  { apply (Hvalid (mkCaptureComponentRequest "x" ApplicationState true 1 "app")
      (mkCaptureComponentRequest "x.crc32c" ApplicationState true 1 "app")); done. }
  destruct (Hall (capture_of clashing) (captured clashing) [] (promote_of clashing)
    (mkNodePromoteResult "a1" true None (Some ("/data/checkpoints/" +:+ to_hex (id_splat Byte.x01))))
    (a_manifest clashing) [] verify_of (component_of 0) (component_of 1) (a_world clashing) (captured_world clashing)
    (captured_world clashing) (promoted_world clashing) (promoted_world clashing) hex_codec_laws checksum_plain
    (a_node_hosted _ _) (a_node_hosted _ _) clashing_captured) as (s & s' & why & w4 & Hs & Hs' & E & Hor).
  - vm_compute. reflexivity.
  - rewrite clashing_names. apply (bool_decide_unpack _). vm_compute. exact I.
  - apply (bool_decide_unpack _). vm_compute. exact I.
  - apply (bool_decide_unpack _). vm_compute. exact I.
  - vm_compute. reflexivity.
  - intros d Hd H0 H1. exfalso. apply (list_elem_of_fmap_2 segment_of) in Hd. rewrite clashing_names in Hd.
    apply elem_of_cons in Hd as [Hd | Hd%list_elem_of_singleton]; [apply H0 | apply H1]; rewrite Hd; vm_compute; reflexivity.
  - constructor.
  - reflexivity.
  - exact clashing_promoted.
  - reflexivity.
  - reflexivity.
  - vm_compute. reflexivity.
  - vm_compute. reflexivity.
  - constructor.
  - reflexivity.
  - reflexivity.
  - vm_compute. reflexivity.
  - exists s, s', why, w4. split; [exact Hs |]. split; [exact Hs' |]. split; [exact E |]. split; [exact Hor |].
    assert (Hrun : match (node_request clashing (NVerify verify_of) (promoted_world clashing)).1 with
                   | Done (NRVerify res) => nvr_ok res = false | _ => False end) by (vm_compute; reflexivity).
    unfold node_request in Hrun. change (nmq_checkpoint_id (promote_of clashing)) with (id_splat Byte.x01) in E.
    rewrite E in Hrun. exact Hrun.
Defined.
