(* ===== verification/Delivery.v ===== *)
(** From the providers of one node to the providers of another: what [do_capture] takes and
    what [do_restore] hands over ([src/src/node.rs], [src/src/providers.rs]). *)
From S2P Require Import Prelude Errors Ident Lifecycle Checkpoint Workload Compression Policy Compat.
From S2P Require Import Capture Json Restore Lineage Failpoints Tables Persist World.
From S2P Require Import Manifest Messages Coordinator Maintenance Dispatch Frame Fs Integrity Storage Providers Node.
From S2P Require Import NodeFacts Stored Scenario NodeSafety.
From Stdlib Require Import Strings.Byte.

(** * Parcels *)

(** A payload of a component, with the provider that gave or got it. *)
Record Parcel (App : Type) := mkParcel {
  pc_component : string;
  pc_provider : CaptureProvider App;
  pc_payload : list byte
}.
Arguments mkParcel {App}.
Arguments pc_component {App}.
Arguments pc_provider {App}.
Arguments pc_payload {App}.

Section parcels.
Context {App : Type}.

(** The providers give their payloads one after another; between them only the disk is used. *)
Inductive taken (ctx : CaptureContext) : list (Parcel App) -> AppWorld App -> AppWorld App -> Prop :=
| taken_none a a' : aw_app a' = aw_app a -> taken ctx [] a a'
| taken_one p x l a a0 a1 a2 a' :
    aw_app a0 = aw_app a -> pv_capture p ctx a0 = (Done x, a1) -> pv_verify p ctx a1 = (Done tt, a2) ->
    taken ctx l a2 a' -> taken ctx (mkParcel (ps_component_id (pv_spec p)) p x :: l) a a'.

(** The same for what they are given, which each of them confirms. *)
Inductive handed (ctx : RestoreContext) : list (Parcel App) -> AppWorld App -> AppWorld App -> Prop :=
| handed_none a a' : aw_app a' = aw_app a -> handed ctx [] a a'
| handed_one c l a a0 a1 a2 a' :
    aw_app a0 = aw_app a -> pv_restore (pc_provider c) ctx (pc_payload c) a0 = (Done tt, a1) ->
    pv_verify_restore (pc_provider c) ctx a1 = (Done tt, a2) -> handed ctx l a2 a' -> handed ctx (c :: l) a a'.

Lemma taken_after ctx l a0 a a' : aw_app a = aw_app a0 -> taken ctx l a a' -> taken ctx l a0 a'.
Proof. intros E Ht. revert E. destruct Ht as [? ? E' | ? ? ? ? ? ? ? ? E']; intros E; [constructor | eapply taken_one; [| done..]]; by rewrite <- E. Qed.
Lemma handed_after ctx l a0 a a' : aw_app a = aw_app a0 -> handed ctx l a a' -> handed ctx l a0 a'.
Proof. intros E Hh. revert E. destruct Hh as [? ? E' | ? ? ? ? ? ? ? E']; intros E; [constructor | eapply handed_one; [| done..]]; by rewrite <- E. Qed.

Lemma taken_before ctx l a a' a'' : aw_app a'' = aw_app a' -> taken ctx l a a' -> taken ctx l a a''.
Proof. intros E Ht. induction Ht; [constructor; by rewrite E | eapply taken_one; [done.. | auto]]. Qed.
Lemma handed_before ctx l a a' a'' : aw_app a'' = aw_app a' -> handed ctx l a a' -> handed ctx l a a''.
Proof. intros E Hh. induction Hh; [constructor; by rewrite E | eapply handed_one; [done.. | auto]]. Qed.

Context `{Sha256}.

(** The entry of a component describes the payload. *)
Definition describes (c : ComponentEntry) (payload : list byte) : Prop :=
  ce_content_hash c = sha256_hex payload /\ sr_original_size (ce_storage_representation c) = byte_len payload.

Definition entry_of (c : ComponentEntry) (l : Parcel App) : Prop :=
  ce_component_id c = pc_component l /\ describes c (pc_payload l).

(** The parcels for the components of a manifest: one for each that has a provider; a
    component without one is optional. *)
Inductive addressed (reg : ProviderRegistry App) (wid : Id) : list ComponentEntry -> list (Parcel App) -> Prop :=
| addressed_none : addressed reg wid [] []
| addressed_skip c cs l :
    get_provider wid (ce_component_id c) reg = None -> ce_required c = false ->
    addressed reg wid cs l -> addressed reg wid (c :: cs) l
| addressed_to c cs p l :
    get_provider wid (ce_component_id c) reg = Some (pc_provider p) -> entry_of c p ->
    addressed reg wid cs l -> addressed reg wid (c :: cs) (p :: l).

Lemma addressed_entry reg wid cs l p : addressed reg wid cs l -> p ∈ l -> exists c, c ∈ cs /\ entry_of c p.
Proof.
  induction 1 as [| c cs l _ _ _ IH | c cs q l _ Hq _ IH]; intros Hp.
  - by apply not_elem_of_nil in Hp.
  - destruct (IH Hp) as (c' & Hc & He). exists c'. split; [by right | done].
  - apply elem_of_cons in Hp as [-> | Hp]; [exists c; split; [left | done] |].
    destruct (IH Hp) as (c' & Hc & He). exists c'. split; [by right | done].
Qed.
End parcels.

(** * The calls of a node *)

Section node.
Context {App : Type}.
Context `{DiskEnv, Crc32c, Sha256, HexCodec, Zstd, ManifestCodec, NodeTexts, PeerRpc}.
Context (self : NodeRuntime).

(** Neither the application nor the registry was touched. *)
Definition aside (w w' : NodeWorld (App := App)) : Prop :=
  aw_app (nw_app w') = aw_app (nw_app w) /\ ns_providers (nw_node w') = ns_providers (nw_node w).

Lemma keeps_aside_disk {A} w0 (m : M Disk A) : keeps (aside w0) (disk m).
Proof. intros [[d a] n] Hw. unfold disk, in_app, on_disk. cbn. by destruct (m d). Qed.
Lemma keeps_aside_set w0 (f : NodeState -> NodeState) :
  (forall n, ns_providers (f n) = ns_providers n) -> keeps (aside w0) (node_set f).
Proof. intros Hf w [Ha Hp]. split; [exact Ha |]. cbn. by rewrite Hf. Qed.
Lemma keeps_aside_get {A} w0 (f : NodeState -> A) : keeps (aside w0) (node_get f).
Proof. by intros w Hw. Qed.
Lemma keeps_aside_failpoint w0 name : keeps (aside w0) (node_failpoint name).
Proof. intros w Hw. unfold node_failpoint, lift. by destruct (fire _ _) as [[u | e] armed]. Qed.

Lemma aside_refl w : aside w w. Proof. done. Qed.

(** A first part that only works on the disk. *)
Lemma ensures_aside {A B} (m : M NodeWorld A) (k : A -> M NodeWorld B) (Q : B -> NodeWorld -> Prop) w :
  keeps (aside w) m -> (forall a w1, aside w w1 -> ensures (k a) Q w1) -> ensures (m ≫= k) Q w.
Proof. intros Hm Hk. apply ensures_bind, (ensures_keeps (aside w)); [exact Hm | apply aside_refl | exact Hk]. Qed.

Lemma read_payload_checks commit repr h n (d : Disk) :
  ensures (read_component_payload commit repr h n) (fun x _ => sha256_hex x = h /\ byte_len x = sr_original_size repr) d.
Proof.
  unfold read_component_payload. do 5 (apply ensures_bind, ensures_any; intros ? ?).
  apply ensures_bind, ensures_lift. intros [] Hlen%reject_if_Ok. apply ensures_bind, ensures_lift.
  intros [] Hh%reject_if_Ok. apply ensures_ret. bool_facts. split; [done | lia].
Qed.

Lemma write_payload_size staging cid payload spec (d : Disk) :
  ensures (write_component_payload staging cid payload spec) (fun repr _ => sr_original_size repr = byte_len payload) d.
Proof. unfold write_component_payload. do 7 (apply ensures_bind, ensures_any; intros ? ?). by apply ensures_ret. Qed.

(** A method of a provider, and a call of the disk. *)
Lemma ensures_method {A} (m : M (AppWorld App) A) (w : NodeWorld (App := App)) :
  ensures (in_app m) (fun a w' => m (nw_app w) = (Done a, nw_app w') /\ ns_providers (nw_node w') = ns_providers (nw_node w)) w.
Proof. unfold ensures, in_app. by destruct (m (nw_app w)) as [[a | e |] a']. Qed.

Lemma ensures_call {A} (m : M Disk A) (P : A -> Prop) (w : NodeWorld (App := App)) :
  ensures m (fun a _ => P a) (aw_disk (nw_app w)) -> ensures (disk m) (fun a w' => P a /\ aside w w') w.
Proof. unfold ensures, disk, in_app, on_disk. destruct (m _) as [[a | e |] d']; [by repeat split | done | done]. Qed.

(** ** Capture *)

Lemma capture_components_takes ctx ps (w : NodeWorld (App := App)) :
  ensures (capture_components ctx ps) (fun cs w' => exists l,
    taken ctx l (nw_app w) (nw_app w') /\ pc_provider <$> l = ps /\ Forall2 entry_of cs l) w.
Proof.
  revert w. induction ps as [| p ps IH]; intros w; cbn [capture_components].
  { apply ensures_ret. exists []. repeat constructor. }
  apply ensures_bind. unfold capture_component.
  eapply ensures_bind, ensures_conseq; [apply ensures_method |]. intros x w1 [Hx _].
  eapply ensures_bind, ensures_conseq; [apply ensures_method |]. intros [] w2 [Hv _].
  eapply ensures_bind, ensures_conseq; [apply ensures_call, write_payload_size |]. intros repr w3 [Hsize [Happ _]].
  apply ensures_ret, ensures_bind. eapply ensures_conseq; [apply IH |]. intros cs w4 (l & Hl & Hps & Hes).
  apply ensures_ret. exists (mkParcel (ps_component_id (pv_spec p)) p x :: l). split; [| split].
  - eapply taken_one; [done | exact Hx | exact Hv | by eapply taken_after].
  - by rewrite fmap_cons, Hps.
  - constructor; [| exact Hes]. by repeat split.
Qed.

Lemma keeps_aside_fresh w0 staging : keeps (aside w0) (fresh_staging staging).
Proof.
  unfold fresh_staging, lease_staging.
  repeat first [apply keeps_aside_disk | apply keeps_bind; intros | apply keeps_ret | by apply keeps_aside_set |
                match goal with |- keeps _ (if ?b then _ else _) => destruct b end].
Qed.

(** The context of a capture. *)
Definition capture_context (req : NodeCaptureRequest) : CaptureContext :=
  mkCaptureContext (ncq_workload_id req) (ncq_attempt_id req) (staging_dir (nr_storage self) (ncq_attempt_id req))
    (ncq_compression req) (ncq_quiescence req).

Lemma do_capture_takes req (w : NodeWorld (App := App)) :
  ensures (do_capture self req) (fun res w' => ncr_ok res = true -> exists l a,
    taken (capture_context req) l a (nw_app w') /\ Forall2 entry_of (ncr_components res) l /\
    select_providers (ncq_workload_id req) (ncq_components req) (ns_providers (nw_node w)) = Ok (pc_provider <$> l)) w.
Proof.
  unfold do_capture. apply ensures_aside; [apply keeps_aside_fresh |]. intros [] w1 [_ Hreg].
  apply ensures_bind. unfold ensures at 1, node_get. rewrite Hreg.
  apply ensures_bind, ensures_any. intros prepared w2. apply ensures_bind, ensures_attempt.
  2: { intros e' w3; repeat (apply ensures_bind, ensures_any; intros ? ?); by apply ensures_ret. }
  apply ensures_bind, ensures_lift. intros ps Hps. apply ensures_bind, ensures_lift. intros [] _.
  apply ensures_bind, ensures_any. intros ack w3. apply ensures_bind.
  eapply ensures_conseq; [apply capture_components_takes |]. intros cs w4 (l & Hl & Hp & Hes).
  apply ensures_ret. unfold ensures, node_set, mbind, M_bind. cbn. intros _. exists l, (nw_app w3).
  split; [exact Hl |]. split; [exact Hes |]. by rewrite Hp.
Qed.

(** ** Restore *)

Definition restore_context (req : NodeRestoreRequest) : RestoreContext :=
  mkRestoreContext (nrq_checkpoint_id req) (nrq_workload_id req) (nrq_attempt_id req)
    (staging_dir (nr_storage self) (nrq_attempt_id req)) (commit_dir (nr_storage self) (nrq_checkpoint_id req)).

Lemma restore_entries_hand req ctx cs restored applied (w : NodeWorld (App := App)) :
  ensures (restore_entries req ctx cs restored applied) (fun out w' => snd out = None -> exists l,
    handed ctx l (nw_app w) (nw_app w') /\ addressed (ns_providers (nw_node w)) (nrq_workload_id req) cs l /\
    fst out = restored ++ (pc_component <$> l)) w.
Proof.
  revert restored applied w. induction cs as [| c cs IH]; intros restored applied w; cbn [restore_entries].
  { apply ensures_ret. intros _. exists []. split; [by constructor |]. split; [constructor |]. by rewrite app_nil_r. }
  apply ensures_bind. unfold ensures at 1, provider_of, node_get. destruct (get_provider _ _ _) as [p |] eqn:Ep.
  2: { destruct (ce_required c) eqn:Er.
       - apply ensures_bind, ensures_any. intros [] w1. by apply ensures_ret.
       - eapply ensures_conseq; [apply IH |]. intros out w1 Hout Hn. destruct (Hout Hn) as (l & Hl & Ha & Hr).
         exists l. split; [exact Hl |]. split; [by apply addressed_skip | exact Hr]. }
  assert (Hfail : forall (reason : string) applied (w1 : NodeWorld (App := App)),
    ensures (cleanup_restored applied ctx ;; mret (restored, Some reason))
      (fun out w' => snd out = None -> exists l, handed ctx l (nw_app w) (nw_app w') /\
         addressed (ns_providers (nw_node w)) (nrq_workload_id req) (c :: cs) l /\ fst out = restored ++ (pc_component <$> l)) w1).
  { intros reason applied' w1. apply ensures_bind, ensures_any. intros [] w2. by apply ensures_ret. }
  apply ensures_bind, ensures_attempt; [| intros e w1; apply Hfail].
  eapply ensures_conseq; [apply ensures_call, read_payload_checks |]. intros x w1 [[Hh Hlen] [Happ Hreg]].
  apply ensures_bind, ensures_attempt; [| intros e w2; apply Hfail].
  eapply ensures_conseq; [apply ensures_method |]. intros [] w2 [Hr Hreg2].
  apply ensures_bind, ensures_attempt; [| intros e w3; apply Hfail].
  eapply ensures_conseq; [apply ensures_method |]. intros [] w3 [Hv Hreg3].
  eapply ensures_conseq; [apply IH |]. intros out w4 Hout Hn. destruct (Hout Hn) as (l & Hl & Ha & Hrest).
  exists (mkParcel (ce_component_id c) p x :: l). split; [| split].
  - eapply handed_one; [exact Happ | exact Hr | exact Hv | exact Hl].
  - rewrite Hreg3, Hreg2, Hreg in Ha. by apply addressed_to.
  - by rewrite Hrest, fmap_cons, <- (assoc_L (++)).
Qed.

Lemma read_finds p (d : Disk) : ensures (read p) (fun b _ => dk_fs d !! p = Some (File b)) d.
Proof.
  unfold ensures, read, look. destruct (disk_outcome _); [| done | done].
  by destruct (dk_fs d !! p) as [[| b] |].
Qed.

Lemma keeps_aside_sidecar w0 p : keeps (aside w0) (sidecar_text p).
Proof. apply keeps_bind; [apply keeps_attempt, keeps_aside_disk | intros; apply keeps_ret]. Qed.

Lemma keeps_aside_verify w0 commit cs : keeps (aside w0) (verify_components commit cs).
Proof.
  induction cs as [| c cs IH]; cbn [verify_components]; [apply keeps_ret |].
  apply keeps_bind; [apply keeps_lift |]. intros p. apply keeps_bind; [apply keeps_aside_disk |]. intros [].
  - apply keeps_bind; [apply keeps_attempt, keeps_aside_disk |]. intros [u | e]; [exact IH | apply keeps_ret].
  - apply keeps_ret.
Qed.

Lemma do_restore_hands req (w : NodeWorld (App := App)) :
  ensures (do_restore self req) (fun res w' => nrr_ok res = true -> exists bytes m l,
    fs_of w !! (commit_dir (nr_storage self) (nrq_checkpoint_id req) ++ ["manifest"]) = Some (File bytes) /\
    sha256_hex bytes = nrq_expected_manifest_digest req /\ Manifest.parse bytes = Ok m /\
    mf_checkpoint_id m = nrq_checkpoint_id req /\ mf_workload_id m = nrq_workload_id req /\
    handed (restore_context req) l (nw_app w) (nw_app w') /\
    addressed (ns_providers (nw_node w)) (nrq_workload_id req) (mf_components m) l /\
    nrr_restored_components res = pc_component <$> l) w.
Proof.
  unfold do_restore. apply ensures_bind. unfold ensures at 1, node_failpoint, lift.
  destruct (fire _ _) as [[[] | e] armed]; [| done]. set (w0 := mkNodeWorld _ _).
  change (nw_app w) with (nw_app w0). change (fs_of w) with (fs_of w0).
  change (ns_providers (nw_node w)) with (ns_providers (nw_node w0)). clearbody w0.
  apply ensures_bind, ensures_attempt; [| intros e w1; by apply ensures_ret].
  eapply ensures_conseq.
  { apply (ensures_call _ (fun b => fs_of w0 !! (commit_dir (nr_storage self) (nrq_checkpoint_id req) ++ ["manifest"]) = Some (File b))).
    apply read_finds. }
  intros bytes w1 [Hfile A1].
  eapply ensures_bind, (ensures_keeps (aside w0)); [apply keeps_aside_sidecar | exact A1 |]. intros digest w2 A2.
  destruct (negb _ || _) eqn:Ed; [by apply ensures_ret |].
  apply ensures_bind, ensures_lift. intros m Hm.
  destruct (negb (bool_decide (mf_checkpoint_id m = _)) || _) eqn:Ei; [by apply ensures_ret |].
  eapply ensures_bind, (ensures_keeps (aside w0)); [apply keeps_aside_verify | exact A2 |]. intros bad w3 [Ha3 Hr3].
  destruct bad as [reason |]; [by apply ensures_ret |].
  eapply ensures_bind, ensures_conseq; [apply restore_entries_hand |]. intros [restored refused] w4 Hout.
  destruct refused as [reason |]; [by apply ensures_ret |]. cbn [snd fst] in *.
  destruct (Hout eq_refl) as (l & Hl & Had & Hr). unfold ensures, node_set, mbind, M_bind. cbn. intros _.
  apply orb_false_iff in Ed as [Ed _], Ei as [Ei1 Ei2]. bool_facts.
  exists bytes, m, l. split_and!; try done; [by eapply handed_after | by rewrite <- Hr3].
Qed.
End node.

(** * Between two nodes *)

Section delivery.
Context {AppA AppB : Type}.
Context `{Crc32c, Sha256, HexCodec, Zstd, ManifestCodec}.
Context (diskA diskB : DiskEnv) (textsA textsB : NodeTexts) (peersA peersB : PeerRpc).

(** The same payload of the same component, unless the hash is broken with these two. *)
Definition same_parcel (r : Parcel AppB) (s : Parcel AppA) : Prop :=
  pc_component r = pc_component s /\ (pc_payload r = pc_payload s \/ collision (pc_payload r) (pc_payload s)).

Lemma entries_same c (r : Parcel AppB) (s : Parcel AppA) : entry_of c r -> entry_of c s -> same_parcel r s.
Proof. intros (Hr & Hh & _) (Hs & Hh' & _). split; [congruence |]. apply hash_eq. congruence. Qed.

(** What [B] was given when it answered a restore, from what [A] gave when it answered the
    capture behind [bytes].  The providers of [A] that were selected gave, one after
    another, the payloads [sent], each of which its provider verified.  The providers of
    [B] were given, one after another from the state before the request to the state after
    it, the payloads [received], each of which its provider verified: of every component
    that has a provider on [B] (a component without one is optional), the very bytes that
    were sent.  Otherwise SHA-256 is broken: by the manifest file of [B] and the anchored
    manifest, or by the two payloads. *)
Definition delivered (A B : NodeRuntime) (creq : NodeCaptureRequest) (cres : NodeCaptureResult) (bytes : list byte)
    (rreq : NodeRestoreRequest) (rres : NodeRestoreResult) (wa wa' : NodeWorld (App := AppA))
    (wb wb' : NodeWorld (App := AppB)) : Prop :=
  exists sent a, taken (capture_context A creq) sent a (nw_app wa') /\
    select_providers (ncq_workload_id creq) (ncq_components creq) (ns_providers (nw_node wa)) = Ok (pc_provider <$> sent) /\
    exists bytes', fs_of wb !! (commit_dir (nr_storage B) (nrq_checkpoint_id rreq) ++ ["manifest"]) = Some (File bytes') /\
      (collision bytes' bytes \/
       bytes' = bytes /\ exists received,
         handed (restore_context B rreq) received (nw_app wb) (nw_app wb') /\
         addressed (ns_providers (nw_node wb)) (nrq_workload_id rreq) (ncr_components cres) received /\
         Forall (fun r => exists s, s ∈ sent /\ same_parcel r s) received /\
         nrr_restored_components rres = pc_component <$> received).

(** A capture that [A] reports as done and a restore that [B] reports as done under the
    digest of the manifest that lists what was captured. *)
Lemma restore_delivers (A B : NodeRuntime) creq cres bytes m rreq rres
    (wa wa' : NodeWorld (App := AppA)) (wb wb' : NodeWorld (App := AppB)) :
  node_handler (H := diskA) (H5 := textsA) (H6 := peersA) A (NCapture creq) wa = (Done (NRCapture cres), wa') ->
  ncr_ok cres = true ->
  Manifest.parse bytes = Ok m -> mf_components m = ncr_components cres ->
  node_handler (H := diskB) (H5 := textsB) (H6 := peersB) B (NRestore rreq) wb = (Done (NRRestore rres), wb') ->
  nrr_ok rres = true -> nrq_expected_manifest_digest rreq = sha256_hex bytes ->
  delivered A B creq cres bytes rreq rres wa wa' wb wb'.
Proof.
  intros Hc Hcok Hparse Hcomps Hr Hrok Hd.
  apply handler_done in Hc as [Hc | [e [=]]]. apply fenced_done in Hc as (? & Hc & [= <-]).
  apply handler_done in Hr as [Hr | [e [=]]]. apply fenced_done in Hr as (? & Hr & [= <-]).
  pose proof (do_capture_takes (H := diskA) A creq wa) as Ht. unfold ensures in Ht.
  rewrite Hc in Ht. destruct (Ht Hcok) as (sent & a & Hsent & Hes & Hsel).
  pose proof (do_restore_hands (H := diskB) B rreq wb) as Hh. unfold ensures in Hh.
  rewrite Hr in Hh. destruct (Hh Hrok) as (bytes' & m' & received & Hfile & Hd' & Hparse' & _ & _ & Hrec & Had & Hids).
  exists sent, a. split; [exact Hsent |]. split; [exact Hsel |]. exists bytes'. split; [exact Hfile |].
  assert (E : sha256_hex bytes' = sha256_hex bytes) by by rewrite Hd', Hd.
  destruct (hash_eq bytes' bytes E) as [-> | Hcol]; [right | by left].
  split; [done |]. assert (m' = m) as -> by congruence. rewrite Hcomps in Had.
  exists received. split; [exact Hrec |]. split; [exact Had |]. split; [| exact Hids].
  apply Forall_forall. intros r Hin. destruct (addressed_entry _ _ _ _ _ Had Hin) as (c & Hcin & Her).
  apply list_elem_of_lookup in Hcin as [i Hi]. destruct (Forall2_lookup_l _ _ _ _ _ Hes Hi) as (s & Hs & Hesc).
  exists s. split; [by eapply list_elem_of_lookup_2 | by eapply entries_same].
Qed.
End delivery.
