(* ===== verification/CaptureFacts.v ===== *)
(** A capture is all or nothing ([request_capture] of [Coordinator]): whatever the
    nodes answer, wherever a failpoint fires or the process stops. *)
From S2P Require Import Prelude Errors Ident Lifecycle Checkpoint Workload Compression Policy Compat.
From S2P Require Import Capture Json Restore Lineage Failpoints Tables Persist Schema StoreFacts Fencing Commit.
From S2P Require Import World Manifest Messages Recovery RecoveryFacts Attempts Footprint Lifetime Coordinator Steps Scenario.
From Stdlib Require Import Strings.Byte.

(** ** The states of a capture *)

(** A checkpoint that no capture made available. *)
Definition pending (l : LifecycleState) : bool := negb (lifecycle_is l [Available; Restored; Retired]).

Definition capture_committed (key : string) (s : Store) : bool :=
  journal_contains "capture" key capture_DB_COMMITTED s.

(** The commit is not recorded, and the checkpoint, if it exists, is not available. *)
Definition unpublished (key : string) (cid : Id) (s : Store) : Prop :=
  capture_committed key s = false /\
  forall r, st_checkpoints s !! cid = Some r -> pending (ck_lifecycle r) = true.

(** The commit is recorded, and the checkpoint is available and valid. *)
Definition published (key : string) (cid : Id) (s : Store) : Prop :=
  capture_committed key s = true /\
  exists r, st_checkpoints s !! cid = Some r /\ ck_lifecycle r = Available /\ ck_integrity_state r = Valid.

(** Before the commit a capture changed only what is its own. *)
Definition staged (key : string) (cid : Id) (s0 s : Store) : Prop :=
  tracked "capture" key cid s /\ confined key cid s0 s /\ unpublished key cid s.

(** After it, it made one transaction more: the commit. *)
Definition finished (key : string) (cid : Id) (s0 s : Store) : Prop :=
  tracked "capture" key cid s /\
  exists now sm sc, confined key cid s0 sm /\ capture_commit now cid key sm = Ok (tt, sc) /\
    confined key cid sc s /\ published key cid s.

(** ** Statements *)

Lemma unpublished_inert {A} key cid (op : Tx A) : inert cid op -> preserves (unpublished key cid) op.
Proof.
  intros Hi s a s' Hop [Hc Hp]. destruct (Hi s a s' Hop) as [Ej El]. split.
  - unfold capture_committed, journal_contains in *. by rewrite Ej.
  - intros r' Hr'. destruct (El r' Hr') as (r & Hr & ->). by apply Hp.
Qed.

Lemma unpublished_journal key cid now t d :
  t <> capture_DB_COMMITTED -> preserves (unpublished key cid) (journal_append now "capture" key t d).
Proof.
  intros Ht s u s' Hr [Hc Hp]. run_op Hr. split.
  - unfold capture_committed. rewrite journal_insert_other; [done | congruence].
  - unfold journal_insert. by destruct (existsb _ _).
Qed.

Lemma unpublished_set_lifecycle key cid id l g :
  pending l = true -> preserves (unpublished key cid) (checkpoint_set_lifecycle id l g).
Proof.
  intros Hl s u s' Hr [Hc Hp]. run_op Hr. split; [done |]. cbn.
  intros r' [(_ & r1 & Hr1 & ->) | [_ Hr']]%lookup_alter_Some; [done | by apply Hp].
Qed.

Lemma unpublished_put key cid c comps (s : Store) id :
  pending (ck_lifecycle c) = true -> unpublished key cid s ->
  unpublished key cid (s <| st_checkpoints := <[id := c]> (st_checkpoints s) |> <| st_components := comps |>).
Proof.
  intros Hl [Hc Hp]. split; [done |]. cbn.
  intros r' [(_ & <-) | [_ Hr']]%lookup_insert_Some; [done | by apply Hp].
Qed.

Lemma unpublished_update key cid c :
  pending (ck_lifecycle c) = true -> preserves (unpublished key cid) (checkpoint_update c).
Proof. intros Hl s u s' Hr Hu. run_op Hr. by apply unpublished_put. Qed.

Lemma unpublished_insert key cid c :
  pending (ck_lifecycle c) = true -> preserves (unpublished key cid) (checkpoint_insert c).
Proof. intros Hl s u s' Hr Hu. run_op Hr. by apply unpublished_put. Qed.

(** ** The commit *)

Lemma capture_published now cid key (s s' : Store) u :
  schema_ok s -> capture_commit now cid key s = Ok (u, s') -> published key cid s'.
Proof.
  intros Hs (row & w & Had & ->)%capture_commit_Ok. split.
  - apply journal_insert_contains.
  - by apply capture_commit_committed.
Qed.

Lemma published_preserves {A} key cid (op : Tx A) :
  evolving key op -> keeps_state cid op -> preserves (published key cid) op.
Proof.
  intros Hev Hst s a s' Hop [Hc (r & Hr & Hl & Hi)]. split.
  - by apply (evolves_contains key s s'); [eapply Hev |].
  - destruct (Hst s a s' Hop r Hr) as (r' & Hr' & El & Ei). exists r'. split_and!; congruence.
Qed.

(** No commit is recorded, and the checkpoint does not exist or has failed. *)
Definition withdrawn (key : string) (cid : Id) (s : Store) : Prop :=
  capture_committed key s = false /\
  forall r, st_checkpoints s !! cid = Some r -> ck_lifecycle r = Failed.

Lemma withdrawn_preserves {A} key cid (op : Tx A) :
  (forall s a s', op s = Ok (a, s') -> st_checkpoints s' = st_checkpoints s /\ st_journal s' = st_journal s) ->
  preserves (withdrawn key cid) op.
Proof.
  intros Hop s a s' Hr [Hc Hf]. destruct (Hop s a s' Hr) as [Ec Ej]. split.
  - unfold capture_committed, journal_contains in *. by rewrite Ej.
  - by rewrite Ec.
Qed.

(** From here on a statement is only its name. *)
Opaque checkpoint_insert checkpoint_update checkpoint_set_lifecycle capture_commit
  checkpoint_set_digest checkpoint_set_integrity checkpoint_add_location attempt_begin attempt_finish
  reservation_create reservation_release audit_append journal_append workload_get checkpoint_get
  checkpoint_list checkpoint_max_generation attempt_get node_list journal_has.

Section capture.
Context `{Env, !Quiet, NodeRpc, NodeTexts, HexCodec, Sha256, ManifestCodec}.
Context (self : CoordinatorInner).

(** ** Up to the durable image *)

Section persist.
Context (key : string) (cid : Id) (s0 : Store).

(** [staged], with the row of the checkpoint in place. *)
Definition staging (s : Store) : Prop :=
  under "capture" key cid s /\ confined key cid s0 s /\ unpublished key cid s.

Lemma staging_preserves {A} (op : Tx A) :
  @statement hex_codec fixed_policy_codec A op -> evolving key op -> confining key cid op ->
  preserves (unpublished key cid) op -> preserves staging op.
Proof.
  intros Hst Hev Hcf Hup. apply preserves_and; [by apply under_preserves |].
  apply preserves_and; [by apply confining_preserves | exact Hup].
Qed.

Lemma keeps_staging_lifecycle ckpt l :
  ck_checkpoint_id ckpt = cid -> pending l = true -> keeps (on_store staging) (set_lifecycle ckpt l).
Proof.
  intros E Hl. unfold set_lifecycle. rewrite E. repeat keeps_step; [apply reads_preserves; auto with fabric |].
  apply staging_preserves; [constructor | auto with fabric.. | by apply unpublished_set_lifecycle].
Qed.

End persist.

Lemma staging_staged key cid s0 s : staging key cid s0 s -> staged key cid s0 s.
Proof. intros (Hu & Hrest). split; [by apply under_tracked | exact Hrest]. Qed.

Lemma staging_insert key cid s0 ckpt :
  ck_checkpoint_id ckpt = cid -> pending (ck_lifecycle ckpt) = true ->
  forall s u s', checkpoint_insert ckpt s = Ok (u, s') -> staged key cid s0 s -> staging key cid s0 s'.
Proof.
  intros Hid Hl s u s' Hi (Ht & Hcf & Hu). split_and!.
  - apply tracked_under; [| rewrite <- Hid; by eapply checkpoint_inserted].
    apply (tracked_preserves _ key cid (checkpoint_insert ckpt)) with (a := u) (s := s); try done;
      [constructor | auto with fabric | apply recoverable_insert].
  - apply (confining_preserves key cid s0 (checkpoint_insert ckpt)) with (a := u) (s := s); try done.
    rewrite <- Hid. auto with fabric.
  - by apply (unpublished_insert key cid ckpt Hl) with (a := u) (s := s).
Qed.

(** A statement of [capture_persist] after the insertion. *)
Local Ltac staging_step :=
  lazymatch goal with
  | |- keeps _ (set_lifecycle _ _) => by apply keeps_staging_lifecycle
  | |- keeps _ (call_node _ _ _) => apply keeps_call_node, _
  | |- preserves _ (journal_append _ _ _ _ _) =>
      apply staging_preserves; [constructor | auto with fabric.. | by apply unpublished_journal]
  | |- preserves _ (checkpoint_update ?c) =>
      apply staging_preserves;
        [constructor | auto with fabric | exact (confining_update _ c) | by apply unpublished_update]
  | |- preserves _ _ =>
      apply staging_preserves; [constructor | auto with fabric.. | apply unpublished_inert; auto with fabric]
  end.

(** [capture_persist] from a tracked attempt whose checkpoint does not exist yet. *)
Lemma capture_persist_spec key cid s0 workload node generation requested options s :
  staged key cid s0 s ->
  wp (capture_persist self workload node key cid generation requested options)
    (fun r s' => staged key cid s0 s' /\ (forall c, r = Ok c -> staging key cid s0 s')) good s.
Proof.
  intros Hs. unfold capture_persist. wp_step; [apply Hs |]. wp_step; [apply Hs |].
  set (ckpt := checkpoint_scaffold _ _ _ _ _ _ _ _ _).
  destruct (checkpoint_insert ckpt s) as [[[] s1] | e] eqn:Ei; [| by split].
  apply (wp_inv (staging key cid s0)).
  - repeat keeps_step; staging_step.
  - exact (staging_insert key cid s0 ckpt eq_refl eq_refl s tt s1 Ei Hs).
  - intros r s' Hs'. split; [by apply staging_staged | done].
  - intros s' Hs'. apply Hs'.
Qed.
(** ** From the commit on *)

Lemma finished_preserves {A} key cid s0 (op : Tx A) :
  @statement hex_codec fixed_policy_codec A op -> evolving key op -> preserves recoverable op ->
  confining key cid op -> keeps_state cid op -> preserves (finished key cid s0) op.
Proof.
  intros Hst Hev Hrec Hcf Hks s a s' Hop (Ht & now & sm & sc & Hm & Hc & Hf & Hp). split.
  - by apply (tracked_preserves _ _ _ op Hst Hev Hrec s a s' Hop).
  - exists now, sm, sc. split_and!; [done | done | | by eapply published_preserves].
    etrans; [exact Hf | by eapply Hcf].
Qed.

Lemma finished_commit key cid s0 now s s' :
  staging key cid s0 s -> capture_commit now cid key s = Ok (tt, s') -> finished key cid s0 s'.
Proof.
  intros (Hu & Hcf & _) Hc. split.
  - apply under_tracked.
    refine (under_preserves "capture" key cid (capture_commit now cid key) _ _ s tt s' Hc Hu);
      [constructor | auto with fabric].
  - exists now, s, s'. split_and!; [done | done | done |].
    apply (capture_published now cid key s s' tt); [apply Hu | exact Hc].
Qed.
(** The statements after the commit. *)
Local Ltac after_commit :=
  lazymatch goal with
  | |- keeps _ (call_node _ _ _) => apply keeps_call_node, _
  | |- keeps _ (node_addr _) => apply keeps_node_addr, _
  | |- keeps _ (unwrap _) => apply keeps_unwrap
  | |- preserves _ (journal_append _ _ _ _ _) =>
      apply finished_preserves; [constructor | auto with fabric | by apply recoverable_journal_other | auto with fabric..]
  | |- preserves _ (checkpoint_get _) => apply reads_preserves; auto with fabric
  | |- preserves _ node_list => apply reads_preserves; auto with fabric
  | |- preserves _ _ => apply finished_preserves; [constructor | auto with fabric..]
  end.

Lemma keeps_finished_targets key cid s0 targets ck :
  keeps (on_store (finished key cid s0)) (replicate_targets self cid targets ck).
Proof.
  revert ck. induction targets as [| t targets IH]; intros ck; cbn [replicate_targets];
    repeat keeps_step; first [apply IH | after_commit].
Qed.

Lemma keeps_finished_replicate key cid s0 ctx :
  keeps (on_store (finished key cid s0)) (replicate_to_policy self cid ctx).
Proof.
  unfold replicate_to_policy, audit. repeat keeps_step; first [apply keeps_finished_targets | after_commit].
Qed.
(** A commit, and the attempt ended. *)
Definition concluded (key : string) (cid : Id) (s0 s : Store) : Prop :=
  finished key cid s0 s /\ closed key "COMMITTED" s.

Lemma concluded_audit key cid s0 now a o w c r d : preserves (concluded key cid s0) (audit_append now a o w c r d).
Proof.
  apply preserves_and; [| auto with fabric].
  apply finished_preserves; [constructor | auto with fabric..].
Qed.

(** What [request_capture] answers. *)
Definition answers (key : string) (cid : Id) (o : OperationOutcome) : Prop :=
  oo_attempt_id o = key /\ oo_checkpoint_id o = Some cid /\ oo_state o = "AVAILABLE".

Lemma capture_finish_spec key cid s0 workload node resumability ctx s :
  staging key cid s0 s ->
  wp (capture_finish self workload node key cid resumability ctx)
    (fun r s' => (exists e, r = Err e /\ staging key cid s0 s') \/
       finished key cid s0 s' /\ (forall o, r = Ok o -> concluded key cid s0 s' /\ answers key cid o)) good s.
Proof.
  intros Hs. pose proof (fun s' (Hf : finished key cid s0 s') => proj1 (proj1 Hf)) as Hgood.
  unfold capture_finish. wp_step; [apply Hs | | left; by eexists].
  wp_step; [apply Hs |]. destruct (capture_commit now cid key s) as [[[] s1] | e] eqn:Ec; [| left; by eexists].
  assert (Hs1 : finished key cid s0 s1) by by eapply finished_commit.
  assert (Herr : forall e s', finished key cid s0 s' ->
    (exists e', @Err OperationOutcome e = Err e' /\ staging key cid s0 s') \/
    finished key cid s0 s' /\ (forall o, @Err OperationOutcome e = Ok o -> concluded key cid s0 s' /\ answers key cid o))
    by (by right).
  eapply wp_bind_inv; [apply keeps_call_node, _ | exact Hs1 | | apply Herr | exact Hgood].
  intros resume_res s2 Hs2.
  eapply wp_bind_inv; [| exact Hs2 | | apply Herr | exact Hgood].
  { unfold audit. repeat keeps_step; after_commit. }
  intros [] s3 Hs3.
  eapply wp_bind_inv; [repeat keeps_step; after_commit | exact Hs3 | | apply Herr | exact Hgood].
  intros [] s4 Hs4.
  eapply wp_bind_inv; [apply keeps_finished_replicate | exact Hs4 | | apply Herr | exact Hgood].
  intros replicas s5 Hs5.
  apply (wp_closing (finished key cid s0)); [intros; after_commit | after_commit | exact Hs5 | exact Hgood |].
  intros s6 Hs6 Hclosed.
  eapply (wp_bind_inv (concluded key cid s0)); [| by split | | | intros s' [Hf _]; by apply Hgood].
  - unfold audit. repeat keeps_step. apply concluded_audit.
  - intros [] s7 Hs7. wp_step; [by apply Hgood, Hs7 | | by apply Herr, Hs7].
    apply wp_ret. right. split; [apply Hs7 |]. intros o [= <-]. split; [exact Hs7 | done].
  - intros e s' [Hf _]. by apply Herr.
Qed.
(** ** The error path *)

(** The capture is given up: what it did is confined to its own rows, no checkpoint of
    it is available, and its scope is free. *)
Definition abandoned (key : string) (cid : Id) (s0 s : Store) : Prop :=
  tracked "capture" key cid s /\ confined key cid s0 s /\ withdrawn key cid s.

Definition capture_failed (key : string) (cid : Id) (s0 s : Store) : Prop :=
  abandoned key cid s0 s /\ closed key "FAILED" s.

Lemma abandoned_preserves {A} key cid s0 (op : Tx A) :
  @statement hex_codec fixed_policy_codec A op -> evolving key op -> preserves recoverable op ->
  confining key cid op ->
  (forall s a s', op s = Ok (a, s') -> st_checkpoints s' = st_checkpoints s /\ st_journal s' = st_journal s) ->
  preserves (abandoned key cid s0) op.
Proof.
  intros Hst Hev Hrec Hcf Hop. apply preserves_and; [by apply tracked_preserves |].
  apply preserves_and; [by apply confining_preserves | by apply withdrawn_preserves].
Qed.

Local Ltac abandon :=
  intros; apply abandoned_preserves;
    [constructor | auto with fabric.. |
     intros ??? Hr; first [exact (checkpoints_finish _ _ _ _ _ _ _ _ Hr) |
       exact (checkpoints_release _ _ _ _ Hr) | exact (checkpoints_audit _ _ _ _ _ _ _ _ _ _ Hr)]].

Lemma staged_fails key cid s0 s r :
  staged key cid s0 s -> st_checkpoints s !! cid = Some r ->
  exists s', checkpoint_set_lifecycle cid Failed Pending s = Ok (tt, s') /\ abandoned key cid s0 s'.
Proof.
  intros (Ht & Hcf & Hc & Hp) Hr. destruct (set_lifecycle_runs cid Failed Pending r s Hr) as (s' & E & Ej & r' & Hr' & Hl & _).
  exists s'. split; [exact E |]. split; [| split; [| split]].
  - apply (tracked_preserves "capture" key cid (checkpoint_set_lifecycle cid Failed Pending)) with (a := tt) (s := s);
      [constructor | auto with fabric | apply recoverable_set_lifecycle | exact E | exact Ht].
  - apply (confining_preserves key cid s0 (checkpoint_set_lifecycle cid Failed Pending)) with (a := tt) (s := s);
      [auto with fabric | exact E | exact Hcf].
  - unfold capture_committed, journal_contains in *. by rewrite Ej.
  - intros x Hx. congruence.
Qed.

(** The first two node calls of the abort change nothing. *)
Lemma wp_abort_capture key cid wid detail ctx Q C s :
  C s ->
  wp ((found ← db (fun _ => checkpoint_get cid);
       match found with
       | Some ck =>
           when (negb (capture_committed key s) && pending (ck_lifecycle ck))
             (db (fun _ => checkpoint_set_lifecycle cid Failed Pending))
       | None => mret tt
       end) ;;
      db (fun now => attempt_finish now key (if capture_committed key s then "COMMITTED" else "FAILED")
                       (if capture_committed key s then Some "capture committed before later failure" else None)
                       (if capture_committed key s then None else Some detail)) ;;
      db (fun _ => reservation_release key) ;;
      audit ctx "capture.aborted" (Some wid) (Some cid) AuditFailed detail) Q C s ->
  wp (abort_capture_attempt self key (Some cid) wid detail ctx) Q C s.
Proof.
  intros HC Hrest. unfold abort_capture_attempt. wp_step; [exact HC |]. rewrite journal_has_answers.
  fold (capture_committed key s). cbv beta iota. wp_step; [exact HC |]. rewrite attempt_get_answers.
  cbv beta iota.
  destruct (st_attempts s !! key) as [att |]; [| apply wp_bind, wp_ret; exact Hrest].
  apply wp_bind, wp_bind, wp_ignore, wp_call_node; [exact HC |]. intros _.
  apply wp_ignore, wp_call_node; [exact HC |]. intros _. exact Hrest.
Qed.

(** The abort of a capture before its commit... *)
Lemma abort_capture_staged key cid s0 wid detail ctx s :
  staged key cid s0 s ->
  wp (abort_capture_attempt self key (Some cid) wid detail ctx)
    (fun _ s' => capture_failed key cid s0 s') good s.
Proof.
  intros Hs. apply wp_abort_capture; [apply Hs |].
  replace (capture_committed key s) with false by (symmetry; apply Hs). cbn [negb andb].
  assert (Hend : forall s', abandoned key cid s0 s' ->
    wp (db (fun now => attempt_finish now key "FAILED" None (Some detail)) ;;
        db (fun _ => reservation_release key) ;;
        audit ctx "capture.aborted" (Some wid) (Some cid) AuditFailed detail)
      (fun _ s' => capture_failed key cid s0 s') good s').
  { intros s' Hs'. apply (wp_closing (abandoned key cid s0)); [abandon | abandon | exact Hs' | by intros x [[Hx _] _] |].
    intros s'' Hs'' Hc. apply (wp_inv (capture_failed key cid s0)); [| by split | done | by intros x [[[Hx _] _] _]].
    unfold audit. repeat keeps_step. apply preserves_and; [abandon | auto with fabric]. }
  apply wp_bind. wp_step; [apply Hs |]. destruct (checkpoint_get_answers cid s) as (o & -> & Ho & _). cbv beta iota.
  destruct (st_checkpoints s !! cid) as [r |] eqn:Er; destruct o as [ck |]; try done.
  - injection Ho as Ho. assert (Hp : pending (ck_lifecycle ck) = true) by (rewrite Ho; by apply Hs).
    rewrite Hp. cbn [when]. wp_step; [apply Hs |].
    destruct (staged_fails key cid s0 s r Hs Er) as (s' & -> & Hs'). cbv beta iota. by apply Hend.
  - apply wp_ret, Hend. destruct Hs as (Ht & Hcf & Hc & _). split; [exact Ht |]. split; [exact Hcf |].
    split; [exact Hc |]. intros r Hr. congruence.
Qed.

(** ... and after it. *)
Lemma abort_capture_finished key cid s0 wid detail ctx s :
  finished key cid s0 s ->
  wp (abort_capture_attempt self key (Some cid) wid detail ctx)
    (fun _ s' => concluded key cid s0 s') good s.
Proof.
  intros Hs. pose proof (fun s' (Hf : finished key cid s0 s') => proj1 (proj1 Hf)) as Hgood.
  apply wp_abort_capture; [by apply Hgood |].
  assert (Hc : capture_committed key s = true) by (by destruct Hs as (_ & ? & ? & ? & _ & _ & _ & [Hc _])).
  rewrite Hc. cbn [negb andb].
  apply wp_bind. wp_step; [by apply Hgood |]. destruct (checkpoint_get_answers cid s) as (o & -> & _). cbv beta iota.
  assert (Hw : forall m : M World unit, m = mret tt -> wp m (fun r s' => r = Ok tt /\ s' = s) good s)
    by (intros m ->; by apply wp_ret).
  eapply wp_conseq; [apply Hw; by destruct o | | done]. intros r s' [-> ->].
  apply (wp_closing (finished key cid s0)); [intros; after_commit | after_commit | exact Hs | exact Hgood |].
  intros s'' Hs'' Hclosed.
  apply (wp_inv (concluded key cid s0)); [| by split | done | intros x [Hx _]; by apply Hgood].
  unfold audit. repeat keeps_step. apply concluded_audit.
Qed.
(** ** The whole request *)

Lemma reserve_capture_spec wid options ctx s :
  good s -> fresh_ids s ->
  wp (reserve_capture_attempt self wid options ctx)
    (fun r s' => match r with
                 | Ok st => staged (cs_attempt_id st) (cs_checkpoint_id st) s s'
                 | Err _ => s' = s
                 end) good s.
Proof.
  intros Hg Hf. unfold reserve_capture_attempt, authorize_for.
  looks. looks. looks. looks. looks. looks. looks. looks. looks. looks. looks.
  apply wp_bind, wp_random; [exact Hg |]. intros t. specialize (Hf t).
  apply wp_begin; try done. intros s' Ht Hcf Ec Ej. apply wp_ret. cbn. split; [exact Ht |].
  split; [exact Hcf |]. split; [by apply Ej |]. rewrite Ec. intros r Hr. congruence.
Qed.

(** The ends of a capture: refused before it began, failed with nothing to show, or
    committed and answered or not. *)
Inductive capture_end (s : Store) : FabricResult OperationOutcome -> Store -> Prop :=
| end_refused e : capture_end s (Err e) s
| end_failed key cid e s' : capture_failed key cid s s' -> capture_end s (Err e) s'
| end_committed key cid e s' : concluded key cid s s' -> capture_end s (Err e) s'
| end_answered key cid o s' : concluded key cid s s' -> answers key cid o -> capture_end s (Ok o) s'.

Lemma request_capture_spec wid options ctx s :
  good s -> fresh_ids s -> wp (request_capture self wid options ctx) (capture_end s) good s.
Proof.
  intros Hg Hf. unfold request_capture. apply wp_bind.
  eapply wp_conseq; [by apply reserve_capture_spec | | done]. intros [st | e] s1; [| intros ->; constructor].
  destruct st as [workload node key cid generation]. cbn. intros Hs.
  apply wp_on_error. unfold execute_capture. apply wp_bind.
  assert (Habort : forall e s', staged key cid s s' ->
    wp (abort_capture_attempt self key (Some cid) wid ("capture failed: " +:+ display e) ctx)
      (fun _ => capture_end s (Err e)) good s').
  { intros e s' Hs'. eapply wp_conseq; [by apply abort_capture_staged | | done].
    intros r s'' Hend. exact (end_failed s key cid e s'' Hend). }
  eapply wp_conseq; [by apply capture_persist_spec | | done]. intros [resumability | e] s2 [Hst Hok].
  2: by apply Habort.
  eapply wp_conseq; [apply capture_finish_spec; by eapply Hok | | done].
  intros r s3 [(e & -> & Hs3) | [Hs3 Ho]]; [by apply Habort, staging_staged |].
  destruct r as [o | e].
  - destruct (Ho o eq_refl) as [Hc Ha]. exact (end_answered s key cid o s3 Hc Ha).
  - eapply wp_conseq; [by apply abort_capture_finished | | done]. intros r' s4 Hend. exact (end_committed s key cid e s4 Hend).
Qed.
End capture.

(** * Properties *)

(** C6 (safety). A capture is all or nothing.  From a good store in which no drawn
    identity is in use, whatever the nodes answer and whichever failpoints fire, a
    request is refused and nothing changes; or it fails, and then it changed only the
    rows of its own attempt and checkpoint, its attempt is FAILED, its scope is free,
    no commit is recorded and its checkpoint, if there is a row, is FAILED; or it
    commits, in one transaction between changes to its own rows, and then its attempt
    is COMMITTED, its scope is free and its checkpoint is available and valid, also
    when the request reports a later error.  It answers with an outcome only after
    the commit.  If the process stops anywhere, the store is good, and the next
    recovery ends every attempt. *)
Theorem capture_all_or_nothing `{Env, !Quiet, NodeRpc, NodeTexts, HexCodec, Sha256, ManifestCodec}
    (self : CoordinatorInner) (wid : Id) (options : CaptureOptions) (ctx : OperationContext) (s : Store) :
  good s -> fresh_ids s ->
  wp (request_capture self wid options ctx) (capture_end s)
    (fun s' => good s' /\ forall rctx,
       wp (reconcile rctx) (fun r s'' => exists out, r = Ok out /\ run_settled s' out s'') sound_store s') s.
Proof.
  intros Hg Hf. eapply wp_conseq; [by apply request_capture_spec | done |].
  intros s' Hs'. split; [exact Hs' |]. intros rctx.
  eapply wp_conseq; [apply reconcile_completes, Hs' | | done].
  intros r s'' [(out & Hr & _ & Hset) _]. by exists out.
Qed.

Example capture_all_or_nothing_witness :
  good scenario_store /\
  @wp OperationOutcome (@request_capture stopping_env obedient_nodes scenario_texts hex_codec plain_sha256
        attempt_codec scenario_coordinator Scenario.wid CaptureOptions_default everyone)
    (capture_end scenario_store)
    (fun s' => good s' /\ forall rctx,
       wp (@reconcile stopping_env rctx) (fun r s'' => exists out, r = Ok out /\ run_settled s' out s'')
         sound_store s') scenario_store.
Proof.
  split; [exact scenario_good |].
  apply (@capture_all_or_nothing stopping_env (fun t s => eq_refl) obedient_nodes scenario_texts hex_codec
           plain_sha256 attempt_codec scenario_coordinator Scenario.wid CaptureOptions_default everyone scenario_store).
  - exact scenario_good.
  - intros t. vm_compute. reflexivity.
Defined.
