(* ===== verification/EndToEnd.v ===== *)
(** A capture and a restore from the coordinator to the disk and the providers of a node:
    [request_capture] and [request_restore] of [src/src/coordinator.rs] with [do_capture],
    [do_promote], [do_verify] and [do_restore] of [src/src/node.rs].  What the coordinator
    answers, what its row says, what the nodes have on disk and what their providers gave
    and got agree.  At the end, a cluster of one modelled node that captures and restores. *)
From S2P Require Import Prelude Errors Ident Lifecycle Checkpoint Workload Compression Policy Compat.
From S2P Require Import Capture Json Restore Lineage Failpoints Tables Persist Schema StoreFacts Fencing Commit.
From S2P Require Import World Manifest Messages Recovery RecoveryFacts Attempts Footprint Lifetime Coordinator Steps Scenario CaptureFacts Serial.
From S2P Require Import Maintenance Dispatch Frame Fs Integrity Storage Providers Node NodeFacts Stored NodeSafety Delivery.
From Stdlib Require Import Strings.Byte.

(** * The digest of a row *)

(** The row of the checkpoint names the manifest with this digest. *)
Definition digest_in (cid : Id) (d : string) (s : Store) : Prop :=
  exists r, st_checkpoints s !! cid = Some r /\ ck_manifest_digest r = Some d.

Lemma digest_alter cid d id f (m : gmap Id CheckpointObject) :
  (forall r, ck_manifest_digest (f r) = ck_manifest_digest r) ->
  (exists r, m !! cid = Some r /\ ck_manifest_digest r = Some d) ->
  exists r, alter f id m !! cid = Some r /\ ck_manifest_digest r = Some d.
Proof.
  intros Hf (r & Hr & Hd). destruct (decide (cid = id)) as [-> | Hne].
  - exists (f r). by rewrite lookup_alter_eq, Hr, Hf.
  - exists r. by rewrite lookup_alter_ne.
Qed.

Lemma keeps_digest_same {A} cid d (op : Tx A) :
  (forall s a s', op s = Ok (a, s') -> st_checkpoints s' = st_checkpoints s) -> preserves (digest_in cid d) op.
Proof. intros Hop s a s' Hr. unfold digest_in. by rewrite (Hop s a s' Hr). Qed.

#[local] Transparent attempt_finish reservation_release audit_append journal_append checkpoint_add_location capture_commit checkpoint_update.

Lemma keeps_digest_finish cid d now k t r e : preserves (digest_in cid d) (attempt_finish now k t r e).
Proof. apply keeps_digest_same. intros s a s' Hr. by run_op Hr. Qed.
Lemma keeps_digest_release cid d k : preserves (digest_in cid d) (reservation_release k).
Proof. apply keeps_digest_same. intros s a s' Hr. by run_op Hr. Qed.
Lemma keeps_digest_audit cid d now a o w c r t : preserves (digest_in cid d) (audit_append now a o w c r t).
Proof. apply keeps_digest_same. intros s x s' Hr. by run_op Hr. Qed.
Lemma keeps_digest_journal cid d now k y t x : preserves (digest_in cid d) (journal_append now k y t x).
Proof.
  apply keeps_digest_same. intros s a s' Hr. run_op Hr. unfold journal_insert. by destruct (existsb _ _).
Qed.
Lemma keeps_digest_location cid d i l : preserves (digest_in cid d) (checkpoint_add_location i l).
Proof. intros s a s' Hr Hd. run_op Hr; unfold digest_in; cbn; (apply digest_alter; [done | exact Hd]). Qed.
Lemma keeps_digest_commit cid d now i k : preserves (digest_in cid d) (capture_commit now i k).
Proof.
  intros s a s' (row & w & _ & ->)%capture_commit_Ok (r & Hr & Hd). unfold digest_in.
  rewrite capture_writes_checkpoints, link_checkpoint_lookup, Hr. cbn. eexists. split; [reflexivity |].
  by repeat case_bool_decide.
Qed.

(** The update of a row puts the digest of the object there. *)
Lemma updated_digest c d s u s' :
  checkpoint_update c s = Ok (u, s') -> ck_manifest_digest c = Some d -> digest_in (ck_checkpoint_id c) d s'.
Proof. intros Hr Hd. run_op Hr; eexists; cbn; (split; [by rewrite lookup_insert_eq | exact Hd]). Qed.

#[local] Hint Resolve keeps_digest_finish keeps_digest_release keeps_digest_audit keeps_digest_journal
  keeps_digest_location keeps_digest_commit : fabric.

#[local] Opaque attempt_finish reservation_release audit_append journal_append checkpoint_add_location capture_commit
  checkpoint_update.

(** * The coordinator's side *)

Section coordinator.
Context `{Env, !Quiet, NodeRpc, NodeTexts, HexCodec, Sha256, ManifestCodec}.
Context (self : CoordinatorInner).

Lemma wp_any {A} (m : M World A) s : wp m (fun _ _ => True) (fun _ => True) s.
Proof. intros t armed. by destruct (m _) as [[a | e |] w]. Qed.

(** Of a first part nothing need be known. *)
Lemma wp_after {A B} (m : M World A) (k : A -> M World B) (Q : FabricResult B -> Store -> Prop) s :
  (forall a s', wp (k a) Q (fun _ => True) s') -> (forall e s', Q (Err e) s') -> wp (m ≫= k) Q (fun _ => True) s.
Proof.
  intros Hk HE. apply wp_bind. eapply wp_conseq; [apply wp_any | | done]. intros [a | e] s' _; [apply Hk | apply HE].
Qed.

(** The answer of a node is one it gave at some moment. *)
Lemma wp_node_answer {Req Resp} (send : nat -> string -> Req -> FabricResult Resp) n p (Q : FabricResult Resp -> Store -> Prop) s :
  (forall e s', Q (Err e) s') -> (forall t a s', send t n p = Ok a -> Q (Ok a) s') ->
  wp (call_node send n p) Q (fun _ => True) s.
Proof.
  intros HE HQ. unfold call_node. apply wp_after; [intros addr s1 | apply HE].
  apply wp_bind, wp_event; [done |]. intros t. apply wp_lift. destruct (send t n p) as [a | e] eqn:E; [by eapply HQ | apply HE].
Qed.

Lemma wp_and {A} (m : M World A) Q1 Q2 C1 C2 s :
  wp m Q1 C1 s -> wp m Q2 C2 s -> wp m (fun r s' => Q1 r s' /\ Q2 r s') (fun s' => C1 s' /\ C2 s') s.
Proof. intros Ha Hb t armed. specialize (Ha t armed). specialize (Hb t armed). by destruct (m _) as [[a | e |] w]. Qed.

(** What the nodes were asked and have answered when a capture is durable. *)
Record evidence (wid : Id) (options : CaptureOptions) (node key : string) (cid : Id)
    (creq : NodeCaptureRequest) (cres : NodeCaptureResult) (preq : NodePromoteRequest) (pres : NodePromoteResult)
    (m : Manifest) : Prop := {
  ev_captured : exists t, node_capture t node creq = Ok cres;
  ev_capture_ok : ncr_ok cres = true;
  ev_promoted : exists t, node_promote t node preq = Ok pres;
  ev_promote_ok : nmr_ok pres = true;
  ev_capture_of : ncq_attempt_id creq = key /\ ncq_checkpoint_id creq = cid /\ ncq_workload_id creq = wid /\
    ncq_quiescence creq = co_quiescence options /\ ncq_components creq = co_components options /\
    ncq_compression creq = compression_spec (ci_policy self) /\ ncq_coordinator_epoch creq = ci_epoch self;
  ev_promote_of : nmq_attempt_id preq = key /\ nmq_checkpoint_id preq = cid /\ nmq_coordinator_epoch preq = ci_epoch self;
  ev_complete : validate_component_completeness (co_components options) (ncr_components cres) = Ok tt;
  ev_sealed : nmq_manifest_bytes preq = sm_canonical_bytes (seal m) /\ nmq_digest preq = sm_digest (seal m) /\
    nmq_integrity_root preq = sm_integrity_root (seal m);
  ev_manifest : mf_format_version m = MANIFEST_FORMAT_VERSION /\ mf_checkpoint_id m = cid /\ mf_workload_id m = wid /\
    mf_capture_attempt m = key /\ mf_components m = ncr_components cres
}.

(** The evidence, and the row that names the manifest. *)
Definition backed (wid : Id) (options : CaptureOptions) (node key : string) (cid : Id) (s : Store) : Prop :=
  exists creq cres preq pres m, evidence wid options node key cid creq cres preq pres m /\
    digest_in cid (sha256_hex (nmq_manifest_bytes preq)) s.

Lemma capture_persist_backed workload node key cid generation requested options s :
  wp (capture_persist self workload node key cid generation requested options)
    (fun r s' => forall c, r = Ok c -> backed (w_workload_id workload) options node key cid s') (fun _ => True) s.
Proof.
  unfold capture_persist.
  apply wp_after; [intros created s1 | done]. apply wp_after; [intros [] s2 | done]. apply wp_after; [intros [] s3 | done].
  apply wp_bind, wp_node_answer; [done |]. intros t cres s4 Hcap.
  apply wp_bind, wp_lift. destruct (ncr_ok cres) eqn:Hcok; [| done]. cbn [negb reject_if].
  apply wp_bind, wp_lift. destruct (validate_component_completeness _ _) as [[] | e] eqn:Hcomp; [| done].
  apply wp_bind, wp_lift. destruct (enforce_consistency _ _) as [[] | e]; [| done].
  apply wp_after; [intros [] s5 | done]. apply wp_after; [intros [] s6 | done].
  apply wp_after; [intros [] s7 | done]. apply wp_after; [intros seal_ms s8 | done]. cbv zeta.
  match goal with |- context [seal ?x] => set (m := x) end.
  apply wp_after; [intros [] s9 | done]. apply wp_after; [intros [] s10 | done]. apply wp_after; [intros [] s11 | done].
  apply wp_after; [intros [] s12 | done]. apply wp_after; [intros [] s13 | done].
  apply wp_bind, wp_node_answer; [done |]. intros t' pres s14 Hpro.
  apply wp_bind, wp_lift. destruct (nmr_ok pres) eqn:Hpok; [| done]. cbn [negb reject_if].
  apply wp_bind, wp_db; [done |]. intros _.
  match goal with |- context [checkpoint_update ?x] => set (ckpt := x) end.
  destruct (checkpoint_update ckpt s14) as [[[] s15] | e] eqn:Eu; [| done].
  assert (Hd : digest_in cid (sm_digest (seal m)) s15) by exact (updated_digest ckpt _ s14 tt s15 Eu eq_refl).
  eapply wp_bind_inv; [| exact Hd | | done | done].
  { apply keeps_db; [by apply Quiet_Stable | intros now; apply keeps_digest_journal]. }
  intros [] s16 Hd'. apply wp_ret. intros c _.
  eexists _, cres, _, pres, m.
  split; [split; [exists t; exact Hcap | exact Hcok | exists t'; exact Hpro | exact Hpok | done..] | exact Hd'].
Qed.

(** What follows the commit leaves the digest alone. *)
Lemma keeps_digest_targets cid d targets ck : keeps (on_store (digest_in cid d)) (replicate_targets self cid targets ck).
Proof.
  revert ck. induction targets as [| t targets IH]; intros ck; cbn [replicate_targets]; repeat keeps_step; first [apply IH | eauto 3 with fabric keeps_db].
Qed.

Lemma keeps_digest_capture_finish workload node key cid resumability ctx d :
  keeps (on_store (digest_in cid d)) (capture_finish self workload node key cid resumability ctx).
Proof.
  unfold capture_finish, replicate_to_policy, audit. repeat keeps_step; first [apply keeps_digest_targets | eauto 3 with fabric keeps_db].
Qed.

Lemma capture_finish_outcome workload node key cid resumability ctx s :
  wp (capture_finish self workload node key cid resumability ctx)
    (fun r _ => forall o, r = Ok o -> oo_attempt_id o = key /\ oo_node o = Some node /\ oo_checkpoint_id o = Some cid) (fun _ => True) s.
Proof.
  unfold capture_finish. do 10 (apply wp_after; [intros ? ? | done]). apply wp_ret. by intros o [= <-].
Qed.

#[local] Transparent workload_get.

(** The reserved workload is the one that was asked for. *)
Lemma reserve_capture_workload wid options ctx s :
  schema_ok s ->
  wp (reserve_capture_attempt self wid options ctx)
    (fun r _ => forall st, r = Ok st -> w_workload_id (cs_workload st) = wid) (fun _ => True) s.
Proof.
  intros Hs. unfold reserve_capture_attempt, authorize_for. looks. looks.
  apply wp_bind, wp_db; [done |]. intros now.
  destruct (workload_get wid s) as [[found s1] | e] eqn:E; [| done].
  apply wp_bind, wp_lift. destruct found as [w |]; [| done]. cbn [ok_or].
  assert (Hw : w_workload_id w = wid).
  { injection E as E _. by apply (so_workloads s Hs). }
  do 11 (apply wp_after; [intros ? ? | done]). apply wp_ret. by intros st [= <-].
Qed.

(** What an answer of [request_capture] stands on. *)
Definition stands (wid : Id) (options : CaptureOptions) (o : OperationOutcome) (s : Store) : Prop :=
  exists node cid, oo_node o = Some node /\ oo_checkpoint_id o = Some cid /\
    backed wid options node (oo_attempt_id o) cid s.

Lemma request_capture_backed wid options ctx s :
  schema_ok s ->
  wp (request_capture self wid options ctx) (fun r s' => forall o, r = Ok o -> stands wid options o s') (fun _ => True) s.
Proof.
  intros Hs. unfold request_capture. apply wp_bind.
  eapply wp_conseq; [by apply reserve_capture_workload | | done]. intros [st | e] s1 Hst; [| done].
  specialize (Hst st eq_refl). apply wp_on_error.
  assert (Herr : forall e (m : M World unit) s', wp m (fun _ s'' => forall o, @Err OperationOutcome e = Ok o -> stands wid options o s'')
    (fun _ => True) s') by (intros; by eapply wp_conseq; [apply wp_any | |]).
  unfold execute_capture. apply wp_bind.
  eapply wp_conseq; [apply capture_persist_backed | | done]. intros [resumability | e] s2 Hb; [| apply Herr].
  specialize (Hb resumability eq_refl). rewrite Hst in Hb. destruct Hb as (creq & cres & preq & pres & m & Hev & Hd).
  eapply wp_conseq; [apply wp_and; [apply capture_finish_outcome |] | | done].
  - apply (wp_keeps _ _ (fun _ _ => True) _ (keeps_digest_capture_finish _ _ _ _ _ _ _) (wp_any _ _) Hd).
  - intros [o | e] s3 [Ho [_ Hd']]; [| apply Herr]. intros o' [= <-]. destruct (Ho o eq_refl) as (Hk & Hn & Hc).
    exists (cs_node st), (cs_checkpoint_id st). split; [exact Hn |]. split; [exact Hc |]. rewrite Hk.
    by exists creq, cres, preq, pres, m.
Qed.
End coordinator.

(** * The node's side *)

Section restorable.
Context {App : Type}.
Context `{DiskEnv, Crc32c, Sha256, HexCodec, Zstd, ManifestCodec, NodeTexts, PeerRpc}.

(** On a node that served these two requests, with any requests [between] them that do
    not name the staging area, whose providers stay out of this area and of the committed
    checkpoints, and where the names of the files are different, the checkpoint can be
    verified against the digest, after whatever later requests that do not remove it, and
    what is within [max_bytes] is read back. *)
Definition restorable (runtime : NodeRuntime) (creq : NodeCaptureRequest) (cres : NodeCaptureResult)
    (preq : NodePromoteRequest) (pres : NodePromoteResult) (digest : string) : Prop :=
  forall between later max_bytes (w w1 wm w2 w3 : NodeWorld (App := App)),
  hosted (staging_dir (nr_storage runtime) (ncq_attempt_id creq)) (nw_node w) ->
  hosted (checkpoints_dir (nr_storage runtime)) (nw_node w) ->
  node_handler runtime (NCapture creq) w = (Done (NRCapture cres), w1) ->
  distinct_names (segment_of <$> ncr_components cres) ->
  Forall (fun request => sanitize_segment (ncq_attempt_id creq) ∉ staging_names runtime request) between ->
  serve_all runtime between w1 = (Done tt, wm) ->
  node_handler runtime (NPromote preq) wm = (Done (NRPromote pres), w2) ->
  Forall (fun request => nmq_checkpoint_id preq ∉ removes request) later ->
  serve_all runtime later w2 = (Done tt, w3) ->
  (forall t, (dk_tick (aw_disk (nw_app w3)) <= t)%nat -> disk_outcome t = IoDone) ->
  (exists w4, node_handler runtime
     (NVerify (mkNodeVerifyRequest (nmq_checkpoint_id preq) digest (ns_coordinator_epoch (nw_node w3)))) w3 =
     (Done (NRVerify (mkNodeVerifyResult (nmq_checkpoint_id preq) true None (Some digest))), w4)) /\
  (is_u64 max_bytes -> forall c, c ∈ ncr_components cres ->
     sr_stored_size (ce_storage_representation c) <= max_bytes -> ce_logical_size c <= max_bytes ->
     exists payload d4, sha256_hex payload = ce_content_hash c /\ byte_len payload = ce_logical_size c /\
       read_component_payload (commit_dir (nr_storage runtime) (nmq_checkpoint_id preq)) (ce_storage_representation c)
         (ce_content_hash c) max_bytes (aw_disk (nw_app w3)) = (Done payload, d4)).

Lemma evidence_restorable self wid options node key cid creq cres preq pres m `{NodeRpc} runtime :
  HexLaws _ -> ZstdLaws _ -> (forall l, plain (sha256_hex l)) ->
  evidence self wid options node key cid creq cres preq pres m ->
  manifest_from_slice (manifest_to_vec (sm_manifest (seal m))) = Some (sm_manifest (seal m)) ->
  restorable runtime creq cres preq pres (sha256_hex (nmq_manifest_bytes preq)).
Proof.
  intros Hex Hz Hplain [_ Hcok _ Hpok (Hkey & _) (Hkey' & _) _ (Hbytes & _) (Hversion & _ & _ & _ & Hcomps)] Hread
    between later max_bytes w w1 wm w2 w3 Hh Hh0 Hc Hnames Hbetween Hserved Hp Hlater Hserve Hquiet.
  eapply (captured_verifies runtime creq cres between preq pres (nmq_manifest_bytes preq) (sm_manifest (seal m))); try done.
  - congruence.
  - apply parse_Ok. rewrite Hbytes. split; [exact Hread |]. split; [exact Hversion |]. apply manifest_root_set.
Qed.
End restorable.

(** * The coordinator's side of a restore *)

Section restore.
Context `{Env, !Quiet, NodeRpc, NodeTexts, HexCodec}.
Context (self : CoordinatorInner).

(** What the target was asked and has answered. *)
Record restore_evidence (target key : string) (row : CheckpointObject) (digest : string)
    (rreq : NodeRestoreRequest) (rres : NodeRestoreResult) : Prop := {
  re_restored : exists t, node_restore t target rreq = Ok rres;
  re_restore_ok : nrr_ok rres = true;
  re_restore_of : nrq_attempt_id rreq = key /\ nrq_checkpoint_id rreq = ck_checkpoint_id row /\
    nrq_workload_id rreq = ck_workload_id row /\ nrq_coordinator_epoch rreq = ci_epoch self;
  re_anchor : ck_manifest_digest row = Some digest /\ nrq_expected_manifest_digest rreq = digest
}.

Lemma restore_components_evidence ckpt target key s :
  wp (restore_components self ckpt target key)
    (fun r _ => r = Ok tt -> exists digest rreq rres, restore_evidence target key ckpt digest rreq rres) (fun _ => True) s.
Proof.
  unfold restore_components. do 5 (apply wp_after; [intros ? ? | done]).
  apply wp_bind, wp_lift. destruct (ck_manifest_digest ckpt) as [digest |] eqn:Ed; [| done]. cbn [ok_or].
  apply wp_bind, wp_node_answer; [done |]. intros t rres s1 Hres.
  apply wp_bind, wp_lift. destruct (nrr_ok rres) eqn:Hok; [| done]. cbn [negb reject_if].
  eapply wp_conseq; [apply wp_any | | done]. intros r s2 _ _.
  eexists digest, _, rres. split; [by exists t | done | done | done].
Qed.

Lemma restore_finish_outcome ckpt target key options verdict ctx s :
  wp (restore_finish self ckpt target key options verdict ctx)
    (fun r _ => forall o, r = Ok o ->
       oo_attempt_id o = key /\ oo_node o = Some target /\ oo_checkpoint_id o = Some (ck_checkpoint_id ckpt)) (fun _ => True) s.
Proof.
  unfold restore_finish. do 7 (apply wp_after; [intros ? ? | done]).
  match goal with |- wp (let '(_, _) := ?p in _) _ _ _ => destruct p as [resumed resume_error] end.
  do 5 (apply wp_after; [intros ? ? | done]). apply wp_ret. by intros o [= <-].
Qed.

(** The admitted checkpoint is its row. *)
Lemma admit_restore_row cid target options ctx s :
  schema_ok s ->
  wp (admit_restore self cid target options ctx)
    (fun r _ => forall a, r = Ok a -> exists row, st_checkpoints s !! cid = Some row /\ fst a = read_checkpoint s row /\
       ck_checkpoint_id row = cid) (fun _ => True) s.
Proof.
  intros Hs. unfold admit_restore, authorize_for, node_is_active.
  looks. looks. looks. looks. looks. looks.
  apply wp_bind, wp_db; [done |]. intros now.
  destruct (checkpoint_get cid s) as [[found s1] | e] eqn:E; [| done].
  apply wp_bind, wp_lift. destruct found as [ckpt |]; [| done]. cbn [ok_or].
  assert (Hw : exists row, st_checkpoints s !! cid = Some row /\ ckpt = read_checkpoint s row /\ ck_checkpoint_id row = cid).
  { injection E as E _. destruct (st_checkpoints s !! cid) as [row |] eqn:Er; [| done]. injection E as <-.
    exists row. split; [done |]. split; [done |]. by apply (so_checkpoints s Hs). }
  do 10 (apply wp_after; [intros ? ? | done]). apply wp_ret. by intros admitted [= <-].
Qed.

Lemma request_restore_evidence cid target options ctx s :
  schema_ok s ->
  wp (request_restore self cid target options ctx)
    (fun r _ => forall o, r = Ok o -> oo_node o = Some target /\ oo_checkpoint_id o = Some cid /\
       exists row digest rreq rres, st_checkpoints s !! cid = Some row /\ ck_checkpoint_id row = cid /\
         restore_evidence target (oo_attempt_id o) row digest rreq rres) (fun _ => True) s.
Proof.
  intros Hs. unfold request_restore. apply wp_bind.
  eapply wp_conseq; [by apply admit_restore_row | | done]. intros [[ckpt verdict] | e] s1 Hrow; [| done].
  destruct (Hrow _ eq_refl) as (row & Hr & Hc & Hid). cbn [fst snd] in *. apply wp_after; [intros key s2 | done].
  apply wp_on_error. unfold execute_restore. set (Q := fun r s' => _).
  assert (Herr : forall e s', Q (Err e) s') by (intros; by eapply wp_conseq; [apply wp_any | |]).
  apply wp_bind. eapply wp_conseq; [apply restore_components_evidence | | done]. intros [[] | e] s3 Hev; [| apply Herr].
  destruct (Hev eq_refl) as (digest & rreq & rres & Hev').
  eapply wp_conseq; [apply restore_finish_outcome | | done]. intros [o | e] s4 Ho; [| apply Herr].
  intros o' [= <-]. destruct (Ho o eq_refl) as (Hk & Hn & Hcid). rewrite Hk, Hn, Hcid, Hc. split; [done |].
  split; [cbn; by rewrite Hid |]. exists row, digest, rreq, rres. split; [exact Hr |]. split; [exact Hid |].
  rewrite Hc in Hev'. destruct Hev' as [? ? ? ?]. by split.
Qed.
End restore.

(** * Property *)

(** C8 (functional). The answer to a capture is backed by a checkpoint that can be
    restored.  From a good store, whatever the nodes answer, whichever failpoints fire
    and wherever the process stops: when [request_capture] answers, the row of the
    checkpoint it names is available and valid and holds a digest, and the node it names
    answered a capture and a promotion of this very attempt, of the components asked for,
    with the manifest of that digest.

    If what answered is the modelled node, with any peers and disk, the checkpoint is then
    [restorable], under these conditions.  On the node: its providers change nothing in
    the staging area of the attempt nor among the committed checkpoints ([hosted]); the
    file names of the captured components and of their checksums are all different
    ([distinct_names], without which it is false: [sidecar_names_collide]); and between
    the two requests it served only requests that do not name the staging area.  Then,
    after any later requests of which none removes the checkpoint, once the disk answers,
    a verification under the epoch of the node and against the digest of the row succeeds,
    and every component whose stored and whose original size are within a limit is read
    back under this limit, with its length and hash.  Of SHA-256 this uses only the form
    of its result, of Zstandard and of the hexadecimal form of an identity that they are
    read back, of JSON that the sealed manifest is. *)
Theorem answered_capture_is_restorable {App : Type}
    `{Env, !Quiet, NodeRpc, NodeTexts, HexCodec, Sha256, ManifestCodec, DiskEnv, Crc32c, Zstd, PeerRpc}
    (self : CoordinatorInner) (wid : Id) (options : CaptureOptions) (ctx : OperationContext) (s : Store) :
  good s -> fresh_ids s -> HexLaws _ -> ZstdLaws _ -> (forall l, plain (sha256_hex l)) ->
  wp (request_capture self wid options ctx)
    (fun r s' => forall o, r = Ok o -> exists node cid row digest,
       oo_node o = Some node /\ oo_checkpoint_id o = Some cid /\
       st_checkpoints s' !! cid = Some row /\ ck_lifecycle row = Available /\ ck_integrity_state row = Valid /\
       ck_manifest_digest row = Some digest /\
       exists creq cres preq pres m,
         evidence self wid options node (oo_attempt_id o) cid creq cres preq pres m /\
         sha256_hex (nmq_manifest_bytes preq) = digest /\
         (manifest_from_slice (manifest_to_vec (sm_manifest (seal m))) = Some (sm_manifest (seal m)) ->
          forall runtime, restorable (App := App) runtime creq cres preq pres digest))
    (fun _ => True) s.
Proof.
  intros Hg Hf Hex Hz Hplain.
  eapply wp_conseq; [apply wp_and; [by apply request_capture_spec | apply request_capture_backed, Hg] | | done].
  intros r s' [Hend Hb] o ->. inversion Hend as [| | | key cid o' s'' Hc (Hkey & Hcid & _)]; subst.
  destruct (Hb o eq_refl) as (node & cid' & Hn & Hcid' & creq & cres & preq & pres & m & Hev & row & Hrow & Hd).
  assert (cid' = cid) as -> by congruence.
  destruct Hc as [(_ & ? & ? & ? & _ & _ & _ & _ & row' & Hrow' & Hl & Hi) _].
  assert (row' = row) as -> by congruence.
  exists node, cid, row, (sha256_hex (nmq_manifest_bytes preq)). split_and!; try done.
  exists creq, cres, preq, pres, m. split; [exact Hev |]. split; [done |].
  intros Hread runtime. by eapply evidence_restorable.
Qed.

(** ** A cluster of one modelled node *)

(** The nodes of the scenario, with a provider of the restore handler ["app"]. *)
Definition provider_texts : NodeTexts :=
  {| texts_json :=
       {| json_parse := @json_parse (@texts_json scenario_texts); json_print := @json_print (@texts_json scenario_texts);
          json_to_runtime := fun _ => Some ((local_default "linux" "x86_64" "1") <| rt_provider_versions := {[ "app" := "1" ]} |>);
          json_of_runtime := @json_of_runtime (@texts_json scenario_texts);
          json_of_hardware := @json_of_hardware (@texts_json scenario_texts) |};
     parse_socket_addr := fun a => Some a |}.

#[local] Existing Instances still_env hex_codec checksum_sha256 serial_codec calm_disk castagnoli identity_zstd
  provider_texts silent_peer.

Definition one_component : list CaptureComponentRequest :=
  [mkCaptureComponentRequest "x" ApplicationState true 1 "app"].
Definition capture_x : CaptureOptions := mkCaptureOptions None NoQuiescence None None one_component "{}".

Definition reply_of (answer : outcome NodeReply * NodeWorld (App := list byte)) : FabricResult NodeReply :=
  match answer.1 with Done r => Ok r | Raise e => Err e | Crash => Err (Internal "connection reset") end.

Definition drawn_id : Id := id_splat Byte.x50.
Definition asked_of_x (attempt_id : string) : NodeCaptureRequest :=
  {| ncq_attempt_id := attempt_id; ncq_checkpoint_id := drawn_id; ncq_workload_id := Scenario.wid;
     ncq_checkpoint_generation := 1; ncq_consistency := CrashConsistent; ncq_quiescence := NoQuiescence;
     ncq_components := one_component; ncq_compression := compression_spec PolicySet_default;
     ncq_coordinator_epoch := 1 |}.

(** The node after the capture that a promotion is about. *)
Definition staged_world (attempt_id : string) : NodeWorld :=
  (node_handler a_node (NCapture (asked_of_x attempt_id)) (a_world ["x"])).2.

Definition modelled_nodes : NodeRpc :=
  {| node_capture := fun _ _ q =>
       match reply_of (node_handler a_node (NCapture q) (a_world ["x"])) with
       | Ok (NRCapture res) => Ok res | Ok _ => Err (Internal "reply") | Err e => Err e end;
     node_promote := fun _ _ q =>
       match reply_of (node_handler a_node (NPromote q) (staged_world (nmq_attempt_id q))) with
       | Ok (NRPromote res) => Ok res | Ok _ => Err (Internal "reply") | Err e => Err e end;
     node_resume := @node_resume obedient_nodes; node_restore := @node_restore obedient_nodes;
     node_probe := @node_probe obedient_nodes; node_verify := @node_verify obedient_nodes;
     node_cleanup := @node_cleanup obedient_nodes; node_replicate := @node_replicate obedient_nodes;
     node_allow_fetch := @node_allow_fetch obedient_nodes |}.
#[local] Existing Instance modelled_nodes.

Definition capture_run : outcome OperationOutcome * World :=
  request_capture scenario_coordinator Scenario.wid capture_x everyone (scenario_world scenario_store).

Example capture_run_answers : reported_state capture_run = "AVAILABLE".
Proof. vm_compute. reflexivity. Qed.

Definition run_outcome : OperationOutcome :=
  match capture_run.1 with Done o => o | _ => mkOperationOutcome "" None None None "" None None None None None end.

Lemma capture_run_done : capture_run = (Done run_outcome, capture_run.2).
Proof. apply pair_of. vm_compute. reflexivity. Qed.

(** The node does the same for every request that the evidence describes. *)
Lemma asked_capture_runs creq cres :
  (exists t, node_capture t "n1" creq = Ok cres) ->
  node_handler a_node (NCapture creq) (a_world ["x"]) =
    (Done (NRCapture cres), (node_handler a_node (NCapture creq) (a_world ["x"])).2).
Proof.
  intros [t Ht]. apply pair_of. cbn in Ht. unfold reply_of in Ht.
  destruct (node_handler _ _ _).1 as [[] | |]; congruence.
Qed.

Lemma asked_promotion_runs preq pres :
  (exists t, node_promote t "n1" preq = Ok pres) ->
  node_handler a_node (NPromote preq) (staged_world (nmq_attempt_id preq)) =
    (Done (NRPromote pres), (node_handler a_node (NPromote preq) (staged_world (nmq_attempt_id preq))).2).
Proof.
  intros [t Ht]. apply pair_of. cbn in Ht. unfold reply_of in Ht.
  destruct (node_handler _ _ _).1 as [[] | |]; congruence.
Qed.

Definition asked_for (key : string) (cid : Id) (creq : NodeCaptureRequest) : Prop :=
  ncq_attempt_id creq = key /\ ncq_checkpoint_id creq = cid /\ ncq_workload_id creq = Scenario.wid /\
    ncq_quiescence creq = co_quiescence capture_x /\ ncq_components creq = co_components capture_x /\
    ncq_compression creq = compression_spec (ci_policy scenario_coordinator) /\
    ncq_coordinator_epoch creq = ci_epoch scenario_coordinator.

Lemma asked_staged key cid creq :
  asked_for key cid creq ->
  (node_handler a_node (NCapture creq) (a_world ["x"])).2 = staged_world key.
Proof.
  intros Hreq. destruct creq. unfold asked_for in Hreq. cbn in Hreq. destruct Hreq as (-> & -> & -> & -> & -> & -> & ->). reflexivity.
Qed.

Lemma asked_capture key cid creq t :
  asked_for key cid creq -> node_capture t "n1" creq = node_capture t "n1" (asked_of_x key).
Proof.
  intros Hreq. destruct creq. unfold asked_for in Hreq. cbn in Hreq. by destruct Hreq as (-> & -> & -> & -> & -> & -> & ->).
Qed.

(** The capture of the run names its files apart. *)
Definition named_apart (answer : FabricResult NodeCaptureResult) : bool :=
  match answer with Ok res => bool_decide (distinct_names (segment_of <$> ncr_components res)) | Err _ => false end.

Lemma run_named_apart t : named_apart (node_capture t "n1" (asked_of_x (oo_attempt_id run_outcome))) = true.
Proof. vm_compute. reflexivity. Qed.

Lemma asked_names cid creq cres :
  asked_for (oo_attempt_id run_outcome) cid creq -> (exists t, node_capture t "n1" creq = Ok cres) ->
  distinct_names (segment_of <$> ncr_components cres).
Proof.
  intros Hof [t Ht]. rewrite (asked_capture _ _ _ _ Hof) in Ht. pose proof (run_named_apart t) as Hn.
  rewrite Ht in Hn. by apply bool_decide_eq_true in Hn.
Qed.

Lemma run_outcome_node : oo_node run_outcome = Some "n1".
Proof. vm_compute. reflexivity. Qed.
Lemma run_outcome_id : oo_checkpoint_id run_outcome = Some drawn_id.
Proof. vm_compute. reflexivity. Qed.

Example answered_capture_is_restorable_witness :
  exists row digest (w2 w4 : NodeWorld (App := list byte)),
    capture_run.1 = Done run_outcome /\ st_checkpoints (wd_store capture_run.2) !! drawn_id = Some row /\
    ck_manifest_digest row = Some digest /\
    node_handler a_node (NVerify (mkNodeVerifyRequest drawn_id digest (ns_coordinator_epoch (nw_node w2)))) w2 =
      (Done (NRVerify (mkNodeVerifyResult drawn_id true None (Some digest))), w4).
Proof.
  pose proof (answered_capture_is_restorable (App := list byte) (H := still_env) (H0 := still_quiet) scenario_coordinator
    Scenario.wid capture_x everyone scenario_store scenario_good (fun t => eq_refl) hex_codec_laws identity_zstd_laws
    checksum_plain 0%nat ∅) as Hw.
  change (mkWorld scenario_store 0 ∅) with (scenario_world scenario_store) in Hw. fold capture_run in Hw.
  rewrite capture_run_done in Hw. destruct (Hw run_outcome eq_refl)
    as (node & cid & row & digest & Hn & Hcid & Hrow & _ & _ & Hd & creq & cres & preq & pres & m & Hev & _ & Hall).
  rewrite run_outcome_node in Hn. injection Hn as <-. rewrite run_outcome_id in Hcid. injection Hcid as <-.
  pose proof (ev_captured _ _ _ _ _ _ _ _ _ _ _ Hev) as Hcap.
  pose proof (ev_promoted _ _ _ _ _ _ _ _ _ _ _ Hev) as Hpro.
  pose proof (ev_capture_of _ _ _ _ _ _ _ _ _ _ _ Hev) as Hof.
  pose proof (ev_promote_of _ _ _ _ _ _ _ _ _ _ _ Hev) as (Hkey & Hpid & _).
  pose proof (asked_promotion_runs preq pres Hpro) as Hp. rewrite Hkey, <- (asked_staged _ _ _ Hof) in Hp.
  destruct (Hall (serial_codec_reads _) a_node [] [] 0 (a_world ["x"]) _ _ _ _ (a_node_hosted _ _) (a_node_hosted _ _)
    (asked_capture_runs creq cres Hcap) (asked_names _ _ _ Hof Hcap) (List.Forall_nil _) eq_refl Hp (List.Forall_nil _) eq_refl
    (fun _ _ => eq_refl)) as [[w4 Hv] _].
  rewrite Hpid in Hv. eexists row, digest, _, w4. split; [exact (f_equal fst capture_run_done) |]. split; [exact Hrow |]. split; [exact Hd |].
  exact Hv.
Defined.

(** ** The way back *)

(** C9 (safety). The answer to a restore is backed by what the providers were given, and
    that is what was captured.  From a good store, whatever the nodes answer, whichever
    failpoints fire and wherever the process stops: when [request_restore] answers, the
    target answered a restore of this very attempt and checkpoint, under the digest in
    the row of the checkpoint.  If what answered is the modelled node [B], in any state,
    with any peers, providers and disk, and the digest is that of a manifest which lists
    what the modelled node [A] reported as captured, then the providers of [B] were
    given, one after another, the very payloads the providers of [A] gave, and each of
    them confirmed it ([delivered]); otherwise two concrete inputs have the same SHA-256. *)
Theorem answered_restore_is_the_capture {AppA AppB : Type}
    `{Env, !Quiet, NodeRpc, NodeTexts, HexCodec, Sha256, ManifestCodec, Crc32c, Zstd}
    (diskA diskB : DiskEnv) (peersA peersB : PeerRpc)
    (self : CoordinatorInner) (cid : Id) (target : string) (options : RestoreOptions) (ctx : OperationContext) (s : Store) :
  good s ->
  wp (request_restore self cid target options ctx)
    (fun r _ => forall o, r = Ok o -> oo_node o = Some target /\ oo_checkpoint_id o = Some cid /\
       exists row digest rreq rres, st_checkpoints s !! cid = Some row /\ ck_checkpoint_id row = cid /\
         restore_evidence self target (oo_attempt_id o) row digest rreq rres /\
         forall A B creq cres bytes m (wa wa' : NodeWorld (App := AppA)) (wb wb' : NodeWorld (App := AppB)),
           node_handler (H := diskA) (H6 := peersA) A (NCapture creq) wa = (Done (NRCapture cres), wa') ->
           ncr_ok cres = true -> Manifest.parse bytes = Ok m -> mf_components m = ncr_components cres ->
           sha256_hex bytes = digest ->
           node_handler (H := diskB) (H6 := peersB) B (NRestore rreq) wb = (Done (NRRestore rres), wb') ->
           delivered A B creq cres bytes rreq rres wa wa' wb wb')
    (fun _ => True) s.
Proof.
  intros Hg. eapply wp_conseq; [apply request_restore_evidence, Hg | | done].
  intros r s' Hr o ->. destruct (Hr o eq_refl) as (Hn & Hc & row & digest & rreq & rres & Hrow & Hid & Hev).
  split; [exact Hn |]. split; [exact Hc |]. exists row, digest, rreq, rres. split; [exact Hrow |]. split; [exact Hid |].
  split; [exact Hev |]. destruct Hev as [_ Hok _ [_ Hd]].
  intros A B creq cres bytes m wa wa' wb wb' Ha Haok Hparse Hcomps Hdig Hb.
  eapply (restore_delivers diskA diskB _ _ peersA peersB); [exact Ha | exact Haok | exact Hparse | exact Hcomps | exact Hb | exact Hok | congruence].
Qed.

(** The cluster after the run above, and the node with the promoted checkpoint, restarted
    with another state of the application. *)
Definition captured_cluster : Store := wd_store capture_run.2.

Definition captured_manifest : Manifest :=
  match st_checkpoints captured_cluster !! drawn_id with
  | Some row => sm_manifest (seal (scaffold (read_checkpoint captured_cluster row
                  <| ck_durable_locations := [] |> <| ck_replica_count := 0 |>)))
  | None => scaffold plain_checkpoint
  end.
Definition captured_bytes : list byte := to_canonical_bytes captured_manifest.

Definition promote_x : NodePromoteRequest :=
  {| nmq_attempt_id := oo_attempt_id run_outcome; nmq_checkpoint_id := drawn_id; nmq_manifest_bytes := captured_bytes;
     nmq_digest := sha256_hex captured_bytes; nmq_integrity_root := ii_root (mf_integrity captured_manifest);
     nmq_coordinator_epoch := 1 |}.

Definition restarted_world : NodeWorld :=
  mkNodeWorld (mkAppWorld (aw_disk (nw_app (node_handler a_node (NPromote promote_x)
                                              (staged_world (oo_attempt_id run_outcome))).2)) [])
    (a_node_state ["x"]).

Definition restoring_nodes : NodeRpc :=
  {| node_capture := @node_capture obedient_nodes; node_promote := @node_promote obedient_nodes;
     node_resume := @node_resume obedient_nodes;
     node_restore := fun _ _ q =>
       match reply_of (node_handler a_node (NRestore q) restarted_world) with
       | Ok (NRRestore res) => Ok res | Ok _ => Err (Internal "reply") | Err e => Err e end;
     node_probe := @node_probe obedient_nodes; node_verify := @node_verify obedient_nodes;
     node_cleanup := @node_cleanup obedient_nodes; node_replicate := @node_replicate obedient_nodes;
     node_allow_fetch := @node_allow_fetch obedient_nodes |}.

Definition restore_run : outcome OperationOutcome * World :=
  @request_restore still_env restoring_nodes provider_texts hex_codec scenario_coordinator drawn_id "n1"
    RestoreOptions_default everyone (scenario_world captured_cluster).

Example restore_run_answers : reported_state restore_run = "RESTORED".
Proof. vm_compute. reflexivity. Qed.

Lemma answered_good s o s' : capture_end s (Ok o) s' -> good s'.
Proof. intros Hend. inversion Hend as [| | | key cid o' s'' [Hf _] _]; subst. exact (proj1 (proj1 Hf)). Qed.

Lemma captured_cluster_good : good captured_cluster.
Proof.
  pose proof (request_capture_spec (H := still_env) (H0 := still_quiet) scenario_coordinator Scenario.wid capture_x everyone
    scenario_store scenario_good (fun t => eq_refl) 0%nat ∅) as Hw.
  change (mkWorld scenario_store 0 ∅) with (scenario_world scenario_store) in Hw. fold capture_run in Hw.
  rewrite capture_run_done in Hw. fold captured_cluster in Hw.
  exact (answered_good _ _ _ Hw).
Qed.

Lemma cluster_digest :
  ck_manifest_digest <$> st_checkpoints captured_cluster !! drawn_id = Some (Some (sha256_hex captured_bytes)).
Proof. vm_compute. reflexivity. Qed.

Definition captured_x : NodeCaptureResult :=
  match (node_handler a_node (NCapture (asked_of_x (oo_attempt_id run_outcome))) (a_world ["x"])).1 with
  | Done (NRCapture res) => res
  | _ => mkNodeCaptureResult "" false None [] 0 0 0 false None
  end.

Lemma captured_x_runs :
  node_handler a_node (NCapture (asked_of_x (oo_attempt_id run_outcome))) (a_world ["x"]) =
    (Done (NRCapture captured_x), staged_world (oo_attempt_id run_outcome)).
Proof. unfold staged_world. apply pair_of. vm_compute. reflexivity. Qed.

Lemma captured_manifest_parses : Manifest.parse captured_bytes = Ok captured_manifest.
Proof.
  apply parse_Ok. split; [apply serial_codec_reads |]. by split; vm_compute.
Qed.

Lemma captured_manifest_lists : mf_components captured_manifest = ncr_components captured_x.
Proof. vm_compute. reflexivity. Qed.

Lemma asked_restore_runs rreq rres :
  (exists t, @node_restore restoring_nodes t "n1" rreq = Ok rres) ->
  node_handler a_node (NRestore rreq) restarted_world =
    (Done (NRRestore rres), (node_handler a_node (NRestore rreq) restarted_world).2).
Proof.
  intros [t Ht]. apply pair_of. cbn in Ht. unfold reply_of in Ht.
  destruct (node_handler _ _ _).1 as [[] | |]; congruence.
Qed.

Lemma restore_run_done : exists o, restore_run = (Done o, restore_run.2).
Proof. eexists. apply pair_of. vm_compute. reflexivity. Qed.

Example answered_restore_is_the_capture_witness :
  exists o rreq rres, restore_run.1 = Done o /\
    delivered a_node a_node (asked_of_x (oo_attempt_id run_outcome)) captured_x captured_bytes rreq rres
      (a_world ["x"]) (staged_world (oo_attempt_id run_outcome)) restarted_world
      (node_handler a_node (NRestore rreq) restarted_world).2.
Proof.
  pose proof (answered_restore_is_the_capture (AppA := list byte) (AppB := list byte) (H := still_env) (H0 := still_quiet)
    (H1 := restoring_nodes) calm_disk calm_disk silent_peer silent_peer scenario_coordinator drawn_id "n1"
    RestoreOptions_default everyone captured_cluster captured_cluster_good 0%nat ∅) as Hw.
  change (mkWorld captured_cluster 0 ∅) with (scenario_world captured_cluster) in Hw. fold restore_run in Hw.
  destruct restore_run_done as [o Ho]. rewrite Ho in Hw.
  destruct (Hw o eq_refl) as (_ & _ & row & digest & rreq & rres & Hrow & _ & [Hrun _ _ [Hd _]] & Hall).
  exists o, rreq, rres. split; [exact (f_equal fst Ho) |].
  apply (Hall a_node a_node _ _ _ captured_manifest); [exact captured_x_runs | reflexivity | exact captured_manifest_parses |
    exact captured_manifest_lists | | by apply asked_restore_runs].
  pose proof cluster_digest as Hc. rewrite Hrow in Hc.
  change (Some (ck_manifest_digest row) = Some (Some (sha256_hex captured_bytes))) in Hc. rewrite Hd in Hc.
  exact (eq_sym (Some_inj _ _ (Some_inj _ _ Hc))).
Defined.
