(* ===== verification/RestoreFacts.v ===== *)
(** A restore is all or nothing ([request_restore] of [Coordinator]): whatever the nodes
    answer, wherever a failpoint fires or the process stops. *)
From S2P Require Import Prelude Errors Ident Lifecycle Checkpoint Workload Compression Policy Compat.
From S2P Require Import Capture Json Restore Lineage Failpoints Tables Persist Schema StoreFacts Fencing Commit.
From S2P Require Import World Manifest Messages Recovery RecoveryFacts Attempts Footprint Lifetime Coordinator Steps.
From S2P Require Import Scenario.
From Stdlib Require Import Strings.Byte.

(** ** The states of a restore *)

Definition restore_committed (key : string) (s : Store) : bool :=
  journal_contains "restore" key restore_GENERATION_COMMITTED s.

(** The commit is not recorded, and the checkpoint is in the state [l] of its admission
    or on its way from [Available]. *)
Definition held (key : string) (cid : Id) (l : LifecycleState) (s : Store) : Prop :=
  restore_committed key s = false /\
  exists r, st_checkpoints s !! cid = Some r /\
    (ck_lifecycle r = l \/
     l = Available /\ (ck_lifecycle r = RestorePending \/ ck_lifecycle r = Restoring)).

(** The commit is recorded, and the checkpoint is restored and valid. *)
Definition transferred (key : string) (cid : Id) (s : Store) : Prop :=
  restore_committed key s = true /\
  exists r, st_checkpoints s !! cid = Some r /\ ck_lifecycle r = Restored /\ ck_integrity_state r = Valid.

(** ** Statements *)

Lemma held_inert {A} key cid l (op : Tx A) :
  inert cid op -> keeps_state cid op -> preserves (held key cid l) op.
Proof.
  intros Hi Hk s a s' Hop [Hc (r & Hr & Hl)]. destruct (Hi s a s' Hop) as [Ej _]. split.
  - unfold restore_committed, journal_contains in *. by rewrite Ej.
  - destruct (Hk s a s' Hop r Hr) as (r' & Hr' & El & _). exists r'. by rewrite El.
Qed.

Lemma held_journal key cid l now t d :
  t <> restore_GENERATION_COMMITTED -> preserves (held key cid l) (journal_append now "restore" key t d).
Proof.
  intros Ht s u s' Hr [Hc (r & Hrow & Hl)]. split.
  - unfold restore_committed. rewrite (journal_append_other _ _ _ _ _ _ _ _ _ _ Hr); [done | congruence].
  - exists r. by rewrite (journal_append_checkpoints _ _ _ _ _ _ _ _ Hr).
Qed.

Lemma transferred_preserves {A} key cid (op : Tx A) :
  evolving key op -> keeps_state cid op -> preserves (transferred key cid) op.
Proof.
  intros Hev Hst s a s' Hop [Hc (r & Hr & Hl & Hi)]. split.
  - by apply (evolves_contains key s s'); [eapply Hev |].
  - destruct (Hst s a s' Hop r Hr) as (r' & Hr' & El & Ei). exists r'. split_and!; congruence.
Qed.

(** What the commit leaves of the row and of the journal. *)
Lemma restore_commit_transfers now cid key n t m b (s s' : Store) u :
  restore_commit now cid key n t m b s = Ok (u, s') ->
  transferred key cid s' /\
  (exists r w, st_checkpoints s !! cid = Some r /\ ck_lifecycle r = Restoring /\
     st_workloads s !! ck_workload_id r = Some w /\ is_Some (st_workloads s' !! ck_workload_id r)).
Proof.
  intros H. unfold restore_commit in H. invert_ok H.
  apply ok_or_Ok in Hstep, Hstep1. apply transition_Ok, can_transition_Restored in Hstep0.
  unfold commit in H. injection H as _ <-. split.
  - split; [apply journal_insert_contains |]. exists (restored_row r).
    unfold journal_insert, lineage_insert.
    destruct m, b; repeat (match goal with |- context [if existsb ?p ?l then _ else _] => destruct (existsb p l) end);
      cbn; by rewrite lookup_alter_eq, Hstep.
  - exists r, r1. split_and!; [done.. |]. unfold journal_insert, lineage_insert.
    destruct m, b; repeat (match goal with |- context [if existsb ?p ?l then _ else _] => destruct (existsb p l) end);
      cbn; rewrite lookup_alter_eq, Hstep1; by eexists.
Qed.

(** From here on a statement is only its name. *)
Opaque checkpoint_set_lifecycle restore_commit checkpoint_add_location attempt_begin attempt_finish
  reservation_create reservation_release audit_append journal_append workload_get checkpoint_get
  attempt_get node_list journal_has.

Lemma reading_run {A} (op : Tx A) (s s' : Store) a : reads op -> op s = Ok (a, s') -> s' = s.
Proof. intros Hr. apply Hr. Qed.

Section restore.
Context `{Env, !Quiet, NodeRpc, NodeTexts, HexCodec}.
Context (self : CoordinatorInner).

(** ** Up to the commit *)

Section components.
Context (kind key : string) (cid : Id) (l : LifecycleState) (s0 : Store).
Context (Hrestorable : lifecycle_is_restorable l = true).

Definition restoring (s : Store) : Prop :=
  under kind key cid s /\ confined key cid s0 s /\ held key cid l s.

Lemma restoring_preserves {A} (op : Tx A) :
  @statement hex_codec fixed_policy_codec A op -> evolving key op -> confining key cid op ->
  preserves (held key cid l) op -> preserves restoring op.
Proof.
  intros Hst Hev Hcf Hup. apply preserves_and; [by apply under_preserves |].
  apply preserves_and; [by apply confining_preserves | exact Hup].
Qed.

Lemma keeps_restoring_lifecycle ckpt t :
  ck_checkpoint_id ckpt = cid -> t = RestorePending \/ t = Restoring ->
  keeps (on_store restoring) (set_lifecycle ckpt t).
Proof.
  intros E Ht. unfold set_lifecycle. rewrite E. apply keeps_of_wp. intros s Hs.
  wp_step; [exact Hs |]. destruct (checkpoint_get_answers cid s) as (o & -> & Ho & _). cbv beta iota.
  pose proof Hs as (_ & _ & Hc & r & Hr & Hl). rewrite Hr in Ho. destruct o as [ck |]; [| done]. injection Ho as Ho.
  rewrite Ho. wp_step. destruct (transition (ck_lifecycle r) t) as [[] | e] eqn:Et; [| exact Hs].
  assert (l = Available) as ->.
  { destruct Hl as [<- | [-> _]]; [| done]. apply transition_Ok in Et.
    by destruct Ht as [-> | ->], (ck_lifecycle r). }
  wp_step; [exact Hs |]. destruct (set_lifecycle_runs cid t Pending r s Hr) as (s' & E' & Ej & r' & Hr' & El & _).
  rewrite E'. destruct Hs as (Hu & Hcf & _). split; [| split].
  - apply (under_preserves kind key cid (checkpoint_set_lifecycle cid t Pending)) with (a := tt) (s := s);
      [constructor | auto with fabric | exact E' | exact Hu].
  - apply (confining_preserves key cid s0 (checkpoint_set_lifecycle cid t Pending)) with (a := tt) (s := s);
      [auto with fabric | exact E' | exact Hcf].
  - split; [unfold restore_committed, journal_contains in *; by rewrite Ej |].
    exists r'. split; [exact Hr' |]. right. split; [done |]. rewrite El. destruct Ht; auto.
Qed.

(** A statement of [restore_components]. *)
Local Ltac restoring_step :=
  lazymatch goal with
  | |- keeps _ (set_lifecycle _ _) => apply keeps_restoring_lifecycle; auto
  | |- keeps _ (call_node _ _ _) => apply keeps_call_node, _
  | |- keeps _ (node_addr _) => apply keeps_node_addr, _
  | |- keeps _ (find_active_location _) => apply keeps_find_active, _
  | |- preserves _ (journal_append _ _ _ _ _) =>
      apply restoring_preserves; [constructor | auto with fabric.. | by apply held_journal]
  | |- preserves _ _ =>
      apply restoring_preserves; [constructor | auto with fabric.. | apply held_inert; auto with fabric]
  end.

Lemma keeps_components_restored ckpt target :
  ck_checkpoint_id ckpt = cid -> keeps (on_store restoring) (restore_components self ckpt target key).
Proof.
  intros E. unfold restore_components, ensure_replica. rewrite E. repeat keeps_step; restoring_step.
Qed.
End components.

(** ** From the commit on *)

(** The restore made one transaction besides the changes to its own rows: the commit. *)
Definition moved (kind key : string) (cid : Id) (target : string) (migration rollback : bool)
    (s0 s : Store) : Prop :=
  tracked kind key cid s /\
  exists now token sm sc, confined key cid s0 sm /\
    restore_commit now cid key target token migration rollback sm = Ok (tt, sc) /\
    confined key cid sc s /\ transferred key cid s.

Section finish.
Context (kind key : string) (cid : Id) (target : string) (migration rollback : bool) (s0 : Store).
Let done_ := moved kind key cid target migration rollback s0.

Lemma moved_preserves {A} (op : Tx A) :
  @statement hex_codec fixed_policy_codec A op -> evolving key op -> preserves recoverable op ->
  confining key cid op -> keeps_state cid op -> preserves done_ op.
Proof.
  intros Hst Hev Hrec Hcf Hks s a s' Hop (Ht & now & token & sm & sc & Hm & Hc & Hf & Hp). split.
  - by apply (tracked_preserves _ _ _ op Hst Hev Hrec s a s' Hop).
  - exists now, token, sm, sc. split_and!; [done | done | | by eapply transferred_preserves].
    etrans; [exact Hf | by eapply Hcf].
Qed.

Lemma moved_commit l now token s s' :
  restoring kind key cid l s0 s -> restore_commit now cid key target token migration rollback s = Ok (tt, s') ->
  done_ s'.
Proof.
  intros (Hu & Hcf & _) Hc. split.
  - apply under_tracked.
    refine (under_preserves kind key cid (restore_commit now cid key target token migration rollback) _ _ s tt s' Hc Hu);
      [constructor | auto with fabric].
  - exists now, token, s, s'. split_and!; [done | done | done |]. by eapply restore_commit_transfers.
Qed.

Local Ltac after_commit :=
  lazymatch goal with
  | |- keeps _ (call_node _ _ _) => apply keeps_call_node, _
  | |- keeps _ (unwrap _) => apply keeps_unwrap
  | |- preserves _ (journal_append _ _ _ _ _) =>
      apply moved_preserves; [constructor | auto with fabric | by apply recoverable_journal_other | auto with fabric..]
  | |- preserves _ (workload_get _) => apply reads_preserves; auto with fabric
  | |- preserves _ _ => apply moved_preserves; [constructor | auto with fabric..]
  end.

(** The state of the attempt, and the one that is answered. *)
Definition concluded_as (resumed : bool) (s : Store) : Prop :=
  done_ s /\ closed key (if resumed then "COMMITTED" else "COMMITTED_NO_RESUME") s.

Lemma concluded_as_audit resumed now a o w c r d : preserves (concluded_as resumed) (audit_append now a o w c r d).
Proof. apply preserves_and; [| auto with fabric]. after_commit. Qed.

Definition restore_answers (resumed : bool) (o : OperationOutcome) : Prop :=
  oo_attempt_id o = key /\ oo_checkpoint_id o = Some cid /\ oo_node o = Some target /\
  oo_state o = if resumed then "RESTORED" else "RESTORED_NO_RESUME".

Lemma restore_finish_spec l ckpt options verdict ctx s :
  ck_checkpoint_id ckpt = cid -> ro_migration options = migration -> ro_rollback options = rollback ->
  restoring kind key cid l s0 s ->
  wp (restore_finish self ckpt target key options verdict ctx)
    (fun r s' => (exists e, r = Err e /\ restoring kind key cid l s0 s') \/
       done_ s' /\ (forall o, r = Ok o -> exists resumed, concluded_as resumed s' /\ restore_answers resumed o)) good s.
Proof.
  intros E Em Er Hs. pose proof (fun s' (Hf : done_ s') => proj1 (proj1 Hf)) as Hgood.
  set (Q := fun (r : FabricResult OperationOutcome) s' => _ \/ _).
  assert (Herr : forall e s', done_ s' -> Q (Err e) s') by (intros e s' Hs'; by right).
  assert (Hleft : forall e, Q (Err e) s) by (intros e; left; by eexists).
  unfold restore_finish. rewrite E, Em, Er. wp_step; [apply Hs | | apply Hleft].
  eapply (wp_bind_inv (eq s)); [| done | intros token ? <- | by intros e ? <- | by intros ? <-; apply Hs].
  { destruct (ro_target_fence_token options); [apply keeps_ret | apply keeps_fence_token, _]. }
  wp_step; [apply Hs |].
  destruct (restore_commit now cid key target token migration rollback s) as [[[] s1] | e] eqn:Ec; [| apply Hleft].
  assert (Hs1 : done_ s1) by by eapply moved_commit.
  eapply wp_bind_inv; [repeat keeps_step; after_commit | exact Hs1 | | apply Herr | exact Hgood].
  intros found s2 Hs2.
  eapply wp_bind_inv; [after_commit | exact Hs2 | | apply Herr | exact Hgood].
  intros w s3 Hs3. wp_step; [by apply Hgood | | by apply Herr].
  apply wp_bind, wp_attempt, wp_call_node; [by apply Hgood |]. intros answer.
  destruct (match answer with Ok r => _ | Err e => _ end) as [resumed resume_error].
  eapply wp_bind_inv; [repeat keeps_step; after_commit | exact Hs3 | | apply Herr | exact Hgood].
  intros [] s4 Hs4.
  apply (wp_closing done_); [intros; after_commit | after_commit | exact Hs4 | exact Hgood |].
  intros s5 Hs5 Hclosed.
  eapply (wp_bind_inv (concluded_as resumed)); [| by split | | | intros s' [Hf _]; by apply Hgood].
  - unfold audit. repeat keeps_step. apply concluded_as_audit.
  - intros [] s6 Hs6. wp_step; [by apply Hgood, Hs6 | | by apply Herr, Hs6].
    apply wp_ret. right. split; [apply Hs6 |]. intros o [= <-]. exists resumed. split; [exact Hs6 |].
    done.
  - intros e s' [Hf _]. by apply Herr.
Qed.

(** The abort of a restore after its commit. *)
Lemma abort_restore_moved ckpt detail ctx s :
  done_ s ->
  wp (abort_restore_attempt self key ckpt detail ctx) (fun _ s' => concluded_as false s') good s.
Proof.
  intros Hs. pose proof (fun s' (Hf : done_ s') => proj1 (proj1 Hf)) as Hgood.
  unfold abort_restore_attempt. wp_step; [by apply Hgood |]. rewrite journal_has_answers.
  assert (Hc : restore_committed key s = true) by (by destruct Hs as (_ & ? & ? & ? & ? & _ & _ & _ & [Hc _])).
  unfold restore_committed in Hc. rewrite Hc. cbv beta iota.
  apply (wp_closing done_); [intros; after_commit | after_commit | exact Hs | exact Hgood |].
  intros s'' Hs'' Hclosed.
  apply (wp_inv (concluded_as false)); [| by split | done | intros x [Hx _]; by apply Hgood].
  unfold audit. repeat keeps_step. apply concluded_as_audit.
Qed.
End finish.

(** ** The error path *)

(** The restore is given up: what it did is confined to its own rows, and the
    checkpoint is back in the state of its admission. *)
Definition put_back (kind key : string) (cid : Id) (l : LifecycleState) (s0 s : Store) : Prop :=
  tracked kind key cid s /\ confined key cid s0 s /\ restore_committed key s = false /\
  exists r, st_checkpoints s !! cid = Some r /\ ck_lifecycle r = l.

Definition restore_failed (kind key : string) (cid : Id) (l : LifecycleState) (s0 s : Store) : Prop :=
  put_back kind key cid l s0 s /\ closed key "FAILED" s.

Lemma put_back_preserves {A} kind key cid l s0 (op : Tx A) :
  @statement hex_codec fixed_policy_codec A op -> evolving key op -> preserves recoverable op ->
  confining key cid op -> keeps_state cid op ->
  (forall s a s', op s = Ok (a, s') -> st_journal s' = st_journal s) ->
  preserves (put_back kind key cid l s0) op.
Proof.
  intros Hst Hev Hrec Hcf Hks Hj s a s' Hop (Ht & Hf & Hc & r & Hr & Hl). split_and!.
  - by apply (tracked_preserves _ _ _ op Hst Hev Hrec s a s' Hop).
  - etrans; [exact Hf | by eapply Hcf].
  - unfold restore_committed, journal_contains in *. by rewrite (Hj s a s' Hop).
  - destruct (Hks s a s' Hop r Hr) as (r' & Hr' & El & _). exists r'. by rewrite El.
Qed.

Local Ltac put :=
  intros; apply put_back_preserves;
    [constructor | auto with fabric.. |
     intros ??? Hrun; first [exact (proj2 (checkpoints_finish _ _ _ _ _ _ _ _ Hrun)) |
       exact (proj2 (checkpoints_release _ _ _ _ Hrun)) |
       exact (proj2 (checkpoints_audit _ _ _ _ _ _ _ _ _ _ Hrun))]].

Lemma keeps_reopen_tracked kind key cid s0 :
  keeps (on_store (fun s => tracked kind key cid s /\ confined key cid s0 s)) (reopen_checkpoint cid).
Proof.
  unfold reopen_checkpoint. repeat keeps_step.
  - apply reads_preserves. auto with fabric.
  - apply preserves_and; [| by apply confining_preserves; auto with fabric].
    apply tracked_preserves; [constructor | auto with fabric | apply recoverable_set_lifecycle].
Qed.

(** Reopening puts the checkpoint of a restore back where its admission found it. *)
Lemma reopen_puts_back kind key cid l s0 s :
  lifecycle_is_restorable l = true -> restoring kind key cid l s0 s ->
  wp (reopen_checkpoint cid) (fun r s' => r = Ok tt /\ put_back kind key cid l s0 s') good s.
Proof.
  intros Hl (Hu & Hcf & Hc & r & Hr & Hst).
  eapply wp_conseq; [eapply wp_keeps;
    [apply keeps_reopen_tracked | apply reopen_checkpoint_spec | by split; [apply under_tracked |]] | |
    by intros s' [[Hx _] _]].
  intros x s' [[-> ->] [Ht Hcf']]. split; [done |]. split_and!; [done.. | |].
  - exact Hc.
  - exists (reopened r). split; [cbn; by rewrite lookup_alter_eq, Hr |].
    unfold reopened. destruct Hst as [El | [-> [El | El]]]; rewrite El; [by destruct l | done..].
Qed.

(** The abort of a restore before its commit. *)
Lemma abort_restore_restoring kind key ckpt l s0 detail ctx s :
  lifecycle_is_restorable l = true -> restoring kind key (ck_checkpoint_id ckpt) l s0 s ->
  wp (abort_restore_attempt self key ckpt detail ctx)
    (fun _ s' => restore_failed kind key (ck_checkpoint_id ckpt) l s0 s') good s.
Proof.
  intros Hl Hs. set (cid := ck_checkpoint_id ckpt) in *.
  assert (Hg : good s) by apply (under_tracked _ _ _ _ (proj1 Hs)).
  unfold abort_restore_attempt. wp_step; [done |]. rewrite journal_has_answers.
  replace (journal_contains "restore" key restore_GENERATION_COMMITTED s) with false
    by (symmetry; apply Hs). cbv beta iota.
  wp_step; [done |]. rewrite attempt_get_answers. cbv beta iota.
  assert (Hrest : forall m : M World unit, m = mret tt \/ (exists call, m = ignore (call_node node_cleanup (fst call) (snd call))) ->
    wp m (fun r s' => r = Ok tt /\ s' = s) good s).
  { intros m [-> | [call ->]]; [by apply wp_ret |]. by apply wp_ignore, wp_call_node. }
  apply wp_bind. eapply wp_conseq; [apply Hrest | | done].
  { destruct (st_attempts s !! key) as [att |]; [right | by left]. by eexists (_, _). }
  intros x s' [-> ->].
  apply wp_bind. eapply wp_conseq; [by eapply reopen_puts_back | | done].
  intros x s1 [-> Hs1].
  apply (wp_closing (put_back kind key cid l s0)); [put | put | exact Hs1 | by intros y [[? _] _] |].
  intros s2 Hs2 Hclosed. apply (wp_inv (restore_failed kind key cid l s0)); [| by split | done | by intros y [[[? _] _] _]].
  unfold audit. repeat keeps_step. apply preserves_and; [put | auto with fabric].
Qed.

(** ** The whole request *)

(** The admission changes nothing but the audit log, when it refuses. *)
Lemma admit_restore_spec checkpoint_id target options ctx s :
  good s ->
  wp (admit_restore self checkpoint_id target options ctx)
    (fun r s' => match r with
                 | Ok (ckpt, _) => s' = s /\ ck_checkpoint_id ckpt = checkpoint_id /\
                     lifecycle_is_restorable (ck_lifecycle ckpt) = true /\
                     ck_lifecycle <$> st_checkpoints s !! checkpoint_id = Some (ck_lifecycle ckpt)
                 | Err _ => audited s s' /\ good s'
                 end) good s.
Proof.
  intros Hg. set (Q := fun (r : FabricResult (CheckpointObject * CompatVerdict)) s' => _).
  assert (Herr : forall e, Q (Err e) s) by (intros e; split; [apply audited_refl | exact Hg]).
  unfold admit_restore, authorize_for, node_is_active, node_runtime, audit.
  looks. looks. looks. looks. looks. looks.
  wp_step; [exact Hg |]. destruct (checkpoint_get_answers checkpoint_id s) as (o & -> & Hl & Hid). cbv beta iota.
  wp_step. destruct o as [ckpt |]; [| apply Herr]. cbn.
  destruct (st_checkpoints s !! checkpoint_id) as [row |] eqn:Er; [| done].
  injection Hl as Hl. injection Hid as Hid. rewrite (so_checkpoints s (proj1 (gd_sound s Hg)) _ _ Er) in Hid.
  wp_step. destruct (validate_restore_request ckpt _ target) as [[] |] eqn:Hv; [| apply Herr]. cbv beta iota.
  looks. looks. looks. looks. looks. looks. looks.
  apply wp_bind. destruct (bool_decide (cr_verdict _ = Incompatible)).
  - apply wp_bind, wp_ignore. wp_step; [exact Hg |].
    match goal with |- context [match ?op with Ok _ => _ | Err _ => _ end] => destruct op as [[u s'] | e] eqn:Ea end; apply wp_raise; [| by apply Herr].
    split; [by eapply audit_audits | by eapply good_audit].
  - apply wp_ret. looks. apply wp_ret. split; [done |]. split; [congruence |]. split; [| by rewrite Hl].
    unfold validate_restore_request in Hv. apply result_bind_Ok in Hv as (u & Hv & _).
    apply reject_if_Ok in Hv. by apply negb_false_iff in Hv.
Qed.

Lemma reserve_restore_spec ckpt target options l s :
  good s -> lifecycle_is_restorable l = true ->
  ck_lifecycle <$> st_checkpoints s !! ck_checkpoint_id ckpt = Some l ->
  let kind := if ro_rollback options then "rollback" else "restore" in
  wp (reserve_restore_attempt ckpt (ck_checkpoint_id ckpt) target options)
    (fun r s' => match r with
                 | Ok key => restoring kind key (ck_checkpoint_id ckpt) l s s'
                 | Err _ => s' = s
                 end) good s.
Proof.
  intros Hg Hl Hrow kind. unfold reserve_restore_attempt.
  apply wp_bind, wp_random; [exact Hg |]. intros t.
  apply wp_begin; try done. intros s' Ht Hcf Ec Ej. apply wp_ret.
  apply fmap_Some in Hrow as (row & Hrow & El). split; [| split; [exact Hcf |]].
  - apply tracked_under; [exact Ht | rewrite Ec, Hrow; by eexists].
  - split; [by apply Ej |]. exists row. rewrite Ec. by auto.
Qed.

(** The ends of a restore to [target]: refused, with at most a record in the audit log;
    failed, with the checkpoint where it was; or committed, and answered or not. *)
Inductive restore_end (cid : Id) (target : string) (options : RestoreOptions) (s : Store) :
    FabricResult OperationOutcome -> Store -> Prop :=
| end_refused e s' : audited s s' -> restore_end cid target options s (Err e) s'
| end_failed kind key l e s' :
    ck_lifecycle <$> st_checkpoints s !! cid = Some l ->
    restore_failed kind key cid l s s' -> restore_end cid target options s (Err e) s'
| end_committed kind key e s' :
    concluded_as kind key cid target (ro_migration options) (ro_rollback options) s false s' ->
    restore_end cid target options s (Err e) s'
| end_answered kind key resumed o s' :
    concluded_as kind key cid target (ro_migration options) (ro_rollback options) s resumed s' ->
    restore_answers key cid target resumed o -> restore_end cid target options s (Ok o) s'.

Lemma request_restore_spec cid target options ctx s :
  good s -> wp (request_restore self cid target options ctx) (restore_end cid target options s) good s.
Proof.
  intros Hg. unfold request_restore. apply wp_bind.
  eapply wp_conseq; [by apply admit_restore_spec | | done].
  intros [[ckpt verdict] | e] s1; [| intros [Ha _]; by constructor].
  intros (-> & <- & Hl & Hrow). cbn [fst snd]. apply wp_bind.
  eapply wp_conseq; [by eapply reserve_restore_spec | | done].
  intros [key | e] s1; [| intros ->; constructor; apply audited_refl].
  set (kind := if ro_rollback options then _ else _). intros Hs. apply wp_on_error.
  assert (Habort : forall e s', restoring kind key (ck_checkpoint_id ckpt) (ck_lifecycle ckpt) s s' ->
    wp (abort_restore_attempt self key ckpt ("restore failed: " +:+ display e) ctx)
      (fun _ => restore_end (ck_checkpoint_id ckpt) target options s (Err e)) good s').
  { intros e s' Hs'. eapply wp_conseq; [by eapply abort_restore_restoring | | done].
    intros r s'' Hend. exact (end_failed _ _ _ s kind key _ e s'' Hrow Hend). }
  unfold execute_restore.
  eapply wp_bind_inv; [by apply keeps_components_restored | exact Hs | |
    intros e s' Hs'; by apply Habort | intros s' Hs'; apply (under_tracked _ _ _ _ (proj1 Hs'))].
  intros [] s2 Hs2. eapply wp_conseq; [by eapply restore_finish_spec | | done].
  intros r s3 [(e & -> & Hs3) | [Hs3 Ho]]; [by apply Habort |].
  destruct r as [o | e].
  - destruct (Ho o eq_refl) as (resumed & Hc & Ha). exact (end_answered _ _ _ s kind key resumed o s3 Hc Ha).
  - eapply wp_conseq; [by eapply abort_restore_moved | | done].
    intros r' s4 Hend. exact (end_committed _ _ _ s kind key e s4 Hend).
Qed.
End restore.

(** * Properties *)

(** C7 (safety). A restore is all or nothing.  From a good store, whatever the nodes
    answer and whichever failpoints fire, a request is refused, and at most the audit
    log grows; or it fails, and then it changed only the rows of its own attempt and
    checkpoint, its attempt is FAILED, its scope is free, no transfer is recorded and
    the checkpoint is in the state in which it was admitted; or it commits, in one
    transaction between changes to its own rows, and then the checkpoint is restored
    and valid, its scope is free and its attempt is COMMITTED or COMMITTED_NO_RESUME,
    as the outcome it answers says, and COMMITTED_NO_RESUME when it reports a later
    error.  If the process stops anywhere, the store is good, and the next recovery
    ends every attempt. *)
Theorem restore_all_or_nothing `{Env, !Quiet, NodeRpc, NodeTexts, HexCodec}
    (self : CoordinatorInner) (cid : Id) (target : string) (options : RestoreOptions)
    (ctx : OperationContext) (s : Store) :
  good s ->
  wp (request_restore self cid target options ctx) (restore_end cid target options s)
    (fun s' => good s' /\ forall rctx,
       wp (reconcile rctx) (fun r s'' => exists out, r = Ok out /\ run_settled s' out s'') sound_store s') s.
Proof.
  intros Hg. eapply wp_conseq; [by apply request_restore_spec | done |].
  intros s' Hs'. split; [exact Hs' |]. intros rctx.
  eapply wp_conseq; [apply reconcile_completes, Hs' | | done].
  intros r s'' [(out & Hr & _ & Hset) _]. by exists out.
Qed.

Example restore_all_or_nothing_witness :
  good captured_store /\
  @wp OperationOutcome (@request_restore stopping_env obedient_nodes scenario_texts hex_codec
        scenario_coordinator (id_splat Byte.x01) "n2" RestoreOptions_default everyone)
    (restore_end (id_splat Byte.x01) "n2" RestoreOptions_default captured_store)
    (fun s' => good s' /\ forall rctx,
       wp (@reconcile stopping_env rctx) (fun r s'' => exists out, r = Ok out /\ run_settled s' out s'')
         sound_store s') captured_store.
Proof.
  split; [exact captured_good |].
  apply (@restore_all_or_nothing stopping_env (fun t s => eq_refl) obedient_nodes scenario_texts hex_codec
           scenario_coordinator (id_splat Byte.x01) "n2" RestoreOptions_default everyone captured_store).
  exact captured_good.
Defined.
