(* ===== verification/Authority.v ===== *)
(** Authority over workloads under concurrency: what every operation of the
    coordinator keeps, whatever the nodes answer, whatever other operations run
    between two of its statements, and wherever the process stops. *)
From S2P Require Import Prelude Errors Ident Lifecycle Checkpoint Workload Compression Policy Compat.
From S2P Require Import Capture Restore Lineage Failpoints Tables Persist Schema StoreFacts Fencing Commit.
From S2P Require Import World Manifest Messages Recovery RecoveryFacts Coordinator Maintenance.
From S2P Require Import Dispatch Steps Scenario.

(** ** Statements that leave the workloads alone *)

Definition frames_workloads {A} (op : Tx A) : Prop :=
  forall s a s', op s = Ok (a, s') -> st_workloads s' = st_workloads s.

Lemma mark_stale_workloads l (s : Store) : st_workloads (fold_left mark_stale l s) = st_workloads s.
Proof. revert s. induction l as [| x l IH]; intros s; cbn; [done |]. by rewrite IH. Qed.

Ltac frames := intros st0 a0 st1 Hrun; run_op Hrun; try done; try apply mark_stale_workloads.

Section frames.
Context `{HexCodec}.
Lemma frames_checkpoint_insert c : frames_workloads (checkpoint_insert c).
Proof. frames. Qed.
Lemma frames_checkpoint_update c : frames_workloads (checkpoint_update c).
Proof. frames. Qed.
Lemma frames_set_lifecycle i l g : frames_workloads (checkpoint_set_lifecycle i l g).
Proof. frames. Qed.
Lemma frames_set_digest i d m : frames_workloads (checkpoint_set_digest i d m).
Proof. frames. Qed.
Lemma frames_set_integrity i g : frames_workloads (checkpoint_set_integrity i g).
Proof. frames. Qed.
Lemma frames_set_protection i p : frames_workloads (checkpoint_set_protection i p).
Proof. frames. Qed.
Lemma frames_retire i : frames_workloads (checkpoint_retire i).
Proof. frames. Qed.
Lemma frames_add_location i l : frames_workloads (checkpoint_add_location i l).
Proof. frames. Qed.
Lemma frames_rebind_location i n d : frames_workloads (checkpoint_rebind_location i n d).
Proof. frames. Qed.
Lemma frames_attempt_begin now i k c w n : frames_workloads (attempt_begin now i k c w n).
Proof. frames. Qed.
Lemma frames_attempt_finish now i t r e : frames_workloads (attempt_finish now i t r e).
Proof. frames. Qed.
Lemma frames_node_register now i a b r : frames_workloads (node_register now i a b r).
Proof. frames. Qed.
Lemma frames_node_heartbeat now i r : frames_workloads (node_heartbeat now i r).
Proof. frames. Qed.
Lemma frames_node_set_status i t : frames_workloads (node_set_status i t).
Proof. frames. Qed.
Lemma frames_nodes_sweep_stale b : frames_workloads (nodes_sweep_stale b).
Proof. frames. Qed.
Lemma frames_reservation_create now i k w c n t : frames_workloads (reservation_create now i k w c n t).
Proof. frames. Qed.
Lemma frames_reservation_release i : frames_workloads (reservation_release i).
Proof. frames. Qed.
Lemma frames_reservations_expire b : frames_workloads (reservations_expire b).
Proof. frames. Qed.
Lemma frames_audit_append now a o w c r d : frames_workloads (audit_append now a o w c r d).
Proof. frames. Qed.
Lemma frames_journal_append now k y t d : frames_workloads (journal_append now k y t d).
Proof. intros s a s' Hrun. run_op Hrun. unfold journal_insert. by destruct (existsb _ _). Qed.
Lemma frames_claim_epoch r : frames_workloads (claim_coordinator_epoch r).
Proof. frames. Qed.
Lemma frames_policy_insert `{PolicyCodec} p a : frames_workloads (policy_insert p a).
Proof. frames. Qed.
Lemma frames_reads {A} (op : Tx A) : reads op -> frames_workloads op.
Proof. intros Hr s a s' Hop. by rewrite (Hr _ _ _ Hop). Qed.
End frames.

#[export] Hint Resolve frames_checkpoint_insert frames_checkpoint_update frames_set_lifecycle
  frames_set_digest frames_set_integrity frames_set_protection frames_retire frames_add_location
  frames_rebind_location frames_attempt_begin frames_attempt_finish frames_node_register
  frames_node_heartbeat frames_node_set_status frames_nodes_sweep_stale frames_reservation_create
  frames_reservation_release frames_reservations_expire frames_audit_append frames_journal_append
  frames_reads : fabric.

(** ** The invariant *)

(** Claims are consistent, and no workload of [s0] was lost or moved back. *)
Record authority (s0 s : Store) : Prop := {
  au_schema : schema_ok s;
  au_claims : claims_ok s;
  au_epochs : epochs_from s0 s
}.

Lemma authority_intro `{X : HexCodec, Y : PolicyCodec} {A} s0 (op : Tx A) :
  @statement X Y A op ->
  (forall s a s', op s = Ok (a, s') -> claims_ok s -> epochs_from s0 s ->
     claims_ok s' /\ epochs_from s0 s') ->
  preserves (authority s0) op.
Proof.
  intros Hst Hop s a s' Hrun [Hs Hc He].
  destruct (Hop s a s' Hrun Hc He). split; [| done..].
  by eapply (@statement_keeps_schema X Y).
Qed.

Lemma authority_frames `{X : HexCodec, Y : PolicyCodec} {A} s0 (op : Tx A) :
  @statement X Y A op -> frames_workloads op ->
  preserves (authority s0) op.
Proof.
  intros Hst Hf. eapply authority_intro; [done |]. intros s a s' Hrun Hc He.
  unfold claims_ok, epochs_from. by rewrite (Hf _ _ _ Hrun).
Qed.

Lemma workload_insert_Ok w (s s' : Store) u :
  workload_insert w s = Ok (u, s') ->
  st_workloads s !! w_workload_id w = None /\
  st_workloads s' = <[w_workload_id w := w]> (st_workloads s).
Proof.
  intros Hr. run_op Hr. split; [| done].
  match goal with Hx : reject_if (is_some ?o) _ = Ok _ |- _ =>
    apply reject_if_Ok in Hx; by destruct o end.
Qed.

Lemma workload_insert_fork_Ok now w p c d (s s' : Store) u :
  workload_insert_fork now w p c d s = Ok (u, s') ->
  st_workloads s !! w_workload_id w = None /\
  st_workloads s' = <[w_workload_id w := w]> (st_workloads s).
Proof.
  intros Hr. run_op Hr. split; [| done].
  match goal with Hx : reject_if (is_some ?o) _ = Ok _ |- _ =>
    apply reject_if_Ok in Hx; by destruct o end.
Qed.

Lemma authority_insert s0 (s s' : Store) w :
  claim_consistent w -> st_workloads s !! w_workload_id w = None ->
  st_workloads s' = <[w_workload_id w := w]> (st_workloads s) ->
  claims_ok s -> epochs_from s0 s -> claims_ok s' /\ epochs_from s0 s'.
Proof.
  intros Hw Hn E Hc He. split; [by eapply claims_ok_insert |].
  intros i x Hx. destruct (He i x Hx) as (x' & Hx' & Hle). rewrite E.
  destruct (decide (i = w_workload_id w)) as [-> |]; [congruence |].
  rewrite lookup_insert_ne by done. by exists x'.
Qed.

(** A workload that was just created, claimed or not. *)
Lemma claim_consistent_fresh w :
  w_execution_epoch w = 0 -> w_workload_generation w = 0 -> w_fence_epoch w = 0 ->
  is_some (w_active_node w) = is_some (w_fence_token w) -> claim_consistent w.
Proof.
  intros E G F Hs. split; [done |]. split; [by rewrite E, F |]. rewrite E, G. unfold i64_max. lia.
Qed.

Lemma authority_workload_insert s0 w :
  claim_consistent w -> preserves (authority s0) (workload_insert w).
Proof.
  intros Hw. apply (@authority_intro hex_codec fixed_policy_codec); [constructor |].
  intros s u s' [Hn E]%workload_insert_Ok. by apply (authority_insert _ s s' w).
Qed.

Lemma authority_insert_fork s0 now w p c d :
  claim_consistent w -> preserves (authority s0) (workload_insert_fork now w p c d).
Proof.
  intros Hw. apply (@authority_intro hex_codec fixed_policy_codec); [constructor |].
  intros s u s' [Hn E]%workload_insert_fork_Ok. by apply (authority_insert _ s s' w).
Qed.

Lemma authority_update s0 (s : Store) id f :
  (forall w, st_workloads s !! id = Some w -> claim_consistent w ->
     claim_consistent (f w) /\ epoch_le w (f w)) ->
  claims_ok s -> epochs_from s0 s ->
  claims_ok (update_workload id f s) /\ epochs_from s0 (update_workload id f s).
Proof.
  intros Hf Hc He. split.
  - apply claims_ok_update; [intros w Hw Hcw; by apply Hf | done].
  - apply epochs_from_update; [intros w Hw; apply Hf; [done | by eapply Hc] | done].
Qed.

Lemma authority_bump s0 id e : preserves (authority s0) (workload_bump_fence id e).
Proof.
  apply (@authority_intro hex_codec fixed_policy_codec); [constructor |].
  intros s r s' (w & Hw & <- & -> & Hmax & ->)%workload_bump_Ok Hc He.
  apply authority_update; [| done..]. intros w' Hw' (_ & _ & Hr1 & Hr2).
  assert (w' = w) as -> by congruence. rewrite epoch_succ in * by done.
  split; [| split_and!; cbn; (done || lia)].
  split; [done |]. split; [done |]. cbn. split; lia.
Qed.

Lemma authority_claim s0 id n t e : preserves (authority s0) (workload_claim id n t e).
Proof.
  apply (@authority_intro hex_codec fixed_policy_codec); [constructor |].
  intros s r s' (w & Hw & _ & <- & ->)%workload_claim_Ok Hc He.
  apply authority_update; [| done..]. intros w' Hw' Hcw.
  assert (w' = w) as -> by congruence.
  split; [by apply claim_consistent_granted | split_and!; cbn; (done || lia)].
Qed.

Lemma authority_release s0 id n : preserves (authority s0) (workload_release id n).
Proof.
  apply (@authority_intro hex_codec fixed_policy_codec); [constructor |].
  intros s r s' Hr Hc He. run_op Hr.
  apply authority_update; [| done..]. intros w Hw Hcw.
  destruct (bool_decide _); [| split; [done | apply epoch_le_refl]].
  split; [by apply claim_consistent_released | split_and!; cbn; (done || lia)].
Qed.

Lemma authority_capture_commit s0 now id a : preserves (authority s0) (capture_commit now id a).
Proof.
  apply (@authority_intro hex_codec fixed_policy_codec); [constructor |].
  intros s r s' (row & w & Ha & ->)%capture_commit_Ok Hc He.
  destruct (capture_writes_workload now id a row w s (ca_workload _ _ _ _ Ha))
    as (w' & E & _ & E1 & E2 & E3 & E4 & E5 & E6).
  split.
  - eapply claims_ok_insert; [done | | exact E].
    destruct (Hc _ _ (ca_workload _ _ _ _ Ha)) as (P1 & P2 & P3 & P4).
    unfold claim_consistent, is_fenced in *. rewrite E1, E2, E4, E5, E6. done.
  - eapply epochs_from_insert; [apply Ha | | exact E | done].
    unfold epoch_le. rewrite E1, E2, E3. split_and!; (done || lia).
Qed.

Lemma authority_restore_commit s0 now id a n t m r : preserves (authority s0) (restore_commit now id a n t m r).
Proof.
  apply (@authority_intro hex_codec fixed_policy_codec); [constructor |]. intros s u s' Hr Hc He.
  destruct (restore_commit_Ok _ _ _ _ _ _ _ _ _ _ Hc Hr)
    as (row & w & _ & _ & Hw & H1 & H2 & E & _).
  split.
  - eapply claims_ok_insert; [done | | exact E]. apply restored_workload_consistent; [by eapply Hc | done..].
  - eapply epochs_from_insert; [exact Hw | | exact E | done]. apply restored_workload_later.
Qed.

#[export] Hint Resolve authority_bump authority_claim authority_release authority_capture_commit
  authority_restore_commit : fabric.

(** ** The statements the handlers use *)

(** A workload row as [create_workload] and [fork] insert it. *)
Definition fresh_workload (w : Workload) : Prop :=
  w_execution_epoch w = 0 /\ w_workload_generation w = 0 /\ w_fence_epoch w = 0 /\
  is_some (w_active_node w) = is_some (w_fence_token w).

Inductive handler_statement `{HexCodec} : forall {A}, Tx A -> Prop :=
| hs_reads {A} (op : Tx A) : reads op -> handler_statement op
| hs_workload_insert w : fresh_workload w -> handler_statement (workload_insert w)
| hs_workload_insert_fork now w p c d : fresh_workload w -> handler_statement (workload_insert_fork now w p c d)
| hs_workload_bump_fence i e : handler_statement (workload_bump_fence i e)
| hs_workload_claim i n t e : handler_statement (workload_claim i n t e)
| hs_workload_release i n : handler_statement (workload_release i n)
| hs_checkpoint_insert c : handler_statement (checkpoint_insert c)
| hs_checkpoint_update c : handler_statement (checkpoint_update c)
| hs_checkpoint_set_lifecycle i l g : handler_statement (checkpoint_set_lifecycle i l g)
| hs_capture_commit now i a : handler_statement (capture_commit now i a)
| hs_restore_commit now i a n t m r : handler_statement (restore_commit now i a n t m r)
| hs_checkpoint_set_digest i d m : handler_statement (checkpoint_set_digest i d m)
| hs_checkpoint_set_protection i p : handler_statement (checkpoint_set_protection i p)
| hs_checkpoint_retire i : handler_statement (checkpoint_retire i)
| hs_checkpoint_set_integrity i g : handler_statement (checkpoint_set_integrity i g)
| hs_checkpoint_add_location i l : handler_statement (checkpoint_add_location i l)
| hs_checkpoint_rebind_location i n d : handler_statement (checkpoint_rebind_location i n d)
| hs_attempt_begin now i k c w n : handler_statement (attempt_begin now i k c w n)
| hs_attempt_finish now i t r e : handler_statement (attempt_finish now i t r e)
| hs_node_register now i a b r : handler_statement (node_register now i a b r)
| hs_node_heartbeat now i r : handler_statement (node_heartbeat now i r)
| hs_node_set_status i t : handler_statement (node_set_status i t)
| hs_nodes_sweep_stale b : handler_statement (nodes_sweep_stale b)
| hs_reservation_create now i k w c n t : handler_statement (reservation_create now i k w c n t)
| hs_reservation_release i : handler_statement (reservation_release i)
| hs_reservations_expire b : handler_statement (reservations_expire b)
| hs_audit_append now a o w c r d : handler_statement (audit_append now a o w c r d)
| hs_journal_append now k y t d : handler_statement (journal_append now k y t d).

(** From here on a statement is only its name. *)
Opaque workload_insert workload_insert_fork workload_bump_fence workload_claim workload_release
  checkpoint_insert checkpoint_update checkpoint_set_lifecycle capture_commit restore_commit
  checkpoint_set_digest checkpoint_set_protection checkpoint_retire checkpoint_set_integrity
  checkpoint_add_location checkpoint_rebind_location attempt_begin attempt_finish node_register
  node_heartbeat node_set_status nodes_sweep_stale reservation_create reservation_release
  reservations_expire audit_append journal_append workload_get workload_list checkpoint_get
  checkpoint_list checkpoint_max_generation lineage_query attempt_get attempts_in_state node_list
  node_validate_identity reservation_active_for journal_has stats audit_query policy_insert
  policy_versions policy_load_all claim_coordinator_epoch.

Lemma authority_handler `{HexCodec} s0 {A} (op : Tx A) :
  handler_statement op -> preserves (authority s0) op.
Proof.
  intros Hop. destruct Hop.
  all: lazymatch goal with
       | |- preserves _ (workload_insert _) => idtac
       | |- preserves _ (workload_insert_fork _ _ _ _ _) => idtac
       | |- preserves _ (workload_bump_fence _ _) => apply authority_bump
       | |- preserves _ (workload_claim _ _ _ _) => apply authority_claim
       | |- preserves _ (workload_release _ _) => apply authority_release
       | |- preserves _ (capture_commit _ _ _) => apply authority_capture_commit
       | |- preserves _ (restore_commit _ _ _ _ _ _ _) => apply authority_restore_commit
       | Hr : reads ?op |- preserves _ ?op => by apply reads_preserves
       | |- _ => apply (@authority_frames H fixed_policy_codec); [constructor | eauto 2 with fabric]
       end.
  - destruct H0 as (? & ? & ? & ?). by apply authority_workload_insert, claim_consistent_fresh.
  - destruct H0 as (? & ? & ? & ?). by apply authority_insert_fork, claim_consistent_fresh.
Qed.

(** The other threads of the process are handlers too: between two statements of one
    of them any number of statements of the others run. *)
Inductive thread_step `{HexCodec} (s : Store) : Store -> Prop :=
| step_statement {A} (op : Tx A) a s' : handler_statement op -> op s = Ok (a, s') -> thread_step s s'.

Class Threads `{HexCodec, Env} : Prop := threads : forall t s, rtc thread_step s (env_others t s).

#[export] Instance Threads_Stable `{HexCodec, Env} s0 : Threads -> Stable (authority s0).
Proof.
  intros Ht t s Hs. induction (Ht t s) as [| s1 s2 s3 [A op a s' Hop Hrun] _ IH]; [exact Hs |].
  apply IH. exact (authority_handler s0 op Hop _ _ _ Hrun Hs).
Qed.

(** ** Operations *)

Section operations.
Context `{Env, NodeRpc, NodeTexts, HexCodec, Sha256, ManifestCodec}.
Context (self : CoordinatorInner) (I : Store -> Prop) `{!Stable I}.
Context (HI : forall A (op : Tx A), handler_statement op -> preserves I op).

(** A statement or a helper that was treated. *)
Local Ltac leaf :=
  first [solve [auto 2 with keeps_db] | apply HI; constructor; solve [auto 2 with fabric | done] | idtac].
Local Ltac keeps_op := repeat keeps_step; leaf.

Lemma keeps_audit ctx o w c r d : keeps (on_store I) (audit ctx o w c r d).
Proof. unfold audit. keeps_op. Qed.
Local Hint Resolve keeps_audit : keeps_db.

Lemma keeps_create_workload spec node ctx : keeps (on_store I) (create_workload self spec node ctx).
Proof.
  unfold create_workload. destruct node as [n |]; keeps_op; by split_and!.
Qed.

Lemma keeps_fence_workload i ctx : keeps (on_store I) (fence_workload self i ctx).
Proof. unfold fence_workload. keeps_op. Qed.
Lemma keeps_attach i n b e : keeps (on_store I) (attach_workload i n b e).
Proof. unfold attach_workload. keeps_op. Qed.
Lemma keeps_detach i n : keeps (on_store I) (detach_workload i n).
Proof. unfold detach_workload. keeps_op. Qed.
Lemma keeps_set_lifecycle c l : keeps (on_store I) (set_lifecycle c l).
Proof. unfold set_lifecycle. keeps_op. Qed.
Local Hint Resolve keeps_fence_workload keeps_attach keeps_detach keeps_set_lifecycle : keeps_db.

Lemma keeps_replicate_targets c l ck : keeps (on_store I) (replicate_targets self c l ck).
Proof. revert ck. induction l as [| t l IH]; intros ck; cbn [replicate_targets]; keeps_op; apply IH. Qed.
Local Hint Resolve keeps_replicate_targets : keeps_db.
Lemma keeps_replicate c ctx : keeps (on_store I) (replicate_to_policy self c ctx).
Proof. unfold replicate_to_policy. keeps_op. Qed.
Local Hint Resolve keeps_replicate : keeps_db.
Lemma keeps_capture_persist w n a c g q o : keeps (on_store I) (capture_persist self w n a c g q o).
Proof. unfold capture_persist. keeps_op. Qed.
Lemma keeps_capture_finish w n a c r ctx : keeps (on_store I) (capture_finish self w n a c r ctx).
Proof. unfold capture_finish. keeps_op. Qed.
Lemma keeps_abort_capture a c w d ctx : keeps (on_store I) (abort_capture_attempt self a c w d ctx).
Proof. unfold abort_capture_attempt. keeps_op. Qed.
Lemma keeps_reserve_capture w o ctx : keeps (on_store I) (reserve_capture_attempt self w o ctx).
Proof. unfold reserve_capture_attempt. keeps_op. Qed.
Local Hint Resolve keeps_capture_persist keeps_capture_finish keeps_abort_capture keeps_reserve_capture : keeps_db.
Lemma keeps_request_capture w o ctx : keeps (on_store I) (request_capture self w o ctx).
Proof. unfold request_capture, execute_capture. keeps_op. Qed.
Local Hint Resolve keeps_request_capture : keeps_db.

Lemma keeps_ensure_replica n c a : keeps (on_store I) (ensure_replica self n c a).
Proof. unfold ensure_replica. keeps_op. Qed.
Local Hint Resolve keeps_ensure_replica : keeps_db.
Lemma keeps_restore_components c n a : keeps (on_store I) (restore_components self c n a).
Proof. unfold restore_components. keeps_op. Qed.
Lemma keeps_restore_finish c n a o v ctx : keeps (on_store I) (restore_finish self c n a o v ctx).
Proof. unfold restore_finish. keeps_op. Qed.
Lemma keeps_reopen c : keeps (on_store I) (reopen_checkpoint c).
Proof. unfold reopen_checkpoint. keeps_op. Qed.
Local Hint Resolve keeps_restore_components keeps_restore_finish keeps_reopen : keeps_db.
Lemma keeps_abort_restore a c d ctx : keeps (on_store I) (abort_restore_attempt self a c d ctx).
Proof. unfold abort_restore_attempt. keeps_op. Qed.
Lemma keeps_admit_restore c n o ctx : keeps (on_store I) (admit_restore self c n o ctx).
Proof. unfold admit_restore. keeps_op. Qed.
Lemma keeps_reserve_restore k c n o : keeps (on_store I) (reserve_restore_attempt k c n o).
Proof. unfold reserve_restore_attempt. keeps_op. Qed.
Local Hint Resolve keeps_abort_restore keeps_admit_restore keeps_reserve_restore : keeps_db.
Lemma keeps_request_restore c n o ctx : keeps (on_store I) (request_restore self c n o ctx).
Proof. unfold request_restore, execute_restore. keeps_op. Qed.
Local Hint Resolve keeps_request_restore : keeps_db.
Lemma keeps_rollback c n ctx : keeps (on_store I) (request_rollback self c n ctx).
Proof. unfold request_rollback. keeps_op. Qed.

Lemma keeps_fork c spec ctx : keeps (on_store I) (fork self c spec ctx).
Proof. unfold fork. keeps_op. all: by split_and!. Qed.
Lemma keeps_migrate fuel c n ctx : keeps (on_store I) (migrate self fuel c n ctx).
Proof. revert c. induction fuel as [| fuel IH]; intros c; cbn [migrate]; keeps_op; apply IH. Qed.
Lemma keeps_verify c ctx : keeps (on_store I) (verify_checkpoint self c ctx).
Proof. unfold verify_checkpoint. keeps_op. Qed.
Lemma keeps_protect c p ctx : keeps (on_store I) (protect_checkpoint c p ctx).
Proof. unfold protect_checkpoint. keeps_op. Qed.
Lemma keeps_unprotect c ctx : keeps (on_store I) (unprotect_checkpoint c ctx).
Proof. unfold unprotect_checkpoint. keeps_op. Qed.
Lemma keeps_retire c ctx : keeps (on_store I) (retire_checkpoint self c ctx).
Proof. unfold retire_checkpoint, retire_replica. keeps_op. Qed.
Lemma keeps_candidates ws : keeps (on_store I) (workload_candidates self ws).
Proof. induction ws as [| w ws IH]; cbn [workload_candidates]; keeps_op; apply IH. Qed.
Lemma keeps_compatibility c t ctx : keeps (on_store I) (compatibility self c t ctx).
Proof. unfold compatibility. keeps_op. Qed.
Local Hint Resolve keeps_candidates : keeps_db.

Lemma keeps_attempts l : keeps (on_store I) (reconcile_attempts l).
Proof.
  induction l as [| a l IH]; cbn [reconcile_attempts]; [keeps_op |].
  unfold reconcile_attempt, reconcile_capture, reconcile_restore, reconcile_unknown.
  repeat keeps_step; first [exact IH | leaf].
Qed.
Local Hint Resolve keeps_attempts : keeps_db.
Lemma keeps_reconcile_op ctx : keeps (on_store I) (reconcile ctx).
Proof. unfold reconcile, declare_stale. keeps_op. Qed.
Lemma keeps_recover_on_node act att : keeps (on_store I) (recover_on_node self act att).
Proof. unfold recover_on_node, recovery_resume, recovery_cleanup. keeps_op. Qed.
Local Hint Resolve keeps_reconcile_op keeps_recover_on_node : keeps_db.
Lemma keeps_run_recovery ctx : keeps (on_store I) (run_recovery self ctx).
Proof. unfold run_recovery, recover_action. keeps_op. Qed.
Lemma keeps_sweep ms : keeps (on_store I) (sweep_stale ms).
Proof. unfold sweep_stale, sweep_node, revoke_if_on. keeps_op. Qed.
Lemma keeps_rebind n d l : keeps (on_store I) (rebind_until_error n d l).
Proof. induction l as [| x l IH]; cbn [rebind_until_error]; keeps_op; apply IH. Qed.
Local Hint Resolve keeps_rebind : keeps_db.
Lemma keeps_node_register_op req : keeps (on_store I) (handle_node_register self req).
Proof. unfold handle_node_register. keeps_op. Qed.
Lemma keeps_heartbeat n l : keeps (on_store I) (heartbeat_stale_workloads n l).
Proof.
  induction l as [| x l IH]; cbn [heartbeat_stale_workloads]; [keeps_op |].
  unfold heartbeat_stale. repeat keeps_step; first [exact IH | leaf].
Qed.
Local Hint Resolve keeps_heartbeat keeps_sweep keeps_run_recovery keeps_rollback keeps_fork keeps_migrate
  keeps_verify keeps_protect keeps_unprotect keeps_retire keeps_compatibility keeps_create_workload
  keeps_node_register_op : keeps_db.
Lemma keeps_heartbeat_op req : keeps (on_store I) (handle_node_heartbeat self req).
Proof. unfold handle_node_heartbeat. keeps_op. Qed.
Lemma keeps_merge n v : keeps (on_store I) (merge_node_provider_versions n v).
Proof. unfold merge_node_provider_versions. keeps_op. Qed.
Local Hint Resolve keeps_heartbeat_op keeps_merge : keeps_db.

(** Whatever the statements keep, every request and the monitor keep. *)
Lemma keeps_dispatch fuel request : keeps (on_store I) (dispatch self fuel request).
Proof.
  destruct request; cbn [dispatch dispatch_operations];
    unfold inspect_workload, workload_lineage, checkpoint_lineage, audit_records, store_stats, find_checkpoint, reply_ok, reply, handle_workload_attach, capture_status; keeps_op.
Qed.
Lemma keeps_monitor : keeps (on_store I) (monitor_pass self).
Proof. unfold monitor_pass. keeps_op. Qed.
End operations.

(** * Properties *)

(** Starting a coordinator touches no workload either. *)
Lemma keeps_open `{Env, PolicyCodec} s0 `{!Stable (authority s0)} config :
  keeps (on_store (authority s0)) (open_coordinator config).
Proof.
  assert (Hc : forall r, preserves (authority s0) (claim_coordinator_epoch r)).
  { intros r. eapply (@authority_frames hex_codec); [constructor | apply frames_claim_epoch]. }
  assert (Hi : forall p a, preserves (authority s0) (policy_insert p a)).
  { intros p a. eapply (@authority_frames hex_codec); [constructor | apply frames_policy_insert]. }
  unfold open_coordinator. keeps_auto.
Qed.

(** C5 (safety). Authority is safe under every interleaving.  Let the other threads
    between any two statements of a request do anything that keeps the schema, keeps
    the claims consistent and loses or moves back no workload; let the nodes answer
    anything and the process stop anywhere.  Then every request the coordinator serves,
    every pass of its monitor and every start of a coordinator, however it ends, leaves
    a store with the keys and unique indexes of the schema, in which a workload is held
    by a node with a token granted for its current epoch or by nobody, and in which no
    workload of [s0] is missing, has an older execution epoch or generation, or stopped
    being single-active. *)
Theorem operations_keep_authority
    `{Env, NodeRpc, NodeTexts, HexCodec, PolicyCodec, Sha256, ManifestCodec}
    (self : CoordinatorInner) (s0 : Store) `{!Stable (authority s0)} (w : World) :
  authority s0 (wd_store w) ->
  (forall fuel request, authority s0 (wd_store (snd (dispatch self fuel request w)))) /\
  authority s0 (wd_store (snd (monitor_pass self w))) /\
  (forall config, authority s0 (wd_store (snd (open_coordinator config w)))).
Proof.
  intros Hw. pose proof (@authority_handler _ s0) as HI. split_and!; [intros fuel request | | intros config].
  - exact (keeps_dispatch self (authority s0) HI fuel request w Hw).
  - exact (keeps_monitor self (authority s0) HI w Hw).
  - exact (keeps_open s0 config w Hw).
Qed.

Lemma one_workload_authority : authority one_workload one_workload.
Proof.
  split; [| exact one_workload_claims | apply epochs_from_refl].
  apply (schema_workload_put (idle_workload (id_splat Byte.x09))), schema_empty.
Qed.

Lemma authority_after s0 {A} (op : Tx A) (s : Store) :
  @handler_statement hex_codec A op -> authority s0 s -> authority s0 (after op s).
Proof. intros Hop. apply after_keeps. by apply (@authority_handler hex_codec). Qed.

Lemma scenario_authority : authority one_workload scenario_store.
Proof.
  apply (authority_after one_workload _ _ (hs_workload_claim _ _ _ _)).
  apply (authority_after one_workload _ _ (hs_node_register _ _ _ _ _)).
  apply (authority_after one_workload _ _ (hs_node_register _ _ _ _ _)), one_workload_authority.
Qed.

(** An environment in which another thread fences the workload at every event. *)
Definition fencing_env : Env :=
  {| env_now := fun _ _ => 9; env_random := fun t => id_splat (Byte.x50);
     env_others := fun t s => after (workload_bump_fence wid (Z.of_nat t)) s;
     env_failpoints := fun _ m => m; env_crash := fun t => Nat.eqb t 9 |}.

Lemma fencing_threads : @Threads hex_codec fencing_env.
Proof.
  intros t s. cbn [env_others fencing_env]. unfold after.
  destruct (workload_bump_fence wid (Z.of_nat t) s) as [[a s'] |] eqn:E; [| apply rtc_refl].
  apply rtc_once. exact (step_statement s _ a s' (hs_workload_bump_fence _ _) E).
Qed.

Example operations_keep_authority_witness :
  let w := scenario_world scenario_store in
  authority one_workload (wd_store (snd (@dispatch fencing_env obedient_nodes scenario_texts hex_codec
    Manifest.plain_sha256 Manifest.attempt_codec scenario_coordinator 2
    (QCapture wid CaptureOptions_default (authority_operator "op")) w))).
Proof.
  intros w.
  exact (proj1 (@operations_keep_authority fencing_env obedient_nodes scenario_texts hex_codec
    fixed_policy_codec Manifest.plain_sha256 Manifest.attempt_codec scenario_coordinator one_workload
    (@Threads_Stable hex_codec fencing_env one_workload fencing_threads) w scenario_authority) 2%nat
    (QCapture wid CaptureOptions_default (authority_operator "op"))).
Defined.
