(* ===== verification/NodeStart.v ===== *)
(** The start of a node ([NodeRuntime::start] of [src/src/node.rs]): its configuration, the
    clearing of the staging area, the listener, and the registration with its retries.

    The process around the node is the interface [NodeHost]: its identity, its random boot
    identity, the listener and the monotonic clock.  The clock of the process goes on by
    itself and by the time the process sleeps ([pr_slept]).  The threads that are started at
    the end are [Transport.serve_connection] and [Node.heartbeat_thread]. *)
From S2P Require Import Prelude Errors Ident Lifecycle Checkpoint Workload Compression Policy Compat.
From S2P Require Import Capture Json Restore Failpoints Tables Manifest Messages Coordinator Maintenance Dispatch.
From S2P Require Import Frame Fs Integrity Storage Providers Node NodeFacts Stored Scenario NodeSafety.
From Stdlib Require Import Strings.Byte.

(** * Definitions *)

Record NodeConfig := mkNodeConfig {
  nc_name : string;
  nc_coordinator_addr : string;
  nc_listen_addr : string;
  nc_data_dir : path;
  nc_heartbeat_ms : Z;
  nc_max_connections : Z;
  nc_staging_ttl_ms : Z;
  nc_runtime : RuntimeCompatibilityDescriptor;
  nc_hardware : HardwareCompatibilityDescriptor;
  nc_resources : Json;
  nc_failpoints : option string
}.

(** [NodeConfig::default_in]; [runtime] is [RuntimeCompatibilityDescriptor::local_default()]. *)
Definition default_in (runtime : RuntimeCompatibilityDescriptor) (name coordinator : string) (data_dir : path) : NodeConfig :=
  {| nc_name := name; nc_coordinator_addr := coordinator; nc_listen_addr := "127.0.0.1:0"; nc_data_dir := data_dir;
     nc_heartbeat_ms := 1000; nc_max_connections := 16; nc_staging_ttl_ms := 3600000; nc_runtime := runtime;
     nc_hardware := HardwareCompatibilityDescriptor_default; nc_resources := JObject ∅; nc_failpoints := None |}.

(** The process identity; by the moment, a random identity, the listener bound (with the
    address it reports, if any), and the milliseconds of [Instant::now()] the process
    was awake. *)
Class NodeHost := {
  host_pid : Z;
  host_random : nat -> Id;
  host_bind : nat -> string -> option (option string);
  host_instant : nat -> Z
}.

(** The monotonic clock. *)
Class NodeHostLaws (H : NodeHost) := { host_instant_monotone : forall t u, (t <= u)%nat -> host_instant t <= host_instant u }.

Section start.
Context {App : Type}.

Record Process := mkProcess { pr_node : NodeWorld (App := App); pr_slept : Z }.

Definition in_node {A} (m : M NodeWorld A) : M Process A := fun p =>
  let '(o, w) := m (pr_node p) in (o, mkProcess w (pr_slept p)).

Context `{DiskEnv, Crc32c, Sha256, HexCodec, Zstd, ManifestCodec, NodeTexts, PeerRpc, NodeHost}.

(** The moment of a call of the process. *)
Definition moment (p : Process) : nat := dk_tick (aw_disk (nw_app (pr_node p))).

(** [Instant::now()]. *)
Definition instant (p : Process) : Z := host_instant (moment p) + pr_slept p.

(** [thread::sleep]: time goes on everywhere. *)
Definition sleep (ms : Z) : M Process unit := fun p =>
  let w := pr_node p in
  let a := nw_app w in
  (Done tt, mkProcess (mkNodeWorld (mkAppWorld (mkDisk (dk_fs (aw_disk a)) (S (dk_tick (aw_disk a)))) (aw_app a)) (nw_node w))
              (pr_slept p + ms)).

(** The loop of [register_with_retries]; [None]: out of fuel. *)
Fixpoint register_until (self : NodeRuntime) (fuel : nat) (deadline : Z) (last_err : option FabricError)
    : M Process (option unit) :=
  match fuel with
  | O => mret None
  | S fuel' => fun p =>
      if instant p <? deadline then
        (r ← attempt (in_node (register_once self));
         match r with
         | Ok epoch => in_node (node_set (fun n => n <| ns_coordinator_epoch := epoch |>)) ;; mret (Some tt)
         | Err e => sleep 500 ;; register_until self fuel' deadline (Some e)
         end) p
      else raise (default (Timeout "node registration timed out") last_err) p
  end.

(** [register_with_retries]. *)
Definition REGISTER_DEADLINE_MS : Z := 30000.
Definition register_with_retries (self : NodeRuntime) (fuel : nat) : M Process (option unit) := fun p =>
  register_until self fuel (instant p + REGISTER_DEADLINE_MS) None p.

(** The state of the node in [NodeRuntime::start]; the failpoints belong to the process. *)
Definition initial_state (armed : Armed) : NodeState (App := App) :=
  {| ns_providers := ∅; ns_attached := ∅; ns_coordinator_epoch := 0; ns_coordinator := false; ns_fetch_tokens := ∅;
     ns_staging_leases := ∅; ns_quiesced_captures := ∅; ns_pending_restores := ∅; ns_failpoints := armed; ns_stop := false |}.

(** The fixed part of the runtime. *)
Definition node_id_of (name boot_id : string) : string :=
  name +:+ "@" +:+ pretty host_pid +:+ "@" +:+ String.substring 0 8 boot_id.
Definition runtime_of (config : NodeConfig) (boot_id : string) (listen : option string) : NodeRuntime :=
  {| nr_node_id := node_id_of (nc_name config) boot_id; nr_boot_id := boot_id; nr_listen_addr := listen;
     nr_data_dir := path_text (nc_data_dir config); nr_runtime := nc_runtime config; nr_hardware := nc_hardware config;
     nr_resources := nc_resources config; nr_staging_ttl_ms := nc_staging_ttl_ms config;
     nr_storage := mkLocalStorage (nc_data_dir config) |}.

(** [TcpListener::bind] and [local_addr().ok()]. *)
Definition bind_listener (addr : string) : M Process (option string) := fun p =>
  match host_bind (moment p) addr with
  | Some listen => (Done listen, p)
  | None => (Raise (TransportError "node listener: {e}"), p)
  end.

Definition arm_failpoints (spec : option string) : M Process unit :=
  in_node (node_set (fun n => match spec with
                              | Some fp => n <| ns_failpoints := arm_from_spec fp (ns_failpoints n) |>
                              | None => n
                              end)).

(** [NodeRuntime::start], up to its threads. *)
Definition start (fuel : nat) (config : NodeConfig) : M Process (option NodeRuntime) :=
  arm_failpoints (nc_failpoints config) ;;
  boot ← (fun p => (Done (host_random (moment p)), p));
  let boot_id := to_hex boot in
  let storage := mkLocalStorage (nc_data_dir config) in
  in_node (disk (storage_new storage)) ;;
  in_node (disk (recover_partial storage ∅)) ;;
  listen ← bind_listener (nc_listen_addr config);
  let this := runtime_of config boot_id listen in
  in_node (node_set (fun n => initial_state (ns_failpoints n))) ;;
  r ← register_with_retries this fuel;
  mret (match r with Some _ => Some this | None => None end).
End start.

(** * Lemmas *)

Section start_facts.
Context {App : Type}.
Context `{DiskEnv, Crc32c, Sha256, HexCodec, Zstd, ManifestCodec, NodeTexts, PeerRpc, NodeHost}.
Implicit Types (p : Process (App := App)) (w : NodeWorld (App := App)).

Lemma keeps_call {A} P (f : nat -> FabricResult A) : keeps P (remote (App := App) f).
Proof. intros w Hw. unfold remote, lift. by destruct (f _). Qed.

(** ** Committed checkpoints *)

Section images.
Context (st : LocalStorage) (id : Id) (img : gmap path node).
Let I : Fs -> Prop := kept st id False img.
Let J (w : NodeWorld (App := App)) : Prop := I (dk_fs (aw_disk (nw_app w))).
Let K (p : Process (App := App)) : Prop := J (pr_node p).

Lemma keeps_in_node {A} (m : M NodeWorld A) : keeps J m -> keeps K (in_node m).
Proof. intros Hm p Hp. specialize (Hm (pr_node p) Hp). unfold in_node. by destruct (m (pr_node p)) as [o w]. Qed.
Lemma keeps_node_disk {A} (m : M Disk A) : keeps (on_fs I) m -> keeps J (disk m).
Proof.
  intros Hm [[d a] n] Hw. specialize (Hm d Hw). unfold disk, in_app, on_disk. cbn in *.
  by destruct (m d) as [o d'].
Qed.
Lemma keeps_node_state (f : NodeState -> NodeState) : keeps J (node_set f).
Proof. by intros w Hw. Qed.

Lemma keeps_storage_new : keeps (on_fs I) (storage_new st).
Proof.
  apply keeps_bind; [| intros _]; apply keeps_create, kept_bears; intros [r Hr];
    unfold commit_dir, checkpoints_dir, staging_root in Hr; rewrite <- !(assoc_L (++)) in Hr;
    apply app_inv_head in Hr; discriminate Hr.
Qed.

Lemma keeps_recover_partial keep : keeps (on_fs I) (recover_partial st keep).
Proof.
  apply keeps_bind; [apply keeps_attempt, keeps_look |]. intros [names | e]; [| apply keeps_ret].
  induction names as [| name names IH]; cbn [remove_abandoned]; [apply keeps_ret |].
  apply keeps_bind; [apply reader_is_dir |]. intros dir. destruct (negb dir || _); [exact IH |].
  apply keeps_ret_bind. apply keeps_bind; [| intros; apply keeps_bind; [exact IH | intros; apply keeps_ret]].
  apply keeps_remove, kept_ignores. unfold staging_root, commit_dir, checkpoints_dir.
  rewrite <- !(assoc_L (++)). by apply apart_fork.
Qed.

Lemma keeps_register_once self : nr_storage self = st -> keeps J (register_once self).
Proof.
  intros Hst. unfold register_once. rewrite Hst. apply keeps_bind; [apply keeps_call |]. intros _.
  apply keeps_bind; [apply keeps_lift |]. intros addr.
  apply keeps_bind; [apply keeps_node_disk, keeps_bind; [apply keeps_look |] |].
  { intros names. apply keeps_bind; [rewrite <- Hst at 1; apply (reader_committed_of self) | intros; apply keeps_ret]. }
  intros committed. apply keeps_bind; [by intros w Hw |]. intros epoch.
  apply keeps_bind; [apply keeps_call |]. intros resp.
  apply keeps_bind; [apply keeps_node_state |]. intros _. destruct (rgr_accepted resp); [| apply keeps_raise].
  apply keeps_bind; [apply keeps_node_state | intros; apply keeps_ret].
Qed.

Lemma keeps_register_until self fuel deadline e : nr_storage self = st -> keeps K (register_until self fuel deadline e).
Proof.
  intros Hst. revert e. induction fuel as [| fuel IH]; intros e; cbn [register_until]; [apply keeps_ret |].
  intros p Hp. destruct (instant p <? deadline); [| exact Hp].
  refine (keeps_bind _ _ _ (keeps_attempt _ _ (keeps_in_node _ (keeps_register_once self Hst))) _ p Hp).
  intros [epoch | e']; (apply keeps_bind; [| intros _]); [apply keeps_in_node, keeps_node_state | apply keeps_ret | intros q Hq; exact Hq | apply IH].
Qed.

Lemma keeps_start fuel config : st = mkLocalStorage (nc_data_dir config) -> keeps K (start fuel config).
Proof.
  intros Hst. unfold start. rewrite <- Hst.
  apply keeps_bind; [apply keeps_in_node, keeps_node_state |]. intros _.
  apply keeps_bind; [by intros p Hp |]. intros boot.
  apply keeps_bind; [apply keeps_in_node, keeps_node_disk, keeps_storage_new |]. intros _.
  apply keeps_bind; [apply keeps_in_node, keeps_node_disk, keeps_recover_partial |]. intros removed.
  apply keeps_bind; [intros p Hp; unfold bind_listener; by destruct (host_bind _ _) |]. intros listen.
  apply keeps_bind; [apply keeps_in_node, keeps_node_state |]. intros _.
  apply keeps_bind; [| intros [u |]; apply keeps_ret]. intros p Hp. by apply keeps_register_until.
Qed.
End images.

(** ** The clock *)

Section clock.
Context (t0 : nat).
Let J (d : Disk) : Prop := (t0 <= dk_tick d)%nat.
Let K (w : NodeWorld (App := App)) : Prop := J (aw_disk (nw_app w)).

Lemma later_look {A} (f : nat -> Fs -> option A) : keeps J (look f).
Proof.
  intros d Hd. unfold look. unfold J in *.
  destruct (disk_outcome _); [destruct (f _ _) |..]; cbn; lia.
Qed.
Lemma later_or_else {A} (m : M Disk A) a : keeps J m -> keeps J (or_else m a).
Proof. intros Hm. apply keeps_bind; [by apply keeps_attempt |]. intros [x | e]; apply keeps_ret. Qed.

Lemma later_committed_of st names : keeps J (committed_of st names).
Proof.
  induction names as [| name names IH]; cbn [committed_of]; [apply keeps_ret |].
  assert (Htest : forall (a b : M Disk bool), keeps J a -> keeps J b -> keeps J (both a b)).
  { intros a b Ha Hb. apply keeps_bind; [exact Ha |]. intros []; [exact Hb | apply keeps_ret]. }
  assert (Hc : forall q, keeps J (is_committed_dir q)).
  { intros q. repeat apply Htest; apply later_or_else, later_look. }
  apply keeps_bind; [apply later_or_else, later_look |]. intros dir.
  apply keeps_bind; [| intros ids; apply keeps_bind; [exact IH | intros; apply keeps_ret]].
  destruct (from_hex name) as [i | e]; [| apply keeps_ret]. destruct dir; [| apply keeps_ret].
  apply keeps_bind; [apply Hc | intros; apply keeps_ret].
Qed.

Lemma later_enumerate st : keeps J (enumerate_committed st).
Proof.
  apply keeps_bind; [apply later_look |]. intros names.
  apply keeps_bind; [apply later_committed_of | intros; apply keeps_ret].
Qed.
Lemma later_disk {A} (m : M Disk A) : keeps J m -> keeps K (disk m).
Proof.
  intros Hm [[d a] n] Hw. specialize (Hm d Hw). unfold disk, in_app, on_disk. cbn in *. by destruct (m d) as [o d'].
Qed.

Lemma later_register_once self : keeps K (register_once self).
Proof.
  unfold register_once. apply keeps_bind; [apply keeps_call |]. intros _.
  apply keeps_bind; [apply keeps_lift |]. intros addr.
  apply keeps_bind; [apply later_disk, later_enumerate |].
  intros committed. apply keeps_bind; [by intros w Hw |]. intros epoch.
  apply keeps_bind; [apply keeps_call |]. intros resp.
  apply keeps_bind; [by intros w Hw |]. intros _. destruct (rgr_accepted resp); [| apply keeps_raise].
  apply keeps_bind; [by intros w Hw | intros; apply keeps_ret].
Qed.
End clock.

(** ** Registration *)

Lemma disk_node {A} (m : M Disk A) w : nw_node (disk m w).2 = nw_node w.
Proof. unfold disk, in_app, on_disk. by destruct (m _). Qed.

Lemma in_node_disk {A} (m : M Disk A) p :
  pr_slept (in_node (disk m) p).2 = pr_slept p /\ nw_node (pr_node (in_node (disk m) p).2) = nw_node (pr_node p).
Proof. unfold in_node. pose proof (disk_node m (pr_node p)) as Hn. by destruct (disk m (pr_node p)). Qed.

(** The coordinator has accepted the node under [epoch]. *)
Definition accepted_by (self : NodeRuntime) (epoch : Z) : Prop :=
  exists t req resp, coordinator_register t req = Ok resp /\ rgr_accepted resp = true /\ rgr_coordinator_epoch resp = epoch /\
    rgq_node_id req = nr_node_id self /\ rgq_boot_id req = nr_boot_id self /\
    nr_listen_addr self = Some (rgq_listen_addr req).

Definition adopted (epoch : Z) (n : NodeState (App := App)) : NodeState := n <| ns_coordinator_epoch := epoch |>.
Definition joined (n : NodeState (App := App)) : NodeState := n <| ns_coordinator := true |>.

Lemma adopted_same n : adopted (ns_coordinator_epoch n) n = n.
Proof. by destruct n. Qed.

Lemma register_once_spec self w :
  match register_once self w with
  | (Done epoch, w') => accepted_by self epoch /\ nw_node w' = joined (adopted epoch (nw_node w))
  | (_, w') => exists e, nw_node w' = adopted e (nw_node w)
  end.
Proof.
  unfold register_once, mbind, M_bind. unfold remote at 1, lift at 1.
  destruct (coordinator_connect _) as [u | e]; [| eexists; by rewrite adopted_same]. unfold lift at 1.
  destruct (nr_listen_addr self) as [addr |] eqn:Ha; cbn [ok_or]; [| eexists; by rewrite adopted_same].
  pose proof (disk_node (enumerate_committed (nr_storage self)) w) as Hn.
  destruct (disk _ w) as [[committed | e |] w1]; cbn [snd] in Hn; [| exists (ns_coordinator_epoch (nw_node w)); by rewrite adopted_same..].
  unfold node_get, remote, lift. destruct (coordinator_register _ _) as [resp | e] eqn:Hr;
    [| exists (ns_coordinator_epoch (nw_node w)); by rewrite adopted_same].
  unfold node_set at 1. cbn [nw_node nw_app]. destruct (rgr_accepted resp) eqn:Hacc; cbn; rewrite <- Hn; [| by eexists].
  split; [| done]. do 3 eexists. split_and!; [exact Hr | exact Hacc | done..].
Qed.

Lemma register_once_later self w :
  (dk_tick (aw_disk (nw_app w)) <= dk_tick (aw_disk (nw_app (register_once self w).2)))%nat.
Proof. by apply (later_register_once (dk_tick (aw_disk (nw_app w)))). Qed.

(** Every refusal sleeps, so [n] refusals reach a deadline that is [n] sleeps away. *)
Lemma register_until_spec `{!NodeHostLaws _} self n : forall fuel deadline e p,
  (n < fuel)%nat -> deadline - instant p <= 500 * Z.of_nat n ->
  let '(o, p') := register_until self fuel deadline e p in
  o <> Done None /\ pr_slept p' <= pr_slept p + 500 * Z.of_nat n /\
  (o = Done (Some tt) -> exists epoch, accepted_by self epoch /\
     nw_node (pr_node p') = joined (adopted epoch (nw_node (pr_node p)))).
Proof.
  induction n as [| n IH]; intros [| fuel] deadline e p Hf Hd; [lia | | lia |]; cbn [register_until].
  { rewrite (proj2 (Z.ltb_ge _ _)) by lia. cbn. split_and!; [done | lia | done]. }
  destruct (instant p <? deadline); [| cbn; split_and!; [done | lia | done]].
  unfold mbind, M_bind, attempt. unfold in_node at 1.
  pose proof (register_once_spec self (pr_node p)) as Hs. pose proof (register_once_later self (pr_node p)) as Hl.
  destruct (register_once self (pr_node p)) as [[epoch | er |] w]; cbn [snd] in Hl; cbv iota beta.
  - destruct Hs as (Ha & Hn). cbn. split_and!; [done | lia |]. intros _. exists epoch. split; [exact Ha |]. by rewrite Hn.
  - destruct Hs as (ep & Hn). unfold sleep. cbn [pr_slept pr_node nw_app nw_node aw_disk aw_app dk_fs dk_tick].
    set (p2 := mkProcess _ _). specialize (IH fuel deadline (Some er) p2 ltac:(lia)).
    assert (Hi : instant p + 500 <= instant p2).
    { unfold instant, moment, p2. cbn.
      pose proof (host_instant_monotone (dk_tick (aw_disk (nw_app (pr_node p)))) (S (dk_tick (aw_disk (nw_app w)))) ltac:(lia)). lia. }
    specialize (IH ltac:(lia)). destruct (register_until self fuel deadline (Some er) p2) as [o p']. destruct IH as (? & Hsl & Hok).
    split_and!; [done | cbn in Hsl; lia |]. intros Ho. destruct (Hok Ho) as (epoch & Ha & Hn'). exists epoch. split; [exact Ha |].
    rewrite Hn'. cbn. by rewrite Hn.
  - cbn. split_and!; [done | lia | done].
Qed.

(** * Properties *)

(** C23 (termination). A node starts or gives up.  With whatever the coordinator
    answers, the disk fails and the process stops, the registration ends within thirty
    seconds of sleep after at most sixty refusals, no committed checkpoint of the
    previous process is touched, and a node that has started was accepted by the
    coordinator under its own identity and address, has adopted the epoch of that
    answer, and begins without workloads, leases, tokens or pending operations. *)
Theorem node_start_spec `{!NodeHostLaws _} fuel config p :
  (60 < fuel)%nat ->
  let storage := mkLocalStorage (nc_data_dir config) in
  let '(o, p') := start fuel config p in
  o <> Done None /\ pr_slept p' <= pr_slept p + REGISTER_DEADLINE_MS /\
  (forall id, image storage id (fs_of (pr_node p')) = image storage id (fs_of (pr_node p))) /\
  (forall this, o = Done (Some this) -> exists boot listen epoch, this = runtime_of config (to_hex boot) listen /\
     accepted_by this epoch /\
     nw_node (pr_node p') = joined (adopted epoch (initial_state
       (match nc_failpoints config with
        | Some fp => arm_from_spec fp (ns_failpoints (nw_node (pr_node p)))
        | None => ns_failpoints (nw_node (pr_node p))
        end)))).
Proof.
  intros Hf storage.
  assert (Himg : forall id, image storage id (fs_of (pr_node (start fuel config p).2)) = image storage id (fs_of (pr_node p))).
  { intros id. destruct (keeps_start storage id (image storage id (fs_of (pr_node p))) fuel config eq_refl p) as [Hi | []]; [by left | exact Hi]. }
  revert Himg. unfold start. fold storage. unfold mbind, M_bind.
  set (armed := match nc_failpoints config with Some _ => _ | None => _ end).
  assert (Ha : exists p1, arm_failpoints (nc_failpoints config) p = (Done tt, p1) /\ pr_slept p1 = pr_slept p /\
    ns_failpoints (nw_node (pr_node p1)) = armed).
  { eexists. split; [reflexivity |]. unfold armed. cbn. by destruct (nc_failpoints config). }
  destruct Ha as (p1 & -> & Hs1 & Ha1). clearbody armed.
  pose proof (in_node_disk (storage_new storage) p1) as Hp2.
  destruct (in_node (disk (storage_new storage)) p1) as [[u | e |] p2]; cbn [snd] in *;
    [| intros Himg; unfold REGISTER_DEADLINE_MS; split_and!; [done | lia | exact Himg | done]..].
  pose proof (in_node_disk (recover_partial storage ∅) p2) as Hp3.
  destruct (in_node (disk (recover_partial storage ∅)) p2) as [[r | e |] p3]; cbn [snd] in *;
    [| intros Himg; unfold REGISTER_DEADLINE_MS; split_and!; [done | lia | exact Himg | done]..].
  unfold bind_listener. destruct (host_bind (moment p3) _) as [listen |];
    [| intros Himg; unfold REGISTER_DEADLINE_MS; split_and!; [done | lia | exact Himg | done]].
  set (p4 := mkProcess (mkNodeWorld (nw_app (pr_node p3)) (initial_state armed)) (pr_slept p3)).
  assert (Hp4 : in_node (node_set (fun n => initial_state (ns_failpoints n))) p3 = (Done tt, p4)).
  { unfold p4, in_node, node_set. cbn. destruct Hp2 as [_ Hp2], Hp3 as [_ Hp3]. by rewrite Hp3, Hp2, Ha1. }
  rewrite Hp4. set (this := runtime_of config _ listen). unfold register_with_retries.
  pose proof (register_until_spec this 60 fuel (instant p4 + REGISTER_DEADLINE_MS) None p4 Hf ltac:(unfold REGISTER_DEADLINE_MS; lia)) as Hr.
  destruct (register_until this fuel _ None p4) as [[[[] |] | e |] p5]; destruct Hr as (Hne & Hs5 & Hok); cbn in Hs5;
    (intros Himg; split_and!; [done | unfold REGISTER_DEADLINE_MS; lia | exact Himg |]); try done.
  intros this' [= <-]. destruct (Hok eq_refl) as (epoch & Hacc & Hn). by exists (host_random (moment p1)), listen, epoch.
Qed.
End start_facts.

(** ** A start against a coordinator that comes up late *)

#[local] Existing Instances calm_disk castagnoli checksum_sha256 hex_codec identity_zstd scenario_texts.

(** The coordinator refuses the connection, then the epoch, then accepts. *)
Definition late_coordinator : PeerRpc :=
  {| peer_connect := fun _ _ => Ok tt;
     peer_fetch_manifest := fun _ _ _ => Err (Internal "no peer");
     peer_fetch_component := fun _ _ _ => Err (Internal "no peer");
     coordinator_attach := fun _ _ => Err (Internal "no coordinator");
     coordinator_connect := fun t => if (t <? 6)%nat then Err (TransportError "connect") else Ok tt;
     coordinator_register := fun _ req =>
       Ok (if rgq_coordinator_epoch req =? 7 then mkNodeRegisterResponse true 7 None
           else mkNodeRegisterResponse false 7 (Some "stale coordinator epoch"));
     coordinator_heartbeat := fun _ _ => Err (Internal "no coordinator") |}.

Definition a_host : NodeHost :=
  {| host_pid := 42; host_random := fun _ => id_splat Byte.xab; host_bind := fun _ addr => Some (Some addr);
     host_instant := fun t => Z.of_nat t |}.

Lemma a_host_laws : NodeHostLaws a_host.
Proof. split. intros t u Htu. cbn. lia. Qed.

Definition a_config : NodeConfig :=
  default_in (local_default "linux" "x86_64" "1") "n" "127.0.0.1:7901" ["data"] .

(** The disk of a node that stopped while capturing, next to a committed checkpoint. *)
Definition old_process : Process :=
  mkProcess (mkNodeWorld (mkAppWorld (mkDisk
    {[ [] := Dir; ["data"] := Dir; ["data"; "staging"] := Dir; ["data"; "staging"; "a1"] := Dir;
       ["data"; "checkpoints"] := Dir; ["data"; "checkpoints"; to_hex (id_splat Byte.x01)] := Dir ]} 0) tt)
    (initial_state ∅)) 0.

Definition late_start : outcome (option NodeRuntime) * Process :=
  start (H6 := late_coordinator) (H7 := a_host) 61 a_config old_process.

Lemma late_start_runs : exists this, late_start.1 = Done (Some this) /\ pr_slept late_start.2 = 1000.
Proof. eexists. vm_compute. split; reflexivity. Qed.

Example node_start_spec_witness :
  exists this epoch, late_start.1 = Done (Some this) /\ accepted_by (H6 := late_coordinator) this epoch /\
    ns_coordinator_epoch (nw_node (pr_node late_start.2)) = epoch.
Proof.
  pose proof (node_start_spec (H6 := late_coordinator) (H7 := a_host) (NodeHostLaws0 := a_host_laws) 61 a_config old_process
    ltac:(lia)) as Hs.
  destruct late_start_runs as (this & Hthis & _). fold late_start in Hs. cbv zeta in Hs.
  destruct late_start as [o p']. cbn [fst snd] in *.
  destruct Hs as (_ & _ & _ & Hs). destruct (Hs this Hthis) as (boot & listen & epoch & _ & Hacc & Hn).
  exists this, epoch. split; [exact Hthis |]. split; [exact Hacc |]. by rewrite Hn.
Defined.
