(* ===== verification/Cli.v ===== *)
(** The command line ([src/src/cli.rs], [src/src/cli_impl.rs], [src/src/main.rs]).

    [clap] parses the arguments into a [Cli]; the model begins there.  A command talks to
    the coordinator through [CoordinatorLink]: one connection, and calls with the bytes of
    payloads.  [CliFacts] has an instance over the dispatcher itself, [Wire] one over a
    network.  What a command prints are [Line]s, with JSON as the value that is printed;
    its end is an exit code.  The two commands that start a process run it through
    [Daemon].

    An error of [anyhow] is its message. *)
From S2P Require Import Prelude Errors Ident Lifecycle Checkpoint Workload Compression Policy Compat.
From S2P Require Import Capture Json Restore Failpoints Tables Persist Messages Coordinator Maintenance Dispatch.
From S2P Require Import Frame Fs Node Transport Payload NodeStart.
From Stdlib Require Import Strings.Ascii Strings.Byte.

(** * Definitions *)

(** ** Arguments *)

Inductive CoordinatorCmd : Type :=
| CoordinatorStart (data_dir listen : string) (epoch : option Z) (policy_file : option string) (stale_ms : option Z)
| CoordinatorStop.

Inductive NodeCmd : Type :=
| NodeStart (name data_dir coordinator listen : string) (heartbeat_ms : option Z).

Inductive WorkloadCmd : Type :=
| WorkloadCreate (owner class backend : string) (schema : Z) (single_active : bool) (node : option string)
| WorkloadInspect (workload_id : string)
| WorkloadList
| WorkloadFence (workload_id : string)
| WorkloadLineage (workload_id : string).

Inductive CheckpointCmd : Type :=
| CheckpointInspect (checkpoint_id : string)
| CheckpointList (workload_id : option string)
| CheckpointVerify (checkpoint_id : string)
| CheckpointProtect (checkpoint_id : string)
| CheckpointPin (checkpoint_id : string)
| CheckpointUnprotect (checkpoint_id : string)
| CheckpointRetire (checkpoint_id : string)
| CheckpointLineage (checkpoint_id : string).

Inductive Command : Type :=
| CmdCoordinator (cmd : CoordinatorCmd)
| CmdNode (cmd : NodeCmd)
| CmdWorkload (cmd : WorkloadCmd)
| CmdCapture (workload_id : string) (consistency : option string) (quiescence components : string) (metadata : option string)
| CmdCaptureStatus (attempt_id : string)
| CmdCheckpoint (cmd : CheckpointCmd)
| CmdRestore (checkpoint_id node : string) (no_resume force : bool)
| CmdRollback (checkpoint_id node : string)
| CmdFork (checkpoint_id owner class backend : string) (single_active : bool)
| CmdMigrate (checkpoint_id node : string)
| CmdCompatibility (checkpoint_id : string) (os arch backend : option string)
| CmdAudit (since_ms : option Z) (limit : Z)
| CmdRecovery (dry_run : bool)
| CmdStats
| CmdNodes.

Record Cli := mkCli { cli_coordinator : string; cli_json : bool; cli_command : Command }.

(** ** The surroundings of the process *)

(** The coordinator as a client reaches it. *)
Class CoordinatorLink (W : Type) := {
  link_connect : string -> W -> FabricResult unit * W;
  link_call : Op.Op -> list byte -> W -> FabricResult (list byte) * W
}.

(** The environment variable, files, the resolution of paths, and what the process was
    compiled for. *)
Class CliHost := {
  cli_failpoint : option string;
  cli_read : string -> option string;
  cli_path : string -> path;
  cli_os : string;
  cli_arch : string;
  cli_version : string
}.

(** A server process that a command starts and waits for: its start (with the text it
    announces), the signal handler, the stop flag, the passing of time, and its end. *)
Record Daemon (C W : Type) := mkDaemon {
  dm_start : C -> M W string;
  dm_set_handler : W -> bool * W;
  dm_stop : W -> bool;
  dm_sleep : W -> W;
  dm_shutdown : W -> W
}.
Arguments dm_start {C W}.
Arguments dm_set_handler {C W}.
Arguments dm_stop {C W}.
Arguments dm_sleep {C W}.
Arguments dm_shutdown {C W}.

(** ** Effects of a command *)

(** The values that are printed as JSON. *)
Inductive Printable : Type := PValue (v : Json) | PWorkload (w : Workload) | PEnvelope (e : Envelope).

Inductive Line : Type :=
| Printed (s : string)
| PrintedJson (pretty_ : bool) (value : Printable)
| Complained (s : string).

Inductive Step (A : Type) : Type :=
| Value (a : A)
| Bail (message : string)
| Exit (code : Z)
| Waiting
| Killed.
Arguments Value {A} a.
Arguments Bail {A} message.
Arguments Exit {A} code.
Arguments Waiting {A}.
Arguments Killed {A}.

Record Run (W : Type) := mkRun { rn_world : W; rn_lines : list Line }.
Arguments mkRun {W}.
Arguments rn_world {W}.
Arguments rn_lines {W}.

Definition Cmd (W A : Type) : Type := Run W -> Step A * Run W.

#[export] Instance Cmd_ret {W} : MRet (Cmd W) := fun A a r => (Value a, r).
#[export] Instance Cmd_bind {W} : MBind (Cmd W) := fun A B k m r =>
  match m r with
  | (Value a, r') => k a r'
  | (Bail s, r') => (Bail s, r')
  | (Exit c, r') => (Exit c, r')
  | (Waiting, r') => (Waiting, r')
  | (Killed, r') => (Killed, r')
  end.

Section effects.
Context {W : Type}.

Definition bail {A} (message : string) : Cmd W A := fun r => (Bail message, r).
Definition exit_with {A} (code : Z) : Cmd W A := fun r => (Exit code, r).
Definition print (l : Line) : Cmd W unit := fun r => (Value tt, mkRun (rn_world r) (rn_lines r ++ [l])).

(** [?] on a result of the fabric, and on an option with the message of its error. *)
Definition fabric {A} (r : FabricResult A) : Cmd W A :=
  match r with Ok a => mret a | Err e => bail (display e) end.
Definition some_or {A} (o : option A) (message : string) : Cmd W A :=
  match o with Some a => mret a | None => bail message end.

Definition on_world {A} (f : W -> FabricResult A * W) : Cmd W A := fun r =>
  let '(x, w) := f (rn_world r) in fabric x (mkRun w (rn_lines r)).
End effects.

(** ** Commands *)

Section commands.
Context {W : Type} `{CoordinatorLink W, CliHost, HexCodec, NodeTexts, EnvelopeCodec, RequestSerde, ReplySerde}.

Definition local_runtime : RuntimeCompatibilityDescriptor := local_default cli_os cli_arch cli_version.

Definition connect (addr : string) : Cmd W unit := on_world (link_connect addr).
Definition call (op : Op.Op) (payload : list byte) : Cmd W (list byte) := on_world (link_call op payload).
Definition id_arg (s : string) : Cmd W Id := fabric (from_hex s).

(** [Envelope::is_ok]. *)
Definition envelope_is_ok (e : Envelope) : bool := en_status e =? 0.
(** The envelope of a reply that is an error. *)
Definition error_of (payload : list byte) : option Envelope :=
  e ← envelope_from_slice payload; if envelope_is_ok e then None else Some e.
Definition error_text (e : Envelope) : string := default "unknown error" (en_error e).

Definition print_value (json : bool) (value : Printable) : Cmd W unit := print (PrintedJson json value).

(** [emit]. *)
Definition emit (json : bool) (payload : list byte) : Cmd W unit :=
  match error_of payload with
  | Some e =>
      print (if json then PrintedJson true (PEnvelope e) else Complained ("error: " +:+ error_text e)) ;;
      exit_with 1
  | None =>
      value ← some_or (value_from_slice payload) "{e}";
      print_value json (PValue value)
  end.

(** [expect_ok]. *)
Definition expect_ok (op : Op.Op) (payload : list byte) : Cmd W unit :=
  response ← call op payload;
  match error_of response with Some e => bail (error_text e) | None => mret tt end.

(** [RpcClient::call_json]. *)
Definition call_json {R} `{Serde R} (op : Op.Op) (bytes : list byte) : Cmd W R :=
  response ← call op bytes;
  some_or (from_slice response) (display (ProtocolError "bad response payload: {e}")).

Definition cli_spec (owner class backend : string) (schema : Z) (single_active : bool) : WorkloadSpec :=
  {| ws_workload_id := None; ws_owner := owner; ws_class := class; ws_backend_class := backend;
     ws_state_schema_version := schema; ws_runtime := local_runtime; ws_metadata := "{}";
     ws_protection := ProtectionSpec_default; ws_single_active := single_active |}.

(** The requests that name a workload or a checkpoint. *)
Definition workload_request (i : Id) : list byte := to_vec (mkWorkloadIdRequest i (authority_operator "cli")).
Definition checkpoint_request (i : Id) : list byte := to_vec (mkCheckpointIdRequest i (authority_operator "cli")).

(** The request that lists workloads, nodes or statistics. *)
Definition empty_object : list byte := String.list_byte_of_string "{}".

Definition run_workload (json : bool) (cmd : WorkloadCmd) : Cmd W unit :=
  match cmd with
  | WorkloadCreate owner class backend schema single_active node =>
      let req := mkWorkloadCreateRequest (cli_spec owner class backend schema single_active) (authority_owner "cli") node in
      resp ← call_json (R := WorkloadCreateResponse) Op.WorkloadCreate (to_vec req);
      print_value json (PWorkload (wcr_workload resp))
  | WorkloadInspect workload_id =>
      i ← id_arg workload_id; payload ← call Op.WorkloadInspect (workload_request i); emit json payload
  | WorkloadList => payload ← call Op.WorkloadList empty_object; emit json payload
  | WorkloadFence workload_id =>
      i ← id_arg workload_id; payload ← call Op.WorkloadFence (workload_request i); emit json payload
  | WorkloadLineage workload_id =>
      i ← id_arg workload_id; payload ← call Op.WorkloadLineage (workload_request i); emit json payload
  end.

(** The options of [capture]. *)
Definition parse_consistency (s : option string) : Cmd W (option ConsistencyClass) :=
  match s with
  | None => mret None
  | Some s =>
      if bool_decide (s ∈ ["crash"; "CRASH_CONSISTENT"]) then mret (Some CrashConsistent)
      else if bool_decide (s ∈ ["application"; "APPLICATION_CONSISTENT"]) then mret (Some ApplicationConsistent)
      else if bool_decide (s ∈ ["execution"; "EXECUTION_CONSISTENT"]) then mret (Some ExecutionConsistent)
      else bail "unknown consistency class '{other}'"
  end.
Definition parse_quiescence (s : string) : Cmd W QuiescenceMode :=
  let s := to_lowercase s in
  if bool_decide (s = "cooperative") then mret Cooperative
  else if bool_decide (s = "forced") then mret Forced
  else if bool_decide (s = "none") then mret NoQuiescence
  else bail "unknown quiescence mode '{other}'".
Definition component_ids (components : string) : list string :=
  filter (fun s => s <> "") (map trim (split_on ","%char components)).
Definition component_request (component_id : string) : CaptureComponentRequest :=
  mkCaptureComponentRequest component_id CustomState true 1 "cli".

Definition run_capture (json : bool) (workload_id : string) (consistency : option string)
    (quiescence components : string) (metadata : option string) : Cmd W unit :=
  consistency ← parse_consistency consistency;
  quiescence ← parse_quiescence quiescence;
  metadata ← match metadata with
             | Some m => v ← some_or (json_parse m) "{e}"; mret (json_print v)
             | None => mret "{}"
             end;
  let options := {| co_consistency := consistency; co_quiescence := quiescence; co_frontier := None;
                    co_side_effects := None; co_components := map component_request (component_ids components);
                    co_metadata := metadata |} in
  i ← id_arg workload_id;
  payload ← call Op.Capture (to_vec (mkCaptureRequest i options (authority_owner "cli")));
  emit json payload.

Definition run_capture_status (json : bool) (attempt_id : string) : Cmd W unit :=
  payload ← call Op.CaptureStatus (to_vec (mkAttemptStatusRequest attempt_id)); emit json payload.

Definition run_checkpoint (json : bool) (cmd : CheckpointCmd) : Cmd W unit :=
  match cmd with
  | CheckpointInspect c => i ← id_arg c; payload ← call Op.CheckpointInspect (checkpoint_request i); emit json payload
  | CheckpointList workload_id =>
      i ← match workload_id with Some w => i ← id_arg w; mret (Some i) | None => mret None end;
      payload ← call Op.CheckpointList (to_vec (mkCheckpointListRequest i)); emit json payload
  | CheckpointVerify c => i ← id_arg c; payload ← call Op.CheckpointVerify (checkpoint_request i); emit json payload
  | CheckpointProtect c => i ← id_arg c; expect_ok Op.CheckpointProtect (checkpoint_request i) ;; print (Printed "protected")
  | CheckpointPin c => i ← id_arg c; expect_ok Op.CheckpointProtect (checkpoint_request i) ;; print (Printed "pinned")
  | CheckpointUnprotect c => i ← id_arg c; expect_ok Op.CheckpointUnprotect (checkpoint_request i) ;; print (Printed "unprotected")
  | CheckpointRetire c => i ← id_arg c; expect_ok Op.CheckpointRetire (checkpoint_request i) ;; print (Printed "retired")
  | CheckpointLineage c => i ← id_arg c; payload ← call Op.CheckpointLineage (checkpoint_request i); emit json payload
  end.

Definition run_restore (json : bool) (checkpoint_id node : string) (no_resume force : bool) : Cmd W unit :=
  let options := mkRestoreOptions (negb no_resume) false force None [] in
  i ← id_arg checkpoint_id;
  payload ← call Op.Restore (to_vec (mkRestoreRequest i node options (authority_operator "cli")));
  emit json payload.

Definition run_rollback (json : bool) (checkpoint_id node : string) : Cmd W unit :=
  let options := mkRestoreOptions true true false None [] in
  i ← id_arg checkpoint_id;
  payload ← call Op.Rollback (to_vec (mkRestoreRequest i node options (authority_operator "cli")));
  emit json payload.

Definition run_fork (json : bool) (checkpoint_id owner class backend : string) (single_active : bool) : Cmd W unit :=
  let spec := cli_spec owner class backend 1 single_active in
  i ← id_arg checkpoint_id;
  resp ← call_json (R := ForkResponse) Op.Fork (to_vec (mkForkRequest i spec (authority_owner "cli")));
  print_value json (PWorkload (for_workload resp)).

Definition run_compatibility (json : bool) (checkpoint_id : string) (os arch backend : option string) : Cmd W unit :=
  let target := local_runtime <| rt_os := default (rt_os local_runtime) os |>
                              <| rt_arch := default (rt_arch local_runtime) arch |>
                              <| rt_backend_class := default (rt_backend_class local_runtime) backend |> in
  i ← id_arg checkpoint_id;
  payload ← call Op.Compatibility (to_vec (mkCompatibilityRequest i target (authority_operator "cli")));
  emit json payload.

Definition run_migrate (json : bool) (checkpoint_id node : string) : Cmd W unit :=
  i ← id_arg checkpoint_id;
  payload ← call Op.Migrate (to_vec (mkMigrateRequest i node (authority_operator "cli"))); emit json payload.
Definition run_audit (json : bool) (since_ms : option Z) (limit : Z) : Cmd W unit :=
  payload ← call Op.Audit (to_vec (mkAuditRequest since_ms limit (authority_operator "cli"))); emit json payload.
Definition run_recovery_command (json dry_run : bool) : Cmd W unit :=
  payload ← call Op.Recovery (to_vec (mkRecoveryRequest dry_run (authority_operator "cli"))); emit json payload.
Definition run_stats (json : bool) : Cmd W unit := payload ← call Op.Stats empty_object; emit json payload.
Definition run_nodes (json : bool) : Cmd W unit := payload ← call Op.NodeList empty_object; emit json payload.

(** *** Commands that start a process *)

Definition DEFAULT_STALE_MS : Z := 6000.

(** [CoordinatorConfig] of [coordinator start]. *)
Record CoordinatorLaunch := mkCoordinatorLaunch {
  cl_data_dir : path;
  cl_listen : string;
  cl_config : CoordinatorConfig;
  cl_failpoints : option string
}.

(** The wait for the stop flag; [polls] bounds how often it is looked at. *)
Fixpoint wait_stopped {C} (d : Daemon C W) (polls : nat) : Cmd W unit := fun r =>
  match polls with
  | O => (Waiting, r)
  | S polls' =>
      if dm_stop d (rn_world r) then (Value tt, r)
      else wait_stopped d polls' (mkRun (dm_sleep d (rn_world r)) (rn_lines r))
  end.

(** From the start of the process to its end. *)
Definition run_daemon {C} (d : Daemon C W) (stopped : string) (polls : nat) (config : C) : Cmd W unit :=
  banner ← (fun r => let '(o, w) := dm_start d config (rn_world r) in
                     (match o with Done a => Value a | Raise e => Bail (display e) | Crash => Killed end, mkRun w (rn_lines r)));
  print (Complained banner) ;;
  handled ← (fun r => let '(b, w) := dm_set_handler d (rn_world r) in (Value b, mkRun w (rn_lines r)));
  (if (handled : bool) then mret tt else bail "ctrlc: {e}") ;;
  wait_stopped d polls ;;
  (fun r => (Value tt, mkRun (dm_shutdown d (rn_world r)) (rn_lines r))) ;;
  print (Complained stopped).

Context `{PolicyCodec}.
Context (coordinators : Daemon CoordinatorLaunch W) (nodes : Daemon NodeConfig W) (polls : nat).

Definition run_coordinator_start (data_dir listen : string) (epoch : option Z) (policy_file : option string)
    (stale_ms : option Z) : Cmd W unit :=
  policy ← match policy_file with
           | Some file =>
               text ← some_or (cli_read file) "{e}";
               p ← fabric (policy_from_json text); mret (Some p)
           | None => mret None
           end;
  listen ← some_or (parse_socket_addr listen) "invalid socket address syntax";
  run_daemon coordinators "coordinator stopped" polls
    {| cl_data_dir := cli_path data_dir; cl_listen := listen;
       cl_config := mkCoordinatorConfig epoch (default DEFAULT_STALE_MS stale_ms) policy;
       cl_failpoints := cli_failpoint |}.

Definition run_node_start (name data_dir coordinator listen : string) (heartbeat_ms : option Z) : Cmd W unit :=
  coordinator ← some_or (parse_socket_addr coordinator) "invalid socket address syntax";
  listen ← some_or (parse_socket_addr listen) "invalid socket address syntax";
  run_daemon nodes "node stopped" polls
    {| nc_name := name; nc_coordinator_addr := coordinator; nc_listen_addr := listen; nc_data_dir := cli_path data_dir;
       nc_heartbeat_ms := default 1000 heartbeat_ms; nc_max_connections := 16; nc_staging_ttl_ms := 3600000;
       nc_runtime := local_runtime; nc_hardware := HardwareCompatibilityDescriptor_default;
       nc_resources := JObject ∅; nc_failpoints := cli_failpoint |}.

(** [run_impl]. *)
Definition run_impl (cli : Cli) : Cmd W unit :=
  coord_addr ← some_or (parse_socket_addr (cli_coordinator cli)) "bad coordinator address '{}': {e}";
  let json := cli_json cli in
  match cli_command cli with
  | CmdCoordinator (CoordinatorStart data_dir listen epoch policy_file stale_ms) =>
      run_coordinator_start data_dir listen epoch policy_file stale_ms
  | CmdCoordinator CoordinatorStop =>
      connect coord_addr ;; _ ← call Op.CoordinatorShutdown (envelope_to_vec envelope_ok); print (Printed "shutdown requested")
  | CmdNode (NodeStart name data_dir coordinator listen heartbeat_ms) =>
      run_node_start name data_dir coordinator listen heartbeat_ms
  | CmdWorkload cmd => connect coord_addr ;; run_workload json cmd
  | CmdCapture workload_id consistency quiescence components metadata =>
      connect coord_addr ;; run_capture json workload_id consistency quiescence components metadata
  | CmdCaptureStatus attempt_id => connect coord_addr ;; run_capture_status json attempt_id
  | CmdCheckpoint cmd => connect coord_addr ;; run_checkpoint json cmd
  | CmdRestore checkpoint_id node no_resume force =>
      connect coord_addr ;; run_restore json checkpoint_id node no_resume force
  | CmdRollback checkpoint_id node => connect coord_addr ;; run_rollback json checkpoint_id node
  | CmdFork checkpoint_id owner class backend single_active =>
      connect coord_addr ;; run_fork json checkpoint_id owner class backend single_active
  | CmdMigrate checkpoint_id node => connect coord_addr ;; run_migrate json checkpoint_id node
  | CmdCompatibility checkpoint_id os arch backend =>
      connect coord_addr ;; run_compatibility json checkpoint_id os arch backend
  | CmdAudit since_ms limit => connect coord_addr ;; run_audit json since_ms limit
  | CmdRecovery dry_run => connect coord_addr ;; run_recovery_command json dry_run
  | CmdStats => connect coord_addr ;; run_stats json
  | CmdNodes => connect coord_addr ;; run_nodes json
  end.

(** [main]: the exit code, unless a started process still runs or was killed. *)
Definition main (cli : Cli) (w : W) : option Z * Run W :=
  let '(o, r) := run_impl cli (mkRun w []) in
  match o with
  | Value _ => (Some 0, r)
  | Bail message => (Some 1, mkRun (rn_world r) (rn_lines r ++ [Complained ("error: " +:+ message)]))
  | Exit code => (Some code, r)
  | Waiting | Killed => (None, r)
  end.
End commands.
