(* ===== verification/CliFacts.v ===== *)
(** What the commands of the command line do ([Cli]): each client command against the one
    request it stands for, and the commands of a whole client with the dispatcher of the
    coordinator as its other side. *)
From S2P Require Import Prelude Errors Ident Lifecycle Checkpoint Workload Compression Policy Compat.
From S2P Require Import Capture Json Restore Lineage Failpoints Tables Persist Schema World Manifest Messages Recovery.
From S2P Require Import Coordinator Maintenance Dispatch Scenario.
From S2P Require Import Frame Fs Node Transport Payload NodeStart Cli.
From Stdlib Require Import Strings.Ascii Strings.Byte.

(** * The request of a command *)

Section requests.
Context `{CliHost, HexCodec, NodeTexts}.

(** A message, or the value. *)
Definition checked (A : Type) : Type := string + A.
#[export] Instance checked_bind : MBind (sum string) := fun A B k c => match c with inl s => inl s | inr a => k a end.
#[export] Instance checked_ret : MRet (sum string) := fun A a => inr a.

Definition as_id (s : string) : checked Id := match from_hex s with Ok i => inr i | Err e => inl (display e) end.

Definition consistency_arg (s : option string) : checked (option ConsistencyClass) :=
  match s with
  | None => inr None
  | Some s =>
      if bool_decide (s ∈ ["crash"; "CRASH_CONSISTENT"]) then inr (Some CrashConsistent)
      else if bool_decide (s ∈ ["application"; "APPLICATION_CONSISTENT"]) then inr (Some ApplicationConsistent)
      else if bool_decide (s ∈ ["execution"; "EXECUTION_CONSISTENT"]) then inr (Some ExecutionConsistent)
      else inl "unknown consistency class '{other}'"
  end.
Definition quiescence_arg (s : string) : checked QuiescenceMode :=
  let s := to_lowercase s in
  if bool_decide (s = "cooperative") then inr Cooperative
  else if bool_decide (s = "forced") then inr Forced
  else if bool_decide (s = "none") then inr NoQuiescence
  else inl "unknown quiescence mode '{other}'".
Definition metadata_arg (m : option string) : checked JsonText :=
  match m with
  | Some m => match json_parse m with Some v => inr (json_print v) | None => inl "{e}" end
  | None => inr "{}"
  end.

Let owner := authority_owner "cli".
Let operator := authority_operator "cli".

(** The request of a client command; [None]: the command starts a process. *)
Definition request_of (cmd : Command) : option (checked Request) :=
  match cmd with
  | CmdCoordinator (CoordinatorStart _ _ _ _ _) | CmdNode _ => None
  | CmdCoordinator CoordinatorStop => Some (inr QCoordinatorShutdown)
  | CmdWorkload (WorkloadCreate o class backend schema single_active node) =>
      Some (inr (QWorkloadCreate (cli_spec o class backend schema single_active) owner node))
  | CmdWorkload (WorkloadInspect w) => Some (i ← as_id w; inr (QWorkloadInspect i))
  | CmdWorkload WorkloadList => Some (inr QWorkloadList)
  | CmdWorkload (WorkloadFence w) => Some (i ← as_id w; inr (QWorkloadFence i operator))
  | CmdWorkload (WorkloadLineage w) => Some (i ← as_id w; inr (QWorkloadLineage i))
  | CmdCapture w consistency quiescence components metadata =>
      Some (c ← consistency_arg consistency; q ← quiescence_arg quiescence; m ← metadata_arg metadata; i ← as_id w;
            inr (QCapture i (mkCaptureOptions c q None None (map component_request (component_ids components)) m) owner))
  | CmdCaptureStatus a => Some (inr (QCaptureStatus a))
  | CmdCheckpoint (CheckpointInspect c) => Some (i ← as_id c; inr (QCheckpointInspect i))
  | CmdCheckpoint (CheckpointList None) => Some (inr (QCheckpointList None))
  | CmdCheckpoint (CheckpointList (Some w)) => Some (i ← as_id w; inr (QCheckpointList (Some i)))
  | CmdCheckpoint (CheckpointVerify c) => Some (i ← as_id c; inr (QCheckpointVerify i operator))
  | CmdCheckpoint (CheckpointProtect c) | CmdCheckpoint (CheckpointPin c) => Some (i ← as_id c; inr (QCheckpointProtect i operator))
  | CmdCheckpoint (CheckpointUnprotect c) => Some (i ← as_id c; inr (QCheckpointUnprotect i operator))
  | CmdCheckpoint (CheckpointRetire c) => Some (i ← as_id c; inr (QCheckpointRetire i operator))
  | CmdCheckpoint (CheckpointLineage c) => Some (i ← as_id c; inr (QCheckpointLineage i))
  | CmdRestore c node no_resume force =>
      Some (i ← as_id c; inr (QRestore i node (mkRestoreOptions (negb no_resume) false force None []) operator))
  | CmdRollback c node => Some (i ← as_id c; inr (QRollback i node (mkRestoreOptions true true false None []) operator))
  | CmdFork c o class backend single_active => Some (i ← as_id c; inr (QFork i (cli_spec o class backend 1 single_active) owner))
  | CmdMigrate c node => Some (i ← as_id c; inr (QMigrate i node operator))
  | CmdCompatibility c os arch backend =>
      Some (i ← as_id c; inr (QCompatibility i (local_runtime <| rt_os := default (rt_os local_runtime) os |>
        <| rt_arch := default (rt_arch local_runtime) arch |> <| rt_backend_class := default (rt_backend_class local_runtime) backend |>) operator))
  | CmdAudit since limit => Some (inr (QAudit since limit operator))
  | CmdRecovery dry_run => Some (inr (QRecovery dry_run operator))
  | CmdStats => Some (inr QStats)
  | CmdNodes => Some (inr QNodeList)
  end.
(** The payload of a call: bytes, or the JSON of a value. *)
Inductive Payload : Type := Bytes (l : list byte) | Text {A : Type} (C : Serde A) (a : A).
Definition payload_bytes (p : Payload) : list byte := match p with Bytes l => l | Text C a => to_vec a end.
Definition payload_typed (p : Payload) : Prop := match p with Bytes _ => True | Text C a => of_type a end.

Context `{EnvelopeCodec, RequestSerde}.

Let about_workload (op : Op.Op) (w : string) : option (checked (Op.Op * Payload)) :=
  Some (i ← as_id w; inr (op, Text serde_workload_id (mkWorkloadIdRequest i operator))).
Let about_checkpoint (op : Op.Op) (c : string) : option (checked (Op.Op * Payload)) :=
  Some (i ← as_id c; inr (op, Text serde_checkpoint_id (mkCheckpointIdRequest i operator))).

(** The call of a client command. *)
Definition call_of (cmd : Command) : option (checked (Op.Op * Payload)) :=
  match cmd with
  | CmdCoordinator (CoordinatorStart _ _ _ _ _) | CmdNode _ => None
  | CmdCoordinator CoordinatorStop => Some (inr (Op.CoordinatorShutdown, Bytes (envelope_to_vec envelope_ok)))
  | CmdWorkload (WorkloadCreate o class backend schema single_active node) =>
      Some (inr (Op.WorkloadCreate, Text serde_create (mkWorkloadCreateRequest (cli_spec o class backend schema single_active) owner node)))
  | CmdWorkload (WorkloadInspect w) => about_workload Op.WorkloadInspect w
  | CmdWorkload WorkloadList => Some (inr (Op.WorkloadList, Bytes empty_object))
  | CmdWorkload (WorkloadFence w) => about_workload Op.WorkloadFence w
  | CmdWorkload (WorkloadLineage w) => about_workload Op.WorkloadLineage w
  | CmdCapture w consistency quiescence components metadata =>
      Some (c ← consistency_arg consistency; q ← quiescence_arg quiescence; m ← metadata_arg metadata; i ← as_id w;
            inr (Op.Capture, Text serde_capture (mkCaptureRequest i
                   (mkCaptureOptions c q None None (map component_request (component_ids components)) m) owner)))
  | CmdCaptureStatus a => Some (inr (Op.CaptureStatus, Text serde_attempt_status (mkAttemptStatusRequest a)))
  | CmdCheckpoint (CheckpointInspect c) => about_checkpoint Op.CheckpointInspect c
  | CmdCheckpoint (CheckpointList None) => Some (inr (Op.CheckpointList, Text serde_checkpoint_list (mkCheckpointListRequest None)))
  | CmdCheckpoint (CheckpointList (Some w)) =>
      Some (i ← as_id w; inr (Op.CheckpointList, Text serde_checkpoint_list (mkCheckpointListRequest (Some i))))
  | CmdCheckpoint (CheckpointVerify c) => about_checkpoint Op.CheckpointVerify c
  | CmdCheckpoint (CheckpointProtect c) | CmdCheckpoint (CheckpointPin c) => about_checkpoint Op.CheckpointProtect c
  | CmdCheckpoint (CheckpointUnprotect c) => about_checkpoint Op.CheckpointUnprotect c
  | CmdCheckpoint (CheckpointRetire c) => about_checkpoint Op.CheckpointRetire c
  | CmdCheckpoint (CheckpointLineage c) => about_checkpoint Op.CheckpointLineage c
  | CmdRestore c node no_resume force =>
      Some (i ← as_id c; inr (Op.Restore, Text serde_restore
        (mkRestoreRequest i node (mkRestoreOptions (negb no_resume) false force None []) operator)))
  | CmdRollback c node =>
      Some (i ← as_id c; inr (Op.Rollback, Text serde_restore (mkRestoreRequest i node (mkRestoreOptions true true false None []) operator)))
  | CmdFork c o class backend single_active =>
      Some (i ← as_id c; inr (Op.Fork, Text serde_fork (mkForkRequest i (cli_spec o class backend 1 single_active) owner)))
  | CmdMigrate c node => Some (i ← as_id c; inr (Op.Migrate, Text serde_migrate (mkMigrateRequest i node operator)))
  | CmdCompatibility c os arch backend =>
      Some (i ← as_id c; inr (Op.Compatibility, Text serde_compatibility (mkCompatibilityRequest i
        (local_runtime <| rt_os := default (rt_os local_runtime) os |>
           <| rt_arch := default (rt_arch local_runtime) arch |> <| rt_backend_class := default (rt_backend_class local_runtime) backend |>)
        operator)))
  | CmdAudit since limit => Some (inr (Op.Audit, Text serde_audit (mkAuditRequest since limit operator)))
  | CmdRecovery dry_run => Some (inr (Op.Recovery, Text serde_recovery (mkRecoveryRequest dry_run operator)))
  | CmdStats => Some (inr (Op.Stats, Bytes empty_object))
  | CmdNodes => Some (inr (Op.NodeList, Bytes empty_object))
  end.

(** The coordinator decodes a call to the request of the command; the call and the request
    are refused by the command line for the same arguments. *)
Lemma call_decodes `{!RequestSerdeLaws _} cmd c :
  call_of cmd = Some c ->
  match c with
  | inl message => request_of cmd = Some (inl message)
  | inr (op, p) => exists q, request_of cmd = Some (inr q) /\ (payload_typed p -> decode_request op (payload_bytes p) = Ok q)
  end.
Proof.
  intros Hc. destruct cmd as [[] | | [] | | | [| [] | | | | | |] | | | | | | | | |]; try discriminate Hc; injection Hc as <-;
    unfold mbind, checked_bind; cbn [request_of];
    repeat match goal with
    | |- context [as_id ?s] => destruct (as_id s)
    | |- context [consistency_arg ?s] => destruct (consistency_arg s)
    | |- context [quiescence_arg ?s] => destruct (quiescence_arg s)
    | |- context [metadata_arg ?s] => destruct (metadata_arg s)
    end; cbn; try done; eexists; (split; [reflexivity |]); intros Ht; unfold parsed, parse_payload; by rewrite ?from_to.
Qed.
End requests.

(** How a command reads its reply: as an answer to print, as the creation or the fork of a
    workload, as a confirmation it puts in its own word, or not at all. *)
Inductive reading : Type := Answer | Creation | Forking | Confirmation (word : string) | Unread (word : string).

Definition reading_of (cmd : Command) : reading :=
  match cmd with
  | CmdCoordinator CoordinatorStop => Unread "shutdown requested"
  | CmdWorkload (WorkloadCreate _ _ _ _ _ _) => Creation
  | CmdFork _ _ _ _ _ => Forking
  | CmdCheckpoint (CheckpointProtect _) => Confirmation "protected"
  | CmdCheckpoint (CheckpointPin _) => Confirmation "pinned"
  | CmdCheckpoint (CheckpointUnprotect _) => Confirmation "unprotected"
  | CmdCheckpoint (CheckpointRetire _) => Confirmation "retired"
  | _ => Answer
  end.

(** The exit code and the lines of a reply. *)
Definition complain (s : string) : Z * list Line := (1, [Complained ("error: " +:+ s)]).

Section read_reply.
Context `{EnvelopeCodec, ReplySerde}.

(** A response that holds a workload. *)
Definition read_workload (json : bool) (w : option Workload) : Z * list Line :=
  match w with
  | Some w => (0, [PrintedJson json (PWorkload w)])
  | None => complain (display (ProtocolError "bad response payload: {e}"))
  end.

Definition read_reply (json : bool) (how : reading) (payload : list byte) : Z * list Line :=
  match how with
  | Unread word => (0, [Printed word])
  | Confirmation word =>
      match error_of payload with Some e => complain (error_text e) | None => (0, [Printed word]) end
  | Creation => read_workload json (wcr_workload <$> from_slice payload)
  | Forking => read_workload json (for_workload <$> from_slice payload)
  | Answer =>
      match error_of payload with
      | Some e => if json then (1, [PrintedJson true (PEnvelope e)]) else complain (error_text e)
      | None => match value_from_slice payload with
                | Some v => (0, [PrintedJson json (PValue v)])
                | None => complain "{e}"
                end
      end
  end.
End read_reply.

Section client.
Context {W : Type} `{CoordinatorLink W, CliHost, HexCodec, NodeTexts, PolicyCodec, EnvelopeCodec, RequestSerde, ReplySerde}.
Context (coordinators : Daemon CoordinatorLaunch W) (nodes : Daemon NodeConfig W) (polls : nat).

(** The end of a command, its lines after those written before. *)
Definition ended (lines : list Line) (code : Z * list Line) (w : W) : option Z * Run W :=
  (Some (fst code), mkRun w (lines ++ snd code)).

(** The whole of a client command. *)
Definition client (cli : Cli) (c : checked (Op.Op * Payload)) (w : W) : option Z * Run W :=
  match parse_socket_addr (cli_coordinator cli) with
  | None => ended [] (complain "bad coordinator address '{}': {e}") w
  | Some addr =>
      let '(connected, w1) := link_connect addr w in
      match connected, c with
      | Err e, _ => ended [] (complain (display e)) w1
      | Ok _, inl message => ended [] (complain message) w1
      | Ok _, inr (op, p) =>
          let '(r, w2) := link_call op (payload_bytes p) w1 in
          match r with
          | Err e => ended [] (complain (display e)) w2
          | Ok reply => ended [] (read_reply (cli_json cli) (reading_of (cli_command cli)) reply) w2
          end
      end
  end.

(** How [main] ends a command. *)
Definition finish (x : Step unit * Run W) : option Z * Run W :=
  let '(o, r) := x in
  match o with
  | Value _ => (Some 0, r)
  | Bail message => (Some 1, mkRun (rn_world r) (rn_lines r ++ [Complained ("error: " +:+ message)]))
  | Exit code => (Some code, r)
  | Waiting | Killed => (None, r)
  end.

(** One call and the reading of its reply. *)
Definition asked (json : bool) (how : reading) (op : Op.Op) (payload : list byte) (w : W) : option Z * Run W :=
  let '(r, w2) := link_call op payload w in
  match r with
  | Err e => ended [] (complain (display e)) w2
  | Ok reply => ended [] (read_reply json how reply) w2
  end.

Definition asks (json : bool) (how : reading) (c : checked (Op.Op * Payload)) (w : W) : option Z * Run W :=
  match c with
  | inl message => ended [] (complain message) w
  | inr (op, p) => asked json how op (payload_bytes p) w
  end.

Lemma finish_call op q (k : list byte -> Cmd W unit) w :
  finish ((p ← call op q; k p) (mkRun w [])) =
  let '(r, w2) := link_call op q w in
  match r with Err e => ended [] (complain (display e)) w2 | Ok p => finish (k p (mkRun w2 [])) end.
Proof. unfold call, on_world, mbind, Cmd_bind. cbn. by destruct (link_call op q w) as [[p | e] w2]. Qed.

Lemma finish_answer json op q w : finish ((p ← call op q; emit json p) (mkRun w [])) = asked json Answer op q w.
Proof.
  rewrite finish_call. unfold asked. destruct (link_call op q w) as [[p | e] w2]; [| done]. unfold emit, read_reply.
  destruct (error_of p) as [e |] eqn:He; [by destruct json |]. by destruct (value_from_slice p).
Qed.

Lemma finish_confirmation json op q word w :
  finish ((expect_ok op q ;; print (Printed word)) (mkRun w [])) = asked json (Confirmation word) op q w.
Proof.
  unfold expect_ok, asked, call, on_world, mbind, Cmd_bind. cbn.
  destruct (link_call op q w) as [[p | e] w2]; [| done]. cbn. by destruct (error_of p).
Qed.

Lemma finish_creation json op q w :
  finish ((r ← call_json op q; print_value json (PWorkload (wcr_workload r))) (mkRun w [])) = asked json Creation op q w.
Proof.
  unfold call_json, asked, call, on_world, mbind, Cmd_bind. cbn.
  destruct (link_call op q w) as [[p | e] w2]; [| done]. cbn. by destruct (from_slice p).
Qed.

Lemma finish_forking json op q w :
  finish ((r ← call_json op q; print_value json (PWorkload (for_workload r))) (mkRun w [])) = asked json Forking op q w.
Proof.
  unfold call_json, asked, call, on_world, mbind, Cmd_bind. cbn.
  destruct (link_call op q w) as [[p | e] w2]; [| done]. cbn. by destruct (from_slice p).
Qed.

(** A call after its last argument. *)
Lemma finish_id s (k : Id -> Cmd W unit) op (q : Id -> Payload) json how w :
  (forall i, finish (k i (mkRun w [])) = asked json how op (payload_bytes (q i)) w) ->
  finish ((i ← id_arg s; k i) (mkRun w [])) = asks json how (i ← as_id s; inr (op, q i)) w.
Proof.
  intros Hk. unfold id_arg, as_id, fabric, mbind, Cmd_bind. destruct (from_hex s) as [i | e]; [exact (Hk i) | done].
Qed.

Lemma finish_connect addr (m : Cmd W unit) w :
  finish ((connect addr ;; m) (mkRun w [])) =
  let '(c, w1) := link_connect addr w in
  match c with Err e => ended [] (complain (display e)) w1 | Ok _ => finish (m (mkRun w1 [])) end.
Proof. unfold connect, on_world, mbind, Cmd_bind. cbn. by destruct (link_connect addr w) as [[u | e] w1]. Qed.

(** The call of a capture. *)
Definition capture_call (wid : string) (c : option ConsistencyClass) (q : QuiescenceMode) (comps : string) (m : JsonText)
    : checked (Op.Op * Payload) :=
  i ← as_id wid;
  inr (Op.Capture, Text serde_capture (mkCaptureRequest i
         (mkCaptureOptions c q None None (map component_request (component_ids comps)) m) (authority_owner "cli"))).

Lemma finish_capture json wid c q comps m w :
  finish (run_capture json wid c q comps m (mkRun w [])) =
  asks json Answer (c ← consistency_arg c; q ← quiescence_arg q; m ← metadata_arg m; capture_call wid c q comps m) w.
Proof.
  unfold run_capture, parse_consistency, consistency_arg, parse_quiescence, quiescence_arg.
  assert (Hmeta : forall c q, finish ((metadata ← match m with
                 | Some m => v ← some_or (json_parse m) "{e}"; mret (json_print v)
                 | None => mret "{}" end;
       i ← id_arg wid; payload ← call Op.Capture (to_vec (mkCaptureRequest i (mkCaptureOptions c q None None
      (map component_request (component_ids comps)) metadata) (authority_owner "cli"))); emit json payload) (mkRun w [])) =
    asks json Answer (m ← metadata_arg m; capture_call wid c q comps m) w).
  { assert (Hrest : forall c q m, finish ((i ← id_arg wid; payload ← call Op.Capture (to_vec (mkCaptureRequest i (mkCaptureOptions c q None None
        (map component_request (component_ids comps)) m) (authority_owner "cli"))); emit json payload) (mkRun w [])) =
      asks json Answer (capture_call wid c q comps m) w) by (intros; apply finish_id; intros; apply finish_answer).
    intros. unfold metadata_arg. destruct m as [m |]; [| apply Hrest]. destruct (json_parse m) as [v |]; [apply Hrest | done]. }
  destruct c as [c |]; repeat case_bool_decide; try done; apply Hmeta.
Qed.

(** A client command is one call and the reading of its reply. *)
Lemma main_is_client cli c w :
  call_of (cli_command cli) = Some c -> main coordinators nodes polls cli w = client cli c w.
Proof.
  intros Hq. change (main coordinators nodes polls cli w) with (finish (run_impl coordinators nodes polls cli (mkRun w []))).
  destruct cli as [a json cmd]. unfold client. cbn [cli_command cli_coordinator cli_json] in *.
  destruct (parse_socket_addr a) as [addr |] eqn:Ha.
  - assert (Hm : exists m, finish (run_impl coordinators nodes polls (mkCli a json cmd) (mkRun w [])) = finish ((connect addr ;; m) (mkRun w [])) /\
      forall w1, finish (m (mkRun w1 [])) = asks json (reading_of cmd) c w1).
    { unfold run_impl. cbn [cli_command cli_coordinator cli_json]. rewrite Ha. unfold some_or at 1.
      destruct cmd as [[] | | [] | | | [| [] | | | | | |] | | | | | | | | |]; try discriminate Hq; injection Hq as <-;
        eexists; (split; [reflexivity |]); intros w1; cbn [reading_of];
        first [apply finish_answer | apply finish_confirmation | apply finish_creation | apply finish_capture |
               apply finish_id; intros; first [apply finish_answer | apply finish_confirmation | apply finish_forking] | idtac].
      - rewrite finish_call. unfold asks, asked. by destruct (link_call _ _ w1) as [[p | e] w2].
      - unfold run_checkpoint, id_arg, as_id, fabric, mbind, Cmd_bind. destruct (from_hex s); [apply finish_answer | done]. }
    destruct Hm as (m & -> & Hm). rewrite finish_connect. destruct (link_connect addr w) as [[u | e] w1]; [| done].
    rewrite Hm. by destruct c as [m' | [op p]].
  - unfold run_impl. cbn [cli_coordinator]. by rewrite Ha.
Qed.

(** C25 (equivalence). A client command is one request and its answer.  Every command of
    the command line other than the two that start a process connects once, to the address
    given; when its arguments are well formed it makes one call, which the coordinator
    decodes to the request they stand for, and otherwise none; and it prints what it was
    answered, or one error line, and nothing else.  Its exit code is 0 exactly when an
    answer came that it can read and that is no error envelope (for the creation of
    workloads: that holds a workload; for the stop of the coordinator: any). *)
Theorem cli_is_one_request `{!RequestSerdeLaws _} cli c w :
  call_of (cli_command cli) = Some c ->
  main coordinators nodes polls cli w = client cli c w /\
  match c with
  | inl message => request_of (cli_command cli) = Some (inl message)
  | inr (op, p) => exists q, request_of (cli_command cli) = Some (inr q) /\
      (payload_typed p -> decode_request op (payload_bytes p) = Ok q)
  end.
Proof. intros Hc. split; [by apply main_is_client | by apply call_decodes]. Qed.
End client.

(** * A started process *)

Section daemon.
Context {C W : Type} `{CoordinatorLink W}.

Lemma wait_stopped_ends (d : Daemon C W) k : forall polls r,
  (forall j, (j < k)%nat -> dm_stop d (Nat.iter j (dm_sleep d) (rn_world r)) = false) ->
  dm_stop d (Nat.iter k (dm_sleep d) (rn_world r)) = true -> (k < polls)%nat ->
  wait_stopped d polls r = (Value tt, mkRun (Nat.iter k (dm_sleep d) (rn_world r)) (rn_lines r)).
Proof.
  induction k as [| k IH]; intros [| polls] r Hj Hk Hp; [lia | | lia |]; cbn [wait_stopped].
  - cbn [Nat.iter nat_rect] in *. rewrite Hk. by destruct r.
  - pose proof (Hj 0%nat ltac:(lia)) as Hfirst. cbn in Hfirst. rewrite Hfirst. rewrite IH; cbn [rn_world rn_lines].
    + by rewrite Nat.iter_succ_r.
    + intros j Hlt. rewrite <- Nat.iter_succ_r. apply Hj. lia.
    + by rewrite <- Nat.iter_succ_r.
    + lia.
Qed.

(** A process that starts, gets its signal handler and is asked to stop at the [k]-th look
    at the flag is shut down then, once, and the command ends without an error. *)
Lemma run_daemon_ends (d : Daemon C W) stopped polls config w banner w1 w2 k :
  dm_start d config w = (Done banner, w1) -> dm_set_handler d w1 = (true, w2) ->
  (forall j, (j < k)%nat -> dm_stop d (Nat.iter j (dm_sleep d) w2) = false) ->
  dm_stop d (Nat.iter k (dm_sleep d) w2) = true -> (k < polls)%nat ->
  run_daemon d stopped polls config (mkRun w []) =
    (Value tt, mkRun (dm_shutdown d (Nat.iter k (dm_sleep d) w2)) [Complained banner; Complained stopped]).
Proof.
  intros Hs Hh Hj Hk Hp. unfold run_daemon, mbind, Cmd_bind. cbn [rn_world rn_lines]. rewrite Hs. cbn [print rn_world rn_lines].
  rewrite Hh. cbn [mret Cmd_ret]. by rewrite (wait_stopped_ends d k).
Qed.
End daemon.

(** * A client and the dispatcher *)

Section served.
Context `{Env, NodeRpc, NodeTexts, HexCodec, Sha256, ManifestCodec, PolicyCodec, CliHost, EnvelopeCodec, RequestSerde, ReplySerde}.
Context (self : CoordinatorInner) (fuel : nat).

(** [Coordinator::dispatch] on the bytes of a request. *)
Definition serve (op : Op.Op) (payload : list byte) : M World (list byte) :=
  request ← lift (decode_request op payload);
  reply ← dispatch self fuel request;
  mret (encode_reply op reply).

(** The coordinator process behind the connection: an error of the handler is answered by
    its envelope, a crash closes the connection. *)
#[local] Instance served_link : CoordinatorLink World := {|
  link_connect := fun _ w => (Ok tt, w);
  link_call := fun op payload w =>
    match serve op payload w with
    | (Done reply, w') => (Ok reply, w')
    | (Raise e, w') => (Ok (envelope_to_vec (envelope_err (display e))), w')
    | (Crash, w') => (Err (TransportError "peer closed connection (eof)"), w')
    end |}.

Context (coordinators : Daemon CoordinatorLaunch World) (nodes : Daemon NodeConfig World) (polls : nat).

(** The protection of a stored checkpoint. *)
Definition protection_in (s : Store) (c : Id) : option ProtectionState := ck_protection <$> st_checkpoints s !! c.

(** Nothing but [c] has another protection than before, and [c] has [p] if it changed. *)
Definition protects (c : Id) (s s' : Store) : Prop :=
  (forall i, i <> c -> protection_in s' i = protection_in s i) /\
  (protection_in s' c = protection_in s c \/ protection_in s' c = Some Protected).

(** The reply is an envelope, and tells a success only after the checkpoint is protected. *)
Definition protect_reply (c : Id) (s' : Store) (reply : Reply) : Prop :=
  exists e, reply = REnvelope e /\ 0 <= en_status e < 2 ^ 16 /\
    (envelope_is_ok e = true -> protection_in s' c = Some Protected).

Lemma dispatch_protect `{!Quiet} c a s :
  wp (dispatch self fuel (QCheckpointProtect c a))
    (fun r s' => protects c s s' /\ forall reply, r = Ok reply -> protect_reply c s' reply) (protects c s) s.
Proof.
  assert (Hrefl : forall s', st_checkpoints s' = st_checkpoints s -> protects c s s').
  { intros s' Hs. unfold protects, protection_in. rewrite Hs. auto. }
  assert (Herr : forall s' message reply, Ok (REnvelope (envelope_err message)) = Ok reply -> protect_reply c s' reply).
  { intros s' message reply [= <-]. eexists. split; [reflexivity |]. split; [cbn; lia | done]. }
  cbn [dispatch dispatch_operations]. unfold reply_ok, reply, protect_checkpoint.
  apply wp_bind, wp_attempt, wp_bind. apply wp_db; [by apply Hrefl |]. intros now. cbn.
  apply wp_bind, wp_lift. destruct (st_checkpoints s !! c) as [row |] eqn:Hrow; cbn.
  2: { apply wp_ret. split; [by apply Hrefl | apply Herr]. }
  apply wp_bind. apply wp_db; [by apply Hrefl |]. intros now2. cbn.
  match goal with |- wp _ _ _ ?x => set (s2 := x) end.
  assert (Hs2 : forall s', st_checkpoints s' = st_checkpoints s2 -> protects c s s' /\ protection_in s' c = Some Protected).
  { intros s' Hs'. unfold protects, protection_in. rewrite Hs'. unfold s2. cbn. rewrite lookup_alter_eq, Hrow.
    split; [split; [| by right] | done]. intros i Hi. by rewrite lookup_alter_ne. }
  unfold audit. apply wp_ignore, wp_db; [by apply Hs2 |]. intros now3. cbn. apply wp_ret.
  split; [by apply Hs2 |]. intros reply [= <-]. exists envelope_ok. split; [done |]. split; [cbn; lia |]. intros _. by apply Hs2.
Qed.

Definition pin_command (c : string) : Command := CmdCheckpoint (CheckpointPin c).
Definition protect_command (c : string) : Command := CmdCheckpoint (CheckpointProtect c).

(** The call of both commands. *)
Definition protect_call (c : string) : checked (Op.Op * Payload) :=
  i ← as_id c; inr (Op.CheckpointProtect, Text serde_checkpoint_id (mkCheckpointIdRequest i (authority_operator "cli"))).

(** What the coordinator does with that call. *)
Lemma serve_protect `{!Quiet, !RequestSerdeLaws _, !EnvelopeLaws _} i w :
  of_type (mkCheckpointIdRequest i (authority_operator "cli")) ->
  let '(r, w') := link_call Op.CheckpointProtect (to_vec (mkCheckpointIdRequest i (authority_operator "cli"))) w in
  protects i (wd_store w) (wd_store w') /\
  forall payload, r = Ok payload -> error_of payload = None -> protection_in (wd_store w') i = Some Protected.
Proof.
  intros Ht. cbn [link_call served_link]. unfold serve, mbind, M_bind, lift. cbn [decode_request].
  unfold parsed, parse_payload. rewrite from_to by done. cbn -[dispatch].
  destruct w as [s t armed]. pose proof (dispatch_protect i (authority_operator "cli") s t armed) as Hd.
  destruct (dispatch self fuel _ _) as [[reply | e |] w2]; cbn [wd_store] in *.
  - destruct Hd as [Hp Hok]. split; [exact Hp |]. intros payload [= <-]. destruct (Hok reply eq_refl) as (e & -> & Hst & He).
    cbn [encode_reply]. unfold error_of. rewrite envelope_from_to by done. cbn. by destruct (envelope_is_ok e); [intros _; apply He |].
  - destruct Hd as [Hp _]. split; [exact Hp |]. intros payload [= <-]. unfold error_of. rewrite envelope_from_to by (cbn; lia). done.
  - split; [exact Hd | done].
Qed.

(** C40 (error). [checkpoint pin] pins nothing.  With no other thread at work, the command
    does to the coordinator exactly what [checkpoint protect] does, with the same exit
    code; no checkpoint other than the one named changes its protection; and when the
    command reports [pinned] and exits with 0, the protection of the checkpoint is
    PROTECTED, also where it was PINNED before. *)
Theorem pin_pins_nothing `{!Quiet, !RequestSerdeLaws _, !EnvelopeLaws _} address json c w :
  (forall i, as_id c = inr i -> of_type (mkCheckpointIdRequest i (authority_operator "cli"))) ->
  let '(code, r) := main coordinators nodes polls (mkCli address json (pin_command c)) w in
  let '(code', r') := main coordinators nodes polls (mkCli address json (protect_command c)) w in
  code = code' /\ rn_world r = rn_world r' /\
  (forall i, as_id c <> inr i -> protection_in (wd_store (rn_world r)) i = protection_in (wd_store w) i) /\
  (code = Some 0 -> rn_lines r = [Printed "pinned"] /\
     exists i, as_id c = inr i /\ protection_in (wd_store (rn_world r)) i = Some Protected).
Proof.
  intros Ht. rewrite (main_is_client coordinators nodes polls (mkCli address json (pin_command c)) (protect_call c) w eq_refl).
  rewrite (main_is_client coordinators nodes polls (mkCli address json (protect_command c)) (protect_call c) w eq_refl).
  unfold client, protect_call. cbn [cli_coordinator cli_command cli_json reading_of pin_command protect_command].
  destruct (parse_socket_addr address) as [addr |]; [| by cbn]. cbn [link_connect served_link].
  destruct (as_id c) as [m | i] eqn:Hi; [by cbn |]. cbn [mbind checked_bind payload_bytes].
  pose proof (serve_protect i w (Ht i eq_refl)) as Hs.
  destruct (link_call _ _ w) as [[payload | e] w2]; destruct Hs as [[Ho Hc] Hok]; cbn.
  - destruct (error_of payload) as [e |] eqn:He; cbn.
    + split_and!; [done | done | | discriminate]. intros j Hj. apply Ho. congruence.
    + split_and!; [done | done | intros j Hj; apply Ho; congruence |]. intros _. split; [done |].
      exists i. split; [done |]. by apply (Hok payload).
  - split_and!; [done | done | intros j Hj; apply Ho; congruence | discriminate].
Qed.
End served.

(** ** Commands of a client *)

#[local] Existing Instances still_env obedient_nodes scenario_texts hex_codec fixed_policy_codec plain_sha256 attempt_codec
  short_envelopes id_requests terse_replies.

Definition a_cli_host : CliHost :=
  {| cli_failpoint := None; cli_read := fun _ => None; cli_path := fun s => [s];
     cli_os := "linux"; cli_arch := "x86_64"; cli_version := "1" |}.
#[local] Existing Instance a_cli_host.

Definition idle_daemon {C W : Type} : Daemon C W :=
  mkDaemon C W (fun _ w => (Done "", w)) (fun w => (true, w)) (fun _ => true) (fun w => w) (fun w => w).

(** A command against the coordinator of the scenario. *)
Definition scenario_command (command : Command) (s : Store) : option Z * Run World :=
  main (H := served_link scenario_coordinator 2) idle_daemon idle_daemon 1 (mkCli "127.0.0.1:7901" false command)
    (scenario_world s).

Definition first_checkpoint : string := to_hex (id_splat Byte.x01).

Example commands_run :
  (scenario_command (CmdCapture (to_hex wid) (Some "crash") "Forced" " " None) scenario_store).1 = Some 0 /\
  (scenario_command (CmdCapture (to_hex wid) (Some "crashed") "Forced" " " None) scenario_store).1 = Some 1 /\
  (scenario_command (CmdCheckpoint (CheckpointVerify first_checkpoint)) captured_store).1 = Some 0 /\
  (scenario_command (CmdCheckpoint (CheckpointRetire "nonsense")) captured_store).1 = Some 1 /\
  (scenario_command (CmdCheckpoint (CheckpointRetire first_checkpoint)) captured_store).1 = Some 0.
Proof. vm_compute. repeat split. Qed.

Example cli_is_one_request_witness :
  exists r, main (H := served_link scenario_coordinator 2) idle_daemon idle_daemon 1 (mkCli "127.0.0.1:7901" true (CmdCheckpoint (CheckpointInspect first_checkpoint)))
      (scenario_world captured_store) = (Some 0, r) /\ length (rn_lines r) = 1%nat.
Proof.
  destruct (cli_is_one_request (H := served_link scenario_coordinator 2) idle_daemon idle_daemon 1
    (mkCli "127.0.0.1:7901" true (CmdCheckpoint (CheckpointInspect first_checkpoint)))
    (i ← as_id first_checkpoint; inr (Op.CheckpointInspect, Text serde_checkpoint_id (mkCheckpointIdRequest i (authority_operator "cli"))))
    (scenario_world captured_store) eq_refl) as [-> _].
  eexists. vm_compute. split; reflexivity.
Defined.

(** A pinned checkpoint is pinned again. *)
Definition pinned_store : Store := after (checkpoint_set_protection (id_splat Byte.x01) Pinned) captured_store.

Notation pinned_again :=
  (main (H := served_link scenario_coordinator 2) idle_daemon idle_daemon 1
     (mkCli "127.0.0.1:7901" false (pin_command first_checkpoint)) (scenario_world pinned_store)).

Lemma pinned_again_code : pinned_again.1 = Some 0.
Proof. vm_compute. reflexivity. Qed.

Lemma pairs {A B : Type} (x y : A * B) (P : A -> B -> A -> B -> Prop) :
  (let '(a, b) := x in let '(c, d) := y in P a b c d) -> P x.1 x.2 y.1 y.2.
Proof. by destruct x, y. Qed.

Example pin_pins_nothing_witness :
  protection_in pinned_store (id_splat Byte.x01) = Some Pinned /\ rn_lines pinned_again.2 = [Printed "pinned"] /\
  exists i, as_id first_checkpoint = inr i /\ protection_in (wd_store (rn_world pinned_again.2)) i = Some Protected.
Proof.
  pose proof (pin_pins_nothing (H10 := still_quiet) scenario_coordinator 2 idle_daemon idle_daemon 1 "127.0.0.1:7901" false
    first_checkpoint (scenario_world pinned_store) (fun i _ => eq_refl)) as Hp.
  split; [vm_compute; reflexivity |].
  apply pairs in Hp. exact (proj2 (proj2 (proj2 Hp)) pinned_again_code).
Defined.
