(* ===== verification/CoordinatorProcess.v ===== *)
(** The coordinator as a process ([src/src/coordinator.rs], [src/src/persistence.rs]): the
    opening of the database with its lock and its schema version ([Store::open]),
    [Coordinator::open], the server and the monitor thread ([start_server],
    [start_monitor]), and the end ([shutdown]).

    The tables of the database are the [wd_store] of [World], its version and the lock of
    the data directory the rest of [CoordinatorProcess].  Files, SQLite and the listener
    are the interface [ProcessHost]. *)
From S2P Require Import Prelude Errors Ident Lifecycle Checkpoint Workload Compression Policy Compat.
From S2P Require Import Capture Json Restore Lineage Failpoints Tables Persist Schema World Manifest Messages Recovery.
From S2P Require Import Coordinator Maintenance Dispatch Steps Scenario Authority Fs Node NodeStart Cli.

(** * Definitions *)

(** Who owns the lock file of the data directory. *)
Inductive LockState : Type := Free | Ours | Theirs.
#[export] Instance LockState_eq_dec : EqDecision LockState.
Proof. solve_decision. Defined.

(** The server of the process: none, listening, or shut down. *)
Inductive ListenState : Type := NoServer | Listening (addr : option string) | ShutDown.

Record CoordinatorProcess := mkCoordinatorProcess {
  cp_world : World;
  cp_version : Z;
  cp_lock : LockState;
  cp_inner : option CoordinatorInner;
  cp_server : ListenState;
  cp_stop : bool
}.
#[export] Instance eta_CoordinatorProcess : Settable CoordinatorProcess := fun p =>
  mkCoordinatorProcess (cp_world p) (cp_version p) (cp_lock p) (cp_inner p) (cp_server p) (cp_stop p).

Inductive StoreCall : Type :=
| CreateDataDir | OpenLockFile | OpenDatabase | SetBusyTimeout | SetJournal | ReadVersion | CreateSchema | WriteVersion.

(** The outcome of each call on files and on the database, and the listener. *)
Class ProcessHost := {
  store_call : nat -> StoreCall -> FabricResult unit;
  bind_address : nat -> string -> option (option string)
}.

Definition SCHEMA_VERSION : Z := 1.

Section process.
Context `{Env, NodeRpc, NodeTexts, HexCodec, Sha256, ManifestCodec, PolicyCodec, ProcessHost}.

Definition in_world {A} (m : M World A) : M CoordinatorProcess A := fun p =>
  let '(o, w) := m (cp_world p) in (o, p <| cp_world := w |>).
Definition set_process (f : CoordinatorProcess -> CoordinatorProcess) : M CoordinatorProcess unit := fun p => (Done tt, f p).
Definition store_io (c : StoreCall) : M CoordinatorProcess unit := fun p => lift (store_call (wd_tick (cp_world p)) c) p.

(** [try_lock_exclusive]. *)
Definition try_lock : M CoordinatorProcess unit := fun p =>
  match cp_lock p with
  | Free => (Done tt, p <| cp_lock := Ours |>)
  | Ours | Theirs => (Raise (PersistenceError "coordinator data directory {} is already owned by another process: {e}"), p)
  end.

(** The database, once its lock is held; the schema creates the tables that are missing. *)
Definition open_database : M CoordinatorProcess unit :=
  store_io OpenDatabase ;;
  store_io SetBusyTimeout ;;
  store_io SetJournal ;;
  store_io ReadVersion ;;
  version ← (fun p => (Done (cp_version p), p));
  lift (reject_if (SCHEMA_VERSION <? version)
    (PersistenceError "database schema v{version} is newer than supported v{SCHEMA_VERSION}; refusing to open")) ;;
  (if version =? 0 then
     store_io CreateSchema ;;
     store_io WriteVersion ;;
     set_process (fun p => p <| cp_version := SCHEMA_VERSION |>)
   else mret tt).

(** The handle of the lock file is closed with the failed function. *)
Definition unlocking {A} (m : M CoordinatorProcess A) : M CoordinatorProcess A :=
  r ← attempt m;
  match r with
  | Ok a => mret a
  | Err e => set_process (fun p => p <| cp_lock := Free |>) ;; raise e
  end.

(** [Store::open]. *)
Definition store_open : M CoordinatorProcess unit :=
  store_io CreateDataDir ;;
  store_io OpenLockFile ;;
  try_lock ;;
  unlocking open_database.

(** [Coordinator::open]; the store is closed with it when it fails. *)
Definition process_open (config : CoordinatorConfig) (failpoints : option string) : M CoordinatorProcess CoordinatorInner :=
  (match failpoints with
   | Some fp => in_world (fun w => (Done tt, mkWorld (wd_store w) (wd_tick w) (arm_from_spec fp (wd_armed w))))
   | None => mret tt
   end) ;;
  store_open ;;
  unlocking (in_world (open_coordinator config)).

(** [Coordinator::start_server]. *)
Definition start_server (listen : option string) (inner : CoordinatorInner) : M CoordinatorProcess (option string) :=
  addr ← lift (ok_or listen (InvalidArgument "no listen address configured"));
  bound ← (fun p => match bind_address (wd_tick (cp_world p)) addr with
                    | Some b => (Done b, p)
                    | None => (Raise (TransportError "bind {addr}: {e}"), p)
                    end);
  set_process (fun p => p <| cp_inner := Some inner |> <| cp_server := Listening bound |>) ;;
  mret bound.

(** [start_monitor]: the thread, for [rounds] rounds at most. *)
Fixpoint monitor_thread (inner : CoordinatorInner) (rounds : nat) (tick : Z) : M CoordinatorProcess unit :=
  match rounds with
  | O => mret tt
  | S rounds' => fun p =>
      if cp_stop p then (Done tt, p) else
      let tick := tick + 1 in
      ((if negb (tick mod 8 =? 0) then mret tt else in_world (monitor_pass inner)) ;;
       monitor_thread inner rounds' tick) p
  end.

(** [request_stop], [is_running], [listen_addr], [shutdown]. *)
Definition request_stop : M CoordinatorProcess unit := set_process (fun p => p <| cp_stop := true |>).
Definition is_running (p : CoordinatorProcess) : bool := negb (cp_stop p).
Definition listen_addr (p : CoordinatorProcess) : option string :=
  match cp_server p with Listening addr => addr | _ => None end.
Definition process_shutdown (p : CoordinatorProcess) : CoordinatorProcess :=
  p <| cp_stop := true |> <| cp_server := match cp_server p with NoServer => NoServer | _ => ShutDown end |>.

(** The requests of the server: one that asks for a shutdown raises the stop flag. *)
Definition process_request (fuel : nat) (request : Request) : M CoordinatorProcess Reply := fun p =>
  match cp_inner p with
  | None => (Raise (Internal "coordinator has shut down"), p)
  | Some inner =>
      (reply ← in_world (dispatch inner fuel request);
       (match reply with RShutdown _ => request_stop | _ => mret tt end) ;;
       mret reply) p
  end.

(** The process of [coordinator start]; [during] is what its threads do while it sleeps. *)
Definition coordinator_daemon (handler : bool) (during : CoordinatorProcess -> CoordinatorProcess)
    : Daemon CoordinatorLaunch CoordinatorProcess := {|
  dm_start := fun launch =>
    inner ← process_open (cl_config launch) (cl_failpoints launch);
    _ ← unlocking (start_server (Some (cl_listen launch)) inner);
    mret "coordinator listening on {addr} (epoch {})";
  dm_set_handler := fun p => (handler, p);
  dm_stop := cp_stop;
  dm_sleep := during;
  dm_shutdown := process_shutdown |}.
End process.

(** * Lemmas *)

Section process_facts.
Context `{Env, NodeRpc, NodeTexts, HexCodec, Sha256, ManifestCodec, PolicyCodec, ProcessHost}.
Implicit Types p : CoordinatorProcess.

(** The tables and the version are those of [p], and the lock is [l]. *)
Definition same_database (l : LockState) p p' : Prop :=
  wd_store (cp_world p') = wd_store (cp_world p) /\ cp_version p' = cp_version p /\ cp_lock p' = l.

Lemma store_io_spec c p : exists o, store_io c p = (o, p) /\ (o = Done tt \/ exists e, o = Raise e).
Proof. unfold store_io, lift. destruct (store_call _ c) as [[] | e]; eexists; split; eauto. Qed.

(** What opening the database does to the process, when it holds the lock. *)
Lemma open_database_spec p :
  0 <= cp_version p ->
  let '(o, p') := open_database p in
  wd_store (cp_world p') = wd_store (cp_world p) /\ cp_lock p' = cp_lock p /\
  match o with
  | Done _ => cp_version p' = SCHEMA_VERSION
  | Raise _ => cp_version p' = cp_version p
  | Crash => False
  end /\ (SCHEMA_VERSION < cp_version p -> exists e, o = Raise e).
Proof.
  intros Hv. unfold open_database, mbind, M_bind.
  destruct (store_io_spec OpenDatabase p) as (o1 & -> & [-> | (e & ->)]); [| by eauto 6].
  destruct (store_io_spec SetBusyTimeout p) as (o2 & -> & [-> | (e & ->)]); [| by eauto 6].
  destruct (store_io_spec SetJournal p) as (o3 & -> & [-> | (e & ->)]); [| by eauto 6].
  destruct (store_io_spec ReadVersion p) as (o4 & -> & [-> | (e & ->)]); [| by eauto 6].
  unfold lift, reject_if. destruct (Z.ltb_spec SCHEMA_VERSION (cp_version p)) as [Hn | Hn]; [by eauto 6 |].
  destruct (Z.eqb_spec (cp_version p) 0) as [Hz | Hz].
  - destruct (store_io_spec CreateSchema p) as (o5 & -> & [-> | (e & ->)]); [| split_and!; eauto; lia].
    destruct (store_io_spec WriteVersion p) as (o6 & -> & [-> | (e & ->)]); [| split_and!; eauto; lia].
    cbn. split_and!; try done. lia.
  - cbn. split_and!; try done; [| lia]. unfold SCHEMA_VERSION in *. lia.
Qed.

Lemma unlocking_spec {A} (m : M CoordinatorProcess A) p :
  unlocking m p = match m p with
                  | (Done a, p') => (Done a, p')
                  | (Raise e, p') => (Raise e, p' <| cp_lock := Free |>)
                  | (Crash, p') => (Crash, p')
                  end.
Proof. unfold unlocking, mbind, M_bind, attempt. by destruct (m p) as [[a | e |] p']. Qed.

Lemma store_open_spec p :
  0 <= cp_version p ->
  let '(o, p') := store_open p in
  wd_store (cp_world p') = wd_store (cp_world p) /\
  match o with
  | Done _ => cp_lock p = Free /\ cp_lock p' = Ours /\ cp_version p' = SCHEMA_VERSION /\ cp_version p <= SCHEMA_VERSION
  | Raise _ => cp_lock p' = cp_lock p /\ cp_version p' = cp_version p
  | Crash => False
  end.
Proof.
  intros Hv. unfold store_open, mbind, M_bind.
  destruct (store_io_spec CreateDataDir p) as (o1 & -> & [-> | (e & ->)]); [| done].
  destruct (store_io_spec OpenLockFile p) as (o2 & -> & [-> | (e & ->)]); [| done].
  unfold try_lock. destruct (cp_lock p) eqn:Hl; [| done..].
  rewrite unlocking_spec.
  match goal with |- context [open_database ?q] => pose proof (open_database_spec q Hv) as Hd; destruct (open_database q) as [[[] | e |] p'] end;
    destruct Hd as (Hs & Hlk & Ho & Hn); [| by split_and! | by destruct Ho].
  cbn in *. split_and!; try done. destruct (Z.le_gt_cases (cp_version p) SCHEMA_VERSION) as [| Hgt]; [done |].
  by destruct (Hn Hgt).
Qed.

(** * Properties *)

(** C24 (safety). One coordinator per data directory.  An opening of the coordinator
    that finds the lock file owned (by another process, or by this one), or a database of
    a newer schema than it knows, fails and leaves the tables and their version as they
    are; one that succeeds has found the lock free, holds it, and has a database of the
    current schema; and one that fails leaves the lock as it found it. *)
Theorem process_open_spec config failpoints p :
  0 <= cp_version p ->
  let '(o, p') := process_open config failpoints p in
  (cp_lock p <> Free \/ SCHEMA_VERSION < cp_version p ->
     (exists e, o = Raise e) /\ same_database (cp_lock p) p p') /\
  (forall inner, o = Done inner -> cp_lock p = Free /\ cp_lock p' = Ours /\ cp_version p' = SCHEMA_VERSION) /\
  (forall e, o = Raise e -> cp_lock p' = cp_lock p).
Proof.
  intros Hv. unfold process_open, mbind, M_bind.
  match goal with |- context [match ?m p with _ => _ end] => set (arming := m) end.
  assert (Ha : exists p1, arming p = (Done tt, p1) /\ same_database (cp_lock p) p p1).
  { unfold arming. destruct failpoints as [fp |]; eexists; (split; [reflexivity |]); by destruct p as [[] ? ? ? ? ?]. }
  destruct Ha as (p1 & -> & Hs1 & Hv1 & Hl1). cbv iota beta.
  pose proof (store_open_spec p1 ltac:(by rewrite Hv1)) as Ho.
  destruct (store_open p1) as [[[] | e |] p2]; destruct Ho as (Hs2 & Ho); [| | by destruct Ho].
  - destruct Ho as (Hf & Hours & Hver & Hle). rewrite Hl1 in Hf. rewrite unlocking_spec. unfold in_world.
    destruct (open_coordinator config (cp_world p2)) as [[inner | e |] w]; cbn; (split; [intros [? | ?]; [congruence | rewrite Hv1 in Hle; lia] |]);
      split; intros ? ?; simplify_eq/=; auto.
  - destruct Ho as (Hl2 & Hv2). split_and!; [| done | intros; congruence].
    intros _. split; [by eexists |]. split_and!; congruence.
Qed.
End process_facts.

(** ** A data directory that is opened twice *)

#[local] Existing Instances still_env obedient_nodes scenario_texts hex_codec fixed_policy_codec plain_sha256 attempt_codec.

Definition calm_host : ProcessHost := {| store_call := fun _ _ => Ok tt; bind_address := fun _ addr => Some (Some addr) |}.
#[local] Existing Instance calm_host.

Definition new_directory : CoordinatorProcess := mkCoordinatorProcess (scenario_world empty_store) 0 Free None NoServer false.
Definition default_config : CoordinatorConfig := mkCoordinatorConfig None DEFAULT_STALE_MS None.

Lemma first_open : exists inner, (process_open default_config (Some "capture.persist:2") new_directory).1 = Done inner.
Proof. eexists. vm_compute. reflexivity. Qed.

Example process_open_spec_witness :
  exists inner p', process_open default_config (Some "capture.persist:2") new_directory = (Done inner, p') /\
    cp_lock p' = Ours /\ exists e, (process_open default_config None p').1 = Raise e.
Proof.
  destruct first_open as (inner & Hi).
  pose proof (process_open_spec default_config (Some "capture.persist:2") new_directory ltac:(by cbn)) as Hs.
  destruct (process_open _ _ new_directory) as [o p']. cbn [fst] in Hi. destruct Hs as (_ & Hs & _).
  destruct (Hs inner Hi) as (_ & Hlock & Hver). exists inner, p'. split; [by rewrite Hi |]. split; [exact Hlock |].
  pose proof (process_open_spec default_config None p' ltac:(by rewrite Hver)) as Hs2.
  destruct (process_open default_config None p') as [o2 p2]. destruct Hs2 as (Hs2 & _).
  destruct (Hs2 ltac:(left; by rewrite Hlock)) as ((e & He) & _). exists e. exact He.
Defined.
