(* ===== verification/Wire.v ===== *)
(** The servers of the coordinator and of a node on bytes, and the command line over the
    network: the composition of [Cli], [Network], [Transport], [Payload] and
    [CoordinatorProcess] (the handlers of [start_server] in [src/src/coordinator.rs] and of
    [NodeRuntime::start] in [src/src/node.rs]; [run_impl] of [src/src/cli_impl.rs]). *)
From S2P Require Import Prelude Errors Ident Lifecycle Checkpoint Workload Compression Policy Compat.
From S2P Require Import Capture Json Restore Lineage Failpoints Tables Persist Schema World Manifest Messages Recovery.
From S2P Require Import Coordinator Maintenance Dispatch Scenario.
From S2P Require Import Frame Fs Storage Providers Node Transport Network Payload NodeStart Cli CliFacts CoordinatorProcess.
From Stdlib Require Import Strings.Byte.

(** * Definitions *)

(** The handler of the coordinator's server: [dispatch] while the coordinator lives. *)
Definition coordinator_handler `{Env, NodeRpc, NodeTexts, HexCodec, Sha256, ManifestCodec, PolicyCodec, EnvelopeCodec, RequestSerde, ReplySerde}
    (fuel : nat) (op : Op.Op) (request_id : Z) (payload : list byte) : M CoordinatorProcess (list byte) := fun p =>
  match cp_inner p with
  | None => (Raise (Internal "coordinator has shut down"), p)
  | Some _ =>
      (request ← lift (decode_request op payload);
       reply ← process_request fuel request;
       mret (encode_reply op reply)) p
  end.

(** The handler of a node's server: an error is answered by its envelope. *)
Section node.
Context {App : Type} `{DiskEnv, Crc32c, Sha256, HexCodec, Zstd, ManifestCodec, NodeTexts, PeerRpc, NodeSerde, EnvelopeCodec}.
Context (self : NodeRuntime).

Definition node_bytes_handler (op : Op.Op) (request_id : Z) (payload : list byte) : M (@NodeWorld App) (list byte) :=
  resp ← attempt (request ← lift (decode_node_request op payload);
                  reply ← node_dispatch self request;
                  mret (encode_node_reply reply));
  mret (match resp with Ok bytes => bytes | Err e => envelope_to_vec (envelope_err (display e)) end).

(** A payload that decodes to [q] is handled as [q]. *)
Lemma node_bytes_handler_request op id payload q w :
  decode_node_request op payload = Ok q ->
  node_bytes_handler op id payload w = (reply ← node_handler self q; mret (encode_node_reply reply)) w.
Proof.
  intros Hq. unfold node_bytes_handler, node_handler, mbind, M_bind, attempt, lift. rewrite Hq. cbn -[node_dispatch].
  by destruct (node_dispatch self q w) as [[reply | e |] w'].
Qed.
End node.

Section wire.
Context `{Env, NodeRpc, NodeTexts, HexCodec, Sha256, ManifestCodec, PolicyCodec, CliHost}.
Context `{EnvelopeCodec, RequestSerde, ReplySerde, Crc32c, Network}.
Context (fuel : nat).

(** The coordinator at the other end of the network; a command makes one connection, and
    one call on it. *)
#[local] Instance network_link : CoordinatorLink CoordinatorProcess := {|
  link_connect := fun addr p =>
    (if nt_connects (wd_tick (cp_world p)) addr then Ok tt else Err (TransportError "connect {addr}: {e}"), p);
  link_call := fun op payload p => exchange (coordinator_handler fuel) (wd_tick (cp_world p)) op payload p |}.

Context (coordinators : Daemon CoordinatorLaunch CoordinatorProcess) (nodes : Daemon NodeConfig CoordinatorProcess) (polls : nat).

(** * Lemmas *)

(** A payload that decodes to [q] is handled as [q]. *)
Lemma coordinator_handler_request op id payload q p :
  decode_request op payload = Ok q ->
  coordinator_handler fuel op id payload p =
    let '(o, p') := process_request fuel q p in
    (match o with Done reply => Done (encode_reply op reply) | Raise e => Raise e | Crash => Crash end, p').
Proof.
  intros Hq. unfold coordinator_handler, process_request. destruct (cp_inner p) as [inner |] eqn:Hi; [| done].
  unfold mbind, M_bind, lift. rewrite Hq. cbn -[dispatch]. rewrite Hi. unfold in_world.
  destruct (dispatch inner fuel q (cp_world p)) as [[reply | e |] w']; [| done..]. by destruct reply.
Qed.

(** A result that is an error is not read as a success, except by who does not read it. *)
Lemma error_read `{!EnvelopeLaws _, !ReplySerdeLaws _ _} json how e :
  (exists word, how = Unread word) \/ (read_reply json how (envelope_to_vec (envelope_err (display e)))).1 = 1.
Proof.
  assert (He : error_of (envelope_to_vec (envelope_err (display e))) = Some (envelope_err (display e))).
  { unfold error_of. by rewrite envelope_from_to by (cbn; lia). }
  destruct how as [| | | word | word]; [right..| left; by eexists]; unfold read_reply.
  - rewrite He. by destruct json.
  - by rewrite created_no_envelope.
  - by rewrite forked_no_envelope.
  - by rewrite He.
Qed.

(** * Properties *)

(** C27 (safety). A command is executed at most once, and one that reports a success
    exactly once.  Over any network, against a coordinator that may stop at any point: a
    command with malformed arguments changes nothing; any other either leaves the
    coordinator as it was and exits with 1, or has its request executed by the coordinator
    once; and when it exits with 0, that execution returned a reply, the command has
    printed that reply, and the reply is not an error.  (Of the stop of the coordinator
    the reply is not read.)  When the network loses nothing and the payloads fit a frame,
    the command ends with the reply of its request. *)
Theorem command_executed_at_most_once `{!Crc32cLaws _, !Tcp _, !RequestSerdeLaws _, !EnvelopeLaws _, !ReplySerdeLaws _ _} cli c p :
  call_of (cli_command cli) = Some c ->
  (forall op x, c = inr (op, x) -> payload_typed x) ->
  let how := reading_of (cli_command cli) in
  let '(code, r) := main coordinators nodes polls cli p in
  ((rn_world r = p /\ code = Some 1) \/
   exists op x q o, c = inr (op, x) /\ request_of (cli_command cli) = Some (inr q) /\
     process_request fuel q p = (o, rn_world r) /\
     (code = Some 0 ->
        match o with
        | Done reply => read_reply (cli_json cli) how (encode_reply op reply) = (0, rn_lines r)
        | Raise _ => exists word, how = Unread word
        | Crash => False
        end)) /\
  (Reliable _ -> forall op x q reply p', c = inr (op, x) -> request_of (cli_command cli) = Some (inr q) ->
     is_Some (parse_socket_addr (cli_coordinator cli)) -> process_request fuel q p = (Done reply, p') ->
     len (payload_bytes x) <= MAX_FRAME_PAYLOAD -> len (encode_reply op reply) <= MAX_FRAME_PAYLOAD ->
     rn_world r = p' /\ let '(k, lines) := read_reply (cli_json cli) how (encode_reply op reply) in
     code = Some k /\ rn_lines r = lines).
Proof.
  intros Hc Ht how. rewrite (main_is_client coordinators nodes polls cli c p Hc).
  pose proof (call_decodes (cli_command cli) _ Hc) as Hq. unfold client.
  destruct (parse_socket_addr (cli_coordinator cli)) as [addr |].
  2: { split; [by left |]. intros ? ? ? ? ? ? ? ? [? ?]. done. }
  cbn [link_connect network_link]. destruct (nt_connects _ addr) eqn:Hconn.
  2: { split; [by destruct c as [message | [op x]]; left |]. intros HR. by rewrite reliable_connects in Hconn. }
  destruct c as [message | [op x]]; [split; [by left | by intros ? ? ? ? ? ? [=]] |].
  destruct Hq as (q & Hq & Hdec). specialize (Hdec (Ht op x eq_refl)). cbn [link_call].
  set (t := wd_tick (cp_world p)). set (ex := exchange (coordinator_handler fuel) t op (payload_bytes x) p).
  assert (Honce : let '(r, s') := ex in (s' = p /\ exists e, r = Err e) \/
    exists o, coordinator_handler fuel op 1 (payload_bytes x) p = (o, s') /\
      forall bytes, r = Ok bytes -> exists y, result_of o = Some y /\ bytes = answer_payload y) by exact (exchange_once (coordinator_handler fuel) t op (payload_bytes x) p).
  rewrite (coordinator_handler_request op 1 (payload_bytes x) q p Hdec) in Honce.
  change (link_call op (payload_bytes x) p) with ex.
  destruct ex as [r p1] eqn:Ex.
  set (k := match r with Err e => complain (display e) | Ok reply => read_reply (cli_json cli) how reply end).
  match goal with |- let '(code, r) := ?m in _ => replace m with (ended (W := CoordinatorProcess) [] k p1) by (unfold k; by destruct r) end.
  unfold ended. cbn [app rn_world rn_lines]. split.
  - destruct Honce as [[-> (e & ->)] | (o' & Ho & Hans)]; [by left |]. right.
    destruct (process_request fuel q p) as [o p2] eqn:Ep. injection Ho as <- ->. exists op, x, q, o.
    do 3 (split; [done |]). intros [= Hcode].
    destruct r as [bytes | e]; [| done]. destruct (Hans bytes eq_refl) as (y & Hy & ->).
    destruct o as [reply | e |]; cbn in Hy; [| | done]; injection Hy as <-; cbn [answer_payload] in k.
    + fold k. destruct k as [code lines]. cbn in *. congruence.
    + destruct (error_read (cli_json cli) how e) as [Hw | Hread]; [done |]. fold k in Hread. congruence.
  - intros HR op' x' q' reply p' [= <- <-] Hq' _ Hp Hf Hfa. rewrite Hq in Hq'. injection Hq' as <-.
    pose proof (exchange_reliable (coordinator_handler fuel) t op (payload_bytes x) p Hf) as Hrel.
    rewrite (coordinator_handler_request op 1 (payload_bytes x) q p Hdec), Hp in Hrel. cbn in Hrel.
    specialize (Hrel ltac:(intros y [= <-]; exact Hfa)). unfold ex in Ex. rewrite Hrel in Ex. injection Ex as <- <-.
    split; [done |]. cbn [answer_payload] in k. fold k. by destruct k.
Qed.
End wire.

(** ** A command that is executed, with its answer and without *)

#[local] Existing Instances still_env obedient_nodes scenario_texts hex_codec fixed_policy_codec plain_sha256 attempt_codec
  short_envelopes id_requests terse_replies a_cli_host castagnoli castagnoli_laws.

Definition listening (s : Store) : CoordinatorProcess :=
  mkCoordinatorProcess (scenario_world s) 1 Ours (Some scenario_coordinator) (Listening None) false.

Definition protect_first : Cli := mkCli "127.0.0.1:7901" false (protect_command first_checkpoint).

(** The command over a network. *)
Notation protected_over network :=
  (main (H := network_link (H11 := network) 2) idle_daemon idle_daemon 1 protect_first (listening captured_store)).

Definition protection_after (r : Run CoordinatorProcess) : option ProtectionState :=
  protection_in (wd_store (cp_world (rn_world r))) (id_splat Byte.x01).

Lemma unprotected_before : protection_in captured_store (id_splat Byte.x01) = Some Unprotected.
Proof. vm_compute. reflexivity. Qed.

Lemma protected_with_answer : (protected_over perfect_network).1 = Some 0.
Proof. vm_compute. reflexivity. Qed.

Lemma protected_without_answer :
  (protected_over answer_lost).1 = Some 1 /\ protection_after (protected_over answer_lost).2 = Some Protected.
Proof. vm_compute. by split. Qed.

Example command_executed_at_most_once_witness :
  rn_lines (protected_over perfect_network).2 = [Printed "protected"] /\
  exists q o, process_request 2 q (listening captured_store) = (o, rn_world (protected_over perfect_network).2).
Proof.
  pose proof (command_executed_at_most_once (H11 := perfect_network) 2 idle_daemon idle_daemon 1 protect_first
    (protect_call first_checkpoint) (listening captured_store) eq_refl) as Hx.
  cbv zeta in Hx. pose proof protected_with_answer as Hcode. destruct (protected_over perfect_network) as [code r].
  cbn [fst snd] in *. subst code.
  destruct Hx as [[[_ Hx] | (op & x & q & o & Hc & Hq & Hp & Hread)] _].
  - intros op x [= <- <-]. reflexivity.
  - discriminate Hx.
  - split; [| by exists q, o]. specialize (Hread eq_refl). destruct o as [reply | e |]; [| destruct Hread; discriminate | destruct Hread].
    cbn [protect_first cli_json cli_command reading_of protect_command read_reply] in Hread.
    destruct (error_of (encode_reply op reply)); [discriminate Hread |]. injection Hread as <-. reflexivity.
Defined.
